(** * VirtualTaj: BSP compiler, GLD meshes and collision detection

    A shallow embedding of the core of [bspc.c], [gld.c] and [coldet.c],
    and of the [main] of [gld2bsp.c] that joins them, together with the
    properties established about it.

    Conventions of the embedding.
    - Fixed-width unsigned integers ([Uint8], [Uint16], [Uint32],
      [unsigned int]) are values of [Z]; every arithmetic operation of the
      source is followed by the reduction modulo [2^w] that C performs.
    - [GLfloat] and [GLdouble] are IEEE 754 binary32 / binary64 values kept
      as their bit patterns.  Arithmetic decodes the pattern, applies the
      correctly rounded operation of [SpecFloat] (round to nearest even,
      no excess precision, no contraction) and encodes the result.  A value
      that is only stored, copied or written to a file keeps its pattern.
    - A [FILE*] opened for reading is the list of bytes not yet consumed;
      [fread] past the end leaves the destination untouched, so for
      a destination that was never initialised the bytes come from an
      arbitrary source of indeterminate values.
    - [exit(EXIT_FAILURE)] and accesses outside an allocation are outcomes of
      their own; [malloc]/[realloc] are taken to succeed.
    - The sources are read with [BSPC_DEBUG], [GLD_DEBUG] and [VTAJ_DEBUG]
      undefined (the release build). *)

From Stdlib Require Import ZArith List Bool Lia.
From Stdlib Require Import Floats.SpecFloat.
From coqutil Require Import Byte Word.LittleEndianList.
From stdpp Require Import base option list.
Import ListNotations.
Open Scope Z_scope.

(** ** Outcomes of a call *)

Inductive outcome (A : Type) : Type :=
| Done (a : A)   (* the call returns [a] *)
| Exit           (* the call ends the process with [exit(EXIT_FAILURE)] *)
| Undefined      (* the call reads or writes outside an allocation *)
| OutOfFuel.     (* the recursion budget of the embedding is exhausted *)
Arguments Done {A} a.
Arguments Exit {A}.
Arguments Undefined {A}.
Arguments OutOfFuel {A}.

#[global] Instance outcome_ret : MRet outcome := @Done.
#[global] Instance outcome_bind : MBind outcome := fun A B f m =>
  match m with
  | Done a => f a
  | Exit => Exit
  | Undefined => Undefined
  | OutOfFuel => OutOfFuel
  end.

(** ** Machine integers *)

Definition to_Uint8 (z : Z) : Z := z mod 2 ^ 8.
Definition to_Uint16 (z : Z) : Z := z mod 2 ^ 16.
Definition to_Uint32 (z : Z) : Z := z mod 2 ^ 32.

(** Conversion of an [unsigned int] to [int] (two's complement). *)
Definition to_int (z : Z) : Z :=
  let u := to_Uint32 z in if u <? 2 ^ 31 then u else u - 2 ^ 32.

Definition UINT_MAX : Z := 2 ^ 32 - 1.

(** Array cells.  [a[i]] for reading and [a[i] = v] for writing; both are
    undefined outside the allocation. *)
Definition load {A} (a : list A) (i : Z) : outcome A :=
  if i <? 0 then Undefined
  else match a !! Z.to_nat i with
       | Some v => Done v
       | None => Undefined
       end.

Definition store {A} (a : list A) (i : Z) (v : A) : outcome (list A) :=
  if (0 <=? i) && (i <? Z.of_nat (length a))
  then Done (<[Z.to_nat i := v]> a)
  else Undefined.

(** A fresh allocation of [n] cells; its contents are indeterminate and
    given by [junk]. *)
Definition malloc {A} (junk : nat -> A) (n : Z) : list A :=
  map junk (seq 0 (Z.to_nat n)).

(** [realloc] to [n] cells keeps the common prefix; cells gained are
    indeterminate. *)
Definition realloc {A} (junk : nat -> A) (a : list A) (n : Z) : list A :=
  take (Z.to_nat n) a ++ map junk (seq (length a) (Z.to_nat n - length a)).

(** ** IEEE 754 binary formats *)

Module IEEE.
Section Format.
Variables prec emax : Z.

Definition mant_bits : Z := prec - 1.
Definition exp_ones : Z := 2 * emax - 1.
Definition bias : Z := emax - 1.
Definition sign_weight : Z := 2 ^ mant_bits * (2 * emax).

Definition decode (w : Z) : spec_float :=
  let frac := w mod 2 ^ mant_bits in
  let ex := (w / 2 ^ mant_bits) mod (2 * emax) in
  let s := Z.odd (w / sign_weight) in
  if ex =? 0 then
    match frac with
    | Zpos m => S754_finite s m (emin prec emax)
    | _ => S754_zero s
    end
  else if ex =? exp_ones then
    if frac =? 0 then S754_infinity s else S754_nan
  else
    match frac + 2 ^ mant_bits with
    | Zpos m => S754_finite s m (ex - bias - mant_bits)
    | _ => S754_nan
    end.

Definition sign_bit (s : bool) : Z := if s then sign_weight else 0.

(** A NaN produced by an operation is encoded as the positive quiet NaN
    with an empty payload. *)
Definition encode (x : spec_float) : Z :=
  match x with
  | S754_zero s => sign_bit s
  | S754_infinity s => sign_bit s + exp_ones * 2 ^ mant_bits
  | S754_nan => exp_ones * 2 ^ mant_bits + 2 ^ (mant_bits - 1)
  | S754_finite s m e =>
      if Zpos (digits2_pos m) =? prec
      then sign_bit s + (e + bias + mant_bits) * 2 ^ mant_bits
           + (Zpos m - 2 ^ mant_bits)
      else sign_bit s + Zpos m
  end.

(** Rounding of a value of any format to this one. *)
Definition round (x : spec_float) : spec_float :=
  match x with
  | S754_finite s m e => binary_round prec emax s m e
  | _ => x
  end.

Definition is_nan (w : Z) : bool :=
  match decode w with S754_nan => true | _ => false end.

Definition add (a b : Z) : Z := encode (SFadd prec emax (decode a) (decode b)).
Definition sub (a b : Z) : Z := encode (SFsub prec emax (decode a) (decode b)).
Definition mul (a b : Z) : Z := encode (SFmul prec emax (decode a) (decode b)).
Definition div (a b : Z) : Z := encode (SFdiv prec emax (decode a) (decode b)).
Definition sqrt (a : Z) : Z := encode (SFsqrt prec emax (decode a)).
Definition abs (a : Z) : Z := encode (SFabs (decode a)).
Definition ltb (a b : Z) : bool := SFltb (decode a) (decode b).
Definition leb (a b : Z) : bool := SFleb (decode a) (decode b).
Definition gtb (a b : Z) : bool := ltb b a.
Definition geb (a b : Z) : bool := leb b a.
End Format.
End IEEE.

(** [GLfloat] and [GLdouble] values are bit patterns. *)
Abbreviation GLfloat := Z (only parsing).
Abbreviation GLdouble := Z (only parsing).

Module F32.
Definition decode := IEEE.decode 24 128.
Definition encode := IEEE.encode 24 128.
Definition add := IEEE.add 24 128.
Definition sub := IEEE.sub 24 128.
Definition mul := IEEE.mul 24 128.
Definition div := IEEE.div 24 128.
Definition ltb := IEEE.ltb 24 128.
Definition leb := IEEE.leb 24 128.
Definition gtb := IEEE.gtb 24 128.
Definition geb := IEEE.geb 24 128.
Definition is_nan := IEEE.is_nan 24 128.
End F32.

Module F64.
Definition decode := IEEE.decode 53 1024.
Definition encode := IEEE.encode 53 1024.
Definition add := IEEE.add 53 1024.
Definition sub := IEEE.sub 53 1024.
Definition mul := IEEE.mul 53 1024.
Definition div := IEEE.div 53 1024.
Definition sqrt := IEEE.sqrt 53 1024.
Definition fabs := IEEE.abs 53 1024.
Definition ltb := IEEE.ltb 53 1024.
Definition leb := IEEE.leb 53 1024.
Definition gtb := IEEE.gtb 53 1024.
Definition geb := IEEE.geb 53 1024.
Definition is_nan := IEEE.is_nan 53 1024.
End F64.

(** The casts [(GLdouble)x] (exact) and [(GLfloat)d] (rounding). *)
Definition to_double (x : GLfloat) : GLdouble :=
  F64.encode (IEEE.round 53 1024 (F32.decode x)).
Definition to_float (d : GLdouble) : GLfloat :=
  F32.encode (IEEE.round 24 128 (F64.decode d)).

(** Constants of [<float.h>] and literals of the sources. *)
Definition FLT_MAX : GLfloat := 0x7F7FFFFF.
Definition FLT_MIN : GLfloat := 0x00800000.
Definition FLT_EPSILON : GLfloat := 0x34000000.
Definition DBL_MAX : GLdouble := 0x7FEFFFFFFFFFFFFF.
Definition DBL_EPSILON : GLdouble := 0x3CB0000000000000.
Definition f_zero : GLfloat := 0.                  (* 0.0f *)
Definition f_one : GLfloat := 0x3F800000.          (* 1.0f *)
Definition d_zero : GLdouble := 0.                 (* 0.0 *)
Definition d_two : GLdouble := 0x4000000000000000. (* 2.0 *)
Definition d_minus_one : GLdouble := 0xBFF0000000000000. (* -1.0 *)

(** [fabs(a - b) <= eps] for [GLfloat] operands [a], [b] and a [GLfloat]
    constant [eps]: the difference is taken in single precision and the
    comparison in double precision. *)
Definition within (eps a b : GLfloat) : bool :=
  F64.leb (F64.fabs (to_double (F32.sub a b))) (to_double eps).

(** ** Bytes and streams *)

Definition Uint8_bytes : Z -> list byte := le_split 1.
Definition Uint16_bytes : Z -> list byte := le_split 2.
Definition Uint32_bytes : Z -> list byte := le_split 4.
Definition GLfloat_bytes : GLfloat -> list byte := le_split 4.
Definition GLdouble_bytes : GLdouble -> list byte := le_split 8.

(** A stream open for reading: the bytes still to be read, and the
    indeterminate bytes that destinations of short reads are found to hold
    ([fresh] counts the ones handed out so far). *)
Record FILE : Type := mkFILE {
  pending : list byte;
  junk : nat -> byte;
  fresh : nat
}.

(** [fread] of [n] bytes into an uninitialised destination. *)
Definition fread (n : nat) (f : FILE) : list byte * FILE :=
  let got := take n (pending f) in
  let rest := map (fun i => junk f (fresh f + i)%nat)
                  (seq (length got) (n - length got)) in
  (got ++ rest,
   {| pending := drop n (pending f); junk := junk f; fresh := (fresh f + n)%nat |}).

(** [fread] of [n] bytes into a destination holding [old]. *)
Definition fread_into (old : list byte) (n : nat) (f : FILE) : list byte * FILE :=
  let got := take n (pending f) in
  (got ++ drop (length got) (take n old),
   {| pending := drop n (pending f); junk := junk f; fresh := fresh f |}).

Definition fread_int (n : nat) (f : FILE) : Z * FILE :=
  let '(bs, f') := fread n f in (le_combine bs, f').

Fixpoint fread_ints (count : nat) (n : nat) (f : FILE) : list Z * FILE :=
  match count with
  | O => ([], f)
  | S c =>
      let '(x, f1) := fread_int n f in
      let '(xs, f2) := fread_ints c n f1 in
      (x :: xs, f2)
  end.

(** A C string (the bytes before the terminating NUL) as it is written by
    [fwrite(s, 1, strlen(s) + 1, f)]. *)
Definition cstring_bytes (s : list byte) : list byte := s ++ [Byte.x00].

(** [strcmp(a, b) == 0] on two character arrays; running off either array
    before a NUL or a difference is met is undefined. *)
Fixpoint strcmp_eq (a b : list byte) : outcome bool :=
  match a, b with
  | x :: a', y :: b' =>
      if Byte.eqb x y
      then if Byte.eqb x Byte.x00 then Done true else strcmp_eq a' b'
      else Done false
  | _, _ => Undefined
  end.

(** The loop
    [do { j++; fread(&name[j], 1, 1, f); } while (name[j] != 0 && j < 255);]
    followed by [name[255] = 0] and [strlen(name)].  [left] is [255 - j]. *)
Fixpoint fread_name (left : nat) (f : FILE) : list byte * FILE :=
  let '(c, f1) := fread 1 f in
  match c with
  | [ch] =>
      if Byte.eqb ch Byte.x00 then ([], f1)
      else match left with
           | O => ([], f1)
           | S l => let '(cs, f2) := fread_name l f1 in (ch :: cs, f2)
           end
  | _ => ([], f1)
  end.

Fixpoint fread_names (count : nat) (f : FILE) : list (list byte) * FILE :=
  match count with
  | O => ([], f)
  | S c =>
      let '(s, f1) := fread_name 255 f in
      let '(ss, f2) := fread_names c f1 in
      (s :: ss, f2)
  end.

(** [fwrite(a, size, n, f)]: the first [n] cells of [a]; undefined when the
    allocation holds fewer. *)
Definition cells {A} (a : list A) (n : Z) : outcome (list A) :=
  if Z.of_nat (length a) <? n then Undefined else Done (take (Z.to_nat n) a).

Definition fwrite {A} (enc : A -> list byte) (a : list A) (n : Z)
  : outcome (list byte) :=
  xs ← cells a n; mret (concat (map enc xs)).

(** ** GLD.C: texture-grouped indexed meshes *)

Module Gld.

Definition GLD_FILE_MAGIC : list byte := [Byte.x47; Byte.x4c; Byte.x44].
Definition GLD_VER : Z := 0x10.

(** [0.0011276372445F] and [0.00390625F]. *)
Definition GLD_VERT_ORD_EPSILON : GLfloat := 0x3A93CD3A.
Definition GLD_TEX_ORD_EPSILON : GLfloat := 0x3B800000.

Record GLData : Type := mkGLData {
  nMaps : Z;
  mapNames : list (list byte);
  mapTriNums : list Z;
  nVertices : Z;
  vertCoords : list GLfloat;
  texCoords : list GLfloat;
  minX : GLfloat; maxX : GLfloat;
  minY : GLfloat; maxY : GLfloat;
  minZ : GLfloat; maxZ : GLfloat;
  numTri : Z;
  triFaces : list (list Z)
}.

(** The vertex definitions under construction: [retVal->nVertices],
    the two coordinate tables and the model bounds. *)
Record VertTab : Type := mkVertTab {
  vt_n : Z;
  vt_vert : list GLfloat;
  vt_tex : list GLfloat;
  vt_minX : GLfloat; vt_maxX : GLfloat;
  vt_minY : GLfloat; vt_maxY : GLfloat;
  vt_minZ : GLfloat; vt_maxZ : GLfloat
}.

(** The faces under construction: [mapTriNums], [triFaces], [numTri] and
    the local flag [skippedTris]. *)
Record FaceTab : Type := mkFaceTab {
  ft_nums : list Z;
  ft_faces : list (list Z);
  ft_numTri : Z;
  ft_skipped : bool
}.

Definition fmin (v cur : GLfloat) : GLfloat := if F32.ltb v cur then v else cur.
Definition fmax (v cur : GLfloat) : GLfloat := if F32.gtb v cur then v else cur.

(** The test of the folding loop on definition [k], evaluated left to
    right with the short circuit of [&&]. *)
Definition matches (vc tc : list GLfloat) (k : Z)
  (V : GLfloat * GLfloat * GLfloat) (T : GLfloat * GLfloat) : outcome bool :=
  let '(V0, V1, V2) := V in
  let '(T0, T1) := T in
  x ← load vc (3 * k + 0);
  if negb (within GLD_VERT_ORD_EPSILON x V0) then mret false else
  y ← load vc (3 * k + 1);
  if negb (within GLD_VERT_ORD_EPSILON y V1) then mret false else
  z ← load vc (3 * k + 2);
  if negb (within GLD_VERT_ORD_EPSILON z V2) then mret false else
  u ← load tc (2 * k + 0);
  if negb (within GLD_TEX_ORD_EPSILON u T0) then mret false else
  v ← load tc (2 * k + 1);
  mret (within GLD_TEX_ORD_EPSILON v T1).

(** [for (k = 0U; k < retVal->nVertices; k++) if (...) break;]
    started at [k] with [todo] definitions still to be looked at; the
    result is the value of [k] after the loop. *)
Fixpoint find_vertex (todo : nat) (k : Z) (vc tc : list GLfloat)
  (V : GLfloat * GLfloat * GLfloat) (T : GLfloat * GLfloat) : outcome Z :=
  match todo with
  | O => Done k
  | S todo' =>
      m ← matches vc tc k V T;
      if m : bool then mret k else find_vertex todo' (k + 1) vc tc V T
  end.

(** The body of the loop over [j]: the index of the definition used for
    the vertex, and the table afterwards. *)
Definition fold_vertex (t : VertTab)
  (V : GLfloat * GLfloat * GLfloat) (T : GLfloat * GLfloat)
  : outcome (Z * VertTab) :=
  k ← find_vertex (Z.to_nat (vt_n t)) 0 (vt_vert t) (vt_tex t) V T;
  if k <? vt_n t then mret (to_Uint16 k, t)
  else
    let '(V0, V1, V2) := V in
    let '(T0, T1) := T in
    vc ← store (vt_vert t) (3 * k + 0) V0;
    vc ← store vc (3 * k + 1) V1;
    vc ← store vc (3 * k + 2) V2;
    tc ← store (vt_tex t) (2 * k + 0) T0;
    tc ← store tc (2 * k + 1) T1;
    mret (to_Uint16 k,
          {| vt_n := to_Uint16 (vt_n t + 1);
             vt_vert := vc; vt_tex := tc;
             vt_minX := fmin V0 (vt_minX t); vt_maxX := fmax V0 (vt_maxX t);
             vt_minY := fmin V1 (vt_minY t); vt_maxY := fmax V1 (vt_maxY t);
             vt_minZ := fmin V2 (vt_minZ t); vt_maxZ := fmax V2 (vt_maxZ t) |}).

(** Vertex [j] of triangle [i] in the caller's arrays. *)
Definition input_vertex (triVerts triTexCoords : list GLfloat) (i j : Z)
  : outcome ((GLfloat * GLfloat * GLfloat) * (GLfloat * GLfloat)) :=
  V0 ← load triVerts (to_Uint32 (9 * i + 3 * j + 0));
  V1 ← load triVerts (to_Uint32 (9 * i + 3 * j + 1));
  V2 ← load triVerts (to_Uint32 (9 * i + 3 * j + 2));
  T0 ← load triTexCoords (to_Uint32 (6 * i + 2 * j + 0));
  T1 ← load triTexCoords (to_Uint32 (6 * i + 2 * j + 1));
  mret ((V0, V1, V2), (T0, T1)).

(** [retVal->triFaces[tIndex][c] = v]. *)
Definition store_face (faces : list (list Z)) (tIndex c v : Z)
  : outcome (list (list Z)) :=
  row ← load faces tIndex;
  row' ← store row c v;
  store faces tIndex row'.

(** The body of the loop over the triangles. *)
Definition add_triangle (texIndices : list Z) (triVerts triTexCoords : list GLfloat)
  (i : Z) (s : VertTab * FaceTab) : outcome (VertTab * FaceTab) :=
  let '(t, ft) := s in
  tIndex ← load texIndices i;
  '(V, T) ← input_vertex triVerts triTexCoords i 0;
  '(v0, t) ← fold_vertex t V T;
  '(V, T) ← input_vertex triVerts triTexCoords i 1;
  '(v1, t) ← fold_vertex t V T;
  '(V, T) ← input_vertex triVerts triTexCoords i 2;
  '(v2, t) ← fold_vertex t V T;
  if (v0 =? v1) || (v1 =? v2) || (v2 =? v0)
  then mret (t, {| ft_nums := ft_nums ft; ft_faces := ft_faces ft;
                   ft_numTri := ft_numTri ft; ft_skipped := true |})
  else
    n ← load (ft_nums ft) tIndex;
    let idx := to_Uint16 n in
    faces ← store_face (ft_faces ft) tIndex (3 * idx + 0) v0;
    faces ← store_face faces tIndex (3 * idx + 1) v1;
    faces ← store_face faces tIndex (3 * idx + 2) v2;
    nums ← store (ft_nums ft) tIndex (to_Uint32 (n + 1));
    mret (t, {| ft_nums := nums; ft_faces := faces;
                ft_numTri := to_Uint32 (ft_numTri ft + 1);
                ft_skipped := ft_skipped ft |}).

Fixpoint add_triangles (todo : nat) (i : Z) (texIndices : list Z)
  (triVerts triTexCoords : list GLfloat) (s : VertTab * FaceTab)
  : outcome (VertTab * FaceTab) :=
  match todo with
  | O => Done s
  | S todo' =>
      s' ← add_triangle texIndices triVerts triTexCoords i s;
      add_triangles todo' (i + 1) texIndices triVerts triTexCoords s'
  end.

(** The first loop: triangles per texture, or [None] at the first texture
    index that is out of bounds. *)
Fixpoint count_triangles (todo : nat) (i : Z) (nMaps : Z) (texIndices : list Z)
  (nums : list Z) : outcome (option (list Z)) :=
  match todo with
  | O => Done (Some nums)
  | S todo' =>
      tIndex ← load texIndices i;
      if tIndex >=? nMaps then mret None
      else
        n ← load nums tIndex;
        nums' ← store nums tIndex (to_Uint32 (n + 1));
        count_triangles todo' (i + 1) nMaps texIndices nums'
  end.

(** The second loop: the names are copied and one index array per texture
    is allocated, [heap (2 + i)] being what its cells happen to hold. *)
Fixpoint init_maps (heap : nat -> nat -> Z) (todo : nat) (i : Z)
  (texMapNames : list (list byte)) (nums : list Z)
  : outcome (list (list byte) * list (list Z)) :=
  match todo with
  | O => Done ([], [])
  | S todo' =>
      name ← load texMapNames i;
      n ← load nums i;
      let row := malloc (fun c => to_Uint16 (heap (2 + Z.to_nat i)%nat c))
                        (to_Uint32 (3 * n)) in
      '(names, rows) ← init_maps heap todo' (i + 1) texMapNames nums;
      mret (name :: names, row :: rows)
  end.

(** The adjustment of the index arrays when triangles were skipped. *)
Definition trim_faces (heap : nat -> nat -> Z) (nums : list Z)
  (faces : list (list Z)) : list (list Z) :=
  imap (fun i row =>
          let n := default 0 (nums !! i) in
          if n =? 0 then []
          else realloc (fun c => to_Uint16 (heap (2 + i)%nat c)) row
                       (to_Uint32 (3 * n)))
       faces.

Definition GenGLData (heap : nat -> nat -> Z)
  (nTri : Z)
  (triVerts : option (list GLfloat))
  (texIndices : option (list Z))
  (triTexCoords : option (list GLfloat))
  (nMaps : Z) (texMapNames : option (list (list byte)))
  : outcome (option GLData) :=
  match triVerts, texIndices, triTexCoords, texMapNames with
  | Some triVerts, Some texIndices, Some triTexCoords, Some texMapNames =>
      if (nTri =? 0) || (nMaps =? 0) then mret None
      else
        counted ← count_triangles (Z.to_nat nTri) 0 nMaps texIndices
                    (replicate (Z.to_nat nMaps) 0);
        match counted with
        | None => mret None
        | Some nums =>
            '(names, rows) ← init_maps heap (Z.to_nat nMaps) 0 texMapNames nums;
            let t0 :=
              {| vt_n := 0;
                 vt_vert := malloc (fun c => to_Uint32 (heap 0%nat c))
                                   (to_Uint32 (3 * 3 * nTri));
                 vt_tex := malloc (fun c => to_Uint32 (heap 1%nat c))
                                  (to_Uint32 (2 * 3 * nTri));
                 vt_minX := FLT_MAX; vt_maxX := FLT_MIN;
                 vt_minY := FLT_MAX; vt_maxY := FLT_MIN;
                 vt_minZ := FLT_MAX; vt_maxZ := FLT_MIN |} in
            let ft0 :=
              {| ft_nums := replicate (Z.to_nat nMaps) 0;
                 ft_faces := rows; ft_numTri := 0; ft_skipped := false |} in
            '(t, ft) ← add_triangles (Z.to_nat nTri) 0 texIndices
                         triVerts triTexCoords (t0, ft0);
            let trimmed := 0 <? vt_n t in
            mret (Some
              {| nMaps := nMaps;
                 mapNames := names;
                 mapTriNums := ft_nums ft;
                 nVertices := vt_n t;
                 vertCoords :=
                   if trimmed
                   then realloc (fun c => to_Uint32 (heap 0%nat c))
                                (vt_vert t) (3 * vt_n t)
                   else vt_vert t;
                 texCoords :=
                   if trimmed
                   then realloc (fun c => to_Uint32 (heap 1%nat c))
                                (vt_tex t) (2 * vt_n t)
                   else vt_tex t;
                 minX := vt_minX t; maxX := vt_maxX t;
                 minY := vt_minY t; maxY := vt_maxY t;
                 minZ := vt_minZ t; maxZ := vt_maxZ t;
                 numTri := ft_numTri ft;
                 triFaces :=
                   if trimmed && ft_skipped ft
                   then trim_faces heap (ft_nums ft) (ft_faces ft)
                   else ft_faces ft |})
        end
  | _, _, _, _ => mret None
  end.

(** The loop of [SaveGLData] over the index arrays, from texture [i]. *)
Fixpoint write_faces (nums : list Z) (faces : list (list Z)) (todo : nat) (i : Z)
  : outcome (list byte) :=
  match todo with
  | O => Done []
  | S todo' =>
      row ← load faces i;
      n ← load nums i;
      bs ← fwrite Uint16_bytes row (to_Uint32 (3 * n));
      rest ← write_faces nums faces todo' (i + 1);
      mret (bs ++ rest)
  end.

(** [SaveGLData]: the bytes written to [outFile]. *)
Definition SaveGLData (glData : option GLData) : outcome (list byte) :=
  match glData with
  | None => Done []
  | Some g =>
      names ← cells (mapNames g) (nMaps g);
      nums ← fwrite Uint32_bytes (mapTriNums g) (nMaps g);
      vc ← fwrite GLfloat_bytes (vertCoords g) (3 * nVertices g);
      tc ← fwrite GLfloat_bytes (texCoords g) (2 * nVertices g);
      faces ← write_faces (mapTriNums g) (triFaces g) (Z.to_nat (nMaps g)) 0;
      mret (cstring_bytes GLD_FILE_MAGIC ++ Uint8_bytes GLD_VER
            ++ Uint16_bytes (nMaps g)
            ++ concat (map cstring_bytes names)
            ++ nums
            ++ Uint16_bytes (nVertices g)
            ++ vc ++ tc
            ++ GLfloat_bytes (minX g) ++ GLfloat_bytes (maxX g)
            ++ GLfloat_bytes (minY g) ++ GLfloat_bytes (maxY g)
            ++ GLfloat_bytes (minZ g) ++ GLfloat_bytes (maxZ g)
            ++ Uint32_bytes (numTri g)
            ++ faces)
  end.

(** The loop of [LoadGLData] that reads the index arrays. *)
Fixpoint fread_faces (nums : list Z) (f : FILE) : list (list Z) * FILE :=
  match nums with
  | [] => ([], f)
  | n :: nums' =>
      let '(row, f1) := fread_ints (Z.to_nat (to_Uint32 (3 * n))) 2 f in
      let '(rows, f2) := fread_faces nums' f1 in
      (row :: rows, f2)
  end.

(** [LoadGLData]: [Done None] is the [NULL] result. *)
Definition LoadGLData (inFile : FILE) : outcome (option GLData) :=
  let '(savedSig, f) := fread 4 inFile in
  let '(glDataVer, f) := fread_into [Byte.x00] 1 f in
  same ← strcmp_eq (cstring_bytes GLD_FILE_MAGIC) savedSig;
  if same && (le_combine glDataVer =? GLD_VER) then
    let '(nMaps, f) := fread_int 2 f in
    let '(names, f) := fread_names (Z.to_nat nMaps) f in
    let '(nums, f) := fread_ints (Z.to_nat nMaps) 4 f in
    let '(nVertices, f) := fread_int 2 f in
    let '(vc, f) := fread_ints (Z.to_nat (3 * nVertices)) 4 f in
    let '(tc, f) := fread_ints (Z.to_nat (2 * nVertices)) 4 f in
    let '(minX, f) := fread_int 4 f in
    let '(maxX, f) := fread_int 4 f in
    let '(minY, f) := fread_int 4 f in
    let '(maxY, f) := fread_int 4 f in
    let '(minZ, f) := fread_int 4 f in
    let '(maxZ, f) := fread_int 4 f in
    let '(numTri, f) := fread_int 4 f in
    let '(faces, f) := fread_faces nums f in
    mret (Some
      {| nMaps := nMaps; mapNames := names; mapTriNums := nums;
         nVertices := nVertices; vertCoords := vc; texCoords := tc;
         minX := minX; maxX := maxX; minY := minY; maxY := maxY;
         minZ := minZ; maxZ := maxZ;
         numTri := numTri; triFaces := faces |})
  else mret None.

End Gld.

(** ** BSPC.C: the BSP tree compiler *)

Module Bsp.

Definition BSP_FILE_MAGIC : list byte := [Byte.x42; Byte.x53; Byte.x50].
Definition BSP_DATA_VER : Z := 0x10.

(** [0.0011276372445F] and [0.00390625F]. *)
Definition BSP_VERT_ORD_EPSILON : GLfloat := 0x3A93CD3A.
Definition BSP_TEX_ORD_EPSILON : GLfloat := 0x3B800000.

Definition DEFS_BLK_SIZE : Z := 200.

(** [0.0005]. *)
Definition PLANE_THICKNESS : GLdouble := 0x3F40624DD2F1A9FC.

Inductive PointType : Type := BELOW_PLANE | ON_PLANE | ABOVE_PLANE.

Inductive TriType : Type := IN_BACK | SPANNING | COINCIDENT | IN_FRONT.

Record BSPPlane : Type := mkBSPPlane {
  A : GLdouble; B : GLdouble; C : GLdouble; D : GLdouble
}.

Definition Vec3 : Type := GLfloat * GLfloat * GLfloat.
Definition Vec2 : Type := GLfloat * GLfloat.

(** [GLfloat V[3][3]] and [GLfloat T[3][2]] with their row selectors. *)
Definition Verts : Type := Vec3 * Vec3 * Vec3.
Definition TexCoords : Type := Vec2 * Vec2 * Vec2.

Definition row {X} (m : X * X * X) (i : nat) : X :=
  let '(r0, r1, r2) := m in
  match i with O => r0 | S O => r1 | _ => r2 end.

(** A node of a working list; [prev] and [next] are the list structure. *)
Record BSPTriNode : Type := mkBSPTriNode {
  V : Verts;
  plane : BSPPlane;
  tIndex : Z;
  T : TexCoords
}.

(** A node of the tree under construction; a null pointer is
    [NULL_node]. *)
Inductive IntBSPTreeNode : Type :=
| NULL_node
| mkIntBSPTreeNode (partition : BSPPlane) (numTri : Z)
    (triHead : list BSPTriNode) (back front : IntBSPTreeNode).

Record BSPTriFace : Type := mkBSPTriFace {
  texIndex : Z;
  vIndices : Z * Z * Z
}.

(** A node of the compiled tree; a null pointer is [NULL_tree].
    [triDefs] lists the initialised cells of the array. *)
Inductive BSPTree : Type :=
| NULL_tree
| mkBSPTree (numTri : Z) (triDefs : list BSPTriFace) (partPlane : BSPPlane)
    (back front : BSPTree).

Record BSPTreeData : Type := mkBSPTreeData {
  nMaps : Z;
  mapNames : list (list byte);
  mapTriNums : list Z;
  nVertices : Z;
  vertCoords : list GLfloat;
  texCoords : list GLfloat;
  minX : GLfloat; maxX : GLfloat;
  minY : GLfloat; maxY : GLfloat;
  minZ : GLfloat; maxZ : GLfloat;
  maxDepth : Z;
  numNodes : Z;
  numTri : Z;
  bspTree : BSPTree
}.

(** *** The geometry kernel *)

(** [GetPlaneForTri]: [Some p] for the result 0 with [*planePtr = p],
    [None] for the result -1 (the plane is then left untouched). *)
Definition GetPlaneForTri (V : Verts) : option BSPPlane :=
  let '((V00, V01, V02), (V10, V11, V12), (V20, V21, V22)) := V in
  let AB0 := F64.sub (to_double V10) (to_double V00) in
  let AB1 := F64.sub (to_double V11) (to_double V01) in
  let AB2 := F64.sub (to_double V12) (to_double V02) in
  let AC0 := F64.sub (to_double V20) (to_double V00) in
  let AC1 := F64.sub (to_double V21) (to_double V01) in
  let AC2 := F64.sub (to_double V22) (to_double V02) in
  let N0 := F64.sub (F64.mul AB1 AC2) (F64.mul AB2 AC1) in
  let N1 := F64.sub (F64.mul AB2 AC0) (F64.mul AB0 AC2) in
  let N2 := F64.sub (F64.mul AB0 AC1) (F64.mul AB1 AC0) in
  let normMag :=
    F64.sqrt (F64.add (F64.add (F64.add d_zero (F64.mul N0 N0))
                               (F64.mul N1 N1))
                      (F64.mul N2 N2)) in
  if F64.gtb normMag DBL_EPSILON then
    let N0 := F64.div N0 normMag in
    let N1 := F64.div N1 normMag in
    let N2 := F64.div N2 normMag in
    Some {| A := N0; B := N1; C := N2;
            D := F64.sub (F64.sub (F64.sub d_zero
                                     (F64.mul N0 (to_double V00)))
                                  (F64.mul N1 (to_double V01)))
                         (F64.mul N2 (to_double V02)) |}
  else None.

Definition ClassifyPoint (aPt : Vec3) (partPlane : BSPPlane) : PointType :=
  let '(x, y, z) := aPt in
  let vDist :=
    F64.add (F64.add (F64.add (F64.mul (A partPlane) (to_double x))
                              (F64.mul (B partPlane) (to_double y)))
                     (F64.mul (C partPlane) (to_double z)))
            (D partPlane) in
  if F64.leb (F64.fabs vDist) PLANE_THICKNESS then ON_PLANE
  else if F64.gtb vDist PLANE_THICKNESS then ABOVE_PLANE
  else BELOW_PLANE.

(** The three counters of [ClassifyTri] after the loop:
    [(vOnPlane, vAbove, vBelow)]. *)
Definition count_vertex (ty : PointType) (c : Z * Z * Z) : Z * Z * Z :=
  let '(vOnPlane, vAbove, vBelow) := c in
  match ty with
  | ON_PLANE => (to_Uint32 (vOnPlane + 1), vAbove, vBelow)
  | ABOVE_PLANE => (vOnPlane, to_Uint32 (vAbove + 1), vBelow)
  | BELOW_PLANE => (vOnPlane, vAbove, to_Uint32 (vBelow + 1))
  end.

Definition ClassifyTri (aTri : BSPTriNode) (partPlane : BSPPlane) : TriType :=
  let c := count_vertex (ClassifyPoint (row (V aTri) 0) partPlane) (0, 0, 0) in
  let c := count_vertex (ClassifyPoint (row (V aTri) 1) partPlane) c in
  let '(vOnPlane, vAbove, vBelow) :=
    count_vertex (ClassifyPoint (row (V aTri) 2) partPlane) c in
  if vOnPlane =? 3 then COINCIDENT
  else if to_Uint32 (vAbove + vOnPlane) =? 3 then IN_FRONT
  else if to_Uint32 (vBelow + vOnPlane) =? 3 then IN_BACK
  else SPANNING.

(** [IntersectPlaneLineSeg]: the returned [t] and the contents of [res]
    afterwards, [res0] being what [res] held before the call. *)
Definition IntersectPlaneLineSeg (p : BSPPlane) (v0 v1 : Vec3) (res0 : Vec3)
  : GLdouble * Vec3 :=
  let '(v00, v01, v02) := v0 in
  let '(v10, v11, v12) := v1 in
  let lSeg0 := F64.sub (to_double v10) (to_double v00) in
  let lSeg1 := F64.sub (to_double v11) (to_double v01) in
  let lSeg2 := F64.sub (to_double v12) (to_double v02) in
  let denom :=
    F64.add (F64.add (F64.mul (A p) lSeg0) (F64.mul (B p) lSeg1))
            (F64.mul (C p) lSeg2) in
  let epsilon :=
    F64.fabs (F64.div (F64.mul (F64.add (A p) (to_double v12)) DBL_EPSILON)
                      d_two) in
  if F64.gtb (F64.fabs denom) epsilon then
    let numer :=
      F64.add (F64.add (F64.add (F64.mul (A p) (to_double v00))
                                (F64.mul (B p) (to_double v01)))
                       (F64.mul (C p) (to_double v02)))
              (D p) in
    let numer := F64.mul numer d_minus_one in
    let t := F64.div numer denom in
    (t, (to_float (F64.add (to_double v00) (F64.mul t lSeg0)),
         to_float (F64.add (to_double v01) (F64.mul t lSeg1)),
         to_float (F64.add (to_double v02) (F64.mul t lSeg2))))
  else (DBL_MAX, res0).

(** *** Working lists *)

(** [AddTriToList]: the node becomes the head. *)
Definition AddTriToList (lst : list BSPTriNode) (node : BSPTriNode)
  : list BSPTriNode := node :: lst.

(** [RemoveTriFromList] for the node at position [k] of the list. *)
Definition RemoveTriFromList (listHead : list BSPTriNode) (k : nat)
  : list BSPTriNode := delete k listHead.

(** *** SplitTri *)

(** The vertex rings: the cells of [frontVerts]/[frontTexCoords] and of
    [backVerts]/[backTexCoords] written so far; [numFrontVerts] and
    [numBackVerts] are the lengths. *)
Record Rings : Type := mkRings {
  frontRing : list (Vec3 * Vec2);
  backRing : list (Vec3 * Vec2)
}.

Definition numFrontVerts (r : Rings) : Z := Z.of_nat (length (frontRing r)).
Definition numBackVerts (r : Rings) : Z := Z.of_nat (length (backRing r)).

(** A write to cell [num] of a ring of four cells. *)
Definition push (ring : list (Vec3 * Vec2)) (x : Vec3 * Vec2)
  : outcome (list (Vec3 * Vec2)) :=
  if Z.of_nat (length ring) <? 4 then Done (ring ++ [x]) else Undefined.

Definition put_vertex (ty : PointType) (x : Vec3 * Vec2) (r : Rings)
  : outcome Rings :=
  match ty with
  | ABOVE_PLANE =>
      fr ← push (frontRing r) x;
      mret {| frontRing := fr; backRing := backRing r |}
  | BELOW_PLANE =>
      bk ← push (backRing r) x;
      mret {| frontRing := frontRing r; backRing := bk |}
  | ON_PLANE =>
      fr ← push (frontRing r) x;
      bk ← push (backRing r) x;
      mret {| frontRing := fr; backRing := bk |}
  end.

Definition crosses (a b : PointType) : bool :=
  match a, b with
  | ABOVE_PLANE, BELOW_PLANE | BELOW_PLANE, ABOVE_PLANE => true
  | _, _ => false
  end.

(** The point where the edge from vertex [i] to vertex [next1] meets the
    plane, with its interpolated texture coordinates.  [uninit k] is what
    [backVerts[k]] holds before anything is written to it. *)
Definition edge_point (uninit : nat -> Vec3) (aTri : BSPTriNode)
  (partnPlane : BSPPlane) (i next1 : nat) (r : Rings) : Vec3 * Vec2 :=
  let '(t, P) :=
    IntersectPlaneLineSeg partnPlane (row (V aTri) i) (row (V aTri) next1)
                          (uninit (length (backRing r))) in
  let '(Ti0, Ti1) := row (T aTri) i in
  let '(Tn0, Tn1) := row (T aTri) next1 in
  let tcDiff0 := F64.sub (to_double Tn0) (to_double Ti0) in
  let tcDiff1 := F64.sub (to_double Tn1) (to_double Ti1) in
  (P, (to_float (F64.add (to_double Ti0) (F64.mul t tcDiff0)),
       to_float (F64.add (to_double Ti1) (F64.mul t tcDiff1)))).

(** One round of the loop over the vertices. *)
Definition walk_vertex (uninit : nat -> Vec3) (aTri : BSPTriNode)
  (partnPlane : BSPPlane) (vertTypes : PointType * PointType * PointType)
  (i : nat) (r : Rings) : outcome Rings :=
  r ← put_vertex (row vertTypes i) (row (V aTri) i, row (T aTri) i) r;
  let next1 := ((i + 1) mod 3)%nat in
  if crosses (row vertTypes i) (row vertTypes next1) then
    let x := edge_point uninit aTri partnPlane i next1 r in
    bk ← push (backRing r) x;
    fr ← push (frontRing r) x;
    mret {| frontRing := fr; backRing := bk |}
  else mret r.

(** The rings after the traversal of the triangle. *)
Definition walk (uninit : nat -> Vec3) (aTri : BSPTriNode)
  (partnPlane : BSPPlane) : outcome Rings :=
  let vertTypes :=
    (ClassifyPoint (row (V aTri) 0) partnPlane,
     ClassifyPoint (row (V aTri) 1) partnPlane,
     ClassifyPoint (row (V aTri) 2) partnPlane) in
  r ← walk_vertex uninit aTri partnPlane vertTypes 0
        {| frontRing := []; backRing := [] |};
  r ← walk_vertex uninit aTri partnPlane vertTypes 1 r;
  walk_vertex uninit aTri partnPlane vertTypes 2 r.

(** The triangle made of the cells [a], [b], [c] of a ring, when it has
    a plane. *)
Definition ring_tri (ring : list (Vec3 * Vec2)) (tIndex : Z) (a b c : nat)
  : outcome (option BSPTriNode) :=
  xa ← load ring (Z.of_nat a);
  xb ← load ring (Z.of_nat b);
  xc ← load ring (Z.of_nat c);
  let vs := (fst xa, fst xb, fst xc) in
  mret (match GetPlaneForTri vs with
        | Some p => Some {| V := vs; plane := p; tIndex := tIndex;
                            T := (snd xa, snd xb, snd xc) |}
        | None => None
        end).

(** The list built from one ring: the triangle of the cells 0, 1, 2 and,
    for a ring of four, the triangle of the cells 2, 3, 0 in front of it. *)
Definition ring_list (ring : list (Vec3 * Vec2)) (tIndex : Z)
  : outcome (list BSPTriNode) :=
  first ← ring_tri ring tIndex 0 1 2;
  let l := match first with Some n => [n] | None => [] end in
  if Z.of_nat (length ring) =? 4 then
    tmpTri ← ring_tri ring tIndex 2 3 0;
    mret (match tmpTri with
          | Some n => AddTriToList l n
          | None => l
          end)
  else mret l.

(** [SplitTri]: the lists [( *fList, *bList )]. *)
Definition SplitTri (uninit : nat -> Vec3) (aTri : BSPTriNode)
  (partnPlane : BSPPlane) : outcome (list BSPTriNode * list BSPTriNode) :=
  r ← walk uninit aTri partnPlane;
  if (numBackVerts r <? 3) || (numFrontVerts r <? 3) then Exit
  else if (4 <? numBackVerts r) || (4 <? numFrontVerts r) then Exit
  else
    fList ← ring_list (frontRing r) (tIndex aTri);
    bList ← ring_list (backRing r) (tIndex aTri);
    mret (fList, bList).

(** *** SelectNextRoot *)

(** The counters [(splits, inFront, inBack, onPlane)] of the inner loop,
    [k] being the position of the test node and [curr] the position of the
    candidate. *)
Fixpoint count_against (pl : BSPPlane) (curr : nat) (k : nat)
  (tests : list BSPTriNode) (c : Z * Z * Z * Z) : Z * Z * Z * Z :=
  match tests with
  | [] => c
  | testNode :: rest =>
      let '(splits, inFront, inBack, onPlane) := c in
      let c' :=
        if Nat.eqb k curr then c
        else match ClassifyTri testNode pl with
             | SPANNING => (to_Uint32 (splits + 1), inFront, inBack, onPlane)
             | IN_FRONT => (splits, to_Uint32 (inFront + 1), inBack, onPlane)
             | IN_BACK => (splits, inFront, to_Uint32 (inBack + 1), onPlane)
             | COINCIDENT => (splits, inFront, inBack, to_Uint32 (onPlane + 1))
             end in
      count_against pl curr (S k) rest c'
  end.

(** [splits + (unsigned int)( abs( inFront - inBack))]. *)
Definition score (triList : list BSPTriNode) (curr : nat) (currNode : BSPTriNode)
  : Z :=
  let '(splits, inFront, inBack, onPlane) :=
    count_against (plane currNode) curr 0 triList (0, 0, 0, 0) in
  to_Uint32 (splits + to_Uint32 (Z.abs (to_int (to_Uint32 (inFront - inBack))))).

(** The outer loop from the candidate at position [curr] on: the position
    of [bestNode] ([None] for [NULL]). *)
Fixpoint scan (triList : list BSPTriNode) (cands : list BSPTriNode)
  (curr : nat) (minScore : Z) (bestNode : option nat) : option nat :=
  match cands with
  | [] => bestNode
  | currNode :: rest =>
      let sc := score triList curr currNode in
      let '(minScore', bestNode') :=
        if sc <? minScore then (sc, Some curr) else (minScore, bestNode) in
      if sc =? 0 then bestNode'
      else scan triList rest (S curr) minScore' bestNode'
  end.

(** [SelectNextRoot]: [( *rootPtr, retVal )]. *)
Definition SelectNextRoot (triList : list BSPTriNode)
  : option BSPTriNode * list BSPTriNode :=
  match scan triList triList 0 UINT_MAX None with
  | Some k => (triList !! k, RemoveTriFromList triList k)
  | None => (None, triList)
  end.

(** *** The shared vertex definitions *)

(** A block of the chain: the [nDefs] initialised cells of [V] and [T]. *)
Definition VertDefs : Type := list (Vec3 * Vec2).

(** The file-scope variables used while a tree is converted. *)
Record Globals : Type := mkGlobals {
  numVertDefs : Z;
  vertDefsPtr : list VertDefs;
  texCtrs : list Z;
  g_minX : GLfloat; g_maxX : GLfloat;
  g_minY : GLfloat; g_maxY : GLfloat;
  g_minZ : GLfloat; g_maxZ : GLfloat;
  trianglesCreated : Z
}.

Definition fmin (v cur : GLfloat) : GLfloat := if F32.ltb v cur then v else cur.
Definition fmax (v cur : GLfloat) : GLfloat := if F32.gtb v cur then v else cur.

(** The test of [GetVertDefIndex] on one definition. *)
Definition matches (d : Vec3 * Vec2) (v : Vec3) (t : Vec2) : bool :=
  let '((d0, d1, d2), (e0, e1)) := d in
  let '(v0, v1, v2) := v in
  let '(t0, t1) := t in
  within BSP_VERT_ORD_EPSILON d0 v0 &&
  within BSP_VERT_ORD_EPSILON d1 v1 &&
  within BSP_VERT_ORD_EPSILON d2 v2 &&
  within BSP_TEX_ORD_EPSILON e0 t0 &&
  within BSP_TEX_ORD_EPSILON e1 t1.

(** The [for] loop over one block: the matching definition, if any, and
    [retVal] afterwards. *)
Fixpoint search_block (blk : VertDefs) (retVal : Z) (v : Vec3) (t : Vec2)
  : option Vec3 * Z :=
  match blk with
  | [] => (None, retVal)
  | d :: rest =>
      if matches d v t then (Some (fst d), retVal)
      else search_block rest (to_Uint16 (retVal + 1)) v t
  end.

(** The [while] loop over the chain and the allocation that follows it:
    [retVal], [resV], the chain afterwards and whether a definition was
    added. *)
Fixpoint search_chain (chain : list VertDefs) (retVal : Z) (v : Vec3) (t : Vec2)
  : Z * Vec3 * list VertDefs * bool :=
  match chain with
  | [] => (retVal, v, [[(v, t)]], true)
  | currPtr :: next =>
      match search_block currPtr retVal v t with
      | (Some resV, retVal') => (retVal', resV, chain, false)
      | (None, retVal') =>
          if Z.of_nat (length currPtr) <? DEFS_BLK_SIZE
          then (retVal', v, (currPtr ++ [(v, t)]) :: next, true)
          else
            let '(r, resV, next', added) := search_chain next retVal' v t in
            (r, resV, currPtr :: next', added)
      end
  end.

(** [GetVertDefIndex]: the index, [resV] and the variables afterwards. *)
Definition GetVertDefIndex (v : Vec3) (t : Vec2) (g : Globals)
  : Z * Vec3 * Globals :=
  let '(retVal, resV, chain, added) := search_chain (vertDefsPtr g) 0 v t in
  if added : bool then
    let '(v0, v1, v2) := v in
    (retVal, resV,
     {| numVertDefs := to_Uint16 (numVertDefs g + 1);
        vertDefsPtr := chain;
        texCtrs := texCtrs g;
        g_minX := fmin v0 (g_minX g); g_maxX := fmax v0 (g_maxX g);
        g_minY := fmin v1 (g_minY g); g_maxY := fmax v1 (g_maxY g);
        g_minZ := fmin v2 (g_minZ g); g_maxZ := fmax v2 (g_maxZ g);
        trianglesCreated := trianglesCreated g |})
  else (retVal, resV, g).

(** *** ConvIntBSPTree *)

(** What the loop over the coplanar triangles keeps up to date:
    [retVal->numTri], the cells [triDefs[0..i)] and [retVal->partPlane]. *)
Record ConvNode : Type := mkConvNode {
  cn_numTri : Z;
  cn_triDefs : list BSPTriFace;
  cn_partPlane : BSPPlane
}.

Definition set_texCtrs (g : Globals) (c : list Z) : Globals :=
  {| numVertDefs := numVertDefs g; vertDefsPtr := vertDefsPtr g;
     texCtrs := c;
     g_minX := g_minX g; g_maxX := g_maxX g;
     g_minY := g_minY g; g_maxY := g_maxY g;
     g_minZ := g_minZ g; g_maxZ := g_maxZ g;
     trianglesCreated := trianglesCreated g |}.

Definition set_trianglesCreated (g : Globals) (n : Z) : Globals :=
  {| numVertDefs := numVertDefs g; vertDefsPtr := vertDefsPtr g;
     texCtrs := texCtrs g;
     g_minX := g_minX g; g_maxX := g_maxX g;
     g_minY := g_minY g; g_maxY := g_maxY g;
     g_minZ := g_minZ g; g_maxZ := g_maxZ g;
     trianglesCreated := n |}.

(** The body of the loop for one triangle; [capacity] is the number of
    cells allocated for [triDefs]. *)
Definition conv_tri (capacity : Z) (tmpTri : BSPTriNode)
  (s : ConvNode * Globals) : outcome (ConvNode * Globals) :=
  let '(n, g) := s in
  let '(vInd0, resV0, g) := GetVertDefIndex (row (V tmpTri) 0) (row (T tmpTri) 0) g in
  let '(vInd1, resV1, g) := GetVertDefIndex (row (V tmpTri) 1) (row (T tmpTri) 1) g in
  let '(vInd2, resV2, g) := GetVertDefIndex (row (V tmpTri) 2) (row (T tmpTri) 2) g in
  let skip :=
    {| cn_numTri := to_Uint16 (cn_numTri n - 1);
       cn_triDefs := cn_triDefs n; cn_partPlane := cn_partPlane n |} in
  if (vInd0 =? vInd1) || (vInd1 =? vInd2) || (vInd2 =? vInd0)
  then mret (skip, g)
  else
    match GetPlaneForTri (resV0, resV1, resV2) with
    | None => mret (skip, g)
    | Some tmpPlane =>
        let i := Z.of_nat (length (cn_triDefs n)) in
        if capacity <=? i then Undefined
        else
          ctr ← load (texCtrs g) (tIndex tmpTri);
          ctrs ← store (texCtrs g) (tIndex tmpTri) (to_Uint32 (ctr + 1));
          mret ({| cn_numTri := cn_numTri n;
                   cn_triDefs :=
                     cn_triDefs n ++
                       [{| texIndex := tIndex tmpTri;
                           vIndices := (vInd0, vInd1, vInd2) |}];
                   cn_partPlane :=
                     if i =? 0 then tmpPlane else cn_partPlane n |},
                set_texCtrs g ctrs)
    end.

Fixpoint conv_tris (capacity : Z) (tris : list BSPTriNode)
  (s : ConvNode * Globals) : outcome (ConvNode * Globals) :=
  match tris with
  | [] => Done s
  | tmpTri :: next =>
      s' ← conv_tri capacity tmpTri s;
      conv_tris capacity next s'
  end.

(** The conversion of the node itself, before its children. *)
Definition conv_node (partition : BSPPlane) (numTri : Z)
  (triHead : list BSPTriNode) (g : Globals) : outcome (ConvNode * Globals) :=
  '(n, g) ← conv_tris numTri triHead
              ({| cn_numTri := numTri; cn_triDefs := [];
                  cn_partPlane := partition |}, g);
  let defs :=
    if cn_numTri n =? 0 then []
    else if cn_numTri n <? numTri
         then take (Z.to_nat (cn_numTri n)) (cn_triDefs n)
         else cn_triDefs n in
  mret ({| cn_numTri := cn_numTri n; cn_triDefs := defs;
           cn_partPlane := cn_partPlane n |},
        set_trianglesCreated g (to_Uint32 (trianglesCreated g + cn_numTri n))).

Fixpoint ConvIntBSPTree (intTree : IntBSPTreeNode) (g : Globals)
  : outcome (BSPTree * Globals) :=
  match intTree with
  | NULL_node => Undefined
  | mkIntBSPTreeNode partition numTri triHead back front =>
      '(n, g) ← conv_node partition numTri triHead g;
      '(b, g) ← match back with
                | NULL_node => mret (NULL_tree, g)
                | _ => ConvIntBSPTree back g
                end;
      '(f, g) ← match front with
                | NULL_node => mret (NULL_tree, g)
                | _ => ConvIntBSPTree front g
                end;
      mret (mkBSPTree (cn_numTri n) (cn_triDefs n) (cn_partPlane n) b f, g)
  end.

(** The variables as [GenBSPTreeData] sets them before the conversion. *)
Definition initial_globals (nMaps : Z) : Globals :=
  {| numVertDefs := 0; vertDefsPtr := [];
     texCtrs := replicate (Z.to_nat nMaps) 0;
     g_minX := FLT_MAX; g_maxX := FLT_MIN;
     g_minY := FLT_MAX; g_maxY := FLT_MIN;
     g_minZ := FLT_MAX; g_maxZ := FLT_MIN;
     trianglesCreated := 0 |}.

(** *** Saving and loading *)

Definition BSPPlane_bytes (p : BSPPlane) : list byte :=
  GLdouble_bytes (A p) ++ GLdouble_bytes (B p) ++
  GLdouble_bytes (C p) ++ GLdouble_bytes (D p).

Definition BSPTriFace_bytes (f : BSPTriFace) : list byte :=
  let '(i0, i1, i2) := vIndices f in
  Uint16_bytes (texIndex f) ++
  Uint16_bytes i0 ++ Uint16_bytes i1 ++ Uint16_bytes i2.

(** The value of [cFlag] for a node. *)
Definition cFlag_of (back front : BSPTree) : Z :=
  Z.lor (match back with NULL_tree => 0x00 | _ => 0xB0 end)
        (match front with NULL_tree => 0x00 | _ => 0x0F end).

(** [WriteBSPTree]: the bytes written to [outFile]. *)
Fixpoint WriteBSPTree (root : BSPTree) : outcome (list byte) :=
  match root with
  | NULL_tree => Done []
  | mkBSPTree numTri triDefs partPlane back front =>
      tris ← fwrite BSPTriFace_bytes triDefs numTri;
      b ← WriteBSPTree back;
      f ← WriteBSPTree front;
      mret (Uint16_bytes numTri
            ++ tris
            ++ (if numTri =? 0 then BSPPlane_bytes partPlane else [])
            ++ Uint8_bytes (cFlag_of back front)
            ++ b ++ f)
  end.

Definition SaveBSPTreeData (bspData : option BSPTreeData) : outcome (list byte) :=
  match bspData with
  | None => Done []
  | Some d =>
      names ← cells (mapNames d) (nMaps d);
      nums ← fwrite Uint32_bytes (mapTriNums d) (nMaps d);
      vc ← fwrite GLfloat_bytes (vertCoords d) (3 * nVertices d);
      tc ← fwrite GLfloat_bytes (texCoords d) (2 * nVertices d);
      tree ← WriteBSPTree (bspTree d);
      mret (cstring_bytes BSP_FILE_MAGIC ++ Uint8_bytes BSP_DATA_VER
            ++ Uint16_bytes (nMaps d)
            ++ concat (map cstring_bytes names)
            ++ nums
            ++ Uint16_bytes (nVertices d)
            ++ vc ++ tc
            ++ GLfloat_bytes (minX d) ++ GLfloat_bytes (maxX d)
            ++ GLfloat_bytes (minY d) ++ GLfloat_bytes (maxY d)
            ++ GLfloat_bytes (minZ d) ++ GLfloat_bytes (maxZ d)
            ++ Uint16_bytes (maxDepth d) ++ Uint16_bytes (numNodes d)
            ++ Uint32_bytes (numTri d)
            ++ tree)
  end.

Definition fread_plane (f : FILE) : BSPPlane * FILE :=
  let '(a, f) := fread_int 8 f in
  let '(b, f) := fread_int 8 f in
  let '(c, f) := fread_int 8 f in
  let '(d, f) := fread_int 8 f in
  ({| A := a; B := b; C := c; D := d |}, f).

Definition fread_face (f : FILE) : BSPTriFace * FILE :=
  let '(t, f) := fread_int 2 f in
  let '(i0, f) := fread_int 2 f in
  let '(i1, f) := fread_int 2 f in
  let '(i2, f) := fread_int 2 f in
  ({| texIndex := t; vIndices := (i0, i1, i2) |}, f).

Fixpoint fread_faces (count : nat) (f : FILE) : list BSPTriFace * FILE :=
  match count with
  | O => ([], f)
  | S c =>
      let '(x, f1) := fread_face f in
      let '(xs, f2) := fread_faces c f1 in
      (x :: xs, f2)
  end.

(** Vertex definition [ix] of the loaded table. *)
Definition vertex_def (vertCoords : list GLfloat) (ix : Z) : outcome Vec3 :=
  let vIndex := to_Uint32 (3 * ix) in
  x ← load vertCoords (vIndex + 0);
  y ← load vertCoords (vIndex + 1);
  z ← load vertCoords (vIndex + 2);
  mret (x, y, z).

(** The plane of a loaded node that has triangles: recomputed from the
    first of them; a degenerate triangle ends the process. *)
Definition recompute_plane (vertCoords : list GLfloat) (triDefs : list BSPTriFace)
  : outcome BSPPlane :=
  first ← load triDefs 0;
  let '(i0, i1, i2) := vIndices first in
  v0 ← vertex_def vertCoords i0;
  v1 ← vertex_def vertCoords i1;
  v2 ← vertex_def vertCoords i2;
  match GetPlaneForTri (v0, v1, v2) with
  | Some p => mret p
  | None => Exit
  end.

(** The [switch] on [cFlag]: [(hasBackTree, hasFrontTree)]. *)
Definition decode_cFlag (cFlag : Z) : outcome (bool * bool) :=
  if cFlag =? 0x00 then mret (false, false)
  else if cFlag =? 0xB0 then mret (true, false)
  else if cFlag =? 0x0F then mret (false, true)
  else if cFlag =? 0xBF then mret (true, true)
  else Exit.

(** What [ReadBSPTree] reads for the node itself. *)
Definition read_node (vertCoords : list GLfloat) (f : FILE)
  : outcome (Z * list BSPTriFace * BSPPlane * Z * FILE) :=
  let '(numTri, f) := fread_int 2 f in
  let '(triDefs, f) := fread_faces (Z.to_nat numTri) f in
  '(partPlane, f) ← (if numTri =? 0 then mret (fread_plane f)
                      else p ← recompute_plane vertCoords triDefs; mret (p, f));
  let '(cFlag, f) := fread_int 1 f in
  mret (numTri, triDefs, partPlane, cFlag, f).

(** [ReadBSPTree]; [fuel] bounds the depth of the recursion. *)
Fixpoint ReadBSPTree (fuel : nat) (vertCoords : list GLfloat) (inFile : FILE)
  : outcome (BSPTree * FILE) :=
  match fuel with
  | O => OutOfFuel
  | S fuel' =>
      '(numTri, triDefs, partPlane, cFlag, f) ← read_node vertCoords inFile;
      '(hasBackTree, hasFrontTree) ← decode_cFlag cFlag;
      '(b, f) ← (if hasBackTree : bool then ReadBSPTree fuel' vertCoords f
                  else mret (NULL_tree, f));
      '(fr, f) ← (if hasFrontTree : bool then ReadBSPTree fuel' vertCoords f
                   else mret (NULL_tree, f));
      mret (mkBSPTree numTri triDefs partPlane b fr, f)
  end.

(** The fields [LoadBSPTreeData] reads into [*retVal] before the tree,
    [bspTree] being not yet set. *)
Definition read_fields (f : FILE) : BSPTreeData * FILE :=
  let '(nMaps, f) := fread_int 2 f in
  let '(names, f) := fread_names (Z.to_nat nMaps) f in
  let '(nums, f) := fread_ints (Z.to_nat nMaps) 4 f in
  let '(nVertices, f) := fread_int 2 f in
  let '(vc, f) := fread_ints (Z.to_nat (3 * nVertices)) 4 f in
  let '(tc, f) := fread_ints (Z.to_nat (2 * nVertices)) 4 f in
  let '(minX, f) := fread_int 4 f in
  let '(maxX, f) := fread_int 4 f in
  let '(minY, f) := fread_int 4 f in
  let '(maxY, f) := fread_int 4 f in
  let '(minZ, f) := fread_int 4 f in
  let '(maxZ, f) := fread_int 4 f in
  let '(maxDepth, f) := fread_int 2 f in
  let '(numNodes, f) := fread_int 2 f in
  let '(numTri, f) := fread_int 4 f in
  ({| nMaps := nMaps; mapNames := names; mapTriNums := nums;
      nVertices := nVertices; vertCoords := vc; texCoords := tc;
      minX := minX; maxX := maxX; minY := minY; maxY := maxY;
      minZ := minZ; maxZ := maxZ;
      maxDepth := maxDepth; numNodes := numNodes; numTri := numTri;
      bspTree := NULL_tree |}, f).

Definition set_bspTree (d : BSPTreeData) (tree : BSPTree) : BSPTreeData :=
  {| nMaps := nMaps d; mapNames := mapNames d; mapTriNums := mapTriNums d;
     nVertices := nVertices d; vertCoords := vertCoords d;
     texCoords := texCoords d;
     minX := minX d; maxX := maxX d; minY := minY d; maxY := maxY d;
     minZ := minZ d; maxZ := maxZ d;
     maxDepth := maxDepth d; numNodes := numNodes d; numTri := numTri d;
     bspTree := tree |}.

(** [LoadBSPTreeData]: [Done None] is the [NULL] result. *)
Definition LoadBSPTreeData (fuel : nat) (inFile : FILE)
  : outcome (option BSPTreeData) :=
  let '(savedSig, f) := fread 4 inFile in
  let '(bspDataVer, f) := fread_into [Byte.x00] 1 f in
  same ← strcmp_eq (cstring_bytes BSP_FILE_MAGIC) savedSig;
  if same && (le_combine bspDataVer =? BSP_DATA_VER) then
    let '(retVal, f) := read_fields f in
    '(tree, f) ← ReadBSPTree fuel (vertCoords retVal) f;
    mret (Some (set_bspTree retVal tree))
  else mret None.

(** *** BuildBSPTree *)

(** The file-scope counters of the construction.  [splitCalls] is not a
    variable of the source: it counts the calls of [SplitTri], each of
    which finds its own values in its local arrays. *)
Record BuildState : Type := mkBuildState {
  nodesCreated : Z;
  currDepth : Z;
  maxDepthSoFar : Z;
  splitCalls : nat
}.

(** What the loop over the remaining triangles keeps up to date:
    [treeNode->triHead], [treeNode->numTri], [frontList] and [backList]. *)
Record Parts : Type := mkParts {
  p_triHead : list BSPTriNode;
  p_numTri : Z;
  p_frontList : list BSPTriNode;
  p_backList : list BSPTriNode
}.

(** The calls of [AddTriToList] that put a list returned by [SplitTri] on
    [frontList] or [backList]: the second node, if any, then the first. *)
Definition add_split (lst split : list BSPTriNode) : list BSPTriNode :=
  match split with
  | [] => lst
  | first :: rest =>
      AddTriToList
        (match rest with
         | [] => lst
         | second :: _ => AddTriToList lst second
         end) first
  end.

(** The [while] loop of [BuildBSPTree] over [restOfList]. *)
Fixpoint distribute (uninit : nat -> nat -> Vec3) (partition : BSPPlane)
  (restOfList : list BSPTriNode) (acc : Parts) (calls : nat)
  : outcome (Parts * nat) :=
  match restOfList with
  | [] => Done (acc, calls)
  | aTri :: rest =>
      match ClassifyTri aTri partition with
      | COINCIDENT =>
          distribute uninit partition rest
            {| p_triHead := AddTriToList (p_triHead acc) aTri;
               p_numTri := to_Uint16 (p_numTri acc + 1);
               p_frontList := p_frontList acc;
               p_backList := p_backList acc |} calls
      | IN_FRONT =>
          distribute uninit partition rest
            {| p_triHead := p_triHead acc; p_numTri := p_numTri acc;
               p_frontList := AddTriToList (p_frontList acc) aTri;
               p_backList := p_backList acc |} calls
      | IN_BACK =>
          distribute uninit partition rest
            {| p_triHead := p_triHead acc; p_numTri := p_numTri acc;
               p_frontList := p_frontList acc;
               p_backList := AddTriToList (p_backList acc) aTri |} calls
      | SPANNING =>
          '(fSplitList, bSplitList) ← SplitTri (uninit calls) aTri partition;
          distribute uninit partition rest
            {| p_triHead := p_triHead acc; p_numTri := p_numTri acc;
               p_frontList := add_split (p_frontList acc) fSplitList;
               p_backList := add_split (p_backList acc) bSplitList |}
            (S calls)
      end
  end.

(** [BuildBSPTree]: the node filled in and the counters afterwards;
    [fuel] bounds the depth of the recursion.  With an empty list
    [SelectNextRoot] leaves [rootTri] null, and reading [rootTri->plane]
    is outside any allocation. *)
Fixpoint BuildBSPTree (uninit : nat -> nat -> Vec3) (fuel : nat)
  (triList : list BSPTriNode) (st : BuildState)
  : outcome (IntBSPTreeNode * BuildState) :=
  match fuel with
  | O => OutOfFuel
  | S fuel' =>
      let depth := to_Uint16 (currDepth st + 1) in
      let st :=
        {| nodesCreated := to_Uint16 (nodesCreated st + 1);
           currDepth := depth;
           maxDepthSoFar :=
             if maxDepthSoFar st <? depth then depth else maxDepthSoFar st;
           splitCalls := splitCalls st |} in
      match SelectNextRoot triList with
      | (None, _) => Undefined
      | (Some rootTri, restOfList) =>
          '(parts, calls) ←
            distribute uninit (plane rootTri) restOfList
              {| p_triHead := [rootTri]; p_numTri := 1;
                 p_frontList := []; p_backList := [] |} (splitCalls st);
          let st :=
            {| nodesCreated := nodesCreated st; currDepth := currDepth st;
               maxDepthSoFar := maxDepthSoFar st; splitCalls := calls |} in
          '(front, st) ←
            match p_frontList parts with
            | [] => mret (NULL_node, st)
            | _ => BuildBSPTree uninit fuel' (p_frontList parts) st
            end;
          '(back, st) ←
            match p_backList parts with
            | [] => mret (NULL_node, st)
            | _ => BuildBSPTree uninit fuel' (p_backList parts) st
            end;
          mret (mkIntBSPTreeNode (plane rootTri) (p_numTri parts)
                                 (p_triHead parts) back front,
                {| nodesCreated := nodesCreated st;
                   currDepth := to_Uint16 (currDepth st - 1);
                   maxDepthSoFar := maxDepthSoFar st;
                   splitCalls := splitCalls st |})
      end
  end.

(** *** GenBSPTreeData *)

(** Triangle [i] of the caller's arrays. *)
Definition input_tri (triVerts : list GLfloat) (texIndices : list Z)
  (triTexCoords : list GLfloat) (i : Z)
  : outcome (Z * Verts * TexCoords) :=
  tIndex ← load texIndices i;
  let vertex (j : Z) : outcome (Vec3 * Vec2) :=
    x ← load triVerts (to_Uint32 (9 * i + 3 * j + 0));
    y ← load triVerts (to_Uint32 (9 * i + 3 * j + 1));
    z ← load triVerts (to_Uint32 (9 * i + 3 * j + 2));
    u ← load triTexCoords (to_Uint32 (6 * i + 2 * j + 0));
    v ← load triTexCoords (to_Uint32 (6 * i + 2 * j + 1));
    mret ((x, y, z), (u, v)) in
  a ← vertex 0;
  b ← vertex 1;
  c ← vertex 2;
  mret (tIndex, (fst a, fst b, fst c), (snd a, snd b, snd c)).

(** The loop that turns the input into a working list; a triangle without
    a plane is left out. *)
Fixpoint input_tris (todo : nat) (i : Z) (triVerts : list GLfloat)
  (texIndices : list Z) (triTexCoords : list GLfloat)
  (triList : list BSPTriNode) : outcome (list BSPTriNode) :=
  match todo with
  | O => Done triList
  | S todo' =>
      '(tIndex, Vs, Ts) ← input_tri triVerts texIndices triTexCoords i;
      input_tris todo' (i + 1) triVerts texIndices triTexCoords
        (match GetPlaneForTri Vs with
         | None => triList
         | Some p =>
             AddTriToList triList
               {| V := Vs; plane := p; tIndex := tIndex; T := Ts |}
         end)
  end.

(** The copy of the chain of definitions into the two packed tables, [i]
    being the number of definitions copied so far. *)
Fixpoint copy_block (blk : VertDefs) (i : Z) (tabs : list GLfloat * list GLfloat)
  : outcome (Z * (list GLfloat * list GLfloat)) :=
  match blk with
  | [] => Done (i, tabs)
  | ((x, y, z), (u, v)) :: rest =>
      vc ← store (fst tabs) (to_Uint32 (3 * i + 0)) x;
      vc ← store vc (to_Uint32 (3 * i + 1)) y;
      vc ← store vc (to_Uint32 (3 * i + 2)) z;
      tc ← store (snd tabs) (to_Uint32 (2 * i + 0)) u;
      tc ← store tc (to_Uint32 (2 * i + 1)) v;
      copy_block rest (to_Uint32 (i + 1)) (vc, tc)
  end.

Fixpoint copy_chain (chain : list VertDefs) (i : Z)
  (tabs : list GLfloat * list GLfloat)
  : outcome (list GLfloat * list GLfloat) :=
  match chain with
  | [] => Done tabs
  | cvPtr :: next =>
      '(i, tabs) ← copy_block cvPtr i tabs;
      copy_chain next i tabs
  end.

(** [GenBSPTreeData].  The function tests none of its arguments; the
    arrays are those the caller passes.  [heap 0] and [heap 1] are what
    the cells of the two tables hold when they are allocated. *)
Definition GenBSPTreeData (heap : nat -> nat -> Z) (uninit : nat -> nat -> Vec3)
  (fuel : nat) (nTri : Z) (triVerts : list GLfloat) (texIndices : list Z)
  (triTexCoords : list GLfloat) (nMaps : Z) (texMapNames : list (list byte))
  : outcome BSPTreeData :=
  names ← cells texMapNames nMaps;
  triList ← input_tris (Z.to_nat nTri) 0 triVerts texIndices triTexCoords [];
  '(genBSPTree, st) ←
    BuildBSPTree uninit fuel triList
      {| nodesCreated := 0; currDepth := 0; maxDepthSoFar := 0;
         splitCalls := 0 |};
  '(tree, g) ← ConvIntBSPTree genBSPTree (initial_globals nMaps);
  '(vc, tc) ←
    copy_chain (vertDefsPtr g) 0
      (malloc (fun c => to_Uint32 (heap 0%nat c)) (numVertDefs g * 3),
       malloc (fun c => to_Uint32 (heap 1%nat c)) (numVertDefs g * 2));
  mret {| nMaps := nMaps; mapNames := names; mapTriNums := texCtrs g;
          nVertices := numVertDefs g; vertCoords := vc; texCoords := tc;
          minX := g_minX g; maxX := g_maxX g;
          minY := g_minY g; maxY := g_maxY g;
          minZ := g_minZ g; maxZ := g_maxZ g;
          maxDepth := maxDepthSoFar st; numNodes := nodesCreated st;
          numTri := trianglesCreated g; bspTree := tree |}.

End Bsp.

(** ** COLDET.C: collision detection *)

Module Coldet.

Definition Vec3 : Type := GLfloat * GLfloat * GLfloat.

(** [-FLT_EPSILON]. *)
Definition minus_FLT_EPSILON : GLfloat := 0xB4000000.

Definition CROSS (v1 v2 : Vec3) : Vec3 :=
  let '(a0, a1, a2) := v1 in
  let '(b0, b1, b2) := v2 in
  (F32.sub (F32.mul a1 b2) (F32.mul a2 b1),
   F32.sub (F32.mul a2 b0) (F32.mul a0 b2),
   F32.sub (F32.mul a0 b1) (F32.mul a1 b0)).

Definition DOT (v1 v2 : Vec3) : GLfloat :=
  let '(a0, a1, a2) := v1 in
  let '(b0, b1, b2) := v2 in
  F32.add (F32.add (F32.mul a0 b0) (F32.mul a1 b1)) (F32.mul a2 b2).

Definition SUB (v1 v2 : Vec3) : Vec3 :=
  let '(a0, a1, a2) := v1 in
  let '(b0, b1, b2) := v2 in
  (F32.sub a0 b0, F32.sub a1 b1, F32.sub a2 b2).

(** [intersectsFace]: the result and [( *t, *u, *v )] afterwards, [tuv]
    being what the three cells held before the call. *)
Definition intersectsFace (orig dir vert0 vert1 vert2 : Vec3)
  (tuv : GLfloat * GLfloat * GLfloat) : bool * (GLfloat * GLfloat * GLfloat) :=
  let '(t, u, v) := tuv in
  let edge1 := SUB vert1 vert0 in
  let edge2 := SUB vert2 vert0 in
  let pVec := CROSS dir edge2 in
  let det := DOT edge1 pVec in
  if F32.gtb det minus_FLT_EPSILON && F32.ltb det FLT_EPSILON
  then (false, (t, u, v))
  else
    let invDet := F32.div f_one det in
    let tVec := SUB orig vert0 in
    let u := F32.mul (DOT tVec pVec) invDet in
    if F32.ltb u f_zero || F32.gtb u f_one then (false, (t, u, v))
    else
      let qVec := CROSS tVec edge1 in
      let v := F32.mul (DOT dir qVec) invDet in
      if F32.ltb v f_zero || F32.gtb (F32.add u v) f_one
      then (false, (t, u, v))
      else (true, (F32.mul (DOT edge2 qVec) invDet, u, v)).

Definition vertex (vertCoords : list GLfloat) (vInd : Z) : outcome Vec3 :=
  x ← load vertCoords (3 * vInd + 0);
  y ← load vertCoords (3 * vInd + 1);
  z ← load vertCoords (3 * vInd + 2);
  mret (x, y, z).

(** The body of the inner loop for triangle [j] of texture [i]:
    [(retVal, *dist)] afterwards. *)
Definition test_face (model : Gld.GLData) (fromPt dir : Vec3)
  (dirMag : GLdouble) (i j : Z) (s : bool * GLfloat) : outcome (bool * GLfloat) :=
  let '(retVal, dist) := s in
  faces ← load (Gld.triFaces model) i;
  vInd0 ← load faces (to_Uint32 (3 * j + 0));
  vInd1 ← load faces (to_Uint32 (3 * j + 1));
  vInd2 ← load faces (to_Uint32 (3 * j + 2));
  v0 ← vertex (Gld.vertCoords model) vInd0;
  v1 ← vertex (Gld.vertCoords model) vInd1;
  v2 ← vertex (Gld.vertCoords model) vInd2;
  let '(hit, (tmpT, _, _)) :=
    intersectsFace fromPt dir v0 v1 v2 (FLT_MAX, FLT_MAX, FLT_MAX) in
  if hit && F32.geb tmpT f_zero && F32.ltb tmpT dist
         && F64.leb (to_double tmpT) dirMag
  then mret (true, tmpT)
  else mret (retVal, dist).

Fixpoint test_faces (model : Gld.GLData) (fromPt dir : Vec3)
  (dirMag : GLdouble) (i : Z) (todo : nat) (j : Z) (s : bool * GLfloat)
  : outcome (bool * GLfloat) :=
  match todo with
  | O => Done s
  | S todo' =>
      s' ← test_face model fromPt dir dirMag i j s;
      test_faces model fromPt dir dirMag i todo' (j + 1) s'
  end.

Fixpoint test_maps (model : Gld.GLData) (fromPt dir : Vec3)
  (dirMag : GLdouble) (todo : nat) (i : Z) (s : bool * GLfloat)
  : outcome (bool * GLfloat) :=
  match todo with
  | O => Done s
  | S todo' =>
      n ← load (Gld.mapTriNums model) i;
      s' ← test_faces model fromPt dir dirMag i (Z.to_nat n) 0 s;
      test_maps model fromPt dir dirMag todo' (i + 1) s'
  end.

(** [hasCollision]: the result and [*dist] afterwards. *)
Definition hasCollision (model : Gld.GLData) (fromPt toPt : Vec3)
  : outcome (bool * GLfloat) :=
  let '(dir0, dir1, dir2) := SUB toPt fromPt in
  let dirMag :=
    F64.sqrt (F64.add (F64.add (F64.mul (to_double dir0) (to_double dir0))
                               (F64.mul (to_double dir1) (to_double dir1)))
                      (F64.mul (to_double dir2) (to_double dir2))) in
  if F64.gtb dirMag d_zero then
    let dir := (to_float (F64.div (to_double dir0) dirMag),
                to_float (F64.div (to_double dir1) dirMag),
                to_float (F64.div (to_double dir2) dirMag)) in
    test_maps model fromPt dir dirMag (Z.to_nat (Gld.nMaps model)) 0
              (false, FLT_MAX)
  else mret (true, FLT_MAX).

End Coldet.

(** ** GLD2BSP.C: from a saved mesh to a saved BSP tree *)

Module Gld2bsp.

(** The three arrays [main] allocates for [GenBSPTreeData], and the number
    of triangles it has put in them. *)
Record Arrays : Type := mkArrays {
  triVerts : list GLfloat;
  texIndices : list Z;
  triTexCoords : list GLfloat;
  triConverted : Z
}.

(** The body of the loop over [k]: corner [k] of triangle [j] of the
    texture whose indices are [triFaceIndices]. *)
Definition convert_corner (inModel : Gld.GLData) (triFaceIndices : list Z)
  (j k : Z) (n : Z) (s : list GLfloat * list GLfloat)
  : outcome (list GLfloat * list GLfloat) :=
  let '(tv, tc) := s in
  vIndex ← load triFaceIndices (to_Uint32 (3 * j + k));
  x ← load (Gld.vertCoords inModel) (3 * vIndex + 0);
  tv ← store tv (to_Uint32 (9 * n + 3 * k + 0)) x;
  y ← load (Gld.vertCoords inModel) (3 * vIndex + 1);
  tv ← store tv (to_Uint32 (9 * n + 3 * k + 1)) y;
  z ← load (Gld.vertCoords inModel) (3 * vIndex + 2);
  tv ← store tv (to_Uint32 (9 * n + 3 * k + 2)) z;
  u ← load (Gld.texCoords inModel) (2 * vIndex + 0);
  tc ← store tc (to_Uint32 (6 * n + 2 * k + 0)) u;
  v ← load (Gld.texCoords inModel) (2 * vIndex + 1);
  tc ← store tc (to_Uint32 (6 * n + 2 * k + 1)) v;
  mret (tv, tc).

(** The body of the loop over [j]: triangle [j] of texture [i]. *)
Definition convert_tri (inModel : Gld.GLData) (i : Z)
  (triFaceIndices : list Z) (j : Z) (a : Arrays) : outcome Arrays :=
  ti ← store (texIndices a) (triConverted a) (to_Uint16 i);
  s ← convert_corner inModel triFaceIndices j 0 (triConverted a)
        (triVerts a, triTexCoords a);
  s ← convert_corner inModel triFaceIndices j 1 (triConverted a) s;
  s ← convert_corner inModel triFaceIndices j 2 (triConverted a) s;
  mret {| triVerts := fst s; texIndices := ti; triTexCoords := snd s;
          triConverted := to_Uint32 (triConverted a + 1) |}.

Fixpoint convert_tris (inModel : Gld.GLData) (i : Z)
  (triFaceIndices : list Z) (todo : nat) (j : Z) (a : Arrays)
  : outcome Arrays :=
  match todo with
  | O => Done a
  | S todo' =>
      a' ← convert_tri inModel i triFaceIndices j a;
      convert_tris inModel i triFaceIndices todo' (j + 1) a'
  end.

(** The loop over the textures. *)
Fixpoint convert_maps (inModel : Gld.GLData) (todo : nat) (i : Z) (a : Arrays)
  : outcome Arrays :=
  match todo with
  | O => Done a
  | S todo' =>
      triFaceIndices ← load (Gld.triFaces inModel) i;
      n ← load (Gld.mapTriNums inModel) i;
      a' ← convert_tris inModel i triFaceIndices (Z.to_nat n) 0 a;
      convert_maps inModel todo' (i + 1) a'
  end.

(** The arrays as they are allocated, [fresh 0], [fresh 1] and [fresh 2]
    being what their cells happen to hold. *)
Definition allocate (fresh : nat -> nat -> Z) (nTri : Z) : Arrays :=
  {| triVerts := malloc (fun c => to_Uint32 (fresh 0%nat c))
                        (to_Uint32 (to_Uint32 (nTri * 3) * 3));
     texIndices := malloc (fun c => to_Uint16 (fresh 2%nat c)) nTri;
     triTexCoords := malloc (fun c => to_Uint32 (fresh 1%nat c))
                            (to_Uint32 (to_Uint32 (nTri * 3) * 2));
     triConverted := 0 |}.

(** [main], from the stream of the model it has opened on: [Done bytes]
    when it returns [EXIT_SUCCESS] with [bytes] in the file it has
    written, [Exit] when it ends with [EXIT_FAILURE].  The allocations
    succeed and the two files can be opened; [junk] is what reading past
    the end of the file written leaves in its destinations. *)
Definition main (fresh heap : nat -> nat -> Z) (uninit : nat -> nat -> Bsp.Vec3)
  (junk : nat -> byte) (fuel : nat) (inFile : FILE) : outcome (list byte) :=
  inModel ← Gld.LoadGLData inFile;
  match inModel with
  | None => Exit
  | Some inModel =>
      let nMaps := Gld.nMaps inModel in
      let texMapNames := Gld.mapNames inModel in
      let nTri := Gld.numTri inModel in
      a ← convert_maps inModel (Z.to_nat nMaps) 0 (allocate fresh nTri);
      bspData ← Bsp.GenBSPTreeData heap uninit fuel nTri (triVerts a)
                  (texIndices a) (triTexCoords a) nMaps texMapNames;
      bytes ← Bsp.SaveBSPTreeData (Some bspData);
      loaded ← Bsp.LoadBSPTreeData fuel (mkFILE bytes junk 0);
      match loaded with
      | None => Exit
      | Some _ => mret bytes
      end
  end.

End Gld2bsp.

(** ** Notions used in the statements *)

(** The two zeros of single precision. *)
Definition is_zero_float (x : GLfloat) : bool :=
  (x =? 0x00000000) || (x =? 0x80000000).

Definition is_zero_vector (v : Coldet.Vec3) : bool :=
  let '(a, b, c) := v in is_zero_float a && is_zero_float b && is_zero_float c.

#[global] Instance TriType_eq_dec : EqDecision Bsp.TriType.
Proof. solve_decision. Defined.

(** The number of triangles of [ts] of a given kind with respect to a
    plane. *)
Definition count_kind (kind : Bsp.TriType) (pl : Bsp.BSPPlane)
  (ts : list Bsp.BSPTriNode) : Z :=
  Z.of_nat (length (filter (fun t => Bsp.ClassifyTri t pl = kind) ts)).

(** The score of the candidate at position [k] of a working list:
    [splits + |inFront - inBack|], counted over every other triangle of
    the list against the plane of the candidate. *)
Definition root_score (l : list Bsp.BSPTriNode) (k : nat) : Z :=
  match l !! k with
  | Some c =>
      let others := delete k l in
      count_kind Bsp.SPANNING (Bsp.plane c) others
      + Z.abs (count_kind Bsp.IN_FRONT (Bsp.plane c) others
               - count_kind Bsp.IN_BACK (Bsp.plane c) others)
  | None => 0
  end.

(** The canonical form of a vertex with respect to a chain of definitions:
    its index, its canonical position and the chain afterwards. *)
Definition canon_vertex (chain : list Bsp.VertDefs) (v : Bsp.Vec3) (t : Bsp.Vec2)
  : Z * Bsp.Vec3 * list Bsp.VertDefs :=
  let '(r, resV, chain', _) := Bsp.search_chain chain 0 v t in (r, resV, chain').

(** The canonical form of a triangle: the three indices, the three
    canonical positions and the chain afterwards. *)
Definition canon_tri (chain : list Bsp.VertDefs) (tri : Bsp.BSPTriNode)
  : (Z * Z * Z) * Bsp.Verts * list Bsp.VertDefs :=
  let '(i0, r0, chain) :=
    canon_vertex chain (Bsp.row (Bsp.V tri) 0) (Bsp.row (Bsp.T tri) 0) in
  let '(i1, r1, chain) :=
    canon_vertex chain (Bsp.row (Bsp.V tri) 1) (Bsp.row (Bsp.T tri) 1) in
  let '(i2, r2, chain) :=
    canon_vertex chain (Bsp.row (Bsp.V tri) 2) (Bsp.row (Bsp.T tri) 2) in
  ((i0, i1, i2), (r0, r1, r2), chain).

(** The canonical forms of the triangles of a list, in order, each one
    against the chain its predecessors leave. *)
Fixpoint canon_tris (chain : list Bsp.VertDefs) (tris : list Bsp.BSPTriNode)
  : list (Bsp.BSPTriNode * (Z * Z * Z) * Bsp.Verts) :=
  match tris with
  | [] => []
  | tri :: rest =>
      let '(idx, resV, chain') := canon_tri chain tri in
      (tri, idx, resV) :: canon_tris chain' rest
  end.

(** A canonicalised triangle is dropped when two of its indices are equal
    or the plane of its canonical positions is degenerate. *)
Definition dropped (x : Bsp.BSPTriNode * (Z * Z * Z) * Bsp.Verts) : bool :=
  let '(_, (i0, i1, i2), resV) := x in
  (i0 =? i1) || (i1 =? i2) || (i2 =? i0) ||
  match Bsp.GetPlaneForTri resV with None => true | Some _ => false end.

Definition survivors (chain : list Bsp.VertDefs) (tris : list Bsp.BSPTriNode)
  : list (Bsp.BSPTriNode * (Z * Z * Z) * Bsp.Verts) :=
  filter (fun x => dropped x = false) (canon_tris chain tris).

Definition face_of (x : Bsp.BSPTriNode * (Z * Z * Z) * Bsp.Verts) : Bsp.BSPTriFace :=
  let '(tri, idx, _) := x in
  {| Bsp.texIndex := Bsp.tIndex tri; Bsp.vIndices := idx |}.

(** The plane a converted node ends with: re-derived from the first
    survivor, or the plane of the construction when there is none. *)
Definition converted_plane (partition : Bsp.BSPPlane)
  (kept : list (Bsp.BSPTriNode * (Z * Z * Z) * Bsp.Verts)) : option Bsp.BSPPlane :=
  match kept with
  | [] => Some partition
  | (_, _, resV) :: _ => Bsp.GetPlaneForTri resV
  end.

(** A vertex definition: position and texture coordinates. *)
Definition VertDef : Type := Bsp.Vec3 * Bsp.Vec2.

(** Two coordinates are apart when the folding test
    [fabs(a - b) <= eps] fails for them. *)
Definition coordinate_apart (eps a b : GLfloat) : Prop := within eps a b = false.

(** The strict reading: the difference exceeds the tolerance. *)
Definition exceeds (eps a b : GLfloat) : bool :=
  F64.gtb (F64.fabs (to_double (F32.sub a b))) (to_double eps).

(** Two definitions are apart when one of their five coordinates is
    (0.0011276372445 for a position, 1/256 for a texture coordinate). *)
Definition apart (d1 d2 : VertDef) : Prop :=
  let '((x1, y1, z1), (u1, v1)) := d1 in
  let '((x2, y2, z2), (u2, v2)) := d2 in
  coordinate_apart Bsp.BSP_VERT_ORD_EPSILON x1 x2 \/
  coordinate_apart Bsp.BSP_VERT_ORD_EPSILON y1 y2 \/
  coordinate_apart Bsp.BSP_VERT_ORD_EPSILON z1 z2 \/
  coordinate_apart Bsp.BSP_TEX_ORD_EPSILON u1 u2 \/
  coordinate_apart Bsp.BSP_TEX_ORD_EPSILON v1 v2.

Definition strictly_apart (d1 d2 : VertDef) : Prop :=
  let '((x1, y1, z1), (u1, v1)) := d1 in
  let '((x2, y2, z2), (u2, v2)) := d2 in
  exceeds Bsp.BSP_VERT_ORD_EPSILON x1 x2 = true \/
  exceeds Bsp.BSP_VERT_ORD_EPSILON y1 y2 = true \/
  exceeds Bsp.BSP_VERT_ORD_EPSILON z1 z2 = true \/
  exceeds Bsp.BSP_TEX_ORD_EPSILON u1 u2 = true \/
  exceeds Bsp.BSP_TEX_ORD_EPSILON v1 v2 = true.

(** Every earlier definition of a table is apart from every later one. *)
Definition table_apart (l : list VertDef) : Prop :=
  forall (i j : nat) (d1 d2 : VertDef),
    (i < j)%nat -> l !! i = Some d1 -> l !! j = Some d2 -> apart d1 d2.

(** The chain of blocks read as one table. *)
Definition chain_table (chain : list Bsp.VertDefs) : list VertDef := concat chain.

(** Definition [k] of the two packed tables of a mesh. *)
Definition gld_def (vc tc : list GLfloat) (k : nat) : option VertDef :=
  x ← vc !! (3 * k)%nat;
  y ← vc !! (3 * k + 1)%nat;
  z ← vc !! (3 * k + 2)%nat;
  u ← tc !! (2 * k)%nat;
  v ← tc !! (2 * k + 1)%nat;
  Some ((x, y, z), (u, v)).

(** The cells a mesh owns: [3 * nVertices] and [2 * nVertices] cells of the
    coordinate tables and [3 * mapTriNums[i]] cells of the index array of
    texture [i].  An allocation may be larger than that. *)
Definition logical (g : Gld.GLData) : Gld.GLData :=
  {| Gld.nMaps := Gld.nMaps g;
     Gld.mapNames := Gld.mapNames g;
     Gld.mapTriNums := Gld.mapTriNums g;
     Gld.nVertices := Gld.nVertices g;
     Gld.vertCoords := take (Z.to_nat (3 * Gld.nVertices g)) (Gld.vertCoords g);
     Gld.texCoords := take (Z.to_nat (2 * Gld.nVertices g)) (Gld.texCoords g);
     Gld.minX := Gld.minX g; Gld.maxX := Gld.maxX g;
     Gld.minY := Gld.minY g; Gld.maxY := Gld.maxY g;
     Gld.minZ := Gld.minZ g; Gld.maxZ := Gld.maxZ g;
     Gld.numTri := Gld.numTri g;
     Gld.triFaces :=
       zip_with (fun n row => take (Z.to_nat (to_Uint32 (3 * n))) row)
                (Gld.mapTriNums g) (Gld.triFaces g) |}.

(** A texture name that [LoadGLData] reads back whole: at most 255
    characters, none of them NUL. *)
Definition name_ok (s : list byte) : Prop :=
  (length s <= 255)%nat /\ Forall (fun c => c <> Byte.x00) s.

Definition is_float (x : Z) : Prop := 0 <= x < 2 ^ 32.
Definition is_u16 (x : Z) : Prop := 0 <= x < 2 ^ 16.
Definition is_u32 (x : Z) : Prop := 0 <= x < 2 ^ 32.

(** The first five bytes of a saved tree: the signature and the version. *)
Definition BSP_header : list byte :=
  cstring_bytes Bsp.BSP_FILE_MAGIC ++ Uint8_bytes Bsp.BSP_DATA_VER.

(** The values of [cFlag] that [ReadBSPTree] accepts. *)
Definition good_cFlag (c : Z) : bool :=
  (c =? 0x00) || (c =? 0xB0) || (c =? 0x0F) || (c =? 0xBF).

(** The preorder read that starts at [f] meets, within [fuel] levels, a
    node whose [cFlag] is not one of the four: at the node read first, in
    its back subtree, or in its front subtree once the back subtree, if
    there is one, has been read. *)
Inductive meets_bad_cFlag (vc : list GLfloat) : nat -> FILE -> Prop :=
| bad_here fuel f numTri triDefs partPlane cFlag f1 :
    Bsp.read_node vc f = Done (numTri, triDefs, partPlane, cFlag, f1) ->
    good_cFlag cFlag = false ->
    meets_bad_cFlag vc (S fuel) f
| bad_in_back fuel f numTri triDefs partPlane cFlag f1 hasFrontTree :
    Bsp.read_node vc f = Done (numTri, triDefs, partPlane, cFlag, f1) ->
    Bsp.decode_cFlag cFlag = Done (true, hasFrontTree) ->
    meets_bad_cFlag vc fuel f1 ->
    meets_bad_cFlag vc (S fuel) f
| bad_in_front fuel f numTri triDefs partPlane cFlag f1 hasBackTree b f2 :
    Bsp.read_node vc f = Done (numTri, triDefs, partPlane, cFlag, f1) ->
    Bsp.decode_cFlag cFlag = Done (hasBackTree, true) ->
    (if hasBackTree then Bsp.ReadBSPTree fuel vc f1
     else Done (Bsp.NULL_tree, f1)) = Done (b, f2) ->
    meets_bad_cFlag vc fuel f2 ->
    meets_bad_cFlag vc (S fuel) f.

Definition is_u64 (x : Z) : Prop := 0 <= x < 2 ^ 64.

(** The fields of a triangle and of a plane have the values of their
    types. *)
Definition face_ok (x : Bsp.BSPTriFace) : Prop :=
  is_u16 (Bsp.texIndex x) /\
  is_u16 (fst (fst (Bsp.vIndices x))) /\
  is_u16 (snd (fst (Bsp.vIndices x))) /\
  is_u16 (snd (Bsp.vIndices x)).

Definition plane_ok (p : Bsp.BSPPlane) : Prop :=
  is_u64 (Bsp.A p) /\ is_u64 (Bsp.B p) /\ is_u64 (Bsp.C p) /\ is_u64 (Bsp.D p).

(** The plane [GetPlaneForTri] gives for the first triangle of a node, its
    three corners taken from the vertex table. *)
Definition first_plane (vc : list GLfloat) (triDefs : list Bsp.BSPTriFace)
  : option Bsp.BSPPlane :=
  match Bsp.recompute_plane vc triDefs with
  | Done p => Some p
  | _ => None
  end.

(** A tree that can be saved and loaded again: in every node [numTri]
    cells are allocated and hold values of their types; the plane of a
    node without triangles holds doubles; the first triangle of a node
    with triangles is not degenerate in the vertex table. *)
Fixpoint tree_ok (vc : list GLfloat) (t : Bsp.BSPTree) : Prop :=
  match t with
  | Bsp.NULL_tree => True
  | Bsp.mkBSPTree numTri triDefs partPlane back front =>
      is_u16 numTri /\
      numTri = Z.of_nat (length triDefs) /\
      Forall face_ok triDefs /\
      (if numTri =? 0 then plane_ok partPlane
       else is_Some (first_plane vc triDefs)) /\
      tree_ok vc back /\ tree_ok vc front
  end.

(** The tree as it is after a save and a load: a node without triangles
    keeps its plane, a node with triangles has the plane of its first
    triangle. *)
Fixpoint reloaded (vc : list GLfloat) (t : Bsp.BSPTree) : Bsp.BSPTree :=
  match t with
  | Bsp.NULL_tree => Bsp.NULL_tree
  | Bsp.mkBSPTree numTri triDefs partPlane back front =>
      Bsp.mkBSPTree numTri triDefs
        (if numTri =? 0 then partPlane
         else default partPlane (first_plane vc triDefs))
        (reloaded vc back) (reloaded vc front)
  end.

Fixpoint depth (t : Bsp.BSPTree) : nat :=
  match t with
  | Bsp.NULL_tree => 0
  | Bsp.mkBSPTree _ _ _ back front => S (Nat.max (depth back) (depth front))
  end.

(** The bytes [WriteBSPTree] writes for the node itself, before its
    subtrees. *)
Definition node_bytes (numTri : Z) (triDefs : list Bsp.BSPTriFace)
  (partPlane : Bsp.BSPPlane) (back front : Bsp.BSPTree) : list byte :=
  Uint16_bytes numTri
  ++ concat (map Bsp.BSPTriFace_bytes (take (Z.to_nat numTri) triDefs))
  ++ (if numTri =? 0 then Bsp.BSPPlane_bytes partPlane else [])
  ++ Uint8_bytes (Bsp.cFlag_of back front).

(** ** Invariants *)

(** The state of the outer loop when it reaches position [curr]. *)
Definition scan_inv (sc : nat -> Z) (curr : nat) (minScore : Z)
  (bestNode : option nat) : Prop :=
  (forall j, (j < curr)%nat -> sc j <> 0) /\
  match bestNode with
  | None => curr = 0%nat /\ minScore = UINT_MAX
  | Some b =>
      (b < curr)%nat /\ sc b = minScore /\
      (forall j, (j < b)%nat -> minScore < sc j) /\
      (forall j, (b < j < curr)%nat -> minScore <= sc j)
  end.

(** No block of a chain holds more than [DEFS_BLK_SIZE] definitions, and
    all blocks are full except possibly the last. *)
Fixpoint chain_wf (chain : list Bsp.VertDefs) : Prop :=
  match chain with
  | [] => True
  | blk :: rest =>
      Z.of_nat (length blk) <= Bsp.DEFS_BLK_SIZE /\
      (rest <> [] -> Z.of_nat (length blk) = Bsp.DEFS_BLK_SIZE) /\
      chain_wf rest
  end.

(** The invariant of the canonicaliser's table. *)
Definition table_inv (g : Bsp.Globals) : Prop :=
  chain_wf (Bsp.vertDefsPtr g) /\ table_apart (chain_table (Bsp.vertDefsPtr g)).

(** Among the first [n] definitions of two packed tables, every earlier
    one is apart from every later one. *)
Definition gld_apart (n : Z) (vc tc : list GLfloat) : Prop :=
  forall (i j : nat) (d1 d2 : VertDef),
    (i < j)%nat -> Z.of_nat j < n ->
    gld_def vc tc i = Some d1 -> gld_def vc tc j = Some d2 -> apart d1 d2.

(** The invariant of the vertex definitions of [GenGLData]. *)
Definition vt_inv (t : Gld.VertTab) : Prop :=
  0 <= Gld.vt_n t < 2 ^ 16 /\
  3 * Gld.vt_n t <= Z.of_nat (length (Gld.vt_vert t)) /\
  2 * Gld.vt_n t <= Z.of_nat (length (Gld.vt_tex t)) /\
  Forall is_float (Gld.vt_vert t) /\
  Forall is_float (Gld.vt_tex t) /\
  (is_float (Gld.vt_minX t) /\ is_float (Gld.vt_maxX t) /\
   is_float (Gld.vt_minY t) /\ is_float (Gld.vt_maxY t) /\
   is_float (Gld.vt_minZ t) /\ is_float (Gld.vt_maxZ t)) /\
  gld_apart (Gld.vt_n t) (Gld.vt_vert t) (Gld.vt_tex t).

(** The number of occurrences of a texture index. *)
Definition occ (t : Z) (l : list Z) : Z :=
  Z.of_nat (length (filter (fun x => x = t) l)).

(** The invariant of the faces of [GenGLData] after [i] triangles:
    [lens] are the sizes of the index arrays. *)
Definition ft_inv (texIndices : list Z) (i : nat) (lens : list nat)
  (ft : Gld.FaceTab) : Prop :=
  length (Gld.ft_nums ft) = length lens /\
  map length (Gld.ft_faces ft) = lens /\
  Forall (Forall is_u16) (Gld.ft_faces ft) /\
  is_u32 (Gld.ft_numTri ft) /\
  forall (t : nat) (n : Z),
    Gld.ft_nums ft !! t = Some n ->
    0 <= n <= occ (Z.of_nat t) (take i texIndices) /\
    (Gld.ft_skipped ft = false -> n = occ (Z.of_nat t) (take i texIndices)).

(** A mesh whose fields have the values of their types and whose arrays
    hold the cells the counters announce. *)
Definition wf_mesh (g : Gld.GLData) : Prop :=
  is_u16 (Gld.nMaps g) /\
  length (Gld.mapNames g) = Z.to_nat (Gld.nMaps g) /\
  length (Gld.mapTriNums g) = Z.to_nat (Gld.nMaps g) /\
  Forall is_u32 (Gld.mapTriNums g) /\
  is_u16 (Gld.nVertices g) /\
  3 * Gld.nVertices g <= Z.of_nat (length (Gld.vertCoords g)) /\
  2 * Gld.nVertices g <= Z.of_nat (length (Gld.texCoords g)) /\
  Forall is_float (Gld.vertCoords g) /\
  Forall is_float (Gld.texCoords g) /\
  (is_float (Gld.minX g) /\ is_float (Gld.maxX g) /\
   is_float (Gld.minY g) /\ is_float (Gld.maxY g) /\
   is_float (Gld.minZ g) /\ is_float (Gld.maxZ g)) /\
  is_u32 (Gld.numTri g) /\
  length (Gld.triFaces g) = Z.to_nat (Gld.nMaps g) /\
  Forall (Forall is_u16) (Gld.triFaces g) /\
  forall (i : nat) (n : Z) (row : list Z),
    Gld.mapTriNums g !! i = Some n -> Gld.triFaces g !! i = Some row ->
    to_Uint32 (3 * n) <= Z.of_nat (length row).

(** The allocations are exactly as large as the counters announce. *)
Definition exact_mesh (g : Gld.GLData) : Prop :=
  Z.of_nat (length (Gld.vertCoords g)) = 3 * Gld.nVertices g /\
  Z.of_nat (length (Gld.texCoords g)) = 2 * Gld.nVertices g /\
  forall (i : nat) (n : Z) (row : list Z),
    Gld.mapTriNums g !! i = Some n -> Gld.triFaces g !! i = Some row ->
    Z.of_nat (length row) = to_Uint32 (3 * n).

(** The bytes of the index arrays: for each texture the cells its counter
    announces. *)
Definition faces_bytes (nums : list Z) (faces : list (list Z)) : list byte :=
  concat (zip_with
            (fun n row =>
               concat (map Uint16_bytes (take (Z.to_nat (to_Uint32 (3 * n))) row)))
            nums faces).

(** ** Sample data *)

(** What freshly allocated cells hold in the examples. *)
Definition sample_heap : nat -> nat -> Z := fun _ _ => 0.

(** The triangle (0,0,0), (1,0,0), (0,1,0) with texture coordinates
    (0,0), (1,0), (0,1). *)
Definition unit_triVerts : list GLfloat :=
  [0; 0; 0;  0x3F800000; 0; 0;  0; 0x3F800000; 0].
Definition unit_triTexCoords : list GLfloat :=
  [0; 0;  0x3F800000; 0;  0; 0x3F800000].

(** The texture name [ab]. *)
Definition name_ab : list byte := [Byte.x61; Byte.x62].

(** The mesh of that triangle. *)
Definition unit_mesh : Gld.GLData :=
  {| Gld.nMaps := 1;
     Gld.mapNames := [name_ab];
     Gld.mapTriNums := [1];
     Gld.nVertices := 3;
     Gld.vertCoords := unit_triVerts;
     Gld.texCoords := unit_triTexCoords;
     Gld.minX := 0; Gld.maxX := 0x3F800000;
     Gld.minY := 0; Gld.maxY := 0x3F800000;
     Gld.minZ := 0; Gld.maxZ := FLT_MIN;
     Gld.numTri := 1;
     Gld.triFaces := [[0; 1; 2]] |}.

(** A texture name of 256 characters. *)
Definition long_name : list byte := replicate 256 Byte.x61.

(** Positive infinity in single precision. *)
Definition f_infinity : GLfloat := 0x7F800000.

(** A triangle two of whose corners lie at the same point at infinity. *)
Definition far_triVerts : list GLfloat :=
  [f_infinity; 0; 0;  f_infinity; 0; 0;  0; 0x3F800000; 0].
Definition far_triTexCoords : list GLfloat := [0; 0;  0; 0;  0; 0].

(** The same triangle as a node of a working list, on its plane z = 0,
    and a copy of it on the plane z = 1. *)
Definition unit_Verts : Bsp.Verts :=
  ((0, 0, 0), (0x3F800000, 0, 0), (0, 0x3F800000, 0)).
Definition unit_TexCoords : Bsp.TexCoords :=
  ((0, 0), (0x3F800000, 0), (0, 0x3F800000)).
Definition plane_z0 : Bsp.BSPPlane :=
  {| Bsp.A := 0; Bsp.B := 0; Bsp.C := 0x3FF0000000000000; Bsp.D := 0 |}.
Definition plane_z1 : Bsp.BSPPlane :=
  {| Bsp.A := 0; Bsp.B := 0; Bsp.C := 0x3FF0000000000000;
     Bsp.D := 0xBFF0000000000000 |}.
Definition unit_tri : Bsp.BSPTriNode :=
  {| Bsp.V := unit_Verts; Bsp.plane := plane_z0; Bsp.tIndex := 0;
     Bsp.T := unit_TexCoords |}.
Definition raised_tri : Bsp.BSPTriNode :=
  {| Bsp.V := ((0, 0, 0x3F800000), (0x3F800000, 0, 0x3F800000),
               (0, 0x3F800000, 0x3F800000));
     Bsp.plane := plane_z1; Bsp.tIndex := 0; Bsp.T := unit_TexCoords |}.

(** The plane x = 0.5, which cuts the unit triangle. *)
Definition plane_x_half : Bsp.BSPPlane :=
  {| Bsp.A := 0x3FF0000000000000; Bsp.B := 0; Bsp.C := 0;
     Bsp.D := 0xBFE0000000000000 |}.

(** A tree under construction with the unit triangle alone, and what its
    conversion leaves in the file-scope variables. *)
Definition unit_node : Bsp.IntBSPTreeNode :=
  Bsp.mkIntBSPTreeNode plane_z0 1 [unit_tri] Bsp.NULL_node Bsp.NULL_node.
Definition unit_tree : Bsp.BSPTree :=
  Bsp.mkBSPTree 1 [{| Bsp.texIndex := 0; Bsp.vIndices := (0, 1, 2) |}]
                plane_z0 Bsp.NULL_tree Bsp.NULL_tree.
Definition unit_VertDefs : Bsp.VertDefs :=
  [((0, 0, 0), (0, 0));
   ((0x3F800000, 0, 0), (0x3F800000, 0));
   ((0, 0x3F800000, 0), (0, 0x3F800000))].
Definition unit_globals : Bsp.Globals :=
  {| Bsp.numVertDefs := 3;
     Bsp.vertDefsPtr := [unit_VertDefs];
     Bsp.texCtrs := [1];
     Bsp.g_minX := 0; Bsp.g_maxX := 0x3F800000;
     Bsp.g_minY := 0; Bsp.g_maxY := 0x3F800000;
     Bsp.g_minZ := 0; Bsp.g_maxZ := FLT_MIN;
     Bsp.trianglesCreated := 1 |}.

(** A saved tree without textures or vertices, whose only node has no
    triangles, the zero plane and the [cFlag] 0x01; and a stream that
    begins with another signature. *)
Definition corrupt_body : list byte := replicate 70 Byte.x00 ++ [Byte.x01].
Definition corrupt_stream : list byte := BSP_header ++ corrupt_body.
Definition foreign_stream : list byte :=
  [Byte.x47; Byte.x4c; Byte.x44; Byte.x00; Byte.x10] ++ corrupt_body.
Definition no_bytes : nat -> byte := fun _ => Byte.x00.

(** A compiled tree over the vertices of the unit triangle: the root
    holds the triangle but carries the plane x = 0.5; its back subtree is
    a node without triangles on that plane. *)
Definition empty_leaf : Bsp.BSPTree :=
  Bsp.mkBSPTree 0 [] plane_x_half Bsp.NULL_tree Bsp.NULL_tree.
Definition sample_tree : Bsp.BSPTree :=
  Bsp.mkBSPTree 1 [{| Bsp.texIndex := 0; Bsp.vIndices := (0, 1, 2) |}]
                plane_x_half empty_leaf Bsp.NULL_tree.

(** ** Further notions *)

(** The first five bytes of a saved mesh: the signature and the version. *)
Definition GLD_header : list byte :=
  cstring_bytes Gld.GLD_FILE_MAGIC ++ Uint8_bytes Gld.GLD_VER.

(** The bytes [SaveGLData] writes for the mesh of the unit triangle. *)
Definition unit_mesh_stream : list byte :=
  match Gld.SaveGLData (Some unit_mesh) with
  | Done bytes => bytes
  | _ => []
  end.

(** A triangle made by [SplitTri] from [aTri]: it has the texture of
    [aTri], and its plane is the one [GetPlaneForTri] gives for its own
    corners. *)
Definition piece_of (aTri n : Bsp.BSPTriNode) : Prop :=
  Bsp.tIndex n = Bsp.tIndex aTri /\
  Bsp.GetPlaneForTri (Bsp.V n) = Some (Bsp.plane n).

(** The length of the movement from [fromPt] to [toPt], as [hasCollision]
    computes it. *)
Definition movement_length (fromPt toPt : Coldet.Vec3) : GLdouble :=
  let '(dir0, dir1, dir2) := Coldet.SUB toPt fromPt in
  F64.sqrt (F64.add (F64.add (F64.mul (to_double dir0) (to_double dir0))
                             (F64.mul (to_double dir1) (to_double dir1)))
                    (F64.mul (to_double dir2) (to_double dir2))).

(** What the loops of [hasCollision] keep true of [(retVal, *dist)]: with
    no hit so far [*dist] is still [FLT_MAX]; otherwise it is the
    parameter of a hit, not negative and not beyond the movement. *)
Definition hit_inv (dirMag : GLdouble) (s : bool * GLfloat) : Prop :=
  if fst s
  then F32.geb (snd s) f_zero = true /\
       F64.leb (to_double (snd s)) dirMag = true
  else snd s = FLT_MAX.

(** A mesh whose arrays [hasCollision] can traverse: the counters fit the
    arrays, and every index of a triangle designates a vertex of the
    table. *)
Definition traversable (g : Gld.GLData) : Prop :=
  0 <= Gld.nMaps g /\
  (Z.to_nat (Gld.nMaps g) <= length (Gld.mapTriNums g))%nat /\
  (Z.to_nat (Gld.nMaps g) <= length (Gld.triFaces g))%nat /\
  forall (i : nat) (n : Z) (row : list Z),
    (i < Z.to_nat (Gld.nMaps g))%nat ->
    Gld.mapTriNums g !! i = Some n -> Gld.triFaces g !! i = Some row ->
    0 <= n /\ 3 * n < 2 ^ 32 /\ 3 * n <= Z.of_nat (length row) /\
    Forall (fun v => 0 <= v /\ 3 * v + 2 < Z.of_nat (length (Gld.vertCoords g)))
           (take (Z.to_nat (3 * n)) row).

(** What the third loop of [GenGLData] keeps true after [i] triangles,
    as long as the counters do not wrap: the table holds at most [3 * i]
    definitions, no texture has more than [i] triangles, and every index
    stored for a triangle designates a definition of the table. *)
Definition idx_inv (i : Z) (t : Gld.VertTab) (ft : Gld.FaceTab) : Prop :=
  0 <= Gld.vt_n t <= 3 * i /\
  (forall (x : nat) (n : Z), Gld.ft_nums ft !! x = Some n -> 0 <= n <= i) /\
  forall (x : nat) (n : Z) (row : list Z),
    Gld.ft_nums ft !! x = Some n -> Gld.ft_faces ft !! x = Some row ->
    Forall (fun v => 0 <= v < Gld.vt_n t) (take (Z.to_nat (3 * n)) row).

(** The tables [GenGLData] starts its third loop with, and the mesh it
    makes of the tables the loop ends with. *)
Definition initial_VertTab (heap : nat -> nat -> Z) (nTri : Z) : Gld.VertTab :=
  {| Gld.vt_n := 0;
     Gld.vt_vert := malloc (fun c => to_Uint32 (heap 0%nat c))
                           (to_Uint32 (3 * 3 * nTri));
     Gld.vt_tex := malloc (fun c => to_Uint32 (heap 1%nat c))
                          (to_Uint32 (2 * 3 * nTri));
     Gld.vt_minX := FLT_MAX; Gld.vt_maxX := FLT_MIN;
     Gld.vt_minY := FLT_MAX; Gld.vt_maxY := FLT_MIN;
     Gld.vt_minZ := FLT_MAX; Gld.vt_maxZ := FLT_MIN |}.

Definition initial_FaceTab (nMaps : Z) (rows : list (list Z)) : Gld.FaceTab :=
  {| Gld.ft_nums := replicate (Z.to_nat nMaps) 0;
     Gld.ft_faces := rows; Gld.ft_numTri := 0; Gld.ft_skipped := false |}.

Definition built_mesh (heap : nat -> nat -> Z) (nMaps : Z)
  (names : list (list byte)) (t : Gld.VertTab) (ft : Gld.FaceTab) : Gld.GLData :=
  {| Gld.nMaps := nMaps;
     Gld.mapNames := names;
     Gld.mapTriNums := Gld.ft_nums ft;
     Gld.nVertices := Gld.vt_n t;
     Gld.vertCoords :=
       if 0 <? Gld.vt_n t
       then realloc (fun c => to_Uint32 (heap 0%nat c))
                    (Gld.vt_vert t) (3 * Gld.vt_n t)
       else Gld.vt_vert t;
     Gld.texCoords :=
       if 0 <? Gld.vt_n t
       then realloc (fun c => to_Uint32 (heap 1%nat c))
                    (Gld.vt_tex t) (2 * Gld.vt_n t)
       else Gld.vt_tex t;
     Gld.minX := Gld.vt_minX t; Gld.maxX := Gld.vt_maxX t;
     Gld.minY := Gld.vt_minY t; Gld.maxY := Gld.vt_maxY t;
     Gld.minZ := Gld.vt_minZ t; Gld.maxZ := Gld.vt_maxZ t;
     Gld.numTri := Gld.ft_numTri ft;
     Gld.triFaces :=
       if (0 <? Gld.vt_n t) && Gld.ft_skipped ft
       then Gld.trim_faces heap (Gld.ft_nums ft) (Gld.ft_faces ft)
       else Gld.ft_faces ft |}.

(** Every index stored for a triangle of the mesh designates a vertex of
    its table, and the index arrays hold the cells the counters announce. *)
Definition indices_valid (g : Gld.GLData) : Prop :=
  forall (i : nat) (n : Z) (row : list Z),
    Gld.mapTriNums g !! i = Some n -> Gld.triFaces g !! i = Some row ->
    0 <= n /\ 3 * n <= Z.of_nat (length row) /\
    Forall (fun v => 0 <= v < Gld.nVertices g) (take (Z.to_nat (3 * n)) row).

(** The bytes [SaveBSPTreeData] writes between the version and the
    tree. *)
Definition fields_bytes (d : Bsp.BSPTreeData) : list byte :=
  Uint16_bytes (Bsp.nMaps d)
  ++ concat (map cstring_bytes (Bsp.mapNames d))
  ++ concat (map Uint32_bytes (Bsp.mapTriNums d))
  ++ Uint16_bytes (Bsp.nVertices d)
  ++ concat (map GLfloat_bytes (Bsp.vertCoords d))
  ++ concat (map GLfloat_bytes (Bsp.texCoords d))
  ++ GLfloat_bytes (Bsp.minX d) ++ GLfloat_bytes (Bsp.maxX d)
  ++ GLfloat_bytes (Bsp.minY d) ++ GLfloat_bytes (Bsp.maxY d)
  ++ GLfloat_bytes (Bsp.minZ d) ++ GLfloat_bytes (Bsp.maxZ d)
  ++ Uint16_bytes (Bsp.maxDepth d) ++ Uint16_bytes (Bsp.numNodes d)
  ++ Uint32_bytes (Bsp.numTri d).

(** Tree data whose fields have the values of their types, whose arrays
    are as large as the counters announce, whose texture names can be
    read back and whose tree can be saved and loaded. *)
Definition wf_bsp (d : Bsp.BSPTreeData) : Prop :=
  is_u16 (Bsp.nMaps d) /\
  length (Bsp.mapNames d) = Z.to_nat (Bsp.nMaps d) /\
  Forall name_ok (Bsp.mapNames d) /\
  length (Bsp.mapTriNums d) = Z.to_nat (Bsp.nMaps d) /\
  Forall is_u32 (Bsp.mapTriNums d) /\
  is_u16 (Bsp.nVertices d) /\
  length (Bsp.vertCoords d) = Z.to_nat (3 * Bsp.nVertices d) /\
  length (Bsp.texCoords d) = Z.to_nat (2 * Bsp.nVertices d) /\
  Forall is_float (Bsp.vertCoords d) /\
  Forall is_float (Bsp.texCoords d) /\
  (is_float (Bsp.minX d) /\ is_float (Bsp.maxX d) /\
   is_float (Bsp.minY d) /\ is_float (Bsp.maxY d) /\
   is_float (Bsp.minZ d) /\ is_float (Bsp.maxZ d)) /\
  is_u16 (Bsp.maxDepth d) /\ is_u16 (Bsp.numNodes d) /\
  is_u32 (Bsp.numTri d) /\
  Bsp.bspTree d <> Bsp.NULL_tree /\
  tree_ok (Bsp.vertCoords d) (Bsp.bspTree d).

(** Every node with triangles carries the plane of its first triangle. *)
Fixpoint planes_consistent (vc : list GLfloat) (t : Bsp.BSPTree) : Prop :=
  match t with
  | Bsp.NULL_tree => True
  | Bsp.mkBSPTree numTri triDefs partPlane back front =>
      (numTri <> 0 -> first_plane vc triDefs = Some partPlane) /\
      planes_consistent vc back /\ planes_consistent vc front
  end.

(** Tree data for the tree [sample_tree], and for the same tree with the
    plane of the triangle at its root. *)
Definition sample_bsp : Bsp.BSPTreeData :=
  {| Bsp.nMaps := 1; Bsp.mapNames := [name_ab]; Bsp.mapTriNums := [1];
     Bsp.nVertices := 3;
     Bsp.vertCoords := unit_triVerts; Bsp.texCoords := unit_triTexCoords;
     Bsp.minX := 0; Bsp.maxX := 0x3F800000;
     Bsp.minY := 0; Bsp.maxY := 0x3F800000;
     Bsp.minZ := 0; Bsp.maxZ := FLT_MIN;
     Bsp.maxDepth := 2; Bsp.numNodes := 2; Bsp.numTri := 1;
     Bsp.bspTree := sample_tree |}.

(** All the triangles of a tree under construction. *)
Fixpoint tree_tris (n : Bsp.IntBSPTreeNode) : list Bsp.BSPTriNode :=
  match n with
  | Bsp.NULL_node => []
  | Bsp.mkIntBSPTreeNode _ _ triHead back front =>
      triHead ++ tree_tris back ++ tree_tris front
  end.

(** A triangle of a working list whose texture index satisfies [P] and
    whose plane is the one [GetPlaneForTri] gives for its corners. *)
Definition tri_ok (P : Z -> Prop) (t : Bsp.BSPTriNode) : Prop :=
  P (Bsp.tIndex t) /\ Bsp.GetPlaneForTri (Bsp.V t) = Some (Bsp.plane t).

(** The shape [BuildBSPTree] gives every node: the coplanar list ends with
    the root triangle, whose plane is the partition; the triangles before
    it were found [COINCIDENT] with the partition; [numTri] counts the
    list in 16 bits. *)
Fixpoint node_ok (n : Bsp.IntBSPTreeNode) : Prop :=
  match n with
  | Bsp.NULL_node => True
  | Bsp.mkIntBSPTreeNode partition numTri triHead back front =>
      (exists (coplanar : list Bsp.BSPTriNode) (rootTri : Bsp.BSPTriNode),
          triHead = coplanar ++ [rootTri] /\
          partition = Bsp.plane rootTri /\
          Forall (fun t => Bsp.ClassifyTri t partition = Bsp.COINCIDENT)
                 coplanar) /\
      numTri = to_Uint16 (Z.of_nat (length triHead)) /\
      node_ok back /\ node_ok front
  end.

Fixpoint int_nodes (n : Bsp.IntBSPTreeNode) : Z :=
  match n with
  | Bsp.NULL_node => 0
  | Bsp.mkIntBSPTreeNode _ _ _ back front => 1 + int_nodes back + int_nodes front
  end.

Fixpoint int_depth (n : Bsp.IntBSPTreeNode) : Z :=
  match n with
  | Bsp.NULL_node => 0
  | Bsp.mkIntBSPTreeNode _ _ _ back front =>
      1 + Z.max (int_depth back) (int_depth front)
  end.

Fixpoint nodes (t : Bsp.BSPTree) : Z :=
  match t with
  | Bsp.NULL_tree => 0
  | Bsp.mkBSPTree _ _ _ back front => 1 + nodes back + nodes front
  end.

(** No usable triangle: a triangle all of whose corners are the origin. *)
Definition flat_triVerts : list GLfloat := replicate 9 0.
Definition flat_triTexCoords : list GLfloat := replicate 6 0.

(** What the local arrays of [SplitTri] hold in the examples. *)
Definition sample_uninit : nat -> nat -> Bsp.Vec3 := fun _ _ => (0, 0, 0).

(** A triangle on the plane x = 0.5 that crosses the plane z = 0 under
    the unit triangle. *)
Definition crossing_tri : Bsp.BSPTriNode :=
  {| Bsp.V := ((0x3F000000, 0, 0xBF800000), (0x3F000000, 0x3F800000, 0),
               (0x3F000000, 0, 0x3F800000));
     Bsp.plane := {| Bsp.A := 0x3FF0000000000000; Bsp.B := 0; Bsp.C := 0;
                     Bsp.D := 0xBFE0000000000000 |};
     Bsp.tIndex := 0; Bsp.T := unit_TexCoords |}.

(** The counters of [BuildBSPTree] before the first call. *)
Definition no_nodes : Bsp.BuildState :=
  {| Bsp.nodesCreated := 0; Bsp.currDepth := 0; Bsp.maxDepthSoFar := 0;
     Bsp.splitCalls := 0 |}.

(** The arrays a caller of [GenBSPTreeData] passes for the unit triangle
    followed by the crossing triangle. *)
Definition crossing_triVerts : list GLfloat :=
  unit_triVerts
  ++ [0x3F000000; 0; 0xBF800000; 0x3F000000; 0x3F800000; 0;
      0x3F000000; 0; 0x3F800000].
Definition crossing_triTexCoords : list GLfloat :=
  unit_triTexCoords ++ unit_triTexCoords.

(** A value of a format [prec], [emax] that has an encoding: a finite
    one has at most [prec] digits and an exponent of the format. *)
Definition encodable (prec emax : Z) (x : spec_float) : Prop :=
  match x with
  | S754_finite _ m e =>
      Zpos (digits2_pos m) <= prec /\ emin prec emax <= e <= emax - prec
  | _ => True
  end.

(** The three coordinates of a position and the two of a texture
    coordinate are [GLfloat]s, and so are the fifteen of a triangle. *)
Definition vec3_floats (v : Bsp.Vec3) : Prop :=
  is_float (fst (fst v)) /\ is_float (snd (fst v)) /\ is_float (snd v).
Definition vec2_floats (t : Bsp.Vec2) : Prop :=
  is_float (fst t) /\ is_float (snd t).
Definition def_floats (d : VertDef) : Prop :=
  vec3_floats (fst d) /\ vec2_floats (snd d).
Definition tri_floats (t : Bsp.BSPTriNode) : Prop :=
  forall i : nat,
    vec3_floats (Bsp.row (Bsp.V t) i) /\ vec2_floats (Bsp.row (Bsp.T t) i).

(** The positions of the three corners of a triangle of the compiled
    tree in a table of definitions. *)
Definition face_verts (tab : list VertDef) (x : Bsp.BSPTriFace)
  : option Bsp.Verts :=
  let '(i0, i1, i2) := Bsp.vIndices x in
  match tab !! Z.to_nat i0, tab !! Z.to_nat i1, tab !! Z.to_nat i2 with
  | Some d0, Some d1, Some d2 => Some (fst d0, fst d1, fst d2)
  | _, _, _ => None
  end.

(** A triangle of the compiled tree whose fields have the values of their
    types, whose texture is one of the [nMaps] textures and whose corners
    are definitions of the table. *)
Definition face_in (nMaps : Z) (tab : list VertDef) (x : Bsp.BSPTriFace)
  : Prop :=
  face_ok x /\ Bsp.texIndex x < nMaps /\ is_Some (face_verts tab x).

(** A compiled tree over a table of definitions: in every node [numTri]
    is the number of triangles, every triangle is in the table, and the
    plane is that of the first triangle; the plane of a node without
    triangles holds doubles. *)
Fixpoint tree_in (nMaps : Z) (tab : list VertDef) (t : Bsp.BSPTree)
  : Prop :=
  match t with
  | Bsp.NULL_tree => True
  | Bsp.mkBSPTree numTri triDefs partPlane back front =>
      is_u16 numTri /\
      numTri = Z.of_nat (length triDefs) /\
      Forall (face_in nMaps tab) triDefs /\
      match triDefs with
      | [] => plane_ok partPlane
      | x :: _ =>
          exists vs : Bsp.Verts,
            face_verts tab x = Some vs /\
            Bsp.GetPlaneForTri vs = Some partPlane
      end /\
      tree_in nMaps tab back /\ tree_in nMaps tab front
  end.

(** The two packed tables of a table of definitions. *)
Definition table_vertCoords (tab : list VertDef) : list GLfloat :=
  concat (map (fun d : VertDef => let '(x, y, z) := fst d in [x; y; z]) tab).
Definition table_texCoords (tab : list VertDef) : list GLfloat :=
  concat (map (fun d : VertDef => let '(u, v) := snd d in [u; v]) tab).

(** A position none of whose coordinates is below the minimum or above
    the maximum of a bounding box, in the order of the comparisons. *)
Definition inside (minX maxX minY maxY minZ maxZ : GLfloat) (v : Bsp.Vec3)
  : Prop :=
  F32.ltb (fst (fst v)) minX = false /\ F32.gtb (fst (fst v)) maxX = false /\
  F32.ltb (snd (fst v)) minY = false /\ F32.gtb (snd (fst v)) maxY = false /\
  F32.ltb (snd v) minZ = false /\ F32.gtb (snd v) maxZ = false.

(** The variables of the conversion between two calls: the blocks of the
    chain are filled in order, the definitions hold [GLfloat]s,
    [numVertDefs] counts them in 16 bits, there is a counter of 32 bits
    for each of the [nMaps] textures, and the bounding box and the number
    of triangles have the values of their types. *)
Definition conv_inv (nMaps : Z) (g : Bsp.Globals) : Prop :=
  chain_wf (Bsp.vertDefsPtr g) /\
  Forall def_floats (chain_table (Bsp.vertDefsPtr g)) /\
  Bsp.numVertDefs g
  = to_Uint16 (Z.of_nat (length (chain_table (Bsp.vertDefsPtr g)))) /\
  length (Bsp.texCtrs g) = Z.to_nat nMaps /\
  Forall is_u32 (Bsp.texCtrs g) /\
  (is_float (Bsp.g_minX g) /\ is_float (Bsp.g_maxX g) /\
   is_float (Bsp.g_minY g) /\ is_float (Bsp.g_maxY g) /\
   is_float (Bsp.g_minZ g) /\ is_float (Bsp.g_maxZ g)) /\
  is_u32 (Bsp.trianglesCreated g) /\
  Forall (fun d : VertDef =>
            inside (Bsp.g_minX g) (Bsp.g_maxX g) (Bsp.g_minY g) (Bsp.g_maxY g)
                   (Bsp.g_minZ g) (Bsp.g_maxZ g) (fst d))
         (chain_table (Bsp.vertDefsPtr g)).

(** The node under conversion with [remaining] triangles still to be
    looked at, [capacity] being the number of cells of [triDefs]. *)
Definition cn_inv (nMaps capacity : Z) (tab : list VertDef)
  (remaining : nat) (n : Bsp.ConvNode) : Prop :=
  is_u16 (Bsp.cn_numTri n) /\
  Bsp.cn_numTri n
  = to_Uint16 (Z.of_nat (length (Bsp.cn_triDefs n)) + Z.of_nat remaining) /\
  Z.of_nat (length (Bsp.cn_triDefs n)) <= capacity /\
  Forall (face_in nMaps tab) (Bsp.cn_triDefs n) /\
  match Bsp.cn_triDefs n with
  | [] => plane_ok (Bsp.cn_partPlane n)
  | x :: _ =>
      exists vs : Bsp.Verts,
        face_verts tab x = Some vs /\
        Bsp.GetPlaneForTri vs = Some (Bsp.cn_partPlane n)
  end.

(** All the triangles of a compiled tree. *)
Fixpoint tree_faces (t : Bsp.BSPTree) : list Bsp.BSPTriFace :=
  match t with
  | Bsp.NULL_tree => []
  | Bsp.mkBSPTree _ triDefs _ back front =>
      triDefs ++ tree_faces back ++ tree_faces front
  end.

(** A triangle that names one of [nMaps] textures and three of
    [nVertices] vertex definitions. *)
Definition face_valid (nMaps nVertices : Z) (x : Bsp.BSPTriFace) : Prop :=
  0 <= Bsp.texIndex x < nMaps /\
  0 <= fst (fst (Bsp.vIndices x)) < nVertices /\
  0 <= snd (fst (Bsp.vIndices x)) < nVertices /\
  0 <= snd (Bsp.vIndices x) < nVertices.

(** In every node [numTri] is the number of triangles of the node. *)
Fixpoint counts_ok (t : Bsp.BSPTree) : Prop :=
  match t with
  | Bsp.NULL_tree => True
  | Bsp.mkBSPTree numTri triDefs _ back front =>
      numTri = Z.of_nat (length triDefs) /\ counts_ok back /\ counts_ok front
  end.

(** The counters [ctrs'] are the counters [ctrs] after the triangles
    [faces] have been counted, each under its texture, in 32 bits. *)
Definition tallied (ctrs ctrs' : list Z) (faces : list Bsp.BSPTriFace) : Prop :=
  length ctrs' = length ctrs /\
  forall (i : nat) (c : Z),
    ctrs !! i = Some c ->
    exists c' : Z,
      ctrs' !! i = Some c' /\
      to_Uint32 c'
      = to_Uint32 (c + occ (Z.of_nat i) (map Bsp.texIndex faces)).

(** A value that is a zero or not a number, and a [GLdouble] that holds
    one: the length of a vector whose coordinates are such is no length
    [GetPlaneForTri] accepts. *)
Definition zero_or_nan (x : spec_float) : Prop :=
  match x with
  | S754_zero _ | S754_nan => True
  | _ => False
  end.
Definition no_length (w : GLdouble) : Prop := zero_or_nan (F64.decode w).

(** What the conversion loop of GLD2BSP is to put in its arrays for a
    mesh: cell [n] of an array (0 outside it), the position and the
    texture coordinates of corner [k] of triangle [j] of a texture, the
    triangles of a texture, and the three arrays for all the textures. *)
Definition cell (l : list Z) (n : Z) : Z := default 0 (l !! Z.to_nat n).

Definition corner_verts (g : Gld.GLData) (row : list Z) (j k : Z)
  : list GLfloat :=
  let v := cell row (3 * j + k) in
  [cell (Gld.vertCoords g) (3 * v + 0); cell (Gld.vertCoords g) (3 * v + 1);
   cell (Gld.vertCoords g) (3 * v + 2)].

Definition corner_tex (g : Gld.GLData) (row : list Z) (j k : Z)
  : list GLfloat :=
  let v := cell row (3 * j + k) in
  [cell (Gld.texCoords g) (2 * v + 0); cell (Gld.texCoords g) (2 * v + 1)].

Fixpoint row_verts (g : Gld.GLData) (row : list Z) (todo : nat) (j : Z)
  : list GLfloat :=
  match todo with
  | O => []
  | S todo' =>
      corner_verts g row j 0 ++ corner_verts g row j 1
      ++ corner_verts g row j 2 ++ row_verts g row todo' (j + 1)
  end.

Fixpoint row_tex (g : Gld.GLData) (row : list Z) (todo : nat) (j : Z)
  : list GLfloat :=
  match todo with
  | O => []
  | S todo' =>
      corner_tex g row j 0 ++ corner_tex g row j 1
      ++ corner_tex g row j 2 ++ row_tex g row todo' (j + 1)
  end.

Fixpoint mesh_triVerts (g : Gld.GLData) (nums : list Z) (faces : list (list Z))
  : list GLfloat :=
  match nums, faces with
  | n :: nums', row :: faces' =>
      row_verts g row (Z.to_nat n) 0 ++ mesh_triVerts g nums' faces'
  | _, _ => []
  end.

Fixpoint mesh_triTexCoords (g : Gld.GLData) (nums : list Z)
  (faces : list (list Z)) : list GLfloat :=
  match nums, faces with
  | n :: nums', row :: faces' =>
      row_tex g row (Z.to_nat n) 0 ++ mesh_triTexCoords g nums' faces'
  | _, _ => []
  end.

Fixpoint mesh_texIndices (i : Z) (nums : list Z) : list Z :=
  match nums with
  | [] => []
  | n :: nums' => replicate (Z.to_nat n) i ++ mesh_texIndices (i + 1) nums'
  end.

(** The sum of the counters of a mesh. *)
Definition total (nums : list Z) : Z := foldr Z.add 0 nums.

(** A value that is not negative: a zero, a NaN, or a value with a clear
    sign. *)
Definition not_negative (x : spec_float) : Prop :=
  match x with
  | S754_zero _ | S754_nan => True
  | S754_infinity s | S754_finite s _ _ => s = false
  end.

(** An input of [GenBSPTreeData] without a triangle that has a plane:
    each of the [nTri] triangles of the arrays can be read and
    [GetPlaneForTri] gives no plane for it. *)
Definition all_degenerate (nTri : Z) (triVerts : list GLfloat)
  (texIndices : list Z) (triTexCoords : list GLfloat) : Prop :=
  forall i : Z, 0 <= i < nTri ->
    exists (tIndex : Z) (Vs : Bsp.Verts) (Ts : Bsp.TexCoords),
      Bsp.input_tri triVerts texIndices triTexCoords i = Done (tIndex, Vs, Ts) /\
      Bsp.GetPlaneForTri Vs = None.

(** A triangle of the plane z = 0 whose first two corners, 0.0005 apart,
    fold into one vertex definition. *)
Definition sliver_tri : Bsp.BSPTriNode :=
  {| Bsp.V := ((0, 0, 0), (0x3A03126F, 0, 0), (0, 0x3F800000, 0));
     Bsp.plane := plane_z0; Bsp.tIndex := 0;
     Bsp.T := ((0, 0), (0, 0), (0, 0x3F800000)) |}.

(** A floor of 65536 triangles, all in the plane z = 0, and the node
    [BuildBSPTree] makes of it: the 16-bit [numTri] has wrapped to 0. *)
Definition flat_floor : list Bsp.BSPTriNode :=
  replicate (Z.to_nat 65536) unit_tri.
Definition wrapped_node : Bsp.IntBSPTreeNode :=
  Bsp.mkIntBSPTreeNode plane_z0 0 flat_floor Bsp.NULL_node Bsp.NULL_node.

(** A coordinate that is finite: a zero or a finite number, neither an
    infinity nor a NaN; and a definition whose five coordinates are. *)
Definition finite (x : GLfloat) : Prop :=
  match F32.decode x with
  | S754_zero _ | S754_finite _ _ _ => True
  | _ => False
  end.

Definition finite_def (d : VertDef) : Prop :=
  let '((x, y, z), (u, v)) := d in
  finite x /\ finite y /\ finite z /\ finite u /\ finite v.

(** The pairs of coordinates whose difference is not a number: one of
    them is a NaN, or both are the same infinity. *)
Definition nan_difference (a b : GLfloat) : Prop :=
  match F32.decode a, F32.decode b with
  | S754_nan, _ | _, S754_nan => True
  | S754_infinity s, S754_infinity s' => s = s'
  | _, _ => False
  end.

(** * Properties *)

(** Floating-point operations and the modular reductions are never
    unfolded by simplification. *)
Arguments within : simpl never.
Arguments to_double : simpl never.
Arguments to_float : simpl never.
Arguments to_Uint8 : simpl never.
Arguments to_Uint16 : simpl never.
Arguments to_Uint32 : simpl never.
Arguments Bsp.GetPlaneForTri : simpl never.
Arguments Bsp.ClassifyPoint : simpl never.
Arguments Bsp.ClassifyTri : simpl never.
Arguments Bsp.IntersectPlaneLineSeg : simpl never.
Arguments Bsp.matches : simpl never.
Arguments Bsp.fmin : simpl never.
Arguments Bsp.fmax : simpl never.
Arguments Gld.fmin : simpl never.
Arguments Gld.fmax : simpl never.
Arguments le_split : simpl never.
Arguments le_combine : simpl never.
Opaque IEEE.decode IEEE.encode IEEE.round.

(** ** Outcomes *)

Lemma bind_Done {A B} (m : outcome A) (f : A -> outcome B) (b : B) :
  m ≫= f = Done b -> exists a, m = Done a /\ f a = Done b.
Proof. destruct m; simpl; try discriminate. eauto. Qed.

Lemma load_Done {A} (a : list A) (i : Z) (v : A) :
  load a i = Done v <-> 0 <= i /\ a !! Z.to_nat i = Some v.
Proof.
  unfold load. destruct (Z.ltb_spec i 0).
  - split; [discriminate | lia].
  - destruct (a !! Z.to_nat i); split; intros H'; try discriminate.
    + inversion H'; subst; auto.
    + destruct H' as [_ H']; inversion H'; subst; auto.
    + destruct H' as [_ H']; discriminate.
Qed.

Lemma store_Done {A} (a : list A) (i : Z) (v : A) (a' : list A) :
  store a i v = Done a' <->
  0 <= i < Z.of_nat (length a) /\ a' = <[Z.to_nat i := v]> a.
Proof.
  unfold store.
  destruct (Z.leb_spec 0 i); destruct (Z.ltb_spec i (Z.of_nat (length a))); simpl;
    split; intros H'; try discriminate; try lia.
  - inversion H'; subst; auto.
  - destruct H' as [_ ->]; auto.
Qed.

(** Inversion of a successful run of monadic code, one step at a time. *)
Ltac inv_outcome H :=
  cbv beta iota in H;
  match type of H with
  | Done _ = Done _ => inversion H; clear H; subst
  | mret _ = Done _ => inversion H; clear H; subst
  | Exit = Done _ => discriminate H
  | Undefined = Done _ => discriminate H
  | OutOfFuel = Done _ => discriminate H
  | mbind _ _ = Done _ =>
      let a := fresh "a" in
      let Ha := fresh "Hrun" in
      apply bind_Done in H; destruct H as (a & Ha & H)
  end.

(** ** GenGLData: rejected inputs *)

Lemma length_replicate_nat {A} (n : nat) (x : A) : length (replicate n x) = n.
Proof. apply length_replicate. Qed.

Lemma count_triangles_rejects (nMaps : Z) (texIndices : list Z) :
  Forall (fun x => 0 <= x) texIndices ->
  forall (todo : nat) (i : Z) (nums : list Z) (bad : Z) (t : Z),
    0 <= i -> i <= bad < i + Z.of_nat todo ->
    texIndices !! Z.to_nat bad = Some t -> nMaps <= t ->
    Z.of_nat (length nums) = Z.max 0 nMaps ->
    Gld.count_triangles todo i nMaps texIndices nums = Done None.
Proof.
  intros Hty. induction todo as [|todo IH]; intros i nums bad t Hi Hbad Ht Hge Hlen.
  - lia.
  - simpl.
    destruct (texIndices !! Z.to_nat i) as [ti|] eqn:Hti.
    2:{ apply lookup_ge_None in Hti. apply lookup_lt_Some in Ht. lia. }
    assert (Hl : load texIndices i = Done ti) by (apply load_Done; auto).
    rewrite Hl; simpl.
    destruct (Z.geb_spec ti nMaps) as [Hbig|Hsmall]; [reflexivity|].
    assert (0 <= ti) by (eapply Forall_lookup_1 in Hty; eauto).
    assert (Hlt : (Z.to_nat ti < length nums)%nat) by lia.
    destruct (lookup_lt_is_Some_2 nums _ Hlt) as [n Hn].
    assert (Hl2 : load nums ti = Done n) by (apply load_Done; auto).
    rewrite Hl2; simpl.
    assert (Hs : store nums ti (to_Uint32 (n + 1))
                 = Done (<[Z.to_nat ti := to_Uint32 (n + 1)]> nums))
      by (apply store_Done; split; [lia | reflexivity]).
    rewrite Hs; simpl.
    assert (bad <> i).
    { intros ->. rewrite Hti in Ht. inversion Ht; subst. lia. }
    apply (IH (i + 1) _ bad t); try lia; auto.
    rewrite length_insert. exact Hlen.
Qed.

(** C9.  When the texture index of some triangle is not below [nMaps],
    [GenGLData] returns [NULL] instead of a mesh.  The caller's
    [texIndices] holds [Uint16] values and at least the cells up to the
    offending one; the other arguments are arbitrary. *)
Theorem GenGLData_rejects_bad_texture_index
  (heap : nat -> nat -> Z) (nTri : Z)
  (triVerts : option (list GLfloat)) (texIndices : list Z)
  (triTexCoords : option (list GLfloat))
  (nMaps : Z) (texMapNames : option (list (list byte)))
  (i t : Z) :
  Forall (fun x => 0 <= x < 2 ^ 16) texIndices ->
  0 <= i < nTri ->
  texIndices !! Z.to_nat i = Some t ->
  nMaps <= t ->
  Gld.GenGLData heap nTri triVerts (Some texIndices) triTexCoords
                nMaps texMapNames = Done None.
Proof.
  intros Hty Hi Ht Hge. unfold Gld.GenGLData.
  destruct triVerts as [tv|]; [|reflexivity].
  destruct triTexCoords as [tc|]; [|reflexivity].
  destruct texMapNames as [names|]; [|reflexivity].
  destruct ((nTri =? 0) || (nMaps =? 0)); [reflexivity|].
  assert (Hpos : Forall (fun x => 0 <= x) texIndices).
  { eapply Forall_impl; [exact Hty|]. simpl; intros; lia. }
  rewrite (count_triangles_rejects nMaps texIndices Hpos
             (Z.to_nat nTri) 0 (replicate (Z.to_nat nMaps) 0) i t);
    [reflexivity | lia | lia | assumption | assumption |].
  rewrite length_replicate. lia.
Qed.

Lemma GenGLData_rejects_bad_texture_index_witness :
  Gld.GenGLData (fun _ _ => 0) 2
    (Some (replicate 18 0)) (Some [0; 3]) (Some (replicate 12 0))
    2 (Some [[Byte.x61]; [Byte.x62]]) = Done None.
Proof.
  apply (GenGLData_rejects_bad_texture_index _ _ _ _ _ _ _ 1 3).
  - repeat constructor; lia.
  - lia.
  - reflexivity.
  - lia.
Defined.

(** C10.  With no triangles, no texture maps or a null array argument,
    [GenGLData] returns [NULL], not an empty mesh. *)
Theorem GenGLData_rejects_empty_input
  (heap : nat -> nat -> Z) (nTri : Z)
  (triVerts : option (list GLfloat)) (texIndices : option (list Z))
  (triTexCoords : option (list GLfloat))
  (nMaps : Z) (texMapNames : option (list (list byte))) :
  nTri = 0 \/ nMaps = 0 \/ triVerts = None \/ texIndices = None \/
  triTexCoords = None \/ texMapNames = None ->
  Gld.GenGLData heap nTri triVerts texIndices triTexCoords nMaps texMapNames
  = Done None.
Proof.
  intros H. unfold Gld.GenGLData.
  destruct triVerts, texIndices, triTexCoords, texMapNames; try reflexivity.
  destruct H as [->|[->|[H|[H|[H|H]]]]]; try discriminate.
  - reflexivity.
  - rewrite orb_true_r. reflexivity.
Qed.

Lemma GenGLData_rejects_empty_input_witness :
  Gld.GenGLData (fun _ _ => 0) 0
    (Some []) (Some []) (Some []) 1 (Some [[Byte.x61]]) = Done None.
Proof.
  apply GenGLData_rejects_empty_input. left. reflexivity.
Defined.

(** ** hasCollision: no movement *)

Lemma is_zero_float_cases (x : GLfloat) :
  is_zero_float x = true -> x = 0 \/ x = 0x80000000.
Proof.
  unfold is_zero_float. intros H. apply orb_true_iff in H.
  destruct H as [H|H]; apply Z.eqb_eq in H; auto.
Qed.

(** C8.  When [toPt - fromPt] is the zero vector, [hasCollision] reports
    a hit whatever the model is, even one whose arrays could not be
    traversed: no triangle is looked at, and [*dist] keeps [FLT_MAX]. *)
Theorem hasCollision_zero_movement
  (model : Gld.GLData) (fromPt toPt : Coldet.Vec3) :
  is_zero_vector (Coldet.SUB toPt fromPt) = true ->
  Coldet.hasCollision model fromPt toPt = Done (true, FLT_MAX).
Proof.
  unfold Coldet.hasCollision, is_zero_vector.
  destruct (Coldet.SUB toPt fromPt) as [[d0 d1] d2].
  intros H. apply andb_true_iff in H. destruct H as [H H2].
  apply andb_true_iff in H. destruct H as [H0 H1].
  destruct (is_zero_float_cases _ H0) as [->| ->];
    destruct (is_zero_float_cases _ H1) as [->| ->];
    destruct (is_zero_float_cases _ H2) as [->| ->];
    vm_compute; reflexivity.
Qed.

Lemma hasCollision_zero_movement_witness :
  Coldet.hasCollision
    (Gld.mkGLData 1 [[Byte.x61]] [7] 0 [] [] 0 0 0 0 0 0 7 [])
    (0x3F800000, 0x40000000, 0x40400000)
    (0x3F800000, 0x40000000, 0x40400000) = Done (true, FLT_MAX).
Proof.
  apply hasCollision_zero_movement. vm_compute. reflexivity.
Defined.

(** ** SplitTri: the size of the rings *)

(** C3.  For a triangle that [ClassifyTri] finds [SPANNING], the traversal
    of [SplitTri] ends with three or four vertices in each ring; neither
    of the two error exits is taken and the call returns. *)
Theorem SplitTri_spanning_rings
  (uninit : nat -> Bsp.Vec3) (aTri : Bsp.BSPTriNode) (p : Bsp.BSPPlane) :
  Bsp.ClassifyTri aTri p = Bsp.SPANNING ->
  exists r,
    Bsp.walk uninit aTri p = Done r /\
    3 <= Bsp.numFrontVerts r <= 4 /\
    3 <= Bsp.numBackVerts r <= 4 /\
    exists fList bList, Bsp.SplitTri uninit aTri p = Done (fList, bList).
Proof.
  unfold Bsp.ClassifyTri, Bsp.SplitTri, Bsp.walk.
  destruct (Bsp.ClassifyPoint (Bsp.row (Bsp.V aTri) 0) p);
    destruct (Bsp.ClassifyPoint (Bsp.row (Bsp.V aTri) 1) p);
    destruct (Bsp.ClassifyPoint (Bsp.row (Bsp.V aTri) 2) p);
    intros H; vm_compute in H; try discriminate H; clear H;
    (eexists; split; [reflexivity|]);
    (split; [vm_compute; split; discriminate|]);
    (split; [vm_compute; split; discriminate|]);
    do 2 eexists; reflexivity.
Qed.

(** ** SelectNextRoot *)

Lemma count_kind_nonneg kind pl ts : 0 <= count_kind kind pl ts.
Proof. unfold count_kind. lia. Qed.

Lemma count_kind_le kind pl ts : count_kind kind pl ts <= Z.of_nat (length ts).
Proof. unfold count_kind. pose proof (length_filter (fun t => Bsp.ClassifyTri t pl = kind) ts). lia. Qed.

Lemma count_kind_cons kind pl t ts :
  count_kind kind pl (t :: ts) =
  (if decide (Bsp.ClassifyTri t pl = kind) then 1 else 0) + count_kind kind pl ts.
Proof.
  unfold count_kind. rewrite filter_cons.
  destruct (decide (Bsp.ClassifyTri t pl = kind)); simpl; lia.
Qed.

Lemma to_Uint32_small z : 0 <= z < 2 ^ 32 -> to_Uint32 z = z.
Proof. intros. unfold to_Uint32. apply Z.mod_small. lia. Qed.

Lemma to_Uint16_small z : 0 <= z < 2 ^ 16 -> to_Uint16 z = z.
Proof. intros. unfold to_Uint16. apply Z.mod_small. lia. Qed.

(** The inner loop counts the triangles at positions other than [curr]. *)
Lemma count_against_spec pl curr tests :
  forall k s f b o,
    0 <= s -> 0 <= f -> 0 <= b -> 0 <= o ->
    s + f + b + o + Z.of_nat (length tests) < 2 ^ 32 ->
    Bsp.count_against pl curr k tests (s, f, b, o) =
    let others := if (curr <? k)%nat then tests else delete (curr - k)%nat tests in
    (s + count_kind Bsp.SPANNING pl others,
     f + count_kind Bsp.IN_FRONT pl others,
     b + count_kind Bsp.IN_BACK pl others,
     o + count_kind Bsp.COINCIDENT pl others).
Proof.
  induction tests as [|t rest IH]; intros k s f b o Hs Hf Hb Ho Hlen.
  - simpl. destruct (curr <? k)%nat; unfold count_kind; simpl;
      repeat f_equal; lia.
  - simpl in Hlen. cbn [Bsp.count_against].
    destruct (Nat.eqb_spec k curr) as [->|Hne].
    + rewrite IH by lia.
      replace (curr <? S curr)%nat with true by (symmetry; apply Nat.ltb_lt; lia).
      replace (curr <? curr)%nat with false by (symmetry; apply Nat.ltb_ge; lia).
      replace (curr - curr)%nat with 0%nat by lia. reflexivity.
    + assert (Hrec :
        (if (curr <? k)%nat then t :: rest else delete (curr - k)%nat (t :: rest))
        = t :: (if (curr <? S k)%nat then rest else delete (curr - S k)%nat rest)).
      { destruct (Nat.ltb_spec curr k).
        - replace (curr <? S k)%nat with true by (symmetry; apply Nat.ltb_lt; lia).
          reflexivity.
        - replace (curr <? S k)%nat with false by (symmetry; apply Nat.ltb_ge; lia).
          replace (curr - k)%nat with (S (curr - S k)) by lia. reflexivity. }
      cbv zeta. rewrite Hrec. rewrite !count_kind_cons.
      destruct (Bsp.ClassifyTri t pl) eqn:Hty;
        rewrite IH by (rewrite ?to_Uint32_small; lia);
        cbv zeta; rewrite ?to_Uint32_small by lia;
        repeat (destruct (decide _) as [?|?]; try congruence);
        repeat match goal with |- (_, _) = (_, _) => f_equal end; lia.
Qed.

(** Within the range of the counters the score of the source is the score
    of the specification, and it stays below [UINT_MAX]. *)
Lemma score_spec (l : list Bsp.BSPTriNode) (k : nat) (c : Bsp.BSPTriNode) :
  Z.of_nat (length l) < 2 ^ 31 ->
  l !! k = Some c ->
  Bsp.score l k c = root_score l k /\ 0 <= root_score l k < UINT_MAX.
Proof.
  intros Hlen Hk. unfold Bsp.score, root_score. rewrite Hk.
  rewrite count_against_spec by (simpl; lia).
  replace (k <? 0)%nat with false by reflexivity.
  replace (k - 0)%nat with k by lia. cbv zeta.
  set (others := delete k l).
  pose proof (count_kind_nonneg Bsp.SPANNING (Bsp.plane c) others).
  pose proof (count_kind_nonneg Bsp.IN_FRONT (Bsp.plane c) others).
  pose proof (count_kind_nonneg Bsp.IN_BACK (Bsp.plane c) others).
  pose proof (count_kind_le Bsp.SPANNING (Bsp.plane c) others).
  pose proof (count_kind_le Bsp.IN_FRONT (Bsp.plane c) others).
  pose proof (count_kind_le Bsp.IN_BACK (Bsp.plane c) others).
  assert (Hlo : Z.of_nat (length others) < Z.of_nat (length l)).
  { subst others. rewrite length_delete by eauto.
    apply lookup_lt_Some in Hk. lia. }
  set (s := count_kind Bsp.SPANNING (Bsp.plane c) others) in *.
  set (f := count_kind Bsp.IN_FRONT (Bsp.plane c) others) in *.
  set (b := count_kind Bsp.IN_BACK (Bsp.plane c) others) in *.
  rewrite !Z.add_0_l.
  assert (Habs : Z.abs (to_int (to_Uint32 (f - b))) = Z.abs (f - b)).
  { f_equal. unfold to_int, to_Uint32. rewrite Z.mod_mod by lia.
    destruct (Z.le_gt_cases b f).
    - rewrite (Z.mod_small (f - b)) by lia.
      destruct (Z.ltb_spec (f - b) (2 ^ 31)); lia.
    - replace ((f - b) mod 2 ^ 32) with (f - b + 2 ^ 32).
      + destruct (Z.ltb_spec (f - b + 2 ^ 32) (2 ^ 31)); lia.
      + apply Z.mod_unique with (q := -1); lia. }
  rewrite Habs. unfold UINT_MAX.
  rewrite (to_Uint32_small (Z.abs (f - b))) by lia.
  rewrite to_Uint32_small by lia. lia.
Qed.

Lemma scan_spec (l : list Bsp.BSPTriNode) (sc : nat -> Z) :
  (forall j c, l !! j = Some c -> Bsp.score l j c = sc j /\ 0 <= sc j < UINT_MAX) ->
  forall cands curr minScore bestNode,
    drop curr l = cands ->
    (curr <= length l)%nat ->
    l <> [] ->
    scan_inv sc curr minScore bestNode ->
    exists k,
      Bsp.scan l cands curr minScore bestNode = Some k /\
      (k < length l)%nat /\
      (forall j, (j < k)%nat -> sc k < sc j) /\
      (sc k = 0 \/ forall j, (k < j < length l)%nat -> sc k <= sc j).
Proof.
  intros Hsc.
  induction cands as [|c rest IH]; intros curr ms best Hdrop Hcl Hne Hinv.
  - assert (Hlen : (length l <= curr)%nat).
    { apply (f_equal length) in Hdrop. rewrite length_drop in Hdrop.
      simpl in Hdrop. lia. }
    destruct Hinv as [Hnz Hb]. destruct best as [b|].
    + destruct Hb as (Hbc & Hbs & Hlt & Hge). exists b. simpl.
      split; [reflexivity|]. split; [lia|].
      split; [intros j Hj; rewrite Hbs; auto|].
      right. intros j Hj. rewrite Hbs. apply Hge. lia.
    + destruct Hb as [-> _]. destruct l; [congruence|]. simpl in Hlen. lia.
  - assert (Hc : l !! curr = Some c).
    { rewrite <- (Nat.add_0_r curr). rewrite <- lookup_drop. rewrite Hdrop.
      reflexivity. }
    assert (Hrest : drop (S curr) l = rest).
    { erewrite drop_S in Hdrop by exact Hc. congruence. }
    destruct (Hsc _ _ Hc) as [Hscore Hrange].
    cbn [Bsp.scan]. rewrite Hscore.
    destruct Hinv as [Hnz Hb].
    destruct (Z.ltb_spec (sc curr) ms) as [Hlt|Hge].
    + (* the candidate becomes the best node *)
      assert (Hearlier : forall j, (j < curr)%nat -> sc curr < sc j).
      { intros j Hj. destruct best as [b|].
        - destruct Hb as (Hbc & Hbs & Hblt & Hbge).
          assert (j < b \/ j = b \/ b < j < curr)%nat as [H|[->|H]] by lia.
          + specialize (Hblt _ H). lia.
          + lia.
          + specialize (Hbge _ H). lia.
        - destruct Hb as [-> _]. lia. }
      destruct (Z.eqb_spec (sc curr) 0) as [Hz|Hnz'].
      * exists curr. split; [reflexivity|].
        split; [apply lookup_lt_Some in Hc; exact Hc|].
        split; [exact Hearlier|]. left. exact Hz.
      * apply IH; auto; [apply lookup_lt_Some in Hc; lia|]. split.
        -- intros j Hj. assert (j < curr \/ j = curr)%nat as [H| ->] by lia; auto.
        -- repeat split; try lia. intros j Hj. specialize (Hearlier j). lia.
    + destruct (Z.eqb_spec (sc curr) 0) as [Hz|Hnz'].
      * (* impossible: a zero score is below any minimum seen so far *)
        destruct best as [b|].
        -- destruct Hb as (Hbc & Hbs & Hblt & Hbge).
           assert (Hb0 : (b < length l)%nat) by (apply lookup_lt_Some in Hc; lia).
           destruct (lookup_lt_is_Some_2 l b Hb0) as [cb Hlb].
           destruct (Hsc _ _ Hlb) as [_ Hbr].
           assert (sc b = 0) by lia. exfalso. apply (Hnz b); auto.
        -- destruct Hb as [_ ->]. lia.
      * apply IH; auto; [apply lookup_lt_Some in Hc; lia|]. split.
        -- intros j Hj. assert (j < curr \/ j = curr)%nat as [H| ->] by lia; auto.
        -- destruct best as [b|].
           ++ destruct Hb as (Hbc & Hbs & Hblt & Hbge).
              repeat split; try lia; auto.
              intros j Hj. assert (j < curr \/ j = curr)%nat as [H| ->] by lia.
              ** apply Hbge. lia.
              ** lia.
           ++ destruct Hb as [_ ->]. lia.
Qed.

(** C4.  For a non-empty working list (of a length the counters can
    hold), [SelectNextRoot] returns the triangle at some position [k] and
    the list without it, where: the score of [k] is
    [splits + |inFront - inBack|] over every other triangle; every earlier
    candidate scores strictly more (minimum, first seen wins ties); and
    either [k] scores 0, the scan stopping there, or no later candidate
    scores less.  In particular the first candidate that scores 0, if
    any, is the one selected. *)
Theorem SelectNextRoot_selects (triList : list Bsp.BSPTriNode) :
  triList <> [] ->
  Z.of_nat (length triList) < 2 ^ 31 ->
  exists (k : nat) (root : Bsp.BSPTriNode),
    Bsp.SelectNextRoot triList = (Some root, delete k triList) /\
    triList !! k = Some root /\
    Bsp.score triList k root = root_score triList k /\
    (forall j, (j < k)%nat -> root_score triList k < root_score triList j) /\
    (root_score triList k = 0 \/
     forall j, (k < j < length triList)%nat ->
               root_score triList k <= root_score triList j) /\
    (forall z, (z < length triList)%nat -> root_score triList z = 0 ->
               (k <= z)%nat /\ root_score triList k = 0).
Proof.
  intros Hne Hlen.
  assert (Hsc : forall j c, triList !! j = Some c ->
            Bsp.score triList j c = root_score triList j /\
            0 <= root_score triList j < UINT_MAX).
  { intros j c Hj. apply score_spec; auto. }
  assert (Hinv : scan_inv (root_score triList) 0 UINT_MAX None).
  { split; [intros j Hj; lia | split; reflexivity]. }
  destruct (scan_spec triList (root_score triList) Hsc triList 0%nat UINT_MAX None
              eq_refl ltac:(lia) Hne Hinv)
    as (k & Hscan & Hk & Hearlier & Hlater).
  destruct (lookup_lt_is_Some_2 triList k Hk) as [root Hroot].
  exists k, root. unfold Bsp.SelectNextRoot, Bsp.RemoveTriFromList.
  rewrite Hscan, Hroot.
  split; [reflexivity|]. split; [reflexivity|].
  split; [apply Hsc; exact Hroot|].
  split; [exact Hearlier|]. split; [exact Hlater|].
  intros z Hz Hz0.
  destruct (Hsc _ _ Hroot) as [_ Hkr].
  assert (k <= z)%nat as Hkz.
  { destruct (Nat.le_gt_cases k z); auto.
    specialize (Hearlier z ltac:(lia)). lia. }
  split; [exact Hkz|].
  destruct Hlater as [H0|Hl]; [exact H0|].
  assert (k = z \/ k < z)%nat as [->|Hlt] by lia; auto.
  specialize (Hl z ltac:(lia)). lia.
Qed.

(** ** ConvIntBSPTree: what a converted node holds *)

Lemma search_chain_found (v : Bsp.Vec3) (t : Bsp.Vec2) :
  forall chain r0 r resV chain',
    Bsp.search_chain chain r0 v t = (r, resV, chain', false) -> chain' = chain.
Proof.
  induction chain as [|blk next IH]; intros r0 r resV chain' H.
  - simpl in H. inversion H.
  - simpl in H.
    destruct (Bsp.search_block blk r0 v t) as [[found|] r1].
    + inversion H; subst. reflexivity.
    + destruct (Z.of_nat (length blk) <? Bsp.DEFS_BLK_SIZE).
      * inversion H.
      * destruct (Bsp.search_chain next r1 v t) as [[[r2 resV2] next'] added] eqn:Hn.
        inversion H; subst. f_equal. eapply IH. exact Hn.
Qed.

Lemma GetVertDefIndex_canon (v : Bsp.Vec3) (t : Bsp.Vec2) (g : Bsp.Globals) :
  exists g',
    Bsp.GetVertDefIndex v t g =
      (fst (fst (canon_vertex (Bsp.vertDefsPtr g) v t)),
       snd (fst (canon_vertex (Bsp.vertDefsPtr g) v t)), g') /\
    Bsp.vertDefsPtr g' = snd (canon_vertex (Bsp.vertDefsPtr g) v t) /\
    Bsp.texCtrs g' = Bsp.texCtrs g.
Proof.
  unfold Bsp.GetVertDefIndex, canon_vertex.
  destruct (Bsp.search_chain (Bsp.vertDefsPtr g) 0 v t)
    as [[[r resV] chain] added] eqn:Hs.
  destruct added.
  - destruct v as [[v0 v1] v2]. eexists. split; [reflexivity|]. split; reflexivity.
  - exists g. split; [reflexivity|]. simpl.
    split; [|reflexivity]. symmetry. eapply search_chain_found. exact Hs.
Qed.

Lemma conv_tri_spec (capacity : Z) (tri : Bsp.BSPTriNode)
  (n : Bsp.ConvNode) (g : Bsp.Globals) :
  0 <= Bsp.tIndex tri < Z.of_nat (length (Bsp.texCtrs g)) ->
  Z.of_nat (length (Bsp.cn_triDefs n)) < capacity ->
  exists n' g',
    Bsp.conv_tri capacity tri (n, g) = Done (n', g') /\
    Bsp.vertDefsPtr g' = snd (canon_tri (Bsp.vertDefsPtr g) tri) /\
    length (Bsp.texCtrs g') = length (Bsp.texCtrs g) /\
    let x := (tri, fst (fst (canon_tri (Bsp.vertDefsPtr g) tri)),
              snd (fst (canon_tri (Bsp.vertDefsPtr g) tri))) in
    if dropped x then
      n' = {| Bsp.cn_numTri := to_Uint16 (Bsp.cn_numTri n - 1);
              Bsp.cn_triDefs := Bsp.cn_triDefs n;
              Bsp.cn_partPlane := Bsp.cn_partPlane n |}
    else
      Bsp.cn_numTri n' = Bsp.cn_numTri n /\
      Bsp.cn_triDefs n' = Bsp.cn_triDefs n ++ [face_of x] /\
      Some (Bsp.cn_partPlane n') =
        (if Z.of_nat (length (Bsp.cn_triDefs n)) =? 0
         then Bsp.GetPlaneForTri (snd x)
         else Some (Bsp.cn_partPlane n)).
Proof.
  intros Hti Hcap. unfold Bsp.conv_tri, canon_tri.
  destruct (GetVertDefIndex_canon (Bsp.row (Bsp.V tri) 0) (Bsp.row (Bsp.T tri) 0) g)
    as (g0 & E0 & C0 & X0).
  rewrite E0.
  destruct (canon_vertex (Bsp.vertDefsPtr g) (Bsp.row (Bsp.V tri) 0)
              (Bsp.row (Bsp.T tri) 0)) as [[i0 r0] ch0]. simpl in C0 |- *.
  destruct (GetVertDefIndex_canon (Bsp.row (Bsp.V tri) 1) (Bsp.row (Bsp.T tri) 1) g0)
    as (g1 & E1 & C1 & X1).
  rewrite E1, C0.
  rewrite C0 in C1.
  destruct (canon_vertex ch0 (Bsp.row (Bsp.V tri) 1)
              (Bsp.row (Bsp.T tri) 1)) as [[i1 r1] ch1]. simpl in C1 |- *.
  destruct (GetVertDefIndex_canon (Bsp.row (Bsp.V tri) 2) (Bsp.row (Bsp.T tri) 2) g1)
    as (g2 & E2 & C2 & X2).
  rewrite E2, C1.
  rewrite C1 in C2.
  destruct (canon_vertex ch1 (Bsp.row (Bsp.V tri) 2)
              (Bsp.row (Bsp.T tri) 2)) as [[i2 r2] ch2]. simpl in C2 |- *.
  assert (Hctr : Bsp.texCtrs g2 = Bsp.texCtrs g) by congruence.
  destruct ((i0 =? i1) || (i1 =? i2) || (i2 =? i0)) eqn:Heq.
  - simpl. do 2 eexists. split; [reflexivity|].
    split; [exact C2|]. split; [congruence|]. reflexivity.
  - simpl. destruct (Bsp.GetPlaneForTri (r0, r1, r2)) as [tmpPlane|] eqn:Hpl.
    + destruct (Z.leb_spec capacity (Z.of_nat (length (Bsp.cn_triDefs n)))) as [?|_];
        [lia|].
      assert (Hlt : (Z.to_nat (Bsp.tIndex tri) < length (Bsp.texCtrs g2))%nat)
        by (rewrite Hctr; lia).
      destruct (lookup_lt_is_Some_2 _ _ Hlt) as [ctr Hc].
      assert (Hl : load (Bsp.texCtrs g2) (Bsp.tIndex tri) = Done ctr)
        by (apply load_Done; split; [lia|exact Hc]).
      rewrite Hl. simpl.
      assert (Hs : store (Bsp.texCtrs g2) (Bsp.tIndex tri) (to_Uint32 (ctr + 1))
                   = Done (<[Z.to_nat (Bsp.tIndex tri) := to_Uint32 (ctr + 1)]>
                             (Bsp.texCtrs g2)))
        by (apply store_Done; split; [rewrite Hctr; lia | reflexivity]).
      rewrite Hs. simpl.
      do 2 eexists. split; [reflexivity|]. simpl.
      split; [exact C2|]. split; [rewrite length_insert; congruence|].
      split; [reflexivity|]. split; [reflexivity|].
      destruct (Z.of_nat (length (Bsp.cn_triDefs n)) =? 0); reflexivity.
    + do 2 eexists. split; [reflexivity|].
      split; [exact C2|]. split; [congruence|]. reflexivity.
Qed.

Lemma survivors_cons (chain : list Bsp.VertDefs) (tri : Bsp.BSPTriNode)
  (rest : list Bsp.BSPTriNode) :
  survivors chain (tri :: rest) =
  let x := (tri, fst (fst (canon_tri chain tri)), snd (fst (canon_tri chain tri))) in
  if dropped x then survivors (snd (canon_tri chain tri)) rest
  else x :: survivors (snd (canon_tri chain tri)) rest.
Proof.
  unfold survivors. cbn [canon_tris].
  destruct (canon_tri chain tri) as [[idx resV] chain']. cbn [fst snd].
  rewrite filter_cons.
  destruct (dropped (tri, idx, resV)); destruct (decide _); congruence.
Qed.

Lemma length_survivors (chain : list Bsp.VertDefs) (tris : list Bsp.BSPTriNode) :
  (length (survivors chain tris) <= length tris)%nat.
Proof.
  revert chain. induction tris as [|tri rest IH]; intros chain.
  - reflexivity.
  - rewrite survivors_cons. cbv zeta.
    destruct (dropped _); simpl; specialize (IH (snd (canon_tri chain tri))); lia.
Qed.

Lemma conv_tris_spec (capacity : Z) :
  forall (tris : list Bsp.BSPTriNode) (n : Bsp.ConvNode) (g : Bsp.Globals),
    Forall (fun t => 0 <= Bsp.tIndex t < Z.of_nat (length (Bsp.texCtrs g))) tris ->
    Z.of_nat (length (Bsp.cn_triDefs n)) + Z.of_nat (length tris) <= capacity ->
    0 <= Bsp.cn_numTri n < 2 ^ 16 ->
    exists n' g',
      Bsp.conv_tris capacity tris (n, g) = Done (n', g') /\
      let kept := survivors (Bsp.vertDefsPtr g) tris in
      Bsp.cn_triDefs n' = Bsp.cn_triDefs n ++ map face_of kept /\
      Bsp.cn_numTri n' =
        to_Uint16 (Bsp.cn_numTri n
                   - (Z.of_nat (length tris) - Z.of_nat (length kept))) /\
      Some (Bsp.cn_partPlane n') =
        (if Z.of_nat (length (Bsp.cn_triDefs n)) =? 0
         then converted_plane (Bsp.cn_partPlane n) kept
         else Some (Bsp.cn_partPlane n)).
Proof.
  induction tris as [|tri rest IH]; intros n g Hti Hcap Hrange.
  - exists n, g. split; [reflexivity|]. cbv zeta. unfold survivors. simpl.
    rewrite app_nil_r. split; [reflexivity|].
    split; [rewrite Z.sub_0_r, to_Uint16_small by lia; reflexivity|].
    destruct (Z.of_nat (length (Bsp.cn_triDefs n)) =? 0); reflexivity.
  - inversion Hti as [|? ? Ht Hrest]; subst. simpl in Hcap.
    destruct (conv_tri_spec capacity tri n g Ht ltac:(lia))
      as (n1 & g1 & Hrun & Hch & Hlen & Hcase).
    cbn [Bsp.conv_tris]. rewrite Hrun. simpl.
    rewrite survivors_cons. cbv zeta in Hcase |- *.
    rewrite <- Hch.
    pose proof (length_survivors (Bsp.vertDefsPtr g1) rest) as Hle.
    destruct (dropped _) eqn:Hdrop.
    + subst n1.
      destruct (IH {|
          Bsp.cn_numTri := to_Uint16 (Bsp.cn_numTri n - 1);
          Bsp.cn_triDefs := Bsp.cn_triDefs n;
          Bsp.cn_partPlane := Bsp.cn_partPlane n |} g1)
        as (n' & g' & Hrun' & Hdefs & Hnum & Hplane).
      * rewrite Hlen. exact Hrest.
      * simpl. lia.
      * simpl. unfold to_Uint16. apply Z.mod_pos_bound. lia.
      * exists n', g'. split; [exact Hrun'|]. simpl in Hdefs, Hnum, Hplane.
        split; [exact Hdefs|]. split; [|exact Hplane].
        rewrite Hnum. unfold to_Uint16.
        rewrite Zminus_mod_idemp_l. f_equal. lia.
    + destruct Hcase as (Hn1 & Hd1 & Hp1).
      destruct (IH n1 g1) as (n' & g' & Hrun' & Hdefs & Hnum & Hplane).
      * rewrite Hlen. exact Hrest.
      * rewrite Hd1, length_app. simpl. lia.
      * rewrite Hn1. exact Hrange.
      * exists n', g'. split; [exact Hrun'|].
        split; [rewrite Hdefs, Hd1, <- app_assoc; reflexivity|].
        split; [rewrite Hnum, Hn1; f_equal; simpl; lia|].
        rewrite Hplane, Hd1, length_app. simpl.
        replace (Z.of_nat (length (Bsp.cn_triDefs n) + 1) =? 0) with false
          by (symmetry; apply Z.eqb_neq; lia).
        rewrite Hp1. reflexivity.
Qed.

(** C5 (as amended).  A node whose [numTri] counts its coplanar list (within [Uint16])
    and whose texture indices have a counter is converted as follows: the
    faces kept are, in order, exactly the triangles that are not [dropped]
    (two equal canonical indices, or a degenerate plane of the canonical
    positions); [numTri] is their number; the plane is the one re-derived
    from the first survivor, or the plane of the construction when no
    triangle survives.  [ConvIntBSPTree] returns this node with its
    converted children. *)
Theorem ConvIntBSPTree_node
  (partition : Bsp.BSPPlane) (numTri : Z) (triHead : list Bsp.BSPTriNode)
  (back front : Bsp.IntBSPTreeNode) (g : Bsp.Globals) :
  numTri = Z.of_nat (length triHead) ->
  numTri < 2 ^ 16 ->
  Forall (fun t => 0 <= Bsp.tIndex t < Z.of_nat (length (Bsp.texCtrs g))) triHead ->
  let kept := survivors (Bsp.vertDefsPtr g) triHead in
  exists n g1,
    Bsp.conv_node partition numTri triHead g = Done (n, g1) /\
    Bsp.cn_triDefs n = map face_of kept /\
    Bsp.cn_numTri n = Z.of_nat (length kept) /\
    Some (Bsp.cn_partPlane n) = converted_plane partition kept /\
    forall tree g',
      Bsp.ConvIntBSPTree
        (Bsp.mkIntBSPTreeNode partition numTri triHead back front) g
      = Done (tree, g') ->
      exists b f,
        tree = Bsp.mkBSPTree (Bsp.cn_numTri n) (Bsp.cn_triDefs n)
                             (Bsp.cn_partPlane n) b f.
Proof.
  intros Hnum Hrange Hti kept.
  destruct (conv_tris_spec numTri triHead
              {| Bsp.cn_numTri := numTri; Bsp.cn_triDefs := [];
                 Bsp.cn_partPlane := partition |} g Hti)
    as (n & g1 & Hrun & Hdefs & Hcount & Hplane).
  { simpl. lia. }
  { simpl. lia. }
  simpl in Hdefs, Hcount, Hplane. fold kept in Hdefs, Hcount, Hplane.
  pose proof (length_survivors (Bsp.vertDefsPtr g) triHead) as Hle.
  fold kept in Hle.
  assert (Hcount' : Bsp.cn_numTri n = Z.of_nat (length kept)).
  { rewrite Hcount. rewrite to_Uint16_small by lia. lia. }
  assert (Hlen : length (Bsp.cn_triDefs n) = length kept).
  { rewrite Hdefs, length_map. reflexivity. }
  assert (Htrim :
    (if Bsp.cn_numTri n =? 0 then []
     else if Bsp.cn_numTri n <? numTri
          then take (Z.to_nat (Bsp.cn_numTri n)) (Bsp.cn_triDefs n)
          else Bsp.cn_triDefs n) = Bsp.cn_triDefs n).
  { destruct (Z.eqb_spec (Bsp.cn_numTri n) 0) as [H0|H0].
    - destruct (Bsp.cn_triDefs n); [reflexivity|]. simpl in Hlen. lia.
    - destruct (Bsp.cn_numTri n <? numTri); [|reflexivity].
      apply firstn_all2. lia. }
  assert (Hnode : Bsp.conv_node partition numTri triHead g =
    Done ({| Bsp.cn_numTri := Bsp.cn_numTri n;
             Bsp.cn_triDefs := Bsp.cn_triDefs n;
             Bsp.cn_partPlane := Bsp.cn_partPlane n |},
          Bsp.set_trianglesCreated g1
            (to_Uint32 (Bsp.trianglesCreated g1 + Bsp.cn_numTri n)))).
  { unfold Bsp.conv_node. rewrite Hrun. simpl. rewrite Htrim. reflexivity. }
  do 2 eexists. split; [exact Hnode|]. simpl.
  split; [exact Hdefs|]. split; [exact Hcount'|]. split; [exact Hplane|].
  intros tree g' Hconv. cbn [Bsp.ConvIntBSPTree] in Hconv.
  rewrite Hnode in Hconv. simpl in Hconv.
  inv_outcome Hconv. destruct a as [b gb]. inv_outcome Hconv.
  destruct a as [f gf]. inv_outcome Hconv.
  exists b, f. reflexivity.
Qed.

(** ** The shared vertex tables *)

Lemma matches_false_apart (d : VertDef) (v : Bsp.Vec3) (t : Bsp.Vec2) :
  Bsp.matches d v t = false -> apart d (v, t).
Proof.
  destruct d as [[[x1 y1] z1] [u1 v1]]. destruct v as [[x2 y2] z2].
  destruct t as [u2 v2]. unfold Bsp.matches, apart, coordinate_apart.
  intros H. repeat (apply andb_false_iff in H; destruct H as [H|H]); auto.
Qed.

Lemma search_block_none (v : Bsp.Vec3) (t : Bsp.Vec2) :
  forall blk r0 r,
    Bsp.search_block blk r0 v t = (None, r) ->
    Forall (fun d => Bsp.matches d v t = false) blk.
Proof.
  induction blk as [|d rest IH]; intros r0 r H.
  - constructor.
  - simpl in H. destruct (Bsp.matches d v t) eqn:Hm; [discriminate|].
    constructor; [exact Hm|]. eapply IH. exact H.
Qed.

Lemma search_chain_added (v : Bsp.Vec3) (t : Bsp.Vec2) :
  forall chain r0 r resV chain',
    chain_wf chain ->
    Bsp.search_chain chain r0 v t = (r, resV, chain', true) ->
    chain_wf chain' /\
    chain_table chain' = chain_table chain ++ [(v, t)] /\
    Forall (fun d => Bsp.matches d v t = false) (chain_table chain).
Proof.
  unfold chain_table.
  induction chain as [|blk next IH]; intros r0 r resV chain' Hwf H.
  - simpl in H. inversion H; subst. simpl.
    unfold Bsp.DEFS_BLK_SIZE. repeat split; auto; try lia. intros Hn; exfalso; apply Hn; reflexivity.
  - simpl in H. destruct Hwf as (Hle & Hfull' & Hwf').
    destruct (Bsp.search_block blk r0 v t) as [[found|] r1] eqn:Hb;
      [inversion H|].
    apply search_block_none in Hb.
    destruct (Z.ltb_spec (Z.of_nat (length blk)) Bsp.DEFS_BLK_SIZE) as [Hroom|Hfull].
    + inversion H; subst.
      destruct next as [|b2 next'].
      * simpl. rewrite !app_nil_r. rewrite length_app. simpl.
        repeat split; auto; try lia. intros Hn; exfalso; apply Hn; reflexivity.
      * exfalso. specialize (Hfull' ltac:(discriminate)). lia.
    + destruct (Bsp.search_chain next r1 v t) as [[[r2 resV2] next'] added] eqn:Hn.
      inversion H; subst.
      destruct (IH _ _ _ _ Hwf' Hn) as (Hw & Ht & Hall).
      split; [|split].
      * simpl. repeat split; auto. intros _. lia.
      * simpl. rewrite Ht, app_assoc. reflexivity.
      * simpl. apply Forall_app. split; assumption.
Qed.

Lemma table_apart_snoc (l : list VertDef) (d : VertDef) :
  table_apart l ->
  Forall (fun d1 => apart d1 d) l ->
  table_apart (l ++ [d]).
Proof.
  intros Hl Hall i j d1 d2 Hij H1 H2.
  assert (Hj : (j < length (l ++ [d]))%nat) by (eapply lookup_lt_Some; eauto).
  rewrite length_app in Hj. simpl in Hj.
  assert (Hi : (i < length l)%nat) by lia.
  rewrite lookup_app_l in H1 by exact Hi.
  assert (j < length l \/ j = length l)%nat as [Hjl| ->] by lia.
  - rewrite lookup_app_l in H2 by exact Hjl. exact (Hl i j d1 d2 Hij H1 H2).
  - rewrite lookup_app_r in H2 by lia.
    replace (length l - length l)%nat with 0%nat in H2 by lia.
    simpl in H2. inversion H2; subst.
    exact (Forall_lookup_1 _ _ _ _ Hall H1).
Qed.

Lemma GetVertDefIndex_inv (v : Bsp.Vec3) (t : Bsp.Vec2) (g : Bsp.Globals) :
  table_inv g -> table_inv (snd (Bsp.GetVertDefIndex v t g)).
Proof.
  intros [Hwf Hap]. unfold Bsp.GetVertDefIndex.
  destruct (Bsp.search_chain (Bsp.vertDefsPtr g) 0 v t)
    as [[[r resV] chain] added] eqn:Hs.
  destruct added.
  - destruct (search_chain_added _ _ _ _ _ _ _ Hwf Hs) as (Hw & Ht & Hall).
    destruct v as [[v0 v1] v2]. simpl. split; [exact Hw|].
    simpl. rewrite Ht. apply table_apart_snoc; [exact Hap|].
    eapply Forall_impl; [exact Hall|].
    intros d Hd. apply matches_false_apart in Hd. exact Hd.
  - simpl. split; assumption.
Qed.

Lemma conv_tri_inv (capacity : Z) (tri : Bsp.BSPTriNode)
  (n n' : Bsp.ConvNode) (g g' : Bsp.Globals) :
  Bsp.conv_tri capacity tri (n, g) = Done (n', g') ->
  table_inv g -> table_inv g'.
Proof.
  unfold Bsp.conv_tri. intros H Hinv.
  pose proof (GetVertDefIndex_inv (Bsp.row (Bsp.V tri) 0) (Bsp.row (Bsp.T tri) 0) g Hinv) as H0.
  destruct (Bsp.GetVertDefIndex (Bsp.row (Bsp.V tri) 0) (Bsp.row (Bsp.T tri) 0) g)
    as [[i0 r0] g0]. simpl in H0.
  pose proof (GetVertDefIndex_inv (Bsp.row (Bsp.V tri) 1) (Bsp.row (Bsp.T tri) 1) g0 H0) as H1.
  destruct (Bsp.GetVertDefIndex (Bsp.row (Bsp.V tri) 1) (Bsp.row (Bsp.T tri) 1) g0)
    as [[i1 r1] g1]. simpl in H1.
  pose proof (GetVertDefIndex_inv (Bsp.row (Bsp.V tri) 2) (Bsp.row (Bsp.T tri) 2) g1 H1) as H2.
  destruct (Bsp.GetVertDefIndex (Bsp.row (Bsp.V tri) 2) (Bsp.row (Bsp.T tri) 2) g1)
    as [[i2 r2] g2]. simpl in H2.
  destruct ((i0 =? i1) || (i1 =? i2) || (i2 =? i0)).
  - inv_outcome H. exact H2.
  - destruct (Bsp.GetPlaneForTri (r0, r1, r2)).
    + destruct (capacity <=? Z.of_nat (length (Bsp.cn_triDefs n))); [discriminate|].
      inv_outcome H. inv_outcome H. inv_outcome H. exact H2.
    + inv_outcome H. exact H2.
Qed.

Lemma conv_tris_inv (capacity : Z) :
  forall (tris : list Bsp.BSPTriNode) (n n' : Bsp.ConvNode) (g g' : Bsp.Globals),
    Bsp.conv_tris capacity tris (n, g) = Done (n', g') ->
    table_inv g -> table_inv g'.
Proof.
  induction tris as [|tri rest IH]; intros n n' g g' H Hinv.
  - simpl in H. inv_outcome H. exact Hinv.
  - cbn [Bsp.conv_tris] in H. inv_outcome H. destruct a as [n1 g1].
    eapply IH; [exact H|]. eapply conv_tri_inv; eauto.
Qed.

Lemma ConvIntBSPTree_inv :
  forall (intTree : Bsp.IntBSPTreeNode) (g : Bsp.Globals)
         (tree : Bsp.BSPTree) (g' : Bsp.Globals),
    Bsp.ConvIntBSPTree intTree g = Done (tree, g') ->
    table_inv g -> table_inv g'.
Proof.
  induction intTree as [|partition numTri triHead back IHb front IHf];
    intros g tree g' H Hinv.
  - discriminate H.
  - cbn [Bsp.ConvIntBSPTree] in H.
    inv_outcome H. destruct a as [n g1].
    unfold Bsp.conv_node in Hrun. inv_outcome Hrun. destruct a as [n0 g0].
    inv_outcome Hrun.
    assert (H1 : table_inv
              (Bsp.set_trianglesCreated g0
                 (to_Uint32 (Bsp.trianglesCreated g0 + Bsp.cn_numTri n0)))).
    { eapply conv_tris_inv in Hrun0; [|exact Hinv]. exact Hrun0. }
    inv_outcome H. destruct a as [b gb].
    assert (H2 : table_inv gb).
    { destruct back; [inv_outcome Hrun; exact H1|].
      eapply IHb; [exact Hrun|exact H1]. }
    inv_outcome H. destruct a as [f gf].
    assert (H3 : table_inv gf).
    { destruct front; [inv_outcome Hrun1; exact H2|].
      eapply IHf; [exact Hrun1|exact H2]. }
    inv_outcome H. exact H3.
Qed.

(** *** The table of a mesh *)

Lemma gld_def_Some (vc tc : list GLfloat) (k : nat) (d : VertDef) :
  gld_def vc tc k = Some d <->
  vc !! (3 * k)%nat = Some (fst (fst (fst d))) /\
  vc !! (3 * k + 1)%nat = Some (snd (fst (fst d))) /\
  vc !! (3 * k + 2)%nat = Some (snd (fst d)) /\
  tc !! (2 * k)%nat = Some (fst (snd d)) /\
  tc !! (2 * k + 1)%nat = Some (snd (snd d)).
Proof.
  unfold gld_def. destruct d as [[[x y] z] [u v]]. cbn [fst snd].
  generalize (vc !! (3 * k)%nat) (vc !! (3 * k + 1)%nat) (vc !! (3 * k + 2)%nat)
             (tc !! (2 * k)%nat) (tc !! (2 * k + 1)%nat).
  intros [a|] [b|] [c|] [e|] [f|]; simpl;
    (split; [intros H; inversion H; subst; auto
            |intros (H1 & H2 & H3 & H4 & H5);
             inversion H1; inversion H2; inversion H3; inversion H4;
             inversion H5; subst; reflexivity]).
Qed.

Lemma Gld_matches_false (vc tc : list GLfloat) (k : Z)
  (V : Bsp.Vec3) (T : Bsp.Vec2) (d : VertDef) :
  0 <= k ->
  Gld.matches vc tc k V T = Done false ->
  gld_def vc tc (Z.to_nat k) = Some d ->
  Bsp.matches d V T = false.
Proof.
  intros Hk H Hd. apply gld_def_Some in Hd.
  destruct Hd as (Hx & Hy & Hz & Hu & Hv).
  destruct d as [[[x y] z] [u v]]. cbn [fst snd] in *.
  destruct V as [[V0 V1] V2]. destruct T as [T0 T1].
  unfold Gld.matches in H. unfold Bsp.matches.
  replace (Gld.GLD_VERT_ORD_EPSILON) with Bsp.BSP_VERT_ORD_EPSILON in H by reflexivity.
  replace (Gld.GLD_TEX_ORD_EPSILON) with Bsp.BSP_TEX_ORD_EPSILON in H by reflexivity.
  assert (L0 : load vc (3 * k + 0) = Done x).
  { apply load_Done. split; [lia|]. rewrite <- Hx. f_equal. lia. }
  assert (L1 : load vc (3 * k + 1) = Done y).
  { apply load_Done. split; [lia|]. rewrite <- Hy. f_equal. lia. }
  assert (L2 : load vc (3 * k + 2) = Done z).
  { apply load_Done. split; [lia|]. rewrite <- Hz. f_equal. lia. }
  assert (L3 : load tc (2 * k + 0) = Done u).
  { apply load_Done. split; [lia|]. rewrite <- Hu. f_equal. lia. }
  assert (L4 : load tc (2 * k + 1) = Done v).
  { apply load_Done. split; [lia|]. rewrite <- Hv. f_equal. lia. }
  rewrite L0 in H. cbn [mbind mret outcome_bind outcome_ret] in H.
  destruct (within Bsp.BSP_VERT_ORD_EPSILON x V0); cbn [negb andb] in *;
    [|reflexivity].
  rewrite L1 in H. cbn [mbind mret outcome_bind outcome_ret] in H.
  destruct (within Bsp.BSP_VERT_ORD_EPSILON y V1); cbn [negb andb] in *;
    [|reflexivity].
  rewrite L2 in H. cbn [mbind mret outcome_bind outcome_ret] in H.
  destruct (within Bsp.BSP_VERT_ORD_EPSILON z V2); cbn [negb andb] in *;
    [|reflexivity].
  rewrite L3 in H. cbn [mbind mret outcome_bind outcome_ret] in H.
  destruct (within Bsp.BSP_TEX_ORD_EPSILON u T0); cbn [negb andb] in *;
    [|reflexivity].
  rewrite L4 in H. cbn [mbind mret outcome_bind outcome_ret] in H.
  inversion H as [Hw]. rewrite Hw. reflexivity.
Qed.

Lemma find_vertex_spec (vc tc : list GLfloat) (V : Bsp.Vec3) (T : Bsp.Vec2) :
  forall (todo : nat) (k0 k : Z),
    0 <= k0 ->
    Gld.find_vertex todo k0 vc tc V T = Done k ->
    k0 <= k <= k0 + Z.of_nat todo /\
    forall (i : nat) (d : VertDef),
      k0 <= Z.of_nat i < k -> gld_def vc tc i = Some d ->
      Bsp.matches d V T = false.
Proof.
  induction todo as [|todo IH]; intros k0 k Hk0 H.
  - simpl in H. inversion H; subst. split; [lia|]. intros; lia.
  - cbn [Gld.find_vertex] in H. inv_outcome H. destruct a.
    + inv_outcome H. split; [lia|]. intros; lia.
    + destruct (IH (k0 + 1) k ltac:(lia) H) as [Hr Hall]. split; [lia|].
      intros i d Hi Hd.
      assert (Z.of_nat i = k0 \/ k0 + 1 <= Z.of_nat i) as [<-|Hgt] by lia.
      * eapply Gld_matches_false; [| exact Hrun |]; [lia|].
        rewrite Nat2Z.id. exact Hd.
      * apply (Hall i d); [lia|exact Hd].
Qed.

Lemma gld_def_insert_vert (vc tc : list GLfloat) (m i : nat) (x : GLfloat) :
  (3 * (i + 1) <= m)%nat ->
  gld_def (<[m := x]> vc) tc i = gld_def vc tc i.
Proof.
  intros H. unfold gld_def.
  rewrite !list_lookup_insert_ne by lia. reflexivity.
Qed.

Lemma gld_def_insert_tex (vc tc : list GLfloat) (m i : nat) (x : GLfloat) :
  (2 * (i + 1) <= m)%nat ->
  gld_def vc (<[m := x]> tc) i = gld_def vc tc i.
Proof.
  intros H. unfold gld_def.
  rewrite !list_lookup_insert_ne by lia. reflexivity.
Qed.

Lemma to_Uint16_range z : is_u16 (to_Uint16 z).
Proof. unfold is_u16, to_Uint16. apply Z.mod_pos_bound. lia. Qed.

Lemma to_Uint32_range z : is_u32 (to_Uint32 z).
Proof. unfold is_u32, to_Uint32. apply Z.mod_pos_bound. lia. Qed.

Lemma fmin_cases v cur : Gld.fmin v cur = v \/ Gld.fmin v cur = cur.
Proof. unfold Gld.fmin. destruct (F32.ltb v cur); auto. Qed.

Lemma fmax_cases v cur : Gld.fmax v cur = v \/ Gld.fmax v cur = cur.
Proof. unfold Gld.fmax. destruct (F32.gtb v cur); auto. Qed.

Lemma fmin_float v cur : is_float v -> is_float cur -> is_float (Gld.fmin v cur).
Proof. intros. destruct (fmin_cases v cur) as [-> | ->]; auto. Qed.

Lemma fmax_float v cur : is_float v -> is_float cur -> is_float (Gld.fmax v cur).
Proof. intros. destruct (fmax_cases v cur) as [-> | ->]; auto. Qed.

Lemma fold_vertex_inv (t t' : Gld.VertTab) (V : Bsp.Vec3) (T : Bsp.Vec2) (k : Z) :
  vt_inv t ->
  is_float (fst (fst V)) -> is_float (snd (fst V)) -> is_float (snd V) ->
  is_float (fst T) -> is_float (snd T) ->
  Gld.fold_vertex t V T = Done (k, t') ->
  vt_inv t' /\ is_u16 k.
Proof.
  intros (Hn & Hlv & Hlt & Hfv & Hft & Hb & Hap) HV0 HV1 HV2 HT0 HT1 H.
  unfold Gld.fold_vertex in H. inv_outcome H. rename a into kf.
  destruct (find_vertex_spec _ _ _ _ _ 0 kf ltac:(lia) Hrun) as [Hkf Hnone].
  rewrite Z2Nat.id in Hkf by lia.
  destruct (Z.ltb_spec kf (Gld.vt_n t)) as [Hfound|Hnew].
  - inv_outcome H. split; [|apply to_Uint16_range].
    unfold vt_inv. tauto.
  - assert (kf = Gld.vt_n t) by lia. subst kf.
    destruct V as [[V0 V1] V2]. destruct T as [T0 T1]. cbn [fst snd] in *.
    inv_outcome H. apply store_Done in Hrun0. destruct Hrun0 as [Hi0 ->].
    inv_outcome H. apply store_Done in Hrun0. destruct Hrun0 as [Hi1 ->].
    inv_outcome H. apply store_Done in Hrun0. destruct Hrun0 as [Hi2 ->].
    inv_outcome H. apply store_Done in Hrun0. destruct Hrun0 as [Hi3 ->].
    inv_outcome H. apply store_Done in Hrun0. destruct Hrun0 as [Hi4 ->].
    inv_outcome H. rewrite !length_insert in *.
    set (n := Gld.vt_n t) in *.
    split; [|apply to_Uint16_range].
    unfold vt_inv. cbn [Gld.vt_n Gld.vt_vert Gld.vt_tex Gld.vt_minX Gld.vt_maxX
                        Gld.vt_minY Gld.vt_maxY Gld.vt_minZ Gld.vt_maxZ].
    rewrite !length_insert.
    pose proof (to_Uint16_range (n + 1)) as Hr. unfold is_u16 in Hr.
    assert (Hle : to_Uint16 (n + 1) <= n + 1).
    { unfold to_Uint16. apply Z.mod_le; lia. }
    split; [exact Hr|]. split; [lia|]. split; [lia|].
    split; [repeat apply Forall_insert; assumption|].
    split; [repeat apply Forall_insert; assumption|].
    split.
    { destruct Hb as (?&?&?&?&?&?).
      repeat split; first [apply fmin_float | apply fmax_float]; assumption. }
    intros i j d1 d2 Hij Hj H1 H2.
    assert (Hjn : Z.of_nat j <= n) by lia.
    assert (Hi : (3 * (i + 1) <= Z.to_nat (3 * n + 0))%nat) by lia.
    rewrite !gld_def_insert_vert in H1 by lia.
    rewrite !gld_def_insert_tex in H1 by lia.
    assert (Z.of_nat j < n \/ Z.of_nat j = n) as [Hlo|Heq] by lia.
    + rewrite !gld_def_insert_vert in H2 by lia.
      rewrite !gld_def_insert_tex in H2 by lia.
      exact (Hap i j d1 d2 Hij Hlo H1 H2).
    + assert (Hd2 : d2 = ((V0, V1, V2), (T0, T1))).
      { apply gld_def_Some in H2. destruct H2 as (E0 & E1 & E2 & E3 & E4).
        replace (3 * j)%nat with (Z.to_nat (3 * n + 0)) in E0 by lia.
        replace (3 * j + 1)%nat with (Z.to_nat (3 * n + 1)) in E1 by lia.
        replace (3 * j + 2)%nat with (Z.to_nat (3 * n + 2)) in E2 by lia.
        replace (2 * j)%nat with (Z.to_nat (2 * n + 0)) in E3 by lia.
        replace (2 * j + 1)%nat with (Z.to_nat (2 * n + 1)) in E4 by lia.
        rewrite list_lookup_insert_ne in E0 by lia.
        rewrite list_lookup_insert_ne in E0 by lia.
        rewrite list_lookup_insert_eq in E0 by lia.
        rewrite list_lookup_insert_ne in E1 by lia.
        rewrite list_lookup_insert_eq in E1 by (rewrite length_insert; lia).
        rewrite list_lookup_insert_eq in E2 by (rewrite !length_insert; lia).
        rewrite list_lookup_insert_ne in E3 by lia.
        rewrite list_lookup_insert_eq in E3 by lia.
        rewrite list_lookup_insert_eq in E4 by (rewrite length_insert; lia).
        destruct d2 as [[[a b] c] [e f]]. cbn [fst snd] in *.
        injection E0 as <-. injection E1 as <-. injection E2 as <-.
        injection E3 as <-. injection E4 as <-. reflexivity. }
      subst d2. apply matches_false_apart.
      apply (Hnone i d1); [lia|exact H1].
Qed.

(** *** The faces of a mesh *)

Lemma occ_nonneg t l : 0 <= occ t l.
Proof. unfold occ. lia. Qed.

Lemma occ_le t l : occ t l <= Z.of_nat (length l).
Proof. unfold occ. pose proof (length_filter (fun x => x = t) l). lia. Qed.

Lemma occ_snoc t l x :
  occ t (l ++ [x]) = occ t l + (if decide (x = t) then 1 else 0).
Proof.
  unfold occ. rewrite filter_app, length_app. rewrite filter_cons, filter_nil.
  destruct (decide (x = t)); simpl; lia.
Qed.

Lemma input_vertex_float (tv tc : list GLfloat) (i j : Z)
  (V : Bsp.Vec3) (T : Bsp.Vec2) :
  Forall is_float tv -> Forall is_float tc ->
  Gld.input_vertex tv tc i j = Done (V, T) ->
  is_float (fst (fst V)) /\ is_float (snd (fst V)) /\ is_float (snd V) /\
  is_float (fst T) /\ is_float (snd T).
Proof.
  intros Hv Ht H. unfold Gld.input_vertex in H.
  inv_outcome H. apply load_Done in Hrun. destruct Hrun as [_ L0].
  inv_outcome H. apply load_Done in Hrun. destruct Hrun as [_ L1].
  inv_outcome H. apply load_Done in Hrun. destruct Hrun as [_ L2].
  inv_outcome H. apply load_Done in Hrun. destruct Hrun as [_ L3].
  inv_outcome H. apply load_Done in Hrun. destruct Hrun as [_ L4].
  inv_outcome H. cbn [fst snd].
  split; [exact (Forall_lookup_1 _ _ _ _ Hv L0)|].
  split; [exact (Forall_lookup_1 _ _ _ _ Hv L1)|].
  split; [exact (Forall_lookup_1 _ _ _ _ Hv L2)|].
  split; [exact (Forall_lookup_1 _ _ _ _ Ht L3)|].
  exact (Forall_lookup_1 _ _ _ _ Ht L4).
Qed.

Lemma store_face_inv (faces faces' : list (list Z)) (tIndex c v : Z) :
  Gld.store_face faces tIndex c v = Done faces' ->
  is_u16 v ->
  Forall (Forall is_u16) faces ->
  Forall (Forall is_u16) faces' /\ map length faces' = map length faces.
Proof.
  intros H Hv Hall. unfold Gld.store_face in H.
  inv_outcome H. apply load_Done in Hrun. destruct Hrun as [Ht Hrow].
  inv_outcome H. apply store_Done in Hrun. destruct Hrun as [Hc ->].
  apply store_Done in H. destruct H as [Hi ->].
  split.
  - apply Forall_insert; [exact Hall|].
    apply Forall_insert; [|exact Hv].
    eapply Forall_lookup_1; eauto.
  - rewrite list_fmap_insert. apply list_insert_id.
    rewrite list_lookup_fmap, Hrow. simpl. rewrite length_insert. reflexivity.
Qed.

Lemma add_triangle_inv (ti : list Z) (tv tc : list GLfloat) (i : nat)
  (lens : list nat) (t t' : Gld.VertTab) (ft ft' : Gld.FaceTab) :
  Forall is_float tv -> Forall is_float tc ->
  Z.of_nat i + 1 < 2 ^ 32 ->
  vt_inv t -> ft_inv ti i lens ft ->
  Gld.add_triangle ti tv tc (Z.of_nat i) (t, ft) = Done (t', ft') ->
  vt_inv t' /\ ft_inv ti (S i) lens ft'.
Proof.
  intros Htv Htc Hi Hvt (Hlen & Hlens & Hu16 & Hnum & Hocc) H.
  unfold Gld.add_triangle in H.
  inv_outcome H. rename a into tIndex.
  apply load_Done in Hrun. destruct Hrun as [_ Hti]. rewrite Nat2Z.id in Hti.
  assert (Htake : take (S i) ti = take i ti ++ [tIndex])
    by (apply take_S_r; exact Hti).
  inv_outcome H. destruct a as [V0 T0].
  destruct (input_vertex_float _ _ _ _ _ _ Htv Htc Hrun) as (A0&A1&A2&A3&A4).
  inv_outcome H. destruct a as [v0 t0].
  destruct (fold_vertex_inv _ _ _ _ _ Hvt A0 A1 A2 A3 A4 Hrun0) as [Hvt0 Hv0].
  inv_outcome H. destruct a as [V1 T1].
  destruct (input_vertex_float _ _ _ _ _ _ Htv Htc Hrun1) as (B0&B1&B2&B3&B4).
  inv_outcome H. destruct a as [v1 t1].
  destruct (fold_vertex_inv _ _ _ _ _ Hvt0 B0 B1 B2 B3 B4 Hrun2) as [Hvt1 Hv1].
  inv_outcome H. destruct a as [V2 T2].
  destruct (input_vertex_float _ _ _ _ _ _ Htv Htc Hrun3) as (C0&C1&C2&C3&C4).
  inv_outcome H. destruct a as [v2 t2].
  destruct (fold_vertex_inv _ _ _ _ _ Hvt1 C0 C1 C2 C3 C4 Hrun4) as [Hvt2 Hv2].
  destruct ((v0 =? v1) || (v1 =? v2) || (v2 =? v0)).
  - inv_outcome H. split; [exact Hvt2|].
    unfold ft_inv. cbn [Gld.ft_nums Gld.ft_faces Gld.ft_numTri Gld.ft_skipped].
    repeat (split; [first [assumption|reflexivity]|]).
    intros tt n Hn. destruct (Hocc tt n Hn) as [Hr _].
    rewrite Htake, occ_snoc. split; [|discriminate].
    destruct (decide (tIndex = Z.of_nat tt)); lia.
  - inv_outcome H. rename a into n0.
    apply load_Done in Hrun5. destruct Hrun5 as [Hti0 Hn0].
    inv_outcome H.
    destruct (store_face_inv _ _ _ _ _ Hrun5 Hv0 Hu16) as [Hu1 Hl1].
    inv_outcome H.
    destruct (store_face_inv _ _ _ _ _ Hrun6 Hv1 Hu1) as [Hu2 Hl2].
    inv_outcome H.
    destruct (store_face_inv _ _ _ _ _ Hrun7 Hv2 Hu2) as [Hu3 Hl3].
    inv_outcome H. apply store_Done in Hrun8. destruct Hrun8 as [Hin ->].
    inv_outcome H. split; [exact Hvt2|].
    unfold ft_inv. cbn [Gld.ft_nums Gld.ft_faces Gld.ft_numTri Gld.ft_skipped].
    rewrite length_insert.
    split; [exact Hlen|]. split; [congruence|]. split; [exact Hu3|].
    split; [apply to_Uint32_range|].
    intros tt n Hn. rewrite Htake, occ_snoc.
    destruct (Hocc _ _ Hn0) as [Hr0 He0].
    pose proof (occ_le tIndex (take i ti)) as Hle.
    rewrite length_take in Hle. rewrite Z2Nat.id in Hr0, He0 by lia.
    destruct (decide (Z.to_nat tIndex = tt)) as [<-|Hne].
    + rewrite list_lookup_insert_eq in Hn by lia.
      injection Hn as <-. rewrite Z2Nat.id by lia.
      destruct (decide (tIndex = tIndex)); [|congruence].
      rewrite to_Uint32_small by lia. split; [lia|].
      intros Hs. specialize (He0 Hs). lia.
    + rewrite list_lookup_insert_ne in Hn by exact Hne.
      destruct (Hocc _ _ Hn) as [Hr He].
      destruct (decide (tIndex = Z.of_nat tt)); [lia|].
      split; [lia|]. intros Hs. specialize (He Hs). lia.
Qed.

Lemma add_triangles_inv (ti : list Z) (tv tc : list GLfloat) (lens : list nat) :
  Forall is_float tv -> Forall is_float tc ->
  forall (todo i : nat) (t t' : Gld.VertTab) (ft ft' : Gld.FaceTab),
    Z.of_nat (i + todo) < 2 ^ 32 ->
    vt_inv t -> ft_inv ti i lens ft ->
    Gld.add_triangles todo (Z.of_nat i) ti tv tc (t, ft) = Done (t', ft') ->
    vt_inv t' /\ ft_inv ti (i + todo) lens ft'.
Proof.
  intros Htv Htc. induction todo as [|todo IH]; intros i t t' ft ft' Hi Hvt Hft H.
  - simpl in H. inv_outcome H. rewrite Nat.add_0_r. auto.
  - cbn [Gld.add_triangles] in H. inv_outcome H. destruct a as [t1 ft1].
    assert (Hi1 : Z.of_nat i + 1 < 2 ^ 32) by lia.
    destruct (add_triangle_inv _ _ _ _ _ _ _ _ _ Htv Htc Hi1 Hvt Hft Hrun)
      as [Hvt1 Hft1].
    replace (Z.of_nat i + 1) with (Z.of_nat (S i)) in H by lia.
    replace (i + S todo)%nat with (S i + todo)%nat by lia.
    eapply IH; eauto. lia.
Qed.

Lemma count_triangles_spec (nMaps : Z) (ti : list Z) :
  forall (todo i : nat) (nums nums' : list Z),
    Z.of_nat (i + todo) < 2 ^ 32 ->
    (forall (t : nat) (n : Z),
        nums !! t = Some n -> n = occ (Z.of_nat t) (take i ti)) ->
    Gld.count_triangles todo (Z.of_nat i) nMaps ti nums = Done (Some nums') ->
    length nums' = length nums /\
    forall (t : nat) (n : Z),
      nums' !! t = Some n -> n = occ (Z.of_nat t) (take (i + todo) ti).
Proof.
  induction todo as [|todo IH]; intros i nums nums' Hi Hocc H.
  - simpl in H. inv_outcome H. rewrite Nat.add_0_r. auto.
  - cbn [Gld.count_triangles] in H. inv_outcome H. rename a into tIndex.
    apply load_Done in Hrun. destruct Hrun as [_ Hti]. rewrite Nat2Z.id in Hti.
    destruct (tIndex >=? nMaps); [inv_outcome H|].
    inv_outcome H. rename a into n0.
    apply load_Done in Hrun. destruct Hrun as [Hpos Hn0].
    inv_outcome H. apply store_Done in Hrun. destruct Hrun as [Hin ->].
    replace (Z.of_nat i + 1) with (Z.of_nat (S i)) in H by lia.
    replace (i + S todo)%nat with (S i + todo)%nat by lia.
    apply IH in H; [rewrite length_insert in H; exact H | lia |].
    intros t n Hn.
    rewrite (take_S_r _ _ _ Hti), occ_snoc.
    pose proof (Hocc _ _ Hn0) as E0. rewrite Z2Nat.id in E0 by lia.
    pose proof (occ_le tIndex (take i ti)) as Hle. rewrite length_take in Hle.
    pose proof (occ_nonneg tIndex (take i ti)) as Hge.
    destruct (decide (Z.to_nat tIndex = t)) as [<-|Hne].
    + rewrite list_lookup_insert_eq in Hn by lia. injection Hn as <-.
      rewrite Z2Nat.id by lia.
      destruct (decide (tIndex = tIndex)); [|congruence].
      rewrite to_Uint32_small by lia. lia.
    + rewrite list_lookup_insert_ne in Hn by exact Hne.
      rewrite (Hocc _ _ Hn).
      destruct (decide (tIndex = Z.of_nat t)); lia.
Qed.

Lemma length_malloc {X} (junk : nat -> X) (n : Z) :
  length (malloc junk n) = Z.to_nat n.
Proof. unfold malloc. rewrite length_map, length_seq. reflexivity. Qed.

Lemma Forall_malloc {X} (P : X -> Prop) (junk : nat -> X) (n : Z) :
  (forall c, P (junk c)) -> Forall P (malloc junk n).
Proof.
  intros H. unfold malloc. apply Forall_fmap. apply Forall_forall. intros; apply H.
Qed.

Lemma realloc_shrink {X} (junk : nat -> X) (a : list X) (n : Z) :
  n <= Z.of_nat (length a) -> realloc junk a n = take (Z.to_nat n) a.
Proof.
  intros H. unfold realloc.
  replace (Z.to_nat n - length a)%nat with 0%nat by lia.
  simpl. apply app_nil_r.
Qed.

Lemma init_maps_spec (heap : nat -> nat -> Z) (names : list (list byte))
  (nums : list Z) :
  forall (todo i : nat) (ns : list (list byte)) (rows : list (list Z)),
    Gld.init_maps heap todo (Z.of_nat i) names nums = Done (ns, rows) ->
    ns = take todo (drop i names) /\
    length ns = todo /\
    length rows = todo /\
    Forall (Forall is_u16) rows /\
    map length rows =
      map (fun n => Z.to_nat (to_Uint32 (3 * n))) (take todo (drop i nums)).
Proof.
  induction todo as [|todo IH]; intros i ns rows H.
  - simpl in H. inv_outcome H. simpl. repeat split; auto.
  - cbn [Gld.init_maps] in H. inv_outcome H. rename a into name.
    apply load_Done in Hrun. destruct Hrun as [_ Hname]. rewrite Nat2Z.id in Hname.
    inv_outcome H. rename a into n.
    apply load_Done in Hrun. destruct Hrun as [_ Hn]. rewrite Nat2Z.id in Hn.
    inv_outcome H. destruct a as [ns' rows'].
    replace (Z.of_nat i + 1) with (Z.of_nat (S i)) in Hrun by lia.
    apply IH in Hrun. destruct Hrun as (Hns & Hlen & Hle & Hall & Hlens).
    inv_outcome H.
    rewrite (drop_S _ _ _ Hname), (drop_S _ _ _ Hn). cbn [take map length].
    split; [congruence|]. split; [lia|]. split; [lia|].
    split.
    + constructor; [|exact Hall]. apply Forall_malloc. intros c.
      apply to_Uint16_range.
    + rewrite length_malloc. f_equal. exact Hlens.
Qed.

(** *** What [GenGLData] returns *)

Lemma gld_apart_take (n : Z) (vc tc : list GLfloat) :
  0 <= n ->
  gld_apart n vc tc ->
  gld_apart n (take (Z.to_nat (3 * n)) vc) (take (Z.to_nat (2 * n)) tc).
Proof.
  intros Hn Hap i j d1 d2 Hij Hj H1 H2.
  apply (Hap i j d1 d2 Hij Hj).
  - apply gld_def_Some in H1. apply gld_def_Some.
    destruct H1 as (E0 & E1 & E2 & E3 & E4).
    rewrite lookup_take_lt in E0, E1, E2, E3, E4 by lia. auto.
  - apply gld_def_Some in H2. apply gld_def_Some.
    destruct H2 as (E0 & E1 & E2 & E3 & E4).
    rewrite lookup_take_lt in E0, E1, E2, E3, E4 by lia. auto.
Qed.

Lemma trim_faces_lookup (heap : nat -> nat -> Z) (nums : list Z)
  (faces : list (list Z)) (i : nat) (n : Z) (row : list Z) :
  nums !! i = Some n ->
  Gld.trim_faces heap nums faces !! i = Some row ->
  exists row0,
    faces !! i = Some row0 /\
    row = (if n =? 0 then []
           else realloc (fun c => to_Uint16 (heap (2 + i)%nat c)) row0
                        (to_Uint32 (3 * n))).
Proof.
  intros Hn H. unfold Gld.trim_faces in H.
  rewrite list_lookup_imap in H.
  destruct (faces !! i) as [row0|]; [|discriminate].
  simpl in H. rewrite Hn in H. simpl in H. injection H as <-.
  exists row0. split; reflexivity.
Qed.

Lemma length_trim_faces (heap : nat -> nat -> Z) (nums : list Z)
  (faces : list (list Z)) :
  length (Gld.trim_faces heap nums faces) = length faces.
Proof. unfold Gld.trim_faces. apply length_imap. Qed.

(** The run of [GenGLData]: the counters of the first loop, the index
    arrays allocated by the second, and the two tables after the third
    with their invariants; the mesh returned is built from these. *)
Lemma GenGLData_run
  (heap : nat -> nat -> Z) (nTri : Z) (tv : list GLfloat) (ti : list Z)
  (tc : list GLfloat) (nMaps : Z) (names : list (list byte)) (g : Gld.GLData) :
  0 <= nTri < 2 ^ 32 ->
  Forall is_float tv -> Forall is_float tc ->
  Gld.GenGLData heap nTri (Some tv) (Some ti) (Some tc) nMaps (Some names)
  = Done (Some g) ->
  exists (counted : list Z) (rows : list (list Z))
         (t : Gld.VertTab) (ft : Gld.FaceTab),
    length counted = Z.to_nat nMaps /\
    (forall (x : nat) (n : Z),
        counted !! x = Some n ->
        n = occ (Z.of_nat x) (take (Z.to_nat nTri) ti)) /\
    length (take (Z.to_nat nMaps) names) = Z.to_nat nMaps /\
    length rows = Z.to_nat nMaps /\
    map length rows = map (fun n => Z.to_nat (to_Uint32 (3 * n))) counted /\
    vt_inv t /\
    ft_inv ti (Z.to_nat nTri) (map length rows) ft /\
    g = {| Gld.nMaps := nMaps;
           Gld.mapNames := take (Z.to_nat nMaps) names;
           Gld.mapTriNums := Gld.ft_nums ft;
           Gld.nVertices := Gld.vt_n t;
           Gld.vertCoords :=
             if 0 <? Gld.vt_n t
             then realloc (fun c => to_Uint32 (heap 0%nat c))
                          (Gld.vt_vert t) (3 * Gld.vt_n t)
             else Gld.vt_vert t;
           Gld.texCoords :=
             if 0 <? Gld.vt_n t
             then realloc (fun c => to_Uint32 (heap 1%nat c))
                          (Gld.vt_tex t) (2 * Gld.vt_n t)
             else Gld.vt_tex t;
           Gld.minX := Gld.vt_minX t; Gld.maxX := Gld.vt_maxX t;
           Gld.minY := Gld.vt_minY t; Gld.maxY := Gld.vt_maxY t;
           Gld.minZ := Gld.vt_minZ t; Gld.maxZ := Gld.vt_maxZ t;
           Gld.numTri := Gld.ft_numTri ft;
           Gld.triFaces :=
             if (0 <? Gld.vt_n t) && Gld.ft_skipped ft
             then Gld.trim_faces heap (Gld.ft_nums ft) (Gld.ft_faces ft)
             else Gld.ft_faces ft |}.
Proof.
  intros HnTri Htv Htc H. unfold Gld.GenGLData in H.
  destruct ((nTri =? 0) || (nMaps =? 0)); [discriminate H|].
  inv_outcome H. destruct a as [counted|]; [|discriminate H].
  apply (count_triangles_spec nMaps ti (Z.to_nat nTri) 0) in Hrun;
    [|lia|].
  2:{ intros t n Hn. apply lookup_replicate in Hn. destruct Hn as [-> _].
      reflexivity. }
  destruct Hrun as [Hclen Hcocc]. rewrite length_replicate in Hclen.
  simpl in Hcocc.
  inv_outcome H. destruct a as [ns rows].
  apply (init_maps_spec heap names counted (Z.to_nat nMaps) 0) in Hrun.
  destruct Hrun as (Hns & Hnslen & Hrlen & Hrall & Hrlens).
  rewrite ?drop_0 in Hns. rewrite ?drop_0 in Hrlens.
  rewrite firstn_all2 in Hrlens by lia.
  inv_outcome H. destruct a as [t ft].
  apply (add_triangles_inv ti tv tc (map length rows) Htv Htc (Z.to_nat nTri) 0)
    in Hrun; [|lia| |].
  2:{ unfold vt_inv. cbn [Gld.vt_n Gld.vt_vert Gld.vt_tex Gld.vt_minX Gld.vt_maxX
                              Gld.vt_minY Gld.vt_maxY Gld.vt_minZ Gld.vt_maxZ].
      split; [lia|]. split; [lia|]. split; [lia|].
      split; [apply Forall_malloc; intros; apply to_Uint32_range|].
      split; [apply Forall_malloc; intros; apply to_Uint32_range|].
      split; [unfold is_float, FLT_MAX, FLT_MIN; lia|].
      intros i j d1 d2 Hij Hj. lia. }
  2:{ unfold ft_inv. cbn [Gld.ft_nums Gld.ft_faces Gld.ft_numTri Gld.ft_skipped].
      rewrite length_replicate, length_map.
      split; [lia|]. split; [reflexivity|]. split; [exact Hrall|].
      split; [unfold is_u32; lia|].
      intros tt n Hn. apply lookup_replicate in Hn. destruct Hn as [-> _].
      unfold occ. simpl. split; [lia|reflexivity]. }
  destruct Hrun as [Hvt Hft]. simpl in Hft.
  inv_outcome H.
  exists counted, rows, t, ft.
  repeat (split; [assumption|]). reflexivity.
Qed.

Lemma GenGLData_wf
  (heap : nat -> nat -> Z) (nTri : Z) (tv : list GLfloat) (ti : list Z)
  (tc : list GLfloat) (nMaps : Z) (names : list (list byte)) (g : Gld.GLData) :
  0 <= nTri -> 3 * nTri < 2 ^ 32 -> is_u16 nMaps ->
  Forall is_float tv -> Forall is_float tc ->
  Gld.GenGLData heap nTri (Some tv) (Some ti) (Some tc) nMaps (Some names)
  = Done (Some g) ->
  wf_mesh g /\
  Gld.mapNames g = take (Z.to_nat nMaps) names /\
  gld_apart (Gld.nVertices g) (Gld.vertCoords g) (Gld.texCoords g) /\
  (0 < Gld.nVertices g -> exact_mesh g).
Proof.
  intros HnTri Hmach HnMaps Htv Htc H.
  destruct (GenGLData_run heap nTri tv ti tc nMaps names g ltac:(lia) Htv Htc H)
    as (counted & rows & t & ft & Hclen & Hcocc & Hnslen & Hrlen & Hrlens
        & Hvt & Hft & ->).
  destruct Hvt as (Hn & Hlv & Hlt & Hfv & Hft' & Hb & Hap).
  destruct Hft as (Hflen & Hflens & Hfu16 & Hfnum & Hfocc).
  rewrite length_map in Hflen.
  (* the size of every index array against its final counter *)
  assert (Hrows : forall (i : nat) (n : Z) (row0 : list Z),
             Gld.ft_nums ft !! i = Some n -> Gld.ft_faces ft !! i = Some row0 ->
             0 <= n /\ 3 * n < 2 ^ 32 /\
             3 * n <= Z.of_nat (length row0) /\
             (Gld.ft_skipped ft = false -> Z.of_nat (length row0) = 3 * n)).
  { intros i n row0 Hi Hrow.
    destruct (Hfocc i n Hi) as [[Hge Hle] Heq].
    pose proof (occ_le (Z.of_nat i) (take (Z.to_nat nTri) ti)) as Ho.
    rewrite length_take in Ho.
    assert (Hl : map length (Gld.ft_faces ft) !! i = Some (length row0))
      by (rewrite list_lookup_fmap, Hrow; reflexivity).
    rewrite Hflens, Hrlens, list_lookup_fmap in Hl.
    destruct (counted !! i) as [c|] eqn:Hc; [|discriminate].
    simpl in Hl. injection Hl as Hl.
    pose proof (Hcocc _ _ Hc) as Ec.
    rewrite to_Uint32_small in Hl by lia.
    split; [lia|]. split; [lia|]. split; [lia|].
    intros Hs. specialize (Heq Hs). lia. }
  cbn [Gld.nMaps Gld.mapNames Gld.mapTriNums Gld.nVertices Gld.vertCoords
       Gld.texCoords Gld.minX Gld.maxX Gld.minY Gld.maxY Gld.minZ Gld.maxZ
       Gld.numTri Gld.triFaces wf_mesh exact_mesh].
  unfold wf_mesh, exact_mesh.
  cbn [Gld.nMaps Gld.mapNames Gld.mapTriNums Gld.nVertices Gld.vertCoords
       Gld.texCoords Gld.minX Gld.maxX Gld.minY Gld.maxY Gld.minZ Gld.maxZ
       Gld.numTri Gld.triFaces].
  assert (Hnums32 : Forall is_u32 (Gld.ft_nums ft)).
  { apply Forall_lookup. intros i n Hi.
    destruct (lookup_lt_is_Some_2 (Gld.ft_faces ft) i) as [row0 Hrow].
    { apply lookup_lt_Some in Hi.
      rewrite <- (length_map length), Hflens, length_map. lia. }
    destruct (Hrows _ _ _ Hi Hrow) as (?&?&?&?). unfold is_u32. lia. }
  assert (Hfaces_len : length (Gld.ft_faces ft) = Z.to_nat nMaps).
  { rewrite <- (length_map length), Hflens, length_map. exact Hrlen. }
  destruct (Z.ltb_spec 0 (Gld.vt_n t)) as [Hpos|Hzero].
  - (* the tables were trimmed *)
    rewrite (realloc_shrink _ (Gld.vt_vert t)) by lia.
    rewrite (realloc_shrink _ (Gld.vt_tex t)) by lia.
    split; [|split; [reflexivity|split]].
    + split; [exact HnMaps|]. split; [exact Hnslen|]. split; [lia|].
      split; [exact Hnums32|]. split; [exact Hn|].
      rewrite !length_take.
      split; [lia|]. split; [lia|].
      split; [apply Forall_take; exact Hfv|].
      split; [apply Forall_take; exact Hft'|].
      split; [exact Hb|]. split; [exact Hfnum|].
      destruct (Gld.ft_skipped ft) eqn:Hsk; cbn [andb].
      * rewrite length_trim_faces. split; [exact Hfaces_len|].
        split.
        -- apply Forall_lookup. intros i row Hrow.
           destruct (lookup_lt_is_Some_2 (Gld.ft_nums ft) i) as [n Hi].
           { apply lookup_lt_Some in Hrow. rewrite length_trim_faces in Hrow. lia. }
           destruct (trim_faces_lookup _ _ _ _ _ _ Hi Hrow) as (row0 & Hr0 & ->).
           destruct (n =? 0); [constructor|].
           destruct (Hrows _ _ _ Hi Hr0) as (?&?&?&?).
           rewrite realloc_shrink by (rewrite to_Uint32_small; lia).
           apply Forall_take. eapply Forall_lookup_1; eauto.
        -- intros i n row Hi Hrow.
           destruct (trim_faces_lookup _ _ _ _ _ _ Hi Hrow) as (row0 & Hr0 & ->).
           destruct (Hrows _ _ _ Hi Hr0) as (?&?&?&?).
           destruct (Z.eqb_spec n 0) as [->|Hn0]; [simpl; reflexivity|].
           rewrite realloc_shrink by (rewrite to_Uint32_small; lia).
           rewrite length_take, to_Uint32_small by lia. lia.
      * split; [exact Hfaces_len|]. split; [exact Hfu16|].
        intros i n row Hi Hrow.
        destruct (Hrows _ _ _ Hi Hrow) as (?&?&?&?).
        rewrite to_Uint32_small by lia. lia.
    + apply gld_apart_take; [lia|exact Hap].
    + intros _. rewrite !length_take.
      split; [lia|]. split; [lia|].
      intros i n row Hi Hrow.
      destruct (Gld.ft_skipped ft) eqn:Hsk; cbn [andb] in Hrow.
      * destruct (trim_faces_lookup _ _ _ _ _ _ Hi Hrow) as (row0 & Hr0 & ->).
        destruct (Hrows _ _ _ Hi Hr0) as (?&?&?&?).
        destruct (Z.eqb_spec n 0) as [->|Hn0]; [simpl; reflexivity|].
        rewrite realloc_shrink by (rewrite to_Uint32_small; lia).
        rewrite length_take, to_Uint32_small by lia. lia.
      * destruct (Hrows _ _ _ Hi Hrow) as (?&?&?&Hex).
        rewrite to_Uint32_small by lia. apply Hex. reflexivity.
  - (* no definition is left: nothing was trimmed *)
    cbn [andb].
    split; [|split; [reflexivity|split; [exact Hap|lia]]].
    split; [exact HnMaps|]. split; [exact Hnslen|]. split; [lia|].
    split; [exact Hnums32|]. split; [exact Hn|].
    split; [lia|]. split; [lia|].
    split; [exact Hfv|]. split; [exact Hft'|].
    split; [exact Hb|]. split; [exact Hfnum|].
    split; [exact Hfaces_len|]. split; [exact Hfu16|].
    intros i n row Hi Hrow.
    destruct (Hrows _ _ _ Hi Hrow) as (?&?&?&?).
    rewrite to_Uint32_small by lia. lia.
Qed.

(** ** Reading back what was written *)

Lemma fread_app (bs rest : list byte) (j : nat -> byte) (k : nat) :
  exists k',
    fread (length bs) (mkFILE (bs ++ rest) j k) = (bs, mkFILE rest j k').
Proof.
  unfold fread. cbn [pending junk fresh].
  rewrite take_app_length, drop_app_length.
  replace (length bs - length bs)%nat with 0%nat by lia.
  simpl. rewrite app_nil_r. eauto.
Qed.

Lemma fread_int_app (n : nat) (z : Z) (rest : list byte) (j : nat -> byte) (k : nat) :
  0 <= z < 2 ^ (Z.of_nat n * 8) ->
  exists k',
    fread_int n (mkFILE (le_split n z ++ rest) j k) = (z, mkFILE rest j k').
Proof.
  intros Hz. unfold fread_int.
  destruct (fread_app (le_split n z) rest j k) as [k' E].
  rewrite length_le_split in E. rewrite E.
  rewrite le_combine_split, Z.mod_small by exact Hz. eauto.
Qed.

Lemma fread_ints_app (n : nat) (zs : list Z) :
  Forall (fun z => 0 <= z < 2 ^ (Z.of_nat n * 8)) zs ->
  forall (rest : list byte) (j : nat -> byte) (k : nat),
  exists k',
    fread_ints (length zs) n (mkFILE (concat (map (le_split n) zs) ++ rest) j k)
    = (zs, mkFILE rest j k').
Proof.
  induction 1 as [|z zs Hz Hzs IH]; intros rest j k.
  - simpl. eauto.
  - cbn [length fread_ints map concat]. rewrite <- app_assoc.
    destruct (fread_int_app n z (concat (map (le_split n) zs) ++ rest) j k Hz)
      as [k1 E1].
    rewrite E1. destruct (IH rest j k1) as [k2 E2]. rewrite E2. eauto.
Qed.

Lemma fread_name_app (s : list byte) :
  Forall (fun c => c <> Byte.x00) s ->
  forall (left : nat) (rest : list byte) (j : nat -> byte) (k : nat),
    (length s <= left)%nat ->
    exists k',
      fread_name left (mkFILE (cstring_bytes s ++ rest) j k)
      = (s, mkFILE rest j k').
Proof.
  unfold cstring_bytes.
  induction 1 as [|c s Hc Hs IH]; intros left rest j k Hlen.
  - destruct left; simpl; eauto.
  - destruct left as [|left]; [simpl in Hlen; lia|].
    cbn [fread_name]. unfold fread at 1. cbn [pending junk fresh app take drop length].
    rewrite take_0, drop_0. cbn [length Nat.sub seq map app].
    assert (Hne : Byte.eqb c Byte.x00 = false).
    { destruct (Byte.eqb c Byte.x00) eqn:E; [|reflexivity].
      apply Byte.byte_dec_bl in E. contradiction. }
    rewrite Hne.
    destruct (IH left rest j (k + 1)%nat ltac:(simpl in Hlen; lia)) as [k' E].
    rewrite E. eauto.
Qed.

Lemma fread_names_app (names : list (list byte)) :
  Forall name_ok names ->
  forall (rest : list byte) (j : nat -> byte) (k : nat),
  exists k',
    fread_names (length names)
      (mkFILE (concat (map cstring_bytes names) ++ rest) j k)
    = (names, mkFILE rest j k').
Proof.
  induction 1 as [|s names [Hlen Hs] Hnames IH]; intros rest j k.
  - simpl. eauto.
  - cbn [length fread_names map concat]. rewrite <- app_assoc.
    destruct (fread_name_app s Hs 255 (concat (map cstring_bytes names) ++ rest)
                j k Hlen) as [k1 E1].
    rewrite E1. destruct (IH rest j k1) as [k2 E2]. rewrite E2. eauto.
Qed.

Lemma cells_Done {X} (a : list X) (n : Z) :
  n <= Z.of_nat (length a) -> cells a n = Done (take (Z.to_nat n) a).
Proof.
  intros H. unfold cells.
  destruct (Z.ltb_spec (Z.of_nat (length a)) n); [lia|reflexivity].
Qed.

Lemma write_faces_spec (nums : list Z) (faces : list (list Z)) :
  (forall (i : nat) (n : Z) (row : list Z),
      nums !! i = Some n -> faces !! i = Some row ->
      to_Uint32 (3 * n) <= Z.of_nat (length row)) ->
  forall (todo i : nat),
    (i + todo <= length nums)%nat -> (i + todo <= length faces)%nat ->
    Gld.write_faces nums faces todo (Z.of_nat i)
    = Done (faces_bytes (take todo (drop i nums)) (take todo (drop i faces))).
Proof.
  intros Hrows. induction todo as [|todo IH]; intros i Hn Hf.
  - reflexivity.
  - destruct (lookup_lt_is_Some_2 nums i ltac:(lia)) as [n Hi].
    destruct (lookup_lt_is_Some_2 faces i ltac:(lia)) as [row Hrow].
    cbn [Gld.write_faces].
    assert (L1 : load faces (Z.of_nat i) = Done row)
      by (apply load_Done; rewrite Nat2Z.id; split; [lia|exact Hrow]).
    assert (L2 : load nums (Z.of_nat i) = Done n)
      by (apply load_Done; rewrite Nat2Z.id; split; [lia|exact Hi]).
    rewrite L1, L2. cbn [mbind outcome_bind].
    unfold fwrite. rewrite cells_Done by (eapply Hrows; eauto).
    cbn [mbind mret outcome_bind outcome_ret].
    replace (Z.of_nat i + 1) with (Z.of_nat (S i)) by lia.
    rewrite IH by lia. cbn [mbind mret outcome_bind outcome_ret].
    rewrite (drop_S _ _ _ Hi), (drop_S _ _ _ Hrow).
    reflexivity.
Qed.

Lemma fread_faces_app (nums : list Z) :
  forall (faces : list (list Z)),
    length faces = length nums ->
    Forall (Forall is_u16) faces ->
    (forall (i : nat) (n : Z) (row : list Z),
        nums !! i = Some n -> faces !! i = Some row ->
        to_Uint32 (3 * n) <= Z.of_nat (length row)) ->
    forall (rest : list byte) (j : nat -> byte) (k : nat),
    exists k',
      Gld.fread_faces nums (mkFILE (faces_bytes nums faces ++ rest) j k)
      = (zip_with (fun n row => take (Z.to_nat (to_Uint32 (3 * n))) row)
                  nums faces,
         mkFILE rest j k').
Proof.
  induction nums as [|n nums IH]; intros faces Hlen Hu16 Hrows rest j k.
  - simpl. eauto.
  - destruct faces as [|row faces]; [discriminate Hlen|].
    unfold faces_bytes. cbn [zip_with concat Gld.fread_faces].
    rewrite <- app_assoc.
    pose proof (Hrows 0%nat n row eq_refl eq_refl) as Hrow.
    pose proof (to_Uint32_range (3 * n)) as Hr. unfold is_u32 in Hr.
    inversion Hu16 as [|? ? Hrow16 Hrest16]; subst.
    set (cellsrow := take (Z.to_nat (to_Uint32 (3 * n))) row).
    assert (Hcl : length cellsrow = Z.to_nat (to_Uint32 (3 * n))).
    { subst cellsrow. rewrite length_take. lia. }
    destruct (fread_ints_app 2 cellsrow) with
      (rest := concat (zip_with
                 (fun n row =>
                    concat (map Uint16_bytes (take (Z.to_nat (to_Uint32 (3 * n))) row)))
                 nums faces) ++ rest) (j := j) (k := k) as [k1 E1].
    { subst cellsrow. apply Forall_take.
      eapply Forall_impl; [exact Hrow16|]. unfold is_u16. simpl. intros; lia. }
    rewrite Hcl in E1. unfold Uint16_bytes in E1 |- *. rewrite E1.
    destruct (IH faces ltac:(simpl in Hlen; lia) Hrest16) with
      (rest := rest) (j := j) (k := k1) as [k2 E2].
    { intros i n' row' Hi Hr'. apply (Hrows (S i) n' row'); assumption. }
    unfold faces_bytes, Uint16_bytes in E2. rewrite E2. eauto.
Qed.

Lemma u16_le (z : Z) : is_u16 z -> 0 <= z < 2 ^ (Z.of_nat 2 * 8).
Proof. unfold is_u16. change (2 ^ (Z.of_nat 2 * 8)) with (2 ^ 16). auto. Qed.

Lemma u32_le (z : Z) : is_u32 z -> 0 <= z < 2 ^ (Z.of_nat 4 * 8).
Proof. unfold is_u32. change (2 ^ (Z.of_nat 4 * 8)) with (2 ^ 32). auto. Qed.

Lemma Forall_u16_le (zs : list Z) :
  Forall is_u16 zs -> Forall (fun z => 0 <= z < 2 ^ (Z.of_nat 2 * 8)) zs.
Proof. intros H. eapply Forall_impl; [exact H|exact u16_le]. Qed.

Lemma Forall_u32_le (zs : list Z) :
  Forall is_u32 zs -> Forall (fun z => 0 <= z < 2 ^ (Z.of_nat 4 * 8)) zs.
Proof. intros H. eapply Forall_impl; [exact H|exact u32_le]. Qed.

Lemma fread_into_byte (b : byte) (rest : list byte) (j : nat -> byte) (k : nat) :
  fread_into [Byte.x00] 1 (mkFILE ([b] ++ rest) j k) = ([b], mkFILE rest j k).
Proof. reflexivity. Qed.

Lemma strcmp_eq_GLD :
  strcmp_eq (cstring_bytes Gld.GLD_FILE_MAGIC) (cstring_bytes Gld.GLD_FILE_MAGIC)
  = Done true.
Proof. reflexivity. Qed.

(** A well-formed mesh with readable names is written, and what is written
    is read back as the cells the mesh owns. *)
Lemma GLD_roundtrip_wf (g : Gld.GLData) :
  wf_mesh g ->
  Forall name_ok (Gld.mapNames g) ->
  exists bytes,
    Gld.SaveGLData (Some g) = Done bytes /\
    forall (rest : list byte) (j : nat -> byte) (k : nat),
      Gld.LoadGLData (mkFILE (bytes ++ rest) j k) = Done (Some (logical g)).
Proof.
  intros (HnMaps & Hnlen & Hmlen & Hm32 & HnV & Hlv & Hlt & Hfv & Hft & Hb
          & HnumTri & Hflen & Hf16 & Hrows) Hnames.
  destruct Hb as (B1 & B2 & B3 & B4 & B5 & B6).
  assert (HnM : 0 <= Gld.nMaps g) by (unfold is_u16 in HnMaps; lia).
  assert (HnV0 : 0 <= Gld.nVertices g) by (unfold is_u16 in HnV; lia).
  unfold Gld.SaveGLData.
  rewrite cells_Done by lia. cbn [mbind outcome_bind].
  unfold fwrite.
  rewrite (cells_Done (Gld.mapTriNums g)) by lia. cbn [mbind mret outcome_bind outcome_ret].
  rewrite (cells_Done (Gld.vertCoords g)) by lia. cbn [mbind mret outcome_bind outcome_ret].
  rewrite (cells_Done (Gld.texCoords g)) by lia. cbn [mbind mret outcome_bind outcome_ret].
  change 0 with (Z.of_nat 0).
  rewrite (write_faces_spec _ _ Hrows (Z.to_nat (Gld.nMaps g)) 0) by lia.
  cbn [mbind mret outcome_bind outcome_ret].
  rewrite !drop_0.
  rewrite (firstn_all2 (Gld.mapNames g)) by lia.
  rewrite (firstn_all2 (Gld.mapTriNums g)) by lia.
  rewrite (firstn_all2 (Gld.triFaces g)) by lia.
  eexists. split; [reflexivity|].
  intros rest j k. unfold Gld.LoadGLData.
  rewrite <- !app_assoc.
  (* signature and version *)
  destruct (fread_app (cstring_bytes Gld.GLD_FILE_MAGIC)) with
    (rest := Uint8_bytes Gld.GLD_VER ++
       Uint16_bytes (Gld.nMaps g) ++
       concat (map cstring_bytes (Gld.mapNames g)) ++
       concat (map Uint32_bytes (Gld.mapTriNums g)) ++
       Uint16_bytes (Gld.nVertices g) ++
       concat (map GLfloat_bytes (take (Z.to_nat (3 * Gld.nVertices g)) (Gld.vertCoords g))) ++
       concat (map GLfloat_bytes (take (Z.to_nat (2 * Gld.nVertices g)) (Gld.texCoords g))) ++
       GLfloat_bytes (Gld.minX g) ++ GLfloat_bytes (Gld.maxX g) ++
       GLfloat_bytes (Gld.minY g) ++ GLfloat_bytes (Gld.maxY g) ++
       GLfloat_bytes (Gld.minZ g) ++ GLfloat_bytes (Gld.maxZ g) ++
       Uint32_bytes (Gld.numTri g) ++
       faces_bytes (Gld.mapTriNums g) (Gld.triFaces g) ++ rest)
    (j := j) (k := k) as [k0 E0].
  change (length (cstring_bytes Gld.GLD_FILE_MAGIC)) with 4%nat in E0.
  rewrite E0. cbv beta iota.
  change (Uint8_bytes Gld.GLD_VER) with [Byte.x10].
  rewrite fread_into_byte. cbv beta iota.
  rewrite strcmp_eq_GLD. cbn [mbind mret outcome_bind outcome_ret andb].
  change (le_combine [Byte.x10] =? Gld.GLD_VER) with true. cbv beta iota.
  (* the texture maps *)
  unfold Uint16_bytes, Uint32_bytes, GLfloat_bytes.
  destruct (fread_int_app 2 (Gld.nMaps g)) with (j := j) (k := k0)
    (rest := concat (map cstring_bytes (Gld.mapNames g)) ++
       concat (map (le_split 4) (Gld.mapTriNums g)) ++
       le_split 2 (Gld.nVertices g) ++
       concat (map (le_split 4) (take (Z.to_nat (3 * Gld.nVertices g)) (Gld.vertCoords g))) ++
       concat (map (le_split 4) (take (Z.to_nat (2 * Gld.nVertices g)) (Gld.texCoords g))) ++
       le_split 4 (Gld.minX g) ++ le_split 4 (Gld.maxX g) ++
       le_split 4 (Gld.minY g) ++ le_split 4 (Gld.maxY g) ++
       le_split 4 (Gld.minZ g) ++ le_split 4 (Gld.maxZ g) ++
       le_split 4 (Gld.numTri g) ++
       faces_bytes (Gld.mapTriNums g) (Gld.triFaces g) ++ rest)
    as [k1 E1]; [apply u16_le; exact HnMaps|].
  rewrite E1. cbv beta iota.
  rewrite <- Hnlen.
  destruct (fread_names_app (Gld.mapNames g) Hnames) with (j := j) (k := k1)
    (rest := concat (map (le_split 4) (Gld.mapTriNums g)) ++
       le_split 2 (Gld.nVertices g) ++
       concat (map (le_split 4) (take (Z.to_nat (3 * Gld.nVertices g)) (Gld.vertCoords g))) ++
       concat (map (le_split 4) (take (Z.to_nat (2 * Gld.nVertices g)) (Gld.texCoords g))) ++
       le_split 4 (Gld.minX g) ++ le_split 4 (Gld.maxX g) ++
       le_split 4 (Gld.minY g) ++ le_split 4 (Gld.maxY g) ++
       le_split 4 (Gld.minZ g) ++ le_split 4 (Gld.maxZ g) ++
       le_split 4 (Gld.numTri g) ++
       faces_bytes (Gld.mapTriNums g) (Gld.triFaces g) ++ rest)
    as [k2 E2].
  rewrite E2. cbv beta iota.
  rewrite Hnlen, <- Hmlen.
  destruct (fread_ints_app 4 (Gld.mapTriNums g) (Forall_u32_le _ Hm32))
    with (j := j) (k := k2)
    (rest := le_split 2 (Gld.nVertices g) ++
       concat (map (le_split 4) (take (Z.to_nat (3 * Gld.nVertices g)) (Gld.vertCoords g))) ++
       concat (map (le_split 4) (take (Z.to_nat (2 * Gld.nVertices g)) (Gld.texCoords g))) ++
       le_split 4 (Gld.minX g) ++ le_split 4 (Gld.maxX g) ++
       le_split 4 (Gld.minY g) ++ le_split 4 (Gld.maxY g) ++
       le_split 4 (Gld.minZ g) ++ le_split 4 (Gld.maxZ g) ++
       le_split 4 (Gld.numTri g) ++
       faces_bytes (Gld.mapTriNums g) (Gld.triFaces g) ++ rest)
    as [k3 E3].
  rewrite E3. cbv beta iota.
  (* the vertex definitions *)
  destruct (fread_int_app 2 (Gld.nVertices g)) with (j := j) (k := k3)
    (rest :=
       concat (map (le_split 4) (take (Z.to_nat (3 * Gld.nVertices g)) (Gld.vertCoords g))) ++
       concat (map (le_split 4) (take (Z.to_nat (2 * Gld.nVertices g)) (Gld.texCoords g))) ++
       le_split 4 (Gld.minX g) ++ le_split 4 (Gld.maxX g) ++
       le_split 4 (Gld.minY g) ++ le_split 4 (Gld.maxY g) ++
       le_split 4 (Gld.minZ g) ++ le_split 4 (Gld.maxZ g) ++
       le_split 4 (Gld.numTri g) ++
       faces_bytes (Gld.mapTriNums g) (Gld.triFaces g) ++ rest)
    as [k4 E4]; [apply u16_le; exact HnV|].
  rewrite E4. cbv beta iota.
  set (vc := take (Z.to_nat (3 * Gld.nVertices g)) (Gld.vertCoords g)).
  set (tc := take (Z.to_nat (2 * Gld.nVertices g)) (Gld.texCoords g)).
  assert (Hvcl : length vc = Z.to_nat (3 * Gld.nVertices g))
    by (subst vc; rewrite length_take; lia).
  assert (Htcl : length tc = Z.to_nat (2 * Gld.nVertices g))
    by (subst tc; rewrite length_take; lia).
  rewrite <- Hvcl.
  destruct (fread_ints_app 4 vc) with (j := j) (k := k4)
    (rest := concat (map (le_split 4) tc) ++
       le_split 4 (Gld.minX g) ++ le_split 4 (Gld.maxX g) ++
       le_split 4 (Gld.minY g) ++ le_split 4 (Gld.maxY g) ++
       le_split 4 (Gld.minZ g) ++ le_split 4 (Gld.maxZ g) ++
       le_split 4 (Gld.numTri g) ++
       faces_bytes (Gld.mapTriNums g) (Gld.triFaces g) ++ rest)
    as [k5 E5].
  { apply Forall_u32_le. subst vc. apply Forall_take. exact Hfv. }
  rewrite E5. cbv beta iota.
  rewrite <- Htcl.
  destruct (fread_ints_app 4 tc) with (j := j) (k := k5)
    (rest :=
       le_split 4 (Gld.minX g) ++ le_split 4 (Gld.maxX g) ++
       le_split 4 (Gld.minY g) ++ le_split 4 (Gld.maxY g) ++
       le_split 4 (Gld.minZ g) ++ le_split 4 (Gld.maxZ g) ++
       le_split 4 (Gld.numTri g) ++
       faces_bytes (Gld.mapTriNums g) (Gld.triFaces g) ++ rest)
    as [k6 E6].
  { apply Forall_u32_le. subst tc. apply Forall_take. exact Hft. }
  rewrite E6. cbv beta iota.
  (* the bounds and the number of triangles *)
  repeat match goal with
  | |- context [fread_int 4 (mkFILE (le_split 4 ?z ++ ?r) ?jj ?kk)] =>
      let kn := fresh "kn" in
      let En := fresh "En" in
      destruct (fread_int_app 4 z r jj kk) as [kn En];
      [apply u32_le; assumption|];
      rewrite En; cbv beta iota
  end.
  (* the index arrays *)
  match goal with
  | |- context [Gld.fread_faces _ (mkFILE _ ?jj ?kk)] =>
      destruct (fread_faces_app (Gld.mapTriNums g) (Gld.triFaces g)
                  ltac:(lia) Hf16 Hrows rest jj kk) as [kf Ef]
  end.
  rewrite Ef. cbv beta iota.
  reflexivity.
Qed.

(** ** Apart: beyond the tolerance, or not a number *)

Lemma SFcompare_antisym (x y : spec_float) :
  SFcompare y x = option_map CompOpp (SFcompare x y).
Proof.
  destruct x as [s1|s1| |s1 m1 e1], y as [s2|s2| |s2 m2 e2]; simpl;
    try reflexivity;
    try (destruct s1; reflexivity);
    try (destruct s2; reflexivity);
    try (destruct s1, s2; reflexivity).
  destruct s1, s2; simpl; try reflexivity.
  - rewrite (Z.compare_antisym e1 e2).
    destruct (e1 ?= e2); simpl; try reflexivity.
    rewrite (Pos.compare_cont_antisym m1 m2 Eq). reflexivity.
  - rewrite (Z.compare_antisym e1 e2).
    destruct (e1 ?= e2); simpl; try reflexivity.
    rewrite (Pos.compare_cont_antisym m1 m2 Eq). reflexivity.
Qed.

Lemma SFcompare_None (x y : spec_float) :
  SFcompare x y = None -> x = S754_nan \/ y = S754_nan.
Proof.
  destruct x as [s1|s1| |s1 m1 e1], y as [s2|s2| |s2 m2 e2]; simpl; auto;
    try discriminate.
Qed.

Lemma coordinate_apart_iff (eps a b : GLfloat) :
  F64.is_nan (to_double eps) = false ->
  coordinate_apart eps a b <->
  exceeds eps a b = true \/
  F64.is_nan (F64.fabs (to_double (F32.sub a b))) = true.
Proof.
  unfold coordinate_apart, within, exceeds.
  unfold F64.leb, F64.gtb, F64.is_nan, IEEE.leb, IEEE.gtb, IEEE.ltb, IEEE.is_nan.
  unfold SFleb, SFltb.
  generalize (IEEE.decode 53 1024 (F64.fabs (to_double (F32.sub a b)))) as x.
  generalize (IEEE.decode 53 1024 (to_double eps)) as y.
  intros y x Hy.
  rewrite (SFcompare_antisym x y).
  destruct (SFcompare x y) as [[| |]|] eqn:E; simpl.
  - split; [discriminate|]. intros [H|H]; [discriminate|].
    destruct x; discriminate.
  - split; [discriminate|]. intros [H|H]; [discriminate|].
    destruct x; discriminate.
  - split; auto.
  - split; [|reflexivity]. intros _. right.
    apply SFcompare_None in E. destruct E as [->| ->]; [reflexivity|].
    discriminate.
Qed.

(** ** Saving and loading a mesh *)

Lemma logical_exact (g : Gld.GLData) :
  wf_mesh g -> exact_mesh g -> logical g = g.
Proof.
  intros (_ & _ & Hmlen & _ & _ & _ & _ & _ & _ & _ & _ & Hflen & _ & _)
         (Hv & Ht & Hrows).
  destruct g as [nMaps mapNames mapTriNums nVertices vertCoords texCoords
                 minX maxX minY maxY minZ maxZ numTri triFaces].
  unfold logical. simpl in *. f_equal.
  - apply take_ge. lia.
  - apply take_ge. lia.
  - apply list_eq. intros i. rewrite lookup_zip_with.
    destruct (mapTriNums !! i) as [n|] eqn:En; simpl.
    + destruct (triFaces !! i) as [row|] eqn:Er; simpl; [|reflexivity].
      f_equal. apply take_ge. specialize (Hrows i n row En Er). lia.
    + apply lookup_ge_None in En. symmetry. apply lookup_ge_None. lia.
Qed.

Lemma Forall_is_float_unit_triVerts : Forall is_float unit_triVerts.
Proof. repeat constructor; unfold is_float; lia. Defined.

Lemma Forall_is_float_unit_triTexCoords : Forall is_float unit_triTexCoords.
Proof. repeat constructor; unfold is_float; lia. Defined.

Lemma name_ok_ab : name_ok name_ab.
Proof.
  split; [simpl; lia|]. repeat constructor; discriminate.
Defined.

(** The bound of 255 characters is the one of the buffer [LoadGLData]
    reads a name into: a mesh built with a name of 256 characters is
    written whole, but the name is read back cut, and the mesh read is
    another one. *)
Lemma GLD_roundtrip_long_name :
  exists (g : Gld.GLData) (bytes : list byte),
    Gld.GenGLData sample_heap 1 (Some unit_triVerts) (Some [0])
                  (Some unit_triTexCoords) 1 (Some [long_name])
    = Done (Some g) /\
    Gld.SaveGLData (Some g) = Done bytes /\
    Gld.LoadGLData (mkFILE bytes (fun _ => Byte.x00) 0) <> Done (Some g).
Proof.
  eexists. eexists. split; [vm_compute; reflexivity|].
  split; [vm_compute; reflexivity|].
  intros H.
  apply (f_equal (fun r => match r with
                           | Done (Some m) => Gld.nVertices m
                           | _ => 0
                           end)) in H.
  vm_compute in H. discriminate H.
Qed.

(** ** The shared vertex tables *)

Lemma gld_def_defined (vc tc : list GLfloat) (k : nat) :
  (3 * k + 3 <= length vc)%nat -> (2 * k + 2 <= length tc)%nat ->
  exists d : VertDef, gld_def vc tc k = Some d.
Proof.
  intros Hv Ht.
  destruct (lookup_lt_is_Some_2 vc (3 * k)%nat ltac:(lia)) as [x Hx].
  destruct (lookup_lt_is_Some_2 vc (3 * k + 1)%nat ltac:(lia)) as [y Hy].
  destruct (lookup_lt_is_Some_2 vc (3 * k + 2)%nat ltac:(lia)) as [z Hz].
  destruct (lookup_lt_is_Some_2 tc (2 * k)%nat ltac:(lia)) as [u Hu].
  destruct (lookup_lt_is_Some_2 tc (2 * k + 1)%nat ltac:(lia)) as [v Hv'].
  exists ((x, y, z), (u, v)). apply gld_def_Some. cbn [fst snd]. auto.
Qed.

(** The table of the mesh [GenGLData] returns holds [nVertices]
    definitions, each earlier one apart from each later one. *)
Lemma GenGLData_apart
  (heap : nat -> nat -> Z) (nTri : Z) (tv : list GLfloat) (ti : list Z)
  (tc : list GLfloat) (nMaps : Z) (names : list (list byte)) (g : Gld.GLData) :
  0 <= nTri < 2 ^ 32 ->
  Forall is_float tv -> Forall is_float tc ->
  Gld.GenGLData heap nTri (Some tv) (Some ti) (Some tc) nMaps (Some names)
  = Done (Some g) ->
  3 * Gld.nVertices g <= Z.of_nat (length (Gld.vertCoords g)) /\
  2 * Gld.nVertices g <= Z.of_nat (length (Gld.texCoords g)) /\
  gld_apart (Gld.nVertices g) (Gld.vertCoords g) (Gld.texCoords g).
Proof.
  intros HnTri Htv Htc H.
  destruct (GenGLData_run heap nTri tv ti tc nMaps names g HnTri Htv Htc H)
    as (counted & rows & t & ft & _ & _ & _ & _ & _ & Hvt & _ & ->).
  destruct Hvt as (Hn & Hlv & Hlt & _ & _ & _ & Hap).
  cbn [Gld.nVertices Gld.vertCoords Gld.texCoords].
  destruct (Z.ltb_spec 0 (Gld.vt_n t)) as [Hpos|Hzero].
  - rewrite (realloc_shrink _ (Gld.vt_vert t)) by lia.
    rewrite (realloc_shrink _ (Gld.vt_tex t)) by lia.
    rewrite !length_take.
    split; [lia|]. split; [lia|].
    apply gld_apart_take; [lia|exact Hap].
  - split; [lia|]. split; [lia|exact Hap].
Qed.

Lemma table_inv_initial (nMaps : Z) : table_inv (Bsp.initial_globals nMaps).
Proof.
  split; [exact I|]. intros i j d1 d2 _ H. simpl in H.
  rewrite lookup_nil in H. discriminate H.
Qed.

Lemma GetVertDefIndex_calls_inv (calls : list (Bsp.Vec3 * Bsp.Vec2)) :
  forall g : Bsp.Globals,
    table_inv g ->
    table_inv (fold_left (fun g c => snd (Bsp.GetVertDefIndex (fst c) (snd c) g))
                         calls g).
Proof.
  induction calls as [|c calls IH]; intros g Hinv; [exact Hinv|].
  cbn [fold_left]. apply IH. apply GetVertDefIndex_inv. exact Hinv.
Qed.

(** C6 as stated fails for coordinates that are not finite: two corners at
    the same point at infinity are not folded, the difference of their
    coordinates not being a number, and the table of the mesh holds the
    same definition twice; no coordinate of the two differs by more than
    its tolerance. *)
Lemma vertex_table_holds_infinity_twice :
  exists (g : Gld.GLData) (d : VertDef),
    Gld.GenGLData sample_heap 1 (Some far_triVerts) (Some [0])
                  (Some far_triTexCoords) 1 (Some [name_ab])
    = Done (Some g) /\
    1 < Gld.nVertices g /\
    gld_def (Gld.vertCoords g) (Gld.texCoords g) 0 = Some d /\
    gld_def (Gld.vertCoords g) (Gld.texCoords g) 1 = Some d /\
    ~ strictly_apart d d.
Proof.
  eexists. eexists. split; [vm_compute; reflexivity|].
  split; [reflexivity|].
  split; [vm_compute; reflexivity|].
  split; [vm_compute; reflexivity|].
  unfold strictly_apart.
  intros [H|[H|[H|[H|H]]]]; vm_compute in H; discriminate H.
Qed.

(** ** The theorems at the sample data *)

Lemma SplitTri_spanning_rings_witness :
  exists r,
    Bsp.walk (fun _ => (0, 0, 0)) unit_tri plane_x_half = Done r /\
    3 <= Bsp.numFrontVerts r <= 4 /\
    3 <= Bsp.numBackVerts r <= 4 /\
    exists fList bList,
      Bsp.SplitTri (fun _ => (0, 0, 0)) unit_tri plane_x_half
      = Done (fList, bList).
Proof.
  apply (SplitTri_spanning_rings (fun _ => (0, 0, 0)) unit_tri plane_x_half).
  vm_compute. reflexivity.
Defined.

Lemma SelectNextRoot_selects_witness :
  exists (k : nat) (root : Bsp.BSPTriNode),
    Bsp.SelectNextRoot [unit_tri; raised_tri]
    = (Some root, delete k [unit_tri; raised_tri]) /\
    [unit_tri; raised_tri] !! k = Some root /\
    Bsp.score [unit_tri; raised_tri] k root
    = root_score [unit_tri; raised_tri] k /\
    (forall j, (j < k)%nat ->
       root_score [unit_tri; raised_tri] k < root_score [unit_tri; raised_tri] j) /\
    (root_score [unit_tri; raised_tri] k = 0 \/
     forall j, (k < j < length [unit_tri; raised_tri])%nat ->
       root_score [unit_tri; raised_tri] k <= root_score [unit_tri; raised_tri] j) /\
    (forall z, (z < length [unit_tri; raised_tri])%nat ->
       root_score [unit_tri; raised_tri] z = 0 ->
       (k <= z)%nat /\ root_score [unit_tri; raised_tri] k = 0).
Proof.
  apply (SelectNextRoot_selects [unit_tri; raised_tri]).
  - discriminate.
  - vm_compute. reflexivity.
Defined.

Lemma ConvIntBSPTree_node_witness :
  let tris := [sliver_tri; unit_tri] in
  let g := Bsp.initial_globals 1 in
  let kept := survivors (Bsp.vertDefsPtr g) tris in
  map face_of kept = [{| Bsp.texIndex := 0; Bsp.vIndices := (0, 2, 1) |}] /\
  exists n g1,
    Bsp.conv_node plane_z0 2 tris g = Done (n, g1) /\
    Bsp.cn_triDefs n = map face_of kept /\
    Bsp.cn_numTri n = Z.of_nat (length kept) /\
    Some (Bsp.cn_partPlane n) = converted_plane plane_z0 kept /\
    forall tree g',
      Bsp.ConvIntBSPTree
        (Bsp.mkIntBSPTreeNode plane_z0 2 tris Bsp.NULL_node Bsp.NULL_node) g
      = Done (tree, g') ->
      exists b f,
        tree = Bsp.mkBSPTree (Bsp.cn_numTri n) (Bsp.cn_triDefs n)
                             (Bsp.cn_partPlane n) b f.
Proof.
  split; [vm_compute; reflexivity|].
  apply (ConvIntBSPTree_node plane_z0 2 [sliver_tri; unit_tri]
           Bsp.NULL_node Bsp.NULL_node (Bsp.initial_globals 1)).
  - reflexivity.
  - vm_compute. reflexivity.
  - repeat constructor; simpl; lia.
Defined.

(** ** Loading a tree: malformed streams *)

Lemma strcmp_eq_BSP (x0 x1 x2 x3 : byte) :
  strcmp_eq (cstring_bytes Bsp.BSP_FILE_MAGIC) [x0; x1; x2; x3]
  = Done (Byte.eqb Byte.x42 x0 && Byte.eqb Byte.x53 x1
          && Byte.eqb Byte.x50 x2 && Byte.eqb Byte.x00 x3).
Proof.
  change (cstring_bytes Bsp.BSP_FILE_MAGIC)
    with [Byte.x42; Byte.x53; Byte.x50; Byte.x00].
  cbn [strcmp_eq].
  change (Byte.eqb Byte.x42 Byte.x00) with false.
  change (Byte.eqb Byte.x53 Byte.x00) with false.
  change (Byte.eqb Byte.x50 Byte.x00) with false.
  change (Byte.eqb Byte.x00 Byte.x00) with true.
  destruct (Byte.eqb Byte.x42 x0); [|reflexivity].
  destruct (Byte.eqb Byte.x53 x1); [|reflexivity].
  destruct (Byte.eqb Byte.x50 x2); [|reflexivity].
  destruct (Byte.eqb Byte.x00 x3); reflexivity.
Qed.

Lemma le_combine_singleton (b : byte) : le_combine [b] = byte.unsigned b.
Proof.
  change (le_combine [b]) with (Z.lor (byte.unsigned b) (Z.shiftl 0 8)).
  rewrite Z.shiftl_0_l. apply Z.lor_0_r.
Qed.

Lemma version_byte (b : byte) :
  (le_combine [b] =? Bsp.BSP_DATA_VER) = true -> b = Byte.x10.
Proof.
  rewrite le_combine_singleton. intros H. apply Z.eqb_eq in H.
  apply byte.unsigned_inj. exact H.
Qed.

(** A stream that does not begin with the signature and the version is
    refused. *)
Lemma LoadBSPTreeData_bad_header (fuel : nat) (f : FILE) :
  take 5 (pending f) <> BSP_header ->
  Bsp.LoadBSPTreeData fuel f = Done None.
Proof.
  destruct f as [p j k]. cbn [pending]. intros Hbad.
  unfold Bsp.LoadBSPTreeData.
  destruct p as [|b0 [|b1 [|b2 [|b3 [|b4 rest]]]]].
  1-5: (unfold fread, fread_into; cbn [pending junk fresh take drop length app
          seq map Nat.sub];
        rewrite strcmp_eq_BSP; cbn [mbind outcome_bind];
        change (le_combine [Byte.x00] =? Bsp.BSP_DATA_VER) with false;
        rewrite andb_false_r; reflexivity).
  unfold fread, fread_into; cbn [pending junk fresh take drop length app
          seq map Nat.sub].
  rewrite strcmp_eq_BSP. cbn [mbind outcome_bind].
  change (b4 :: take 0 rest ++ drop (length (take 0 rest)) [])
    with [b4].
  destruct (Byte.eqb Byte.x42 b0) eqn:E0; [|reflexivity].
  destruct (Byte.eqb Byte.x53 b1) eqn:E1; [|reflexivity].
  destruct (Byte.eqb Byte.x50 b2) eqn:E2; [|reflexivity].
  destruct (Byte.eqb Byte.x00 b3) eqn:E3; [|reflexivity].
  destruct (le_combine [b4] =? Bsp.BSP_DATA_VER) eqn:E4; [|reflexivity].
  exfalso. apply Hbad.
  apply Byte.byte_dec_bl in E0, E1, E2, E3. apply version_byte in E4.
  subst. reflexivity.
Qed.

Lemma decode_cFlag_bad (c : Z) :
  good_cFlag c = false -> Bsp.decode_cFlag c = Exit.
Proof.
  unfold good_cFlag, Bsp.decode_cFlag.
  destruct (c =? 0); [discriminate|].
  destruct (c =? 176); [discriminate|].
  destruct (c =? 15); [discriminate|].
  destruct (c =? 191); [discriminate|reflexivity].
Qed.

Lemma ReadBSPTree_bad_cFlag (vc : list GLfloat) :
  forall (fuel : nat) (f : FILE),
    meets_bad_cFlag vc fuel f -> Bsp.ReadBSPTree fuel vc f = Exit.
Proof.
  induction 1 as [fuel f numTri triDefs partPlane cFlag f1 Hread Hbad
                 |fuel f numTri triDefs partPlane cFlag f1 hf Hread Hdec _ IH
                 |fuel f numTri triDefs partPlane cFlag f1 hb b f2
                    Hread Hdec Hback _ IH];
    cbn [Bsp.ReadBSPTree]; rewrite Hread; cbn [mbind outcome_bind].
  - rewrite (decode_cFlag_bad _ Hbad). reflexivity.
  - rewrite Hdec. cbn [mbind outcome_bind]. rewrite IH. reflexivity.
  - rewrite Hdec. cbn [mbind outcome_bind].
    destruct hb.
    + rewrite Hback. cbn [mbind outcome_bind]. rewrite IH. reflexivity.
    + cbn [mret outcome_ret mbind outcome_bind] in *.
      injection Hback as <- <-. rewrite IH. reflexivity.
Qed.

Lemma LoadBSPTreeData_good_header
  (fuel : nat) (rest : list byte) (j : nat -> byte) (k : nat) :
  Bsp.LoadBSPTreeData fuel (mkFILE (BSP_header ++ rest) j k)
  = (let '(retVal, f) := Bsp.read_fields (mkFILE rest j (k + 4)) in
     '(tree, _) ← Bsp.ReadBSPTree fuel (Bsp.vertCoords retVal) f;
     mret (Some (Bsp.set_bspTree retVal tree))).
Proof. reflexivity. Qed.

(** What [LoadBSPTreeData] does with a malformed stream.  A stream that
    does not begin with the signature [BSP\0] and the version 0x10 makes
    it return [NULL].  A [cFlag] outside 0x00, 0xB0, 0x0F and 0xBF met
    during the preorder read makes [ReadBSPTree], and [LoadBSPTreeData]
    with it, end the process with [exit(EXIT_FAILURE)]. *)
Theorem LoadBSPTreeData_malformed :
  (forall (fuel : nat) (f : FILE),
      take 5 (pending f) <> BSP_header ->
      Bsp.LoadBSPTreeData fuel f = Done None) /\
  (forall (fuel : nat) (vc : list GLfloat) (f : FILE),
      meets_bad_cFlag vc fuel f -> Bsp.ReadBSPTree fuel vc f = Exit) /\
  (forall (fuel : nat) (rest : list byte) (j : nat -> byte) (k : nat)
          (retVal : Bsp.BSPTreeData) (f : FILE),
      Bsp.read_fields (mkFILE rest j (k + 4)) = (retVal, f) ->
      meets_bad_cFlag (Bsp.vertCoords retVal) fuel f ->
      Bsp.LoadBSPTreeData fuel (mkFILE (BSP_header ++ rest) j k) = Exit).
Proof.
  split; [exact LoadBSPTreeData_bad_header|].
  split; [intros fuel vc f; apply ReadBSPTree_bad_cFlag|].
  intros fuel rest j k retVal f Hfields Hbad.
  rewrite LoadBSPTreeData_good_header, Hfields.
  rewrite (ReadBSPTree_bad_cFlag _ _ _ Hbad). reflexivity.
Qed.

Lemma LoadBSPTreeData_malformed_witness :
  Bsp.LoadBSPTreeData 1%nat (mkFILE foreign_stream no_bytes 0%nat) = Done None /\
  Bsp.LoadBSPTreeData 1%nat (mkFILE corrupt_stream no_bytes 0%nat) = Exit.
Proof.
  split.
  - apply (proj1 LoadBSPTreeData_malformed 1%nat (mkFILE foreign_stream no_bytes 0%nat)).
    vm_compute. discriminate.
  - eapply (proj2 (proj2 LoadBSPTreeData_malformed) 1%nat corrupt_body no_bytes 0%nat).
    + vm_compute. reflexivity.
    + eapply bad_here; [vm_compute; reflexivity|reflexivity].
Defined.

(** C1 (a defect of the code).  [bsp.h] documents [LoadBSPTreeData] as
    returning [NULL] on error, and it does so for a wrong signature or
    version.  On a stream with the right header whose first node has the
    [cFlag] 0x01 it does not: the [default] branch of [ReadBSPTree] ends
    the process, and the caller gets no [NULL]. *)
Lemma LoadBSPTreeData_bad_cFlag_exits :
  Bsp.LoadBSPTreeData 1%nat (mkFILE corrupt_stream no_bytes 0%nat) = Exit /\
  Bsp.LoadBSPTreeData 1%nat (mkFILE corrupt_stream no_bytes 0%nat) <> Done None.
Proof.
  assert (H : Bsp.LoadBSPTreeData 1%nat (mkFILE corrupt_stream no_bytes 0%nat) = Exit)
    by (vm_compute; reflexivity).
  split; [exact H|]. rewrite H. discriminate.
Qed.

(** ** Saving and loading a tree *)

Lemma length_BSPPlane_bytes (p : Bsp.BSPPlane) :
  length (Bsp.BSPPlane_bytes p) = 32%nat.
Proof.
  unfold Bsp.BSPPlane_bytes, GLdouble_bytes.
  rewrite !length_app, !length_le_split. reflexivity.
Qed.

Lemma length_BSPTriFace_bytes (x : Bsp.BSPTriFace) :
  length (Bsp.BSPTriFace_bytes x) = 8%nat.
Proof.
  unfold Bsp.BSPTriFace_bytes, Uint16_bytes.
  destruct (Bsp.vIndices x) as [[i0 i1] i2].
  rewrite !length_app, !length_le_split. reflexivity.
Qed.

(** What [WriteBSPTree] writes for a node. *)
Lemma WriteBSPTree_node numTri triDefs partPlane back front (bytes : list byte) :
  Bsp.WriteBSPTree (Bsp.mkBSPTree numTri triDefs partPlane back front)
  = Done bytes ->
  exists b f : list byte,
    Bsp.WriteBSPTree back = Done b /\
    Bsp.WriteBSPTree front = Done f /\
    bytes = node_bytes numTri triDefs partPlane back front ++ b ++ f.
Proof.
  cbn [Bsp.WriteBSPTree]. unfold fwrite, cells. intros H.
  destruct (Z.of_nat (length triDefs) <? numTri); [discriminate H|].
  cbn [mbind mret outcome_bind outcome_ret] in H.
  destruct (Bsp.WriteBSPTree back) as [b| | |]; try discriminate H.
  destruct (Bsp.WriteBSPTree front) as [f| | |]; try discriminate H.
  cbn [mbind mret outcome_bind outcome_ret] in H.
  injection H as <-. exists b, f. split; [reflexivity|]. split; [reflexivity|].
  unfold node_bytes. rewrite <- !app_assoc. reflexivity.
Qed.

Lemma u64_le (z : Z) : is_u64 z -> 0 <= z < 2 ^ (Z.of_nat 8 * 8).
Proof. unfold is_u64. change (2 ^ (Z.of_nat 8 * 8)) with (2 ^ 64). auto. Qed.

Lemma u8_le (z : Z) : 0 <= z < 2 ^ 8 -> 0 <= z < 2 ^ (Z.of_nat 1 * 8).
Proof. change (2 ^ (Z.of_nat 1 * 8)) with (2 ^ 8). auto. Qed.

Lemma fread_plane_app (p : Bsp.BSPPlane) (rest : list byte)
  (j : nat -> byte) (k : nat) :
  plane_ok p ->
  exists k',
    Bsp.fread_plane (mkFILE (Bsp.BSPPlane_bytes p ++ rest) j k)
    = (p, mkFILE rest j k').
Proof.
  intros (HA & HB & HC & HD). destruct p as [a b c d]. cbn [Bsp.A Bsp.B Bsp.C Bsp.D] in *.
  unfold Bsp.fread_plane, Bsp.BSPPlane_bytes, GLdouble_bytes.
  cbn [Bsp.A Bsp.B Bsp.C Bsp.D]. rewrite <- !app_assoc.
  destruct (fread_int_app 8 a (le_split 8 b ++ le_split 8 c ++ le_split 8 d ++ rest)
              j k (u64_le _ HA)) as [k1 E1]. rewrite E1.
  destruct (fread_int_app 8 b (le_split 8 c ++ le_split 8 d ++ rest)
              j k1 (u64_le _ HB)) as [k2 E2]. rewrite E2.
  destruct (fread_int_app 8 c (le_split 8 d ++ rest) j k2 (u64_le _ HC))
    as [k3 E3]. rewrite E3.
  destruct (fread_int_app 8 d rest j k3 (u64_le _ HD)) as [k4 E4]. rewrite E4.
  eauto.
Qed.

Lemma fread_face_app (x : Bsp.BSPTriFace) (rest : list byte)
  (j : nat -> byte) (k : nat) :
  face_ok x ->
  exists k',
    Bsp.fread_face (mkFILE (Bsp.BSPTriFace_bytes x ++ rest) j k)
    = (x, mkFILE rest j k').
Proof.
  intros (Ht & H0 & H1 & H2). destruct x as [t [[i0 i1] i2]].
  cbn [Bsp.texIndex Bsp.vIndices fst snd] in *.
  unfold Bsp.fread_face, Bsp.BSPTriFace_bytes, Uint16_bytes.
  cbn [Bsp.texIndex Bsp.vIndices]. rewrite <- !app_assoc.
  destruct (fread_int_app 2 t (le_split 2 i0 ++ le_split 2 i1 ++ le_split 2 i2 ++ rest)
              j k (u16_le _ Ht)) as [k1 E1]. rewrite E1.
  destruct (fread_int_app 2 i0 (le_split 2 i1 ++ le_split 2 i2 ++ rest)
              j k1 (u16_le _ H0)) as [k2 E2]. rewrite E2.
  destruct (fread_int_app 2 i1 (le_split 2 i2 ++ rest) j k2 (u16_le _ H1))
    as [k3 E3]. rewrite E3.
  destruct (fread_int_app 2 i2 rest j k3 (u16_le _ H2)) as [k4 E4]. rewrite E4.
  eauto.
Qed.

Lemma Bsp_fread_faces_app (xs : list Bsp.BSPTriFace) :
  Forall face_ok xs ->
  forall (rest : list byte) (j : nat -> byte) (k : nat),
  exists k',
    Bsp.fread_faces (length xs)
      (mkFILE (concat (map Bsp.BSPTriFace_bytes xs) ++ rest) j k)
    = (xs, mkFILE rest j k').
Proof.
  induction 1 as [|x xs Hx Hxs IH]; intros rest j k.
  - simpl. eauto.
  - cbn [length Bsp.fread_faces map concat]. rewrite <- app_assoc.
    destruct (fread_face_app x (concat (map Bsp.BSPTriFace_bytes xs) ++ rest)
                j k Hx) as [k1 E1].
    rewrite E1. destruct (IH rest j k1) as [k2 E2]. rewrite E2. eauto.
Qed.

Lemma cFlag_of_range (back front : Bsp.BSPTree) :
  0 <= Bsp.cFlag_of back front < 2 ^ 8.
Proof. destruct back, front; vm_compute; (split; [discriminate|reflexivity]). Qed.

Lemma decode_cFlag_of (back front : Bsp.BSPTree) :
  Bsp.decode_cFlag (Bsp.cFlag_of back front)
  = Done (match back with Bsp.NULL_tree => false | _ => true end,
          match front with Bsp.NULL_tree => false | _ => true end).
Proof. destruct back, front; reflexivity. Qed.

Ltac read_int E :=
  match goal with
  | |- context [fread_int ?n (mkFILE (le_split ?n ?z ++ ?r) ?j ?k)] =>
      let k' := fresh "k" in
      destruct (fread_int_app n z r j k) as [k' E];
      [ | rewrite E; cbv beta iota ]
  end.

(** A tree that can be saved is written, and reading the bytes back gives
    the tree with the planes of its nodes with triangles recomputed. *)
Lemma BSPTree_roundtrip (vc : list GLfloat) :
  forall t : Bsp.BSPTree,
    tree_ok vc t ->
    exists bytes : list byte,
      Bsp.WriteBSPTree t = Done bytes /\
      (t <> Bsp.NULL_tree ->
       forall (fuel : nat) (rest : list byte) (j : nat -> byte) (k : nat),
         (depth t <= fuel)%nat ->
         exists k',
           Bsp.ReadBSPTree fuel vc (mkFILE (bytes ++ rest) j k)
           = Done (reloaded vc t, mkFILE rest j k')).
Proof.
  induction t as [|numTri triDefs partPlane back IHb front IHf]; intros Hok.
  - exists []. split; [reflexivity|]. intros H. exfalso. apply H. reflexivity.
  - destruct Hok as (Hn & Hlen & Hfaces & Hplane & Hb & Hf).
    destruct (IHb Hb) as (bb & Wb & Rb).
    destruct (IHf Hf) as (fb & Wf & Rf).
    cbn [Bsp.WriteBSPTree]. unfold fwrite.
    rewrite cells_Done by lia. rewrite Wb, Wf.
    cbn [mbind mret outcome_bind outcome_ret].
    rewrite firstn_all2 by lia.
    eexists. split; [reflexivity|]. intros _ fuel rest j k Hfuel.
    destruct fuel as [|fuel]; [cbn [depth] in Hfuel; lia|].
    cbn [depth] in Hfuel.
    cbn [Bsp.ReadBSPTree reloaded]. unfold Bsp.read_node.
    rewrite <- !app_assoc. unfold Uint16_bytes, Uint8_bytes.
    read_int E1; [apply u16_le; exact Hn|].
    replace (Z.to_nat numTri) with (length triDefs) by lia.
    destruct (Bsp_fread_faces_app triDefs Hfaces
                ((if numTri =? 0 then Bsp.BSPPlane_bytes partPlane else []) ++
                 le_split 1 (Bsp.cFlag_of back front) ++ bb ++ fb ++ rest)
                j k0) as [k1 E2].
    rewrite E2. cbv beta iota.
    assert (Hnode :
      exists k2,
        ('(partPlane0, f) ← (if numTri =? 0
                             then mret (Bsp.fread_plane
                                    (mkFILE ((if numTri =? 0
                                              then Bsp.BSPPlane_bytes partPlane
                                              else []) ++
                                             le_split 1 (Bsp.cFlag_of back front)
                                             ++ bb ++ fb ++ rest) j k1))
                             else p ← Bsp.recompute_plane vc triDefs;
                                  mret (p, mkFILE ((if numTri =? 0
                                              then Bsp.BSPPlane_bytes partPlane
                                              else []) ++
                                             le_split 1 (Bsp.cFlag_of back front)
                                             ++ bb ++ fb ++ rest) j k1));
         let '(cFlag, f0) := fread_int 1 f in
         mret (numTri, triDefs, partPlane0, cFlag, f0))
        = Done (numTri, triDefs,
                (if numTri =? 0 then partPlane
                 else default partPlane (first_plane vc triDefs)),
                Bsp.cFlag_of back front,
                mkFILE (bb ++ fb ++ rest) j k2)).
    { destruct (numTri =? 0).
      - destruct (fread_plane_app partPlane
                    (le_split 1 (Bsp.cFlag_of back front) ++ bb ++ fb ++ rest)
                    j k1 Hplane) as [k2 E3].
        rewrite E3. cbn [mbind mret outcome_bind outcome_ret].
        read_int E4; [apply u8_le; apply cFlag_of_range|]. eauto.
      - unfold first_plane in *.
        destruct (Bsp.recompute_plane vc triDefs) as [q| | |];
          try (destruct Hplane as [q Hq]; discriminate Hq).
        cbn [mbind mret outcome_bind outcome_ret app default].
        read_int E4; [apply u8_le; apply cFlag_of_range|]. eauto. }
    destruct Hnode as [k2 Hnode]. rewrite Hnode.
    cbn [mbind mret outcome_bind outcome_ret].
    rewrite decode_cFlag_of. cbn [mbind mret outcome_bind outcome_ret].
    assert (Hback :
      exists k3,
        (if match back with Bsp.NULL_tree => false | _ => true end
         then Bsp.ReadBSPTree fuel vc (mkFILE (bb ++ fb ++ rest) j k2)
         else mret (Bsp.NULL_tree, mkFILE (bb ++ fb ++ rest) j k2))
        = Done (reloaded vc back, mkFILE (fb ++ rest) j k3)).
    { destruct back as [|bn bt bp b1 b2].
      - injection Wb as <-. eexists. reflexivity.
      - apply Rb; [discriminate|lia]. }
    destruct Hback as [k3 Hback]. rewrite Hback.
    cbn [mbind mret outcome_bind outcome_ret].
    assert (Hfront :
      exists k4,
        (if match front with Bsp.NULL_tree => false | _ => true end
         then Bsp.ReadBSPTree fuel vc (mkFILE (fb ++ rest) j k3)
         else mret (Bsp.NULL_tree, mkFILE (fb ++ rest) j k3))
        = Done (reloaded vc front, mkFILE rest j k4)).
    { destruct front as [|fn ft fp f1 f2].
      - injection Wf as <-. eexists. reflexivity.
      - apply Rf; [discriminate|lia]. }
    destruct Hfront as [k4 Hfront]. rewrite Hfront.
    cbn [mbind mret outcome_bind outcome_ret]. eauto.
Qed.

Lemma recompute_plane_Done (vc : list GLfloat) (triDefs : list Bsp.BSPTriFace)
  (p : Bsp.BSPPlane) :
  Bsp.recompute_plane vc triDefs = Done p ->
  exists (first : Bsp.BSPTriFace) (v0 v1 v2 : Bsp.Vec3),
    triDefs !! 0%nat = Some first /\
    Bsp.vertex_def vc (fst (fst (Bsp.vIndices first))) = Done v0 /\
    Bsp.vertex_def vc (snd (fst (Bsp.vIndices first))) = Done v1 /\
    Bsp.vertex_def vc (snd (Bsp.vIndices first)) = Done v2 /\
    Bsp.GetPlaneForTri (v0, v1, v2) = Some p.
Proof.
  unfold Bsp.recompute_plane. intros H.
  inv_outcome H. rename a into first.
  apply load_Done in Hrun. destruct Hrun as [_ Hfirst].
  destruct (Bsp.vIndices first) as [[i0 i1] i2] eqn:Ei.
  inv_outcome H. rename a into v0.
  inv_outcome H. rename a into v1.
  inv_outcome H. rename a into v2.
  destruct (Bsp.GetPlaneForTri (v0, v1, v2)) as [q|] eqn:Eq; inv_outcome H.
  exists first, v0, v1, v2. rewrite Ei. cbn [fst snd]. auto.
Qed.

Lemma length_node_bytes numTri triDefs partPlane back front :
  0 <= numTri <= Z.of_nat (length triDefs) ->
  length (node_bytes numTri triDefs partPlane back front)
  = (2 + 8 * Z.to_nat numTri + (if (numTri =? 0)%Z then 32 else 0) + 1)%nat.
Proof.
  intros Hn. unfold node_bytes, Uint16_bytes, Uint8_bytes.
  rewrite !length_app, !length_le_split.
  assert (Hfaces : forall xs : list Bsp.BSPTriFace,
             length (concat (map Bsp.BSPTriFace_bytes xs)) = (8 * length xs)%nat).
  { induction xs as [|x xs IH]; [reflexivity|].
    cbn [map concat length]. rewrite length_app, length_BSPTriFace_bytes, IH. lia. }
  rewrite Hfaces, length_take.
  destruct (numTri =? 0).
  - rewrite length_BSPPlane_bytes. lia.
  - cbn [length]. lia.
Qed.

(** C2.  [WriteBSPTree] writes for a node its [numTri], its [numTri]
    triangles, then the 32 bytes of the four doubles of its plane exactly
    when [numTri] is 0, then [cFlag], then the subtrees.  [ReadBSPTree]
    reads what was written back as the same tree, except that the plane of
    a node with triangles is not read: it is what [GetPlaneForTri] gives
    for the first triangle of the node, with its corners taken from the
    vertex table; the plane of a node without triangles is the one
    written. *)
Theorem BSPTree_plane_saved_iff_no_triangles :
  (forall numTri triDefs partPlane back front (bytes : list byte),
      0 <= numTri ->
      Bsp.WriteBSPTree (Bsp.mkBSPTree numTri triDefs partPlane back front)
      = Done bytes ->
      exists b f : list byte,
        Bsp.WriteBSPTree back = Done b /\
        Bsp.WriteBSPTree front = Done f /\
        bytes = node_bytes numTri triDefs partPlane back front ++ b ++ f /\
        length (node_bytes numTri triDefs partPlane back front)
        = (2 + 8 * Z.to_nat numTri + (if (numTri =? 0)%Z then 32 else 0) + 1)%nat) /\
  (forall (vc : list GLfloat) (t : Bsp.BSPTree),
      tree_ok vc t -> t <> Bsp.NULL_tree ->
      exists bytes : list byte,
        Bsp.WriteBSPTree t = Done bytes /\
        forall (fuel : nat) (rest : list byte) (j : nat -> byte) (k : nat),
          (depth t <= fuel)%nat ->
          exists k',
            Bsp.ReadBSPTree fuel vc (mkFILE (bytes ++ rest) j k)
            = Done (reloaded vc t, mkFILE rest j k')) /\
  (forall (vc : list GLfloat) numTri triDefs partPlane back front,
      tree_ok vc (Bsp.mkBSPTree numTri triDefs partPlane back front) ->
      (numTri = 0 ->
       reloaded vc (Bsp.mkBSPTree numTri triDefs partPlane back front)
       = Bsp.mkBSPTree numTri triDefs partPlane
                       (reloaded vc back) (reloaded vc front)) /\
      (numTri <> 0 ->
       exists (first : Bsp.BSPTriFace) (v0 v1 v2 : Bsp.Vec3) (p : Bsp.BSPPlane),
         triDefs !! 0%nat = Some first /\
         Bsp.vertex_def vc (fst (fst (Bsp.vIndices first))) = Done v0 /\
         Bsp.vertex_def vc (snd (fst (Bsp.vIndices first))) = Done v1 /\
         Bsp.vertex_def vc (snd (Bsp.vIndices first)) = Done v2 /\
         Bsp.GetPlaneForTri (v0, v1, v2) = Some p /\
         reloaded vc (Bsp.mkBSPTree numTri triDefs partPlane back front)
         = Bsp.mkBSPTree numTri triDefs p
                         (reloaded vc back) (reloaded vc front))).
Proof.
  split; [|split].
  - intros numTri triDefs partPlane back front bytes Hn H.
    assert (Hcells : numTri <= Z.of_nat (length triDefs)).
    { cbn [Bsp.WriteBSPTree] in H. unfold fwrite, cells in H.
      destruct (Z.ltb_spec (Z.of_nat (length triDefs)) numTri);
        [discriminate H|lia]. }
    destruct (WriteBSPTree_node _ _ _ _ _ _ H) as (b & f & Hb & Hf & ->).
    exists b, f. split; [exact Hb|]. split; [exact Hf|]. split; [reflexivity|].
    apply length_node_bytes. lia.
  - intros vc t Hok Hne.
    destruct (BSPTree_roundtrip vc t Hok) as (bytes & Hw & Hr).
    exists bytes. split; [exact Hw|]. exact (Hr Hne).
  - intros vc numTri triDefs partPlane back front Hok.
    destruct Hok as (_ & _ & _ & Hplane & _ & _).
    split.
    + intros ->. reflexivity.
    + intros Hne. cbn [reloaded].
      destruct (Z.eqb_spec numTri 0) as [E|_]; [contradiction|].
      destruct Hplane as [p Hp]. unfold first_plane in Hp |- *.
      destruct (Bsp.recompute_plane vc triDefs) as [q| | |] eqn:Er;
        try discriminate Hp.
      injection Hp as ->.
      destruct (recompute_plane_Done _ _ _ Er)
        as (first & v0 & v1 & v2 & H0 & H1 & H2 & H3 & H4).
      exists first, v0, v1, v2, p. cbn [default]. auto 10.
Qed.

Lemma tree_ok_sample_tree : tree_ok unit_triVerts sample_tree.
Proof.
  split; [unfold is_u16; lia|]. split; [reflexivity|].
  split.
  { constructor; [|constructor].
    unfold face_ok, is_u16. cbn [Bsp.texIndex Bsp.vIndices fst snd]. lia. }
  split; [vm_compute; eexists; reflexivity|].
  split; [|exact I].
  split; [unfold is_u16; lia|]. split; [reflexivity|].
  split; [constructor|].
  split; [|split; exact I].
  unfold plane_ok, is_u64. cbn [Z.eqb Bsp.A Bsp.B Bsp.C Bsp.D plane_x_half]. lia.
Defined.

Lemma BSPTree_plane_saved_iff_no_triangles_witness :
  (exists b f : list byte,
      Bsp.WriteBSPTree Bsp.NULL_tree = Done b /\
      Bsp.WriteBSPTree Bsp.NULL_tree = Done f /\
      node_bytes 0 [] plane_x_half Bsp.NULL_tree Bsp.NULL_tree ++ [] ++ []
      = node_bytes 0 [] plane_x_half Bsp.NULL_tree Bsp.NULL_tree ++ b ++ f /\
      length (node_bytes 0 [] plane_x_half Bsp.NULL_tree Bsp.NULL_tree)
      = (2 + 8 * Z.to_nat 0 + (if (0 =? 0)%Z then 32 else 0) + 1)%nat) /\
  (exists bytes : list byte,
      Bsp.WriteBSPTree sample_tree = Done bytes /\
      forall (fuel : nat) (rest : list byte) (j : nat -> byte) (k : nat),
        (depth sample_tree <= fuel)%nat ->
        exists k',
          Bsp.ReadBSPTree fuel unit_triVerts (mkFILE (bytes ++ rest) j k)
          = Done (reloaded unit_triVerts sample_tree, mkFILE rest j k')) /\
  (exists (first : Bsp.BSPTriFace) (v0 v1 v2 : Bsp.Vec3) (p : Bsp.BSPPlane),
      [{| Bsp.texIndex := 0; Bsp.vIndices := (0, 1, 2) |}] !! 0%nat = Some first /\
      Bsp.vertex_def unit_triVerts (fst (fst (Bsp.vIndices first))) = Done v0 /\
      Bsp.vertex_def unit_triVerts (snd (fst (Bsp.vIndices first))) = Done v1 /\
      Bsp.vertex_def unit_triVerts (snd (Bsp.vIndices first)) = Done v2 /\
      Bsp.GetPlaneForTri (v0, v1, v2) = Some p /\
      reloaded unit_triVerts sample_tree
      = Bsp.mkBSPTree 1 [{| Bsp.texIndex := 0; Bsp.vIndices := (0, 1, 2) |}] p
                      (reloaded unit_triVerts empty_leaf)
                      (reloaded unit_triVerts Bsp.NULL_tree)).
Proof.
  split; [|split].
  - apply (proj1 BSPTree_plane_saved_iff_no_triangles
             0 [] plane_x_half Bsp.NULL_tree Bsp.NULL_tree).
    + lia.
    + vm_compute. reflexivity.
  - apply (proj1 (proj2 BSPTree_plane_saved_iff_no_triangles)
             unit_triVerts sample_tree).
    + exact tree_ok_sample_tree.
    + discriminate.
  - apply (proj2 (proj2 (proj2 BSPTree_plane_saved_iff_no_triangles)
             unit_triVerts 1 [{| Bsp.texIndex := 0; Bsp.vIndices := (0, 1, 2) |}]
             plane_x_half empty_leaf Bsp.NULL_tree tree_ok_sample_tree)).
    discriminate.
Defined.

(** * Further properties *)

(** ** What a stream gives *)

Lemma length_fread (n : nat) (f : FILE) : length (fst (fread n f)) = n.
Proof.
  unfold fread. cbn [fst]. rewrite length_app, length_map, length_seq.
  rewrite length_take. lia.
Qed.

Lemma fread_int_range (n : nat) (f : FILE) :
  0 <= fst (fread_int n f) < 2 ^ (8 * Z.of_nat n).
Proof.
  unfold fread_int. pose proof (length_fread n f) as Hl.
  destruct (fread n f) as [bs f']. cbn [fst] in *.
  pose proof (le_combine_bound bs) as Hb. rewrite Hl in Hb. exact Hb.
Qed.

Lemma fread_ints_spec (n : nat) :
  forall (count : nat) (f : FILE),
    length (fst (fread_ints count n f)) = count /\
    Forall (fun z => 0 <= z < 2 ^ (8 * Z.of_nat n)) (fst (fread_ints count n f)).
Proof.
  induction count as [|count IH]; intros f.
  - split; [reflexivity|constructor].
  - cbn [fread_ints].
    pose proof (fread_int_range n f) as Hz.
    destruct (fread_int n f) as [z f1]. cbn [fst] in Hz.
    specialize (IH f1). destruct (fread_ints count n f1) as [zs f2].
    cbn [fst length] in *. destruct IH as [Hl Hr].
    split; [lia|]. constructor; assumption.
Qed.

Lemma fread_name_ok :
  forall (left : nat) (f : FILE),
    (length (fst (fread_name left f)) <= left)%nat /\
    Forall (fun c => c <> Byte.x00) (fst (fread_name left f)).
Proof.
  induction left as [|left IH]; intros f.
  - cbn [fread_name]. destruct (fread 1 f) as [c f1].
    destruct c as [|ch [|? ?]]; cbn [fst length]; try (split; [lia|constructor]).
    destruct (Byte.eqb ch Byte.x00); cbn [fst length]; split; (lia || constructor).
  - cbn [fread_name]. destruct (fread 1 f) as [c f1].
    destruct c as [|ch [|? ?]]; cbn [fst length]; try (split; [lia|constructor]).
    destruct (Byte.eqb ch Byte.x00) eqn:E; cbn [fst length];
      [split; [lia|constructor]|].
    specialize (IH f1). destruct (fread_name left f1) as [cs f2].
    cbn [fst length] in *. destruct IH as [Hl Hn].
    split; [lia|]. constructor; [|exact Hn].
    intros ->. discriminate E.
Qed.

Lemma fread_names_ok :
  forall (count : nat) (f : FILE),
    length (fst (fread_names count f)) = count /\
    Forall name_ok (fst (fread_names count f)).
Proof.
  induction count as [|count IH]; intros f.
  - split; [reflexivity|constructor].
  - cbn [fread_names].
    pose proof (fread_name_ok 255 f) as Hn.
    destruct (fread_name 255 f) as [s f1]. cbn [fst] in Hn.
    specialize (IH f1). destruct (fread_names count f1) as [ss f2].
    cbn [fst length] in *. destruct IH as [Hl Hr].
    split; [lia|]. constructor; [exact Hn|exact Hr].
Qed.

(** ** LoadGLData on arbitrary streams *)

Lemma strcmp_eq_GLD4 (x0 x1 x2 x3 : byte) :
  strcmp_eq (cstring_bytes Gld.GLD_FILE_MAGIC) [x0; x1; x2; x3]
  = Done (Byte.eqb Byte.x47 x0 && Byte.eqb Byte.x4c x1
          && Byte.eqb Byte.x44 x2 && Byte.eqb Byte.x00 x3).
Proof.
  change (cstring_bytes Gld.GLD_FILE_MAGIC)
    with [Byte.x47; Byte.x4c; Byte.x44; Byte.x00].
  cbn [strcmp_eq].
  change (Byte.eqb Byte.x47 Byte.x00) with false.
  change (Byte.eqb Byte.x4c Byte.x00) with false.
  change (Byte.eqb Byte.x44 Byte.x00) with false.
  change (Byte.eqb Byte.x00 Byte.x00) with true.
  destruct (Byte.eqb Byte.x47 x0); [|reflexivity].
  destruct (Byte.eqb Byte.x4c x1); [|reflexivity].
  destruct (Byte.eqb Byte.x44 x2); [|reflexivity].
  destruct (Byte.eqb Byte.x00 x3); reflexivity.
Qed.

Ltac split_reads :=
  repeat match goal with
         | |- context [let '(_, _) := ?e in _] => destruct e
         end.

(** X1.  [LoadGLData] returns for every stream, and it returns [NULL]
    exactly when the stream does not begin with the signature [GLD\0]
    followed by the version 0x10; a stream that ends early is no reason
    for it to refuse. *)
Theorem LoadGLData_refuses_exactly_foreign_streams (f : FILE) :
  exists r : option Gld.GLData,
    Gld.LoadGLData f = Done r /\
    (r = None <-> take 5 (pending f) <> GLD_header).
Proof.
  destruct f as [p j k]. cbn [pending]. unfold Gld.LoadGLData.
  destruct p as [|b0 [|b1 [|b2 [|b3 [|b4 rest]]]]].
  1-5: (unfold fread at 1, fread_into;
        cbn [pending junk fresh take drop length app seq map Nat.sub];
        rewrite strcmp_eq_GLD4; cbn [mbind outcome_bind];
        change (le_combine [Byte.x00] =? Gld.GLD_VER) with false;
        rewrite andb_false_r; exists None;
        split; [reflexivity|]; split; [intros _; discriminate|reflexivity]).
  unfold fread at 1, fread_into;
    cbn [pending junk fresh take drop length app seq map Nat.sub].
  rewrite strcmp_eq_GLD4. cbn [mbind outcome_bind].
  change (b4 :: take 0 rest ++ drop (length (take 0 rest)) [])
    with [b4].
  destruct (Byte.eqb Byte.x47 b0) eqn:E0;
    [|apply Byte.eqb_false in E0; exists None; split; [reflexivity|];
      split; [intros _ H; injection H; intros; subst; apply E0; reflexivity
             |reflexivity]].
  destruct (Byte.eqb Byte.x4c b1) eqn:E1;
    [|apply Byte.eqb_false in E1; exists None; split; [reflexivity|];
      split; [intros _ H; injection H; intros; subst; apply E1; reflexivity
             |reflexivity]].
  destruct (Byte.eqb Byte.x44 b2) eqn:E2;
    [|apply Byte.eqb_false in E2; exists None; split; [reflexivity|];
      split; [intros _ H; injection H; intros; subst; apply E2; reflexivity
             |reflexivity]].
  destruct (Byte.eqb Byte.x00 b3) eqn:E3;
    [|apply Byte.eqb_false in E3; exists None; split; [reflexivity|];
      split; [intros _ H; injection H; intros; subst; apply E3; reflexivity
             |reflexivity]].
  destruct (le_combine [b4] =? Gld.GLD_VER) eqn:E4.
  - cbn [andb]. split_reads. eexists. split; [reflexivity|].
    split; [discriminate|]. intros H. exfalso. apply H.
    apply Byte.byte_dec_bl in E0, E1, E2, E3. apply version_byte in E4.
    subst. reflexivity.
  - cbn [andb]. exists None. split; [reflexivity|].
    split; [|reflexivity]. intros _ H.
    apply (f_equal (fun l => l !! 4%nat)) in H. vm_compute in H.
    injection H as ->. discriminate E4.
Qed.

Lemma Gld_fread_faces_spec :
  forall (nums : list Z) (f : FILE),
    length (fst (Gld.fread_faces nums f)) = length nums /\
    Forall (Forall is_u16) (fst (Gld.fread_faces nums f)) /\
    forall (i : nat) (n : Z) (row : list Z),
      nums !! i = Some n ->
      fst (Gld.fread_faces nums f) !! i = Some row ->
      Z.of_nat (length row) = to_Uint32 (3 * n).
Proof.
  induction nums as [|n nums IH]; intros f.
  - split; [reflexivity|]. split; [constructor|].
    intros i m row H. rewrite lookup_nil in H. discriminate H.
  - cbn [Gld.fread_faces].
    pose proof (fread_ints_spec 2 (Z.to_nat (to_Uint32 (3 * n))) f) as [Hl Hr].
    destruct (fread_ints (Z.to_nat (to_Uint32 (3 * n))) 2 f) as [row0 f1].
    cbn [fst] in Hl, Hr.
    specialize (IH f1). destruct (Gld.fread_faces nums f1) as [rows f2].
    cbn [fst length] in *. destruct IH as (IHl & IHu & IHrow).
    split; [lia|]. split.
    + constructor; [|exact IHu].
      eapply Forall_impl; [exact Hr|]. intros z Hz. exact Hz.
    + intros [|i] m row Hm Hrow; cbn in Hm, Hrow.
      * injection Hm as <-. injection Hrow as <-.
        pose proof (to_Uint32_range (3 * n)) as R. unfold is_u32 in R. lia.
      * eapply IHrow; eauto.
Qed.

(** What [LoadGLData] returns is well formed, whatever the stream holds. *)
Lemma LoadGLData_loaded (f : FILE) (g : Gld.GLData) :
  Gld.LoadGLData f = Done (Some g) ->
  wf_mesh g /\ exact_mesh g /\ Forall name_ok (Gld.mapNames g).
Proof.
  unfold Gld.LoadGLData.
  destruct (fread 4 f) as [savedSig f0].
  destruct (fread_into [Byte.x00] 1 f0) as [glDataVer f1].
  destruct (strcmp_eq (cstring_bytes Gld.GLD_FILE_MAGIC) savedSig)
    as [same| | |]; try discriminate.
  cbn [mbind outcome_bind].
  destruct (same && (le_combine glDataVer =? Gld.GLD_VER)); [|discriminate].
  pose proof (fread_int_range 2 f1) as HnMaps.
  destruct (fread_int 2 f1) as [nMaps f2]. cbn [fst] in HnMaps.
  pose proof (fread_names_ok (Z.to_nat nMaps) f2) as [Hnl Hnok].
  destruct (fread_names (Z.to_nat nMaps) f2) as [names f3]. cbn [fst] in Hnl, Hnok.
  pose proof (fread_ints_spec 4 (Z.to_nat nMaps) f3) as [Hml Hmr].
  destruct (fread_ints (Z.to_nat nMaps) 4 f3) as [nums f4]. cbn [fst] in Hml, Hmr.
  pose proof (fread_int_range 2 f4) as HnV.
  destruct (fread_int 2 f4) as [nVertices f5]. cbn [fst] in HnV.
  pose proof (fread_ints_spec 4 (Z.to_nat (3 * nVertices)) f5) as [Hvl Hvr].
  destruct (fread_ints (Z.to_nat (3 * nVertices)) 4 f5) as [vc f6].
  cbn [fst] in Hvl, Hvr.
  pose proof (fread_ints_spec 4 (Z.to_nat (2 * nVertices)) f6) as [Htl Htr].
  destruct (fread_ints (Z.to_nat (2 * nVertices)) 4 f6) as [tc f7].
  cbn [fst] in Htl, Htr.
  pose proof (fread_int_range 4 f7) as B1.
  destruct (fread_int 4 f7) as [minX f8]. cbn [fst] in B1.
  pose proof (fread_int_range 4 f8) as B2.
  destruct (fread_int 4 f8) as [maxX f9]. cbn [fst] in B2.
  pose proof (fread_int_range 4 f9) as B3.
  destruct (fread_int 4 f9) as [minY f10]. cbn [fst] in B3.
  pose proof (fread_int_range 4 f10) as B4.
  destruct (fread_int 4 f10) as [maxY f11]. cbn [fst] in B4.
  pose proof (fread_int_range 4 f11) as B5.
  destruct (fread_int 4 f11) as [minZ f12]. cbn [fst] in B5.
  pose proof (fread_int_range 4 f12) as B6.
  destruct (fread_int 4 f12) as [maxZ f13]. cbn [fst] in B6.
  pose proof (fread_int_range 4 f13) as HnumTri.
  destruct (fread_int 4 f13) as [numTri f14]. cbn [fst] in HnumTri.
  pose proof (Gld_fread_faces_spec nums f14) as (Hfl & Hfu & Hfrow).
  destruct (Gld.fread_faces nums f14) as [faces f15]. cbn [fst] in Hfl, Hfu, Hfrow.
  intros H. injection H as <-.
  change (2 ^ (8 * Z.of_nat 2)) with (2 ^ 16) in *.
  change (2 ^ (8 * Z.of_nat 4)) with (2 ^ 32) in *.
  unfold wf_mesh, exact_mesh, is_u16, is_u32, is_float.
  cbn [Gld.nMaps Gld.mapNames Gld.mapTriNums Gld.nVertices Gld.vertCoords
       Gld.texCoords Gld.minX Gld.maxX Gld.minY Gld.maxY Gld.minZ Gld.maxZ
       Gld.numTri Gld.triFaces].
  split; [|split; [|exact Hnok]].
  - split; [exact HnMaps|]. split; [exact Hnl|]. split; [exact Hml|].
    split; [exact Hmr|]. split; [exact HnV|].
    split; [lia|]. split; [lia|].
    split; [exact Hvr|]. split; [exact Htr|].
    split; [tauto|]. split; [exact HnumTri|].
    split; [lia|]. split; [exact Hfu|].
    intros i n row Hn Hrow. rewrite (Hfrow i n row Hn Hrow). lia.
  - split; [lia|]. split; [lia|exact Hfrow].
Qed.

(** X2.  A mesh that [LoadGLData] has returned, from any stream, even a
    truncated one, is written whole by [SaveGLData], and the bytes written
    are read back as the same mesh: saving what was loaded loses
    nothing. *)
Theorem LoadGLData_then_save_and_load (f : FILE) (g : Gld.GLData) :
  Gld.LoadGLData f = Done (Some g) ->
  exists bytes : list byte,
    Gld.SaveGLData (Some g) = Done bytes /\
    forall (rest : list byte) (j : nat -> byte) (k : nat),
      Gld.LoadGLData (mkFILE (bytes ++ rest) j k) = Done (Some g).
Proof.
  intros H. destruct (LoadGLData_loaded f g H) as (Hwf & Hexact & Hnames).
  destruct (GLD_roundtrip_wf g Hwf Hnames) as (bytes & Hsave & Hload).
  exists bytes. split; [exact Hsave|]. intros rest j k.
  rewrite Hload. rewrite (logical_exact g Hwf Hexact). reflexivity.
Qed.

Lemma LoadGLData_then_save_and_load_witness :
  exists bytes : list byte,
    Gld.SaveGLData (Some unit_mesh) = Done bytes /\
    forall (rest : list byte) (j : nat -> byte) (k : nat),
      Gld.LoadGLData (mkFILE (bytes ++ rest) j k) = Done (Some unit_mesh).
Proof.
  apply (LoadGLData_then_save_and_load (mkFILE unit_mesh_stream no_bytes 0%nat)).
  vm_compute. reflexivity.
Defined.

(** ** ClassifyTri and SplitTri *)

(** X3.  [ClassifyTri] depends on the three labels [ClassifyPoint] gives
    to the corners only: the triangle is [COINCIDENT] when all three are
    on the plane; [SPANNING] when one is above and one below; [IN_FRONT]
    when none is below and not all are on the plane; [IN_BACK] when none
    is above and not all are on the plane. *)
Theorem ClassifyTri_by_corners (aTri : Bsp.BSPTriNode) (p : Bsp.BSPPlane) :
  let a := Bsp.ClassifyPoint (Bsp.row (Bsp.V aTri) 0) p in
  let b := Bsp.ClassifyPoint (Bsp.row (Bsp.V aTri) 1) p in
  let c := Bsp.ClassifyPoint (Bsp.row (Bsp.V aTri) 2) p in
  let all_on := a = Bsp.ON_PLANE /\ b = Bsp.ON_PLANE /\ c = Bsp.ON_PLANE in
  (Bsp.ClassifyTri aTri p = Bsp.COINCIDENT <-> all_on) /\
  (Bsp.ClassifyTri aTri p = Bsp.SPANNING <->
   (a = Bsp.ABOVE_PLANE \/ b = Bsp.ABOVE_PLANE \/ c = Bsp.ABOVE_PLANE) /\
   (a = Bsp.BELOW_PLANE \/ b = Bsp.BELOW_PLANE \/ c = Bsp.BELOW_PLANE)) /\
  (Bsp.ClassifyTri aTri p = Bsp.IN_FRONT <->
   a <> Bsp.BELOW_PLANE /\ b <> Bsp.BELOW_PLANE /\ c <> Bsp.BELOW_PLANE /\
   ~ all_on) /\
  (Bsp.ClassifyTri aTri p = Bsp.IN_BACK <->
   a <> Bsp.ABOVE_PLANE /\ b <> Bsp.ABOVE_PLANE /\ c <> Bsp.ABOVE_PLANE /\
   ~ all_on).
Proof.
  unfold Bsp.ClassifyTri.
  destruct (Bsp.ClassifyPoint (Bsp.row (Bsp.V aTri) 0) p);
    destruct (Bsp.ClassifyPoint (Bsp.row (Bsp.V aTri) 1) p);
    destruct (Bsp.ClassifyPoint (Bsp.row (Bsp.V aTri) 2) p);
    vm_compute; intuition (discriminate || congruence).
Qed.

Lemma walk_spanning (uninit : nat -> Bsp.Vec3) (aTri : Bsp.BSPTriNode)
  (p : Bsp.BSPPlane) :
  Bsp.ClassifyTri aTri p = Bsp.SPANNING ->
  exists r,
    Bsp.walk uninit aTri p = Done r /\
    3 <= Bsp.numFrontVerts r <= 4 /\ 3 <= Bsp.numBackVerts r <= 4.
Proof.
  unfold Bsp.ClassifyTri, Bsp.walk.
  destruct (Bsp.ClassifyPoint (Bsp.row (Bsp.V aTri) 0) p);
    destruct (Bsp.ClassifyPoint (Bsp.row (Bsp.V aTri) 1) p);
    destruct (Bsp.ClassifyPoint (Bsp.row (Bsp.V aTri) 2) p);
    intros H; vm_compute in H; try discriminate H; clear H;
    (eexists; split; [reflexivity|]);
    (split; vm_compute; split; discriminate).
Qed.

Lemma ring_tri_spec (ring : list (Bsp.Vec3 * Bsp.Vec2)) (t : Z) (a b c : nat)
  (r : option Bsp.BSPTriNode) :
  Bsp.ring_tri ring t a b c = Done r ->
  forall n, r = Some n ->
    Bsp.tIndex n = t /\ Bsp.GetPlaneForTri (Bsp.V n) = Some (Bsp.plane n).
Proof.
  unfold Bsp.ring_tri. intros H n ->.
  inv_outcome H. inv_outcome H. inv_outcome H.
  destruct (Bsp.GetPlaneForTri (a0.1, a1.1, a2.1)) as [q|] eqn:E;
    inv_outcome H.
  cbn [Bsp.tIndex Bsp.V Bsp.plane]. split; [reflexivity|exact E].
Qed.

Lemma ring_list_spec (ring : list (Bsp.Vec3 * Bsp.Vec2)) (t : Z)
  (l : list Bsp.BSPTriNode) :
  Bsp.ring_list ring t = Done l ->
  (length l <= 2)%nat /\
  Forall (fun n => Bsp.tIndex n = t /\
                   Bsp.GetPlaneForTri (Bsp.V n) = Some (Bsp.plane n)) l.
Proof.
  unfold Bsp.ring_list. intros H. inv_outcome H. rename a into first.
  pose proof (ring_tri_spec _ _ _ _ _ _ Hrun) as Hfirst.
  assert (H1 : Forall (fun n => Bsp.tIndex n = t /\
                   Bsp.GetPlaneForTri (Bsp.V n) = Some (Bsp.plane n))
                 match first with Some n => [n] | None => [] end).
  { destruct first as [n|]; [|constructor].
    constructor; [apply Hfirst; reflexivity|constructor]. }
  assert (L1 : (length match first with Some n => [n] | None => [] end <= 1)%nat).
  { destruct first; simpl; lia. }
  destruct (Z.of_nat (length ring) =? 4).
  - inv_outcome H. rename a into second.
    pose proof (ring_tri_spec _ _ _ _ _ _ Hrun0) as Hsecond.
    inv_outcome H. destruct second as [n|].
    + unfold Bsp.AddTriToList. cbn [length]. split; [lia|].
      constructor; [apply Hsecond; reflexivity|exact H1].
    + split; [lia|exact H1].
  - inv_outcome H. split; [lia|exact H1].
Qed.

Lemma ring_tri_Done (ring : list (Bsp.Vec3 * Bsp.Vec2)) (t : Z) (a b c : nat) :
  (a < length ring)%nat -> (b < length ring)%nat -> (c < length ring)%nat ->
  exists r, Bsp.ring_tri ring t a b c = Done r.
Proof.
  intros Ha Hb Hc. unfold Bsp.ring_tri.
  destruct (lookup_lt_is_Some_2 ring a Ha) as [xa Ea].
  destruct (lookup_lt_is_Some_2 ring b Hb) as [xb Eb].
  destruct (lookup_lt_is_Some_2 ring c Hc) as [xc Ec].
  rewrite (proj2 (load_Done ring (Z.of_nat a) xa))
    by (rewrite Nat2Z.id; split; [lia|exact Ea]).
  cbn [mbind outcome_bind].
  rewrite (proj2 (load_Done ring (Z.of_nat b) xb))
    by (rewrite Nat2Z.id; split; [lia|exact Eb]).
  cbn [mbind outcome_bind].
  rewrite (proj2 (load_Done ring (Z.of_nat c) xc))
    by (rewrite Nat2Z.id; split; [lia|exact Ec]).
  cbn [mbind outcome_bind]. eexists. reflexivity.
Qed.

Lemma ring_list_Done (ring : list (Bsp.Vec3 * Bsp.Vec2)) (t : Z) :
  (3 <= length ring)%nat ->
  exists l, Bsp.ring_list ring t = Done l.
Proof.
  intros Hlen. unfold Bsp.ring_list.
  destruct (ring_tri_Done ring t 0 1 2) as [first E1]; try lia.
  rewrite E1. cbn [mbind outcome_bind].
  destruct (Z.eqb_spec (Z.of_nat (length ring)) 4) as [E4|_].
  - destruct (ring_tri_Done ring t 2 3 0) as [second E2]; try lia.
    rewrite E2. cbn [mbind outcome_bind]. eexists. reflexivity.
  - eexists. reflexivity.
Qed.

(** X4.  [SplitTri] on a triangle that [ClassifyTri] finds [SPANNING]
    returns at most two triangles in front and at most two behind; each of
    them has the texture index of the triangle that was split and the
    plane [GetPlaneForTri] gives for its own corners (a piece without a
    plane is not returned). *)
Theorem SplitTri_pieces
  (uninit : nat -> Bsp.Vec3) (aTri : Bsp.BSPTriNode) (p : Bsp.BSPPlane) :
  Bsp.ClassifyTri aTri p = Bsp.SPANNING ->
  exists fList bList : list Bsp.BSPTriNode,
    Bsp.SplitTri uninit aTri p = Done (fList, bList) /\
    (length fList <= 2)%nat /\ (length bList <= 2)%nat /\
    Forall (piece_of aTri) fList /\ Forall (piece_of aTri) bList.
Proof.
  intros H. destruct (walk_spanning uninit aTri p H) as (r & Hw & Hf & Hb).
  unfold Bsp.SplitTri. rewrite Hw. cbn [mbind outcome_bind].
  replace ((Bsp.numBackVerts r <? 3) || (Bsp.numFrontVerts r <? 3)) with false
    by (symmetry; apply orb_false_iff; split; apply Z.ltb_ge; lia).
  replace ((4 <? Bsp.numBackVerts r) || (4 <? Bsp.numFrontVerts r)) with false
    by (symmetry; apply orb_false_iff; split; apply Z.ltb_ge; lia).
  unfold Bsp.numFrontVerts, Bsp.numBackVerts in Hf, Hb.
  destruct (ring_list_Done (Bsp.frontRing r) (Bsp.tIndex aTri) ltac:(lia))
    as [fList Ef].
  destruct (ring_list_Done (Bsp.backRing r) (Bsp.tIndex aTri) ltac:(lia))
    as [bList Eb].
  rewrite Ef. cbn [mbind outcome_bind]. rewrite Eb. cbn [mbind outcome_bind].
  exists fList, bList. split; [reflexivity|].
  destruct (ring_list_spec _ _ _ Ef) as [Lf Pf].
  destruct (ring_list_spec _ _ _ Eb) as [Lb Pb].
  split; [exact Lf|]. split; [exact Lb|]. split; [exact Pf|exact Pb].
Qed.

Lemma SplitTri_pieces_witness :
  exists fList bList : list Bsp.BSPTriNode,
    Bsp.SplitTri (fun _ => (0, 0, 0)) unit_tri plane_x_half
    = Done (fList, bList) /\
    (length fList <= 2)%nat /\ (length bList <= 2)%nat /\
    Forall (piece_of unit_tri) fList /\ Forall (piece_of unit_tri) bList.
Proof.
  apply (SplitTri_pieces (fun _ => (0, 0, 0)) unit_tri plane_x_half).
  vm_compute. reflexivity.
Defined.

(** ** hasCollision: what it reports *)

Lemma test_face_inv model fromPt dir dirMag i j (s s' : bool * GLfloat) :
  Coldet.test_face model fromPt dir dirMag i j s = Done s' ->
  hit_inv dirMag s -> hit_inv dirMag s'.
Proof.
  unfold Coldet.test_face. destruct s as [retVal dist]. intros H Hinv.
  do 7 inv_outcome H.
  destruct (Coldet.intersectsFace fromPt dir a3 a4 a5 (FLT_MAX, FLT_MAX, FLT_MAX))
    as [hit [[tmpT u] v]].
  destruct hit; cbn [andb] in H.
  - destruct (F32.geb tmpT f_zero) eqn:E1; cbn [andb] in H;
      [|inv_outcome H; exact Hinv].
    destruct (F32.ltb tmpT dist) eqn:E2; cbn [andb] in H;
      [|inv_outcome H; exact Hinv].
    destruct (F64.leb (to_double tmpT) dirMag) eqn:E3;
      inv_outcome H; [|exact Hinv].
    split; assumption.
  - inv_outcome H. exact Hinv.
Qed.

Lemma test_faces_inv model fromPt dir dirMag i :
  forall (todo : nat) (j : Z) (s s' : bool * GLfloat),
    Coldet.test_faces model fromPt dir dirMag i todo j s = Done s' ->
    hit_inv dirMag s -> hit_inv dirMag s'.
Proof.
  induction todo as [|todo IH]; intros j s s' H Hinv.
  - cbn [Coldet.test_faces] in H. inv_outcome H. exact Hinv.
  - cbn [Coldet.test_faces] in H. inv_outcome H.
    eapply IH; [exact H|]. eapply test_face_inv; eauto.
Qed.

Lemma test_maps_inv model fromPt dir dirMag :
  forall (todo : nat) (i : Z) (s s' : bool * GLfloat),
    Coldet.test_maps model fromPt dir dirMag todo i s = Done s' ->
    hit_inv dirMag s -> hit_inv dirMag s'.
Proof.
  induction todo as [|todo IH]; intros i s s' H Hinv.
  - cbn [Coldet.test_maps] in H. inv_outcome H. exact Hinv.
  - cbn [Coldet.test_maps] in H. inv_outcome H. inv_outcome H.
    eapply IH; [exact H|]. eapply test_faces_inv; eauto.
Qed.

(** X5.  What [hasCollision] reports when it returns.  If the length of
    the movement is greater than zero: without a hit [*dist] is
    [FLT_MAX]; with a hit [*dist] is not negative and not greater than
    that length.  If the length is not greater than zero (no movement, or
    a length that is not a number): a hit is reported and [*dist] is
    [FLT_MAX]. *)
Theorem hasCollision_reports
  (model : Gld.GLData) (fromPt toPt : Coldet.Vec3) (hit : bool) (dist : GLfloat) :
  Coldet.hasCollision model fromPt toPt = Done (hit, dist) ->
  if F64.gtb (movement_length fromPt toPt) d_zero
  then if hit
       then F32.geb dist f_zero = true /\
            F64.leb (to_double dist) (movement_length fromPt toPt) = true
       else dist = FLT_MAX
  else hit = true /\ dist = FLT_MAX.
Proof.
  unfold Coldet.hasCollision, movement_length.
  destruct (Coldet.SUB toPt fromPt) as [[dir0 dir1] dir2].
  set (dirMag := F64.sqrt _).
  destruct (F64.gtb dirMag d_zero).
  - intros H. apply test_maps_inv in H; [|reflexivity]. exact H.
  - intros H. inv_outcome H. split; reflexivity.
Qed.

Lemma hasCollision_reports_witness :
  if F64.gtb (movement_length (0x3E800000, 0x3E800000, 0x3F800000)
                              (0x3E800000, 0x3E800000, 0xBF800000)) d_zero
  then F32.geb 0x3F800000 f_zero = true /\
       F64.leb (to_double 0x3F800000)
               (movement_length (0x3E800000, 0x3E800000, 0x3F800000)
                                (0x3E800000, 0x3E800000, 0xBF800000)) = true
  else true = true /\ 0x3F800000 = FLT_MAX.
Proof.
  apply (hasCollision_reports unit_mesh
           (0x3E800000, 0x3E800000, 0x3F800000)
           (0x3E800000, 0x3E800000, 0xBF800000) true 0x3F800000).
  vm_compute. reflexivity.
Defined.

Lemma load_lookup {X} (a : list X) (i : nat) (v : X) :
  a !! i = Some v -> load a (Z.of_nat i) = Done v.
Proof. intros H. apply load_Done. rewrite Nat2Z.id. split; [lia|exact H]. Qed.

Lemma vertex_Done (vc : list GLfloat) (v : Z) :
  0 <= v -> 3 * v + 2 < Z.of_nat (length vc) ->
  exists p, Coldet.vertex vc v = Done p.
Proof.
  intros H0 H1. unfold Coldet.vertex.
  destruct (lookup_lt_is_Some_2 vc (Z.to_nat (3 * v + 0)) ltac:(lia)) as [x Ex].
  destruct (lookup_lt_is_Some_2 vc (Z.to_nat (3 * v + 1)) ltac:(lia)) as [y Ey].
  destruct (lookup_lt_is_Some_2 vc (Z.to_nat (3 * v + 2)) ltac:(lia)) as [z Ez].
  rewrite (proj2 (load_Done vc (3 * v + 0) x)) by (split; [lia|exact Ex]).
  cbn [mbind outcome_bind].
  rewrite (proj2 (load_Done vc (3 * v + 1) y)) by (split; [lia|exact Ey]).
  cbn [mbind outcome_bind].
  rewrite (proj2 (load_Done vc (3 * v + 2) z)) by (split; [lia|exact Ez]).
  cbn [mbind outcome_bind]. eexists. reflexivity.
Qed.

Lemma test_face_Done (model : Gld.GLData) fromPt dir dirMag
  (i : nat) (n : Z) (row : list Z) (j : Z) (s : bool * GLfloat) :
  Gld.triFaces model !! i = Some row ->
  0 <= j < n -> 3 * n < 2 ^ 32 -> 3 * n <= Z.of_nat (length row) ->
  Forall (fun v => 0 <= v /\ 3 * v + 2 < Z.of_nat (length (Gld.vertCoords model)))
         (take (Z.to_nat (3 * n)) row) ->
  exists s', Coldet.test_face model fromPt dir dirMag (Z.of_nat i) j s = Done s'.
Proof.
  intros Hrow Hj Hn Hlen Hall. unfold Coldet.test_face. destruct s as [retVal dist].
  rewrite (load_lookup _ _ _ Hrow). cbn [mbind outcome_bind].
  assert (Hcell : forall k, 0 <= k <= 2 ->
            exists v, load row (to_Uint32 (3 * j + k)) = Done v /\
                      0 <= v /\ 3 * v + 2 < Z.of_nat (length (Gld.vertCoords model))).
  { intros k Hk. rewrite to_Uint32_small by lia.
    destruct (lookup_lt_is_Some_2 row (Z.to_nat (3 * j + k)) ltac:(lia)) as [v Ev].
    exists v. split; [apply load_Done; split; [lia|exact Ev]|].
    assert (Ht : take (Z.to_nat (3 * n)) row !! Z.to_nat (3 * j + k) = Some v)
      by (rewrite lookup_take_lt by lia; exact Ev).
    exact (Forall_lookup_1 _ _ _ _ Hall Ht). }
  destruct (Hcell 0 ltac:(lia)) as (v0 & E0 & R0 & B0).
  destruct (Hcell 1 ltac:(lia)) as (v1 & E1 & R1 & B1).
  destruct (Hcell 2 ltac:(lia)) as (v2 & E2 & R2 & B2).
  rewrite E0. cbn [mbind outcome_bind]. rewrite E1. cbn [mbind outcome_bind].
  rewrite E2. cbn [mbind outcome_bind].
  destruct (vertex_Done _ _ R0 B0) as [p0 P0].
  destruct (vertex_Done _ _ R1 B1) as [p1 P1].
  destruct (vertex_Done _ _ R2 B2) as [p2 P2].
  rewrite P0. cbn [mbind outcome_bind]. rewrite P1. cbn [mbind outcome_bind].
  rewrite P2. cbn [mbind outcome_bind].
  destruct (Coldet.intersectsFace fromPt dir p0 p1 p2 (FLT_MAX, FLT_MAX, FLT_MAX))
    as [hit [[tmpT u] v]].
  destruct (hit && F32.geb tmpT f_zero && F32.ltb tmpT dist
            && F64.leb (to_double tmpT) dirMag); eexists; reflexivity.
Qed.

Lemma test_faces_Done (model : Gld.GLData) fromPt dir dirMag
  (i : nat) (n : Z) (row : list Z) :
  Gld.triFaces model !! i = Some row ->
  3 * n < 2 ^ 32 -> 3 * n <= Z.of_nat (length row) ->
  Forall (fun v => 0 <= v /\ 3 * v + 2 < Z.of_nat (length (Gld.vertCoords model)))
         (take (Z.to_nat (3 * n)) row) ->
  forall (todo : nat) (j : Z) (s : bool * GLfloat),
    0 <= j -> j + Z.of_nat todo <= n ->
    exists s',
      Coldet.test_faces model fromPt dir dirMag (Z.of_nat i) todo j s = Done s'.
Proof.
  intros Hrow Hn Hlen Hall.
  induction todo as [|todo IH]; intros j s Hj Hle.
  - eexists. reflexivity.
  - cbn [Coldet.test_faces].
    destruct (test_face_Done model fromPt dir dirMag i n row j s Hrow
                ltac:(lia) Hn Hlen Hall) as [s1 E1].
    rewrite E1. cbn [mbind outcome_bind]. apply IH; lia.
Qed.

Lemma test_maps_Done (model : Gld.GLData) fromPt dir dirMag :
  traversable model ->
  forall (todo i : nat) (s : bool * GLfloat),
    (i + todo <= Z.to_nat (Gld.nMaps model))%nat ->
    exists s',
      Coldet.test_maps model fromPt dir dirMag todo (Z.of_nat i) s = Done s'.
Proof.
  intros (HnM & Hnums & Hfaces & Hrows).
  induction todo as [|todo IH]; intros i s Hi.
  - eexists. reflexivity.
  - cbn [Coldet.test_maps].
    destruct (lookup_lt_is_Some_2 (Gld.mapTriNums model) i ltac:(lia)) as [n En].
    destruct (lookup_lt_is_Some_2 (Gld.triFaces model) i ltac:(lia)) as [row Er].
    destruct (Hrows i n row ltac:(lia) En Er) as (Hn0 & Hn & Hlen & Hall).
    rewrite (load_lookup _ _ _ En). cbn [mbind outcome_bind].
    destruct (test_faces_Done model fromPt dir dirMag i n row Er Hn Hlen Hall
                (Z.to_nat n) 0 s ltac:(lia) ltac:(lia)) as [s1 E1].
    rewrite E1. cbn [mbind outcome_bind].
    replace (Z.of_nat i + 1) with (Z.of_nat (S i)) by lia.
    apply IH. lia.
Qed.

Lemma hasCollision_traversable
  (model : Gld.GLData) (fromPt toPt : Coldet.Vec3) :
  traversable model ->
  exists (hit : bool) (dist : GLfloat),
    Coldet.hasCollision model fromPt toPt = Done (hit, dist).
Proof.
  intros Hm. unfold Coldet.hasCollision.
  destruct (Coldet.SUB toPt fromPt) as [[dir0 dir1] dir2].
  set (dirMag := F64.sqrt _).
  destruct (F64.gtb dirMag d_zero).
  - set (dir := (to_float _, to_float _, to_float _)).
    destruct (test_maps_Done model fromPt dir dirMag Hm
                (Z.to_nat (Gld.nMaps model)) 0 (false, FLT_MAX) ltac:(lia))
      as [[hit dist] E].
    exists hit, dist. exact E.
  - exists true, FLT_MAX. reflexivity.
Qed.

(** X6.  On a mesh whose counters fit its arrays and whose triangle
    indices all designate vertices of its table, [hasCollision] returns:
    it reads no cell outside the arrays of the mesh, whatever the two
    points are. *)
Theorem hasCollision_returns
  (model : Gld.GLData) (fromPt toPt : Coldet.Vec3) :
  traversable model ->
  exists (hit : bool) (dist : GLfloat),
    Coldet.hasCollision model fromPt toPt = Done (hit, dist).
Proof. apply hasCollision_traversable. Qed.

Lemma traversable_unit_mesh : traversable unit_mesh.
Proof.
  split; [cbn; lia|]. split; [cbn; lia|]. split; [cbn; lia|].
  intros [|i] n row Hi Hn Hrow; [|cbn in Hi; lia].
  cbn in Hn, Hrow. injection Hn as <-. injection Hrow as <-.
  split; [lia|]. split; [lia|]. split; [cbn; lia|].
  repeat constructor; cbn; lia.
Defined.

Lemma hasCollision_returns_witness :
  exists (hit : bool) (dist : GLfloat),
    Coldet.hasCollision unit_mesh (0, 0, 0x3F800000) (0, 0, 0xBF800000)
    = Done (hit, dist).
Proof.
  apply (hasCollision_returns unit_mesh (0, 0, 0x3F800000) (0, 0, 0xBF800000)).
  exact traversable_unit_mesh.
Defined.

(** ** GenGLData: the indices of the triangles *)

Lemma fold_vertex_index (t t' : Gld.VertTab) (V : Bsp.Vec3) (T : Bsp.Vec2)
  (k : Z) :
  0 <= Gld.vt_n t -> Gld.vt_n t + 1 < 2 ^ 16 ->
  Gld.fold_vertex t V T = Done (k, t') ->
  0 <= k < Gld.vt_n t' /\ Gld.vt_n t <= Gld.vt_n t' <= Gld.vt_n t + 1.
Proof.
  intros H0 Hw H. unfold Gld.fold_vertex in H.
  inv_outcome H. rename a into kk.
  apply find_vertex_spec in Hrun; [|lia]. destruct Hrun as [Hk _].
  destruct (Z.ltb_spec kk (Gld.vt_n t)).
  - inv_outcome H. rewrite to_Uint16_small by lia. lia.
  - destruct V as [[V0 V1] V2]. destruct T as [T0 T1].
    do 5 inv_outcome H. inv_outcome H.
    cbn [Gld.vt_n]. rewrite !to_Uint16_small by lia. lia.
Qed.

Lemma store_face_Done (faces faces' : list (list Z)) (tIndex c v : Z) :
  Gld.store_face faces tIndex c v = Done faces' ->
  exists row : list Z,
    0 <= tIndex /\ faces !! Z.to_nat tIndex = Some row /\
    0 <= c < Z.of_nat (length row) /\
    faces' = <[Z.to_nat tIndex := <[Z.to_nat c := v]> row]> faces.
Proof.
  unfold Gld.store_face. intros H.
  inv_outcome H. rename a into row. apply load_Done in Hrun.
  inv_outcome H. apply store_Done in Hrun0. destruct Hrun0 as [Hc ->].
  apply store_Done in H. destruct H as [_ ->].
  exists row. destruct Hrun as [Ht Hrow]. auto.
Qed.

Lemma Forall_index_grow (lo hi : Z) (l : list Z) :
  lo <= hi ->
  Forall (fun v => 0 <= v < lo) l -> Forall (fun v => 0 <= v < hi) l.
Proof.
  intros Hle H. eapply Forall_impl; [exact H|]. intros v Hv. cbv beta in *. lia.
Qed.

Ltac step H a Ha :=
  cbv beta iota in H; apply bind_Done in H; destruct H as (a & Ha & H).

Lemma add_triangle_idx (ti : list Z) (tv tc : list GLfloat) (i : nat)
  (t t' : Gld.VertTab) (ft ft' : Gld.FaceTab) :
  3 * (Z.of_nat i + 1) < 2 ^ 16 ->
  idx_inv (Z.of_nat i) t ft ->
  Gld.add_triangle ti tv tc (Z.of_nat i) (t, ft) = Done (t', ft') ->
  idx_inv (Z.of_nat i + 1) t' ft'.
Proof.
  intros Hw (Hn & Hnums & Hcells) H. unfold Gld.add_triangle in H.
  step H tIndex Hti.
  step H VT0 HVT0. destruct VT0 as [V0 T0].
  step H vt1 Hf0. destruct vt1 as [v0 t1].
  apply fold_vertex_index in Hf0; [|lia|lia]. destruct Hf0 as [Hv0 Ht1].
  step H VT1 HVT1. destruct VT1 as [V1 T1].
  step H vt2 Hf1. destruct vt2 as [v1 t2].
  apply fold_vertex_index in Hf1; [|lia|lia]. destruct Hf1 as [Hv1 Ht2].
  step H VT2 HVT2. destruct VT2 as [V2 T2].
  step H vt3 Hf2. destruct vt3 as [v2 t3].
  apply fold_vertex_index in Hf2; [|lia|lia]. destruct Hf2 as [Hv2 Ht3].
  assert (Hold : forall (x : nat) (n : Z) (row : list Z),
             Gld.ft_nums ft !! x = Some n -> Gld.ft_faces ft !! x = Some row ->
             Forall (fun v => 0 <= v < Gld.vt_n t3) (take (Z.to_nat (3 * n)) row)).
  { intros x n row Hx Hrow.
    apply (Forall_index_grow (Gld.vt_n t)); [lia|]. eapply Hcells; eauto. }
  destruct ((v0 =? v1) || (v1 =? v2) || (v2 =? v0)).
  - inv_outcome H. unfold idx_inv. cbn [Gld.ft_nums Gld.ft_faces].
    split; [lia|]. split; [|exact Hold].
    intros x n Hx. specialize (Hnums x n Hx). lia.
  - step H n Hld. apply load_Done in Hld.
    destruct Hld as [HtI Hnt].
    pose proof (Hnums _ _ Hnt) as Hnb.
    rewrite (to_Uint16_small n) in H by lia.
    step H f1 Hs0. step H f2 Hs1. step H f3 Hs2. step H nums' Hsn.
    inv_outcome H.
    apply store_Done in Hsn. destruct Hsn as [HtIl ->].
    destruct (store_face_Done _ _ _ _ _ Hs0) as (r0 & _ & Er0 & Hc0 & ->).
    destruct (store_face_Done _ _ _ _ _ Hs1) as (r1 & _ & Er1 & Hc1 & ->).
    destruct (store_face_Done _ _ _ _ _ Hs2) as (r2 & _ & Er2 & Hc2 & ->).
    assert (Hlt : (Z.to_nat tIndex < length (Gld.ft_faces ft))%nat)
      by (apply lookup_lt_Some in Er0; exact Er0).
    rewrite list_lookup_insert_eq in Er1 by exact Hlt. injection Er1 as <-.
    rewrite list_lookup_insert_eq in Er2
      by (rewrite length_insert; exact Hlt).
    injection Er2 as <-.
    rewrite !list_insert_insert_eq.
    rewrite !length_insert in Hc1. rewrite !length_insert in Hc2.
    unfold idx_inv. cbn [Gld.ft_nums Gld.ft_faces].
    rewrite to_Uint32_small by lia.
    split; [lia|]. split.
    + intros x m Hx.
      destruct (decide (x = Z.to_nat tIndex)) as [->|Hne].
      * rewrite list_lookup_insert_eq in Hx by lia. injection Hx as <-. lia.
      * rewrite list_lookup_insert_ne in Hx by congruence.
        specialize (Hnums x m Hx). lia.
    + intros x m row Hx Hrow.
      destruct (decide (x = Z.to_nat tIndex)) as [->|Hne].
      * rewrite list_lookup_insert_eq in Hx by lia. injection Hx as <-.
        rewrite list_lookup_insert_eq in Hrow by exact Hlt.
        injection Hrow as <-.
        apply Forall_lookup. intros j v Hj.
        apply lookup_take_Some in Hj. destruct Hj as [Hj Hjlt].
        destruct (decide (j = Z.to_nat (3 * n + 2))) as [->|N2].
        { rewrite list_lookup_insert_eq in Hj
            by (rewrite !length_insert; lia).
          injection Hj as <-. lia. }
        rewrite list_lookup_insert_ne in Hj by congruence.
        destruct (decide (j = Z.to_nat (3 * n + 1))) as [->|N1].
        { rewrite list_lookup_insert_eq in Hj
            by (rewrite !length_insert; lia).
          injection Hj as <-. lia. }
        rewrite list_lookup_insert_ne in Hj by congruence.
        destruct (decide (j = Z.to_nat (3 * n + 0))) as [->|N0].
        { rewrite list_lookup_insert_eq in Hj by lia.
          injection Hj as <-. lia. }
        rewrite list_lookup_insert_ne in Hj by congruence.
        pose proof (Hold _ _ _ Hnt Er0) as Hr.
        assert (Ht : take (Z.to_nat (3 * n)) r0 !! j = Some v)
          by (rewrite lookup_take_lt by lia; exact Hj).
        exact (Forall_lookup_1 _ _ _ _ Hr Ht).
      * rewrite list_lookup_insert_ne in Hx by congruence.
        rewrite list_lookup_insert_ne in Hrow by congruence.
        eapply Hold; eauto.
Qed.

Lemma add_triangles_idx (ti : list Z) (tv tc : list GLfloat) :
  forall (todo i : nat) (t t' : Gld.VertTab) (ft ft' : Gld.FaceTab),
    3 * Z.of_nat (i + todo) < 2 ^ 16 ->
    idx_inv (Z.of_nat i) t ft ->
    Gld.add_triangles todo (Z.of_nat i) ti tv tc (t, ft) = Done (t', ft') ->
    idx_inv (Z.of_nat (i + todo)) t' ft'.
Proof.
  induction todo as [|todo IH]; intros i t t' ft ft' Hw Hinv H.
  - cbn [Gld.add_triangles] in H. inv_outcome H.
    replace (i + 0)%nat with i by lia. exact Hinv.
  - cbn [Gld.add_triangles] in H. step H s1 H1. destruct s1 as [t1 ft1].
    apply add_triangle_idx in H1; [|lia|exact Hinv].
    replace (Z.of_nat i + 1) with (Z.of_nat (S i)) in H, H1 by lia.
    replace (i + S todo)%nat with (S i + todo)%nat by lia.
    eapply IH; [|exact H1|exact H]. lia.
Qed.

(** The three loops of a run of [GenGLData] that returns a mesh. *)
Lemma GenGLData_trace
  (heap : nat -> nat -> Z) (nTri : Z) (tv : list GLfloat) (ti : list Z)
  (tc : list GLfloat) (nMaps : Z) (names : list (list byte)) (g : Gld.GLData) :
  Gld.GenGLData heap nTri (Some tv) (Some ti) (Some tc) nMaps (Some names)
  = Done (Some g) ->
  exists (counted : list Z) (names' : list (list byte)) (rows : list (list Z))
         (t : Gld.VertTab) (ft : Gld.FaceTab),
    Gld.count_triangles (Z.to_nat nTri) 0 nMaps ti (replicate (Z.to_nat nMaps) 0)
    = Done (Some counted) /\
    Gld.init_maps heap (Z.to_nat nMaps) 0 names counted = Done (names', rows) /\
    Gld.add_triangles (Z.to_nat nTri) 0 ti tv tc
      (initial_VertTab heap nTri, initial_FaceTab nMaps rows) = Done (t, ft) /\
    g = built_mesh heap nMaps names' t ft.
Proof.
  intros H. unfold Gld.GenGLData in H.
  destruct ((nTri =? 0) || (nMaps =? 0)); [discriminate H|].
  step H counted Hc. destruct counted as [counted|]; [|discriminate H].
  step H nr Hi. destruct nr as [names' rows].
  step H tf Ha. destruct tf as [t ft].
  inv_outcome H.
  exists counted, names', rows, t, ft.
  split; [exact Hc|]. split; [exact Hi|]. split; [exact Ha|reflexivity].
Qed.

(** The tables at the end of a run of [GenGLData] on fewer than 21846
    triangles, with all their invariants. *)
Lemma GenGLData_tables
  (heap : nat -> nat -> Z) (nTri : Z) (tv : list GLfloat) (ti : list Z)
  (tc : list GLfloat) (nMaps : Z) (names : list (list byte)) (g : Gld.GLData) :
  0 <= nTri -> 3 * nTri < 2 ^ 16 ->
  Forall is_float tv -> Forall is_float tc ->
  Gld.GenGLData heap nTri (Some tv) (Some ti) (Some tc) nMaps (Some names)
  = Done (Some g) ->
  exists (names' : list (list byte)) (t : Gld.VertTab) (ft : Gld.FaceTab),
    g = built_mesh heap nMaps names' t ft /\
    vt_inv t /\ idx_inv nTri t ft /\
    length (Gld.ft_nums ft) = Z.to_nat nMaps /\
    length (Gld.ft_faces ft) = Z.to_nat nMaps /\
    forall (i : nat) (n : Z) (row0 : list Z),
      Gld.ft_nums ft !! i = Some n -> Gld.ft_faces ft !! i = Some row0 ->
      3 * n <= Z.of_nat (length row0).
Proof.
  intros HnTri Hw Htv Htc H.
  destruct (GenGLData_trace heap nTri tv ti tc nMaps names g H)
    as (counted & names' & rows & t & ft & Hc & Hi & Ha & ->).
  apply (count_triangles_spec nMaps ti (Z.to_nat nTri) 0) in Hc; [|lia|].
  2:{ intros x n Hn. apply lookup_replicate in Hn. destruct Hn as [-> _].
      reflexivity. }
  destruct Hc as [Hclen Hcocc]. rewrite length_replicate in Hclen.
  simpl in Hcocc.
  apply (init_maps_spec heap names counted (Z.to_nat nMaps) 0) in Hi.
  destruct Hi as (Hns & Hnslen & Hrlen & Hrall & Hrlens).
  rewrite ?drop_0 in Hrlens. rewrite firstn_all2 in Hrlens by lia.
  pose proof Ha as Hidx.
  apply (add_triangles_inv ti tv tc (map length rows) Htv Htc (Z.to_nat nTri) 0)
    in Ha; [|lia| |].
  2:{ unfold vt_inv, initial_VertTab.
      cbn [Gld.vt_n Gld.vt_vert Gld.vt_tex Gld.vt_minX Gld.vt_maxX
           Gld.vt_minY Gld.vt_maxY Gld.vt_minZ Gld.vt_maxZ].
      split; [lia|]. split; [lia|]. split; [lia|].
      split; [apply Forall_malloc; intros; apply to_Uint32_range|].
      split; [apply Forall_malloc; intros; apply to_Uint32_range|].
      split; [unfold is_float, FLT_MAX, FLT_MIN; lia|].
      intros i j d1 d2 Hij Hj. lia. }
  2:{ unfold ft_inv, initial_FaceTab.
      cbn [Gld.ft_nums Gld.ft_faces Gld.ft_numTri Gld.ft_skipped].
      rewrite length_replicate, length_map.
      split; [lia|]. split; [reflexivity|]. split; [exact Hrall|].
      split; [unfold is_u32; lia|].
      intros tt n Hn. apply lookup_replicate in Hn. destruct Hn as [-> _].
      unfold occ. simpl. split; [lia|reflexivity]. }
  destruct Ha as [Hvt Hft]. simpl in Hft.
  apply (add_triangles_idx ti tv tc (Z.to_nat nTri) 0) in Hidx; [|lia|].
  2:{ unfold idx_inv, initial_VertTab, initial_FaceTab.
      cbn [Gld.vt_n Gld.ft_nums Gld.ft_faces].
      split; [simpl; lia|]. split.
      - intros x n Hn. apply lookup_replicate in Hn. destruct Hn as [-> _].
        simpl. lia.
      - intros x n row Hn _. apply lookup_replicate in Hn. destruct Hn as [-> _].
        constructor. }
  simpl in Hidx. rewrite Z2Nat.id in Hidx by lia.
  destruct Hft as (Hflen & Hflens & Hfu16 & Hfnum & Hfocc).
  rewrite length_map in Hflen.
  exists names', t, ft. split; [reflexivity|]. split; [exact Hvt|].
  split; [exact Hidx|]. split; [lia|].
  split; [rewrite <- (length_map length), Hflens, length_map; exact Hrlen|].
  intros i n row0 Hn Hrow.
  destruct (Hfocc i n Hn) as [[Hge Hle] _].
  pose proof (occ_le (Z.of_nat i) (take (Z.to_nat nTri) ti)) as Ho.
  rewrite length_take in Ho.
  assert (Hl : map length (Gld.ft_faces ft) !! i = Some (length row0))
    by (rewrite list_lookup_fmap, Hrow; reflexivity).
  rewrite Hflens, Hrlens, list_lookup_fmap in Hl.
  destruct (counted !! i) as [c|] eqn:Ec; [|discriminate].
  simpl in Hl. injection Hl as Hl.
  pose proof (Hcocc _ _ Ec) as Eo.
  rewrite to_Uint32_small in Hl by lia. lia.
Qed.

Lemma built_mesh_indices
  (heap : nat -> nat -> Z) (nTri : Z) (tv : list GLfloat) (ti : list Z)
  (tc : list GLfloat) (nMaps : Z) (names : list (list byte)) (g : Gld.GLData) :
  0 <= nTri -> 3 * nTri < 2 ^ 16 ->
  Forall is_float tv -> Forall is_float tc ->
  Gld.GenGLData heap nTri (Some tv) (Some ti) (Some tc) nMaps (Some names)
  = Done (Some g) ->
  indices_valid g /\ 0 <= Gld.nVertices g <= 3 * nTri.
Proof.
  intros HnTri Hw Htv Htc H.
  destruct (GenGLData_tables heap nTri tv ti tc nMaps names g HnTri Hw Htv Htc H)
    as (names' & t & ft & -> & Hvt & (Hn & Hnums & Hcells) & Hnl & Hfl & Hrows).
  split; [|exact Hn].
  intros i n row Hi Hrow.
  unfold built_mesh in Hi, Hrow |- *.
  cbn [Gld.mapTriNums Gld.triFaces Gld.nVertices] in Hi, Hrow |- *.
  pose proof (Hnums i n Hi) as Hnb.
  destruct ((0 <? Gld.vt_n t) && Gld.ft_skipped ft).
  - destruct (trim_faces_lookup _ _ _ _ _ _ Hi Hrow) as (row0 & Er0 & ->).
    pose proof (Hrows i n row0 Hi Er0) as Hlen.
    destruct (Z.eqb_spec n 0) as [->|Hn0].
    + split; [lia|]. split; [simpl; lia|]. constructor.
    + rewrite realloc_shrink by (rewrite to_Uint32_small; lia).
      rewrite to_Uint32_small by lia.
      split; [lia|]. split; [rewrite length_take; lia|].
      rewrite take_take, Nat.min_id. eapply Hcells; eauto.
  - split; [lia|]. split; [eapply Hrows; eauto|]. eapply Hcells; eauto.
Qed.

(** X7.  In a mesh that [GenGLData] builds from fewer than 21846 triangles
    (so that the 16-bit vertex counter cannot wrap), every index stored
    for a triangle is the index of a vertex of the table, every index
    array holds the three indices of each triangle its counter announces,
    and the table has at most three vertices per input triangle. *)
Theorem GenGLData_indices_valid
  (heap : nat -> nat -> Z) (nTri : Z) (tv : list GLfloat) (ti : list Z)
  (tc : list GLfloat) (nMaps : Z) (names : list (list byte)) (g : Gld.GLData) :
  0 <= nTri -> 3 * nTri < 2 ^ 16 ->
  Forall is_float tv -> Forall is_float tc ->
  Gld.GenGLData heap nTri (Some tv) (Some ti) (Some tc) nMaps (Some names)
  = Done (Some g) ->
  indices_valid g /\ 0 <= Gld.nVertices g <= 3 * nTri.
Proof. apply built_mesh_indices. Qed.

Lemma GenGLData_indices_valid_witness :
  indices_valid unit_mesh /\ 0 <= Gld.nVertices unit_mesh <= 3 * 1.
Proof.
  apply (GenGLData_indices_valid sample_heap 1 unit_triVerts [0]
           unit_triTexCoords 1 [name_ab] unit_mesh).
  - lia.
  - lia.
  - exact Forall_is_float_unit_triVerts.
  - exact Forall_is_float_unit_triTexCoords.
  - vm_compute. reflexivity.
Defined.

(** X8.  [hasCollision] can be used on every mesh that [GenGLData] builds
    from fewer than 21846 triangles: whatever the two points are, it
    returns, reading no cell outside the arrays of the mesh. *)
Theorem hasCollision_on_built_mesh
  (heap : nat -> nat -> Z) (nTri : Z) (tv : list GLfloat) (ti : list Z)
  (tc : list GLfloat) (nMaps : Z) (names : list (list byte)) (g : Gld.GLData)
  (fromPt toPt : Coldet.Vec3) :
  0 <= nTri -> 3 * nTri < 2 ^ 16 -> 0 <= nMaps ->
  Forall is_float tv -> Forall is_float tc ->
  Gld.GenGLData heap nTri (Some tv) (Some ti) (Some tc) nMaps (Some names)
  = Done (Some g) ->
  exists (hit : bool) (dist : GLfloat),
    Coldet.hasCollision g fromPt toPt = Done (hit, dist).
Proof.
  intros HnTri Hw HnMaps Htv Htc H.
  apply hasCollision_traversable.
  destruct (built_mesh_indices heap nTri tv ti tc nMaps names g
              HnTri Hw Htv Htc H) as [Hidx HnV].
  destruct (GenGLData_tables heap nTri tv ti tc nMaps names g HnTri Hw Htv Htc H)
    as (names' & t & ft & -> & Hvt & (Hn & Hnums & _) & Hnl & Hfl & _).
  destruct Hvt as (_ & Hlv & _).
  assert (Hvc : 3 * Gld.nVertices (built_mesh heap nMaps names' t ft)
                <= Z.of_nat (length (Gld.vertCoords
                                       (built_mesh heap nMaps names' t ft)))).
  { unfold built_mesh. cbn [Gld.nVertices Gld.vertCoords].
    destruct (Z.ltb_spec 0 (Gld.vt_n t)); [|exact Hlv].
    rewrite realloc_shrink by lia. rewrite length_take. lia. }
  split; [exact HnMaps|].
  split; [unfold built_mesh; cbn [Gld.nMaps Gld.mapTriNums]; lia|].
  split.
  { unfold built_mesh. cbn [Gld.nMaps Gld.triFaces].
    destruct ((0 <? Gld.vt_n t) && Gld.ft_skipped ft);
      [rewrite length_trim_faces|]; lia. }
  intros i n row _ Hi Hrow.
  destruct (Hidx i n row Hi Hrow) as (Hn0 & Hlen & Hall).
  assert (Hnb : n <= nTri)
    by (unfold built_mesh in Hi; cbn [Gld.mapTriNums] in Hi;
        specialize (Hnums i n Hi); lia).
  split; [exact Hn0|]. split; [lia|]. split; [exact Hlen|].
  eapply Forall_impl; [exact Hall|]. intros v Hv. cbv beta in Hv. lia.
Qed.

Lemma hasCollision_on_built_mesh_witness :
  exists (hit : bool) (dist : GLfloat),
    Coldet.hasCollision unit_mesh (0, 0, 0x3F800000) (0, 0, 0xBF800000)
    = Done (hit, dist).
Proof.
  apply (hasCollision_on_built_mesh sample_heap 1 unit_triVerts [0]
           unit_triTexCoords 1 [name_ab] unit_mesh).
  - lia.
  - lia.
  - lia.
  - exact Forall_is_float_unit_triVerts.
  - exact Forall_is_float_unit_triTexCoords.
  - vm_compute. reflexivity.
Defined.

(** ** Saving and loading tree data *)

Ltac read_ints E H :=
  match goal with
  | |- context [fread_ints (length ?zs) ?n
                  (mkFILE (concat (map (le_split ?n) ?zs) ++ ?r) ?j ?k)] =>
      let k' := fresh "k" in
      destruct (fread_ints_app n zs H r j k) as [k' E];
      rewrite E; cbv beta iota
  end.

Lemma read_fields_app (d : Bsp.BSPTreeData) (rest : list byte)
  (j : nat -> byte) (k : nat) :
  wf_bsp d ->
  exists k',
    Bsp.read_fields (mkFILE (fields_bytes d ++ rest) j k)
    = (Bsp.set_bspTree d Bsp.NULL_tree, mkFILE rest j k').
Proof.
  intros (HnMaps & Hnlen & Hnames & Hmlen & Hm32 & HnV & Hvlen & Htlen & Hfv
          & Hft & (B1 & B2 & B3 & B4 & B5 & B6) & HmD & HnN & HnT & _ & _).
  destruct d as [nMaps mapNames mapTriNums nVertices vertCoords texCoords
                 minX maxX minY maxY minZ maxZ maxDepth numNodes numTri tree].
  cbn [Bsp.nMaps Bsp.mapNames Bsp.mapTriNums Bsp.nVertices Bsp.vertCoords
       Bsp.texCoords Bsp.minX Bsp.maxX Bsp.minY Bsp.maxY Bsp.minZ Bsp.maxZ
       Bsp.maxDepth Bsp.numNodes Bsp.numTri Bsp.bspTree] in *.
  unfold Bsp.read_fields, fields_bytes, Bsp.set_bspTree.
  cbn [Bsp.nMaps Bsp.mapNames Bsp.mapTriNums Bsp.nVertices Bsp.vertCoords
       Bsp.texCoords Bsp.minX Bsp.maxX Bsp.minY Bsp.maxY Bsp.minZ Bsp.maxZ
       Bsp.maxDepth Bsp.numNodes Bsp.numTri Bsp.bspTree].
  unfold Uint16_bytes, Uint32_bytes, GLfloat_bytes.
  rewrite <- !app_assoc.
  read_int E1; [apply u16_le; exact HnMaps|].
  rewrite <- Hnlen.
  match goal with
  | |- context [fread_names (length ?ns)
                  (mkFILE (concat (map cstring_bytes ?ns) ++ ?r) ?j ?k)] =>
      destruct (fread_names_app ns Hnames r j k) as [k1 E2]
  end.
  rewrite E2. cbv beta iota.
  rewrite Hnlen, <- Hmlen.
  read_ints E3 (Forall_u32_le _ Hm32).
  read_int E4; [apply u16_le; exact HnV|].
  rewrite <- Hvlen.
  read_ints E5 (Forall_u32_le _ Hfv).
  rewrite <- Htlen.
  read_ints E6 (Forall_u32_le _ Hft).
  read_int E7; [apply u32_le; exact B1|].
  read_int E8; [apply u32_le; exact B2|].
  read_int E9; [apply u32_le; exact B3|].
  read_int E10; [apply u32_le; exact B4|].
  read_int E11; [apply u32_le; exact B5|].
  read_int E12; [apply u32_le; exact B6|].
  read_int E13; [apply u16_le; exact HmD|].
  read_int E14; [apply u16_le; exact HnN|].
  read_int E15; [apply u32_le; exact HnT|].
  eexists. reflexivity.
Qed.

Lemma BSP_roundtrip_wf (d : Bsp.BSPTreeData) :
  wf_bsp d ->
  exists bytes : list byte,
    Bsp.SaveBSPTreeData (Some d) = Done bytes /\
    forall (fuel : nat) (rest : list byte) (j : nat -> byte) (k : nat),
      (depth (Bsp.bspTree d) <= fuel)%nat ->
      Bsp.LoadBSPTreeData fuel (mkFILE (bytes ++ rest) j k)
      = Done (Some (Bsp.set_bspTree d
                      (reloaded (Bsp.vertCoords d) (Bsp.bspTree d)))).
Proof.
  intros Hwf.
  pose proof Hwf as (HnMaps & Hnlen & Hnames & Hmlen & Hm32 & HnV & Hvlen & Htlen
          & Hfv & Hft & _ & _ & _ & _ & Hne & Hok).
  destruct (BSPTree_roundtrip (Bsp.vertCoords d) (Bsp.bspTree d) Hok)
    as (tb & Hw & Hr).
  unfold Bsp.SaveBSPTreeData, fwrite.
  unfold is_u16 in HnMaps, HnV.
  rewrite (cells_Done (Bsp.mapNames d)) by lia. cbn [mbind outcome_bind].
  rewrite (cells_Done (Bsp.mapTriNums d)) by lia.
  cbn [mbind mret outcome_bind outcome_ret].
  rewrite (cells_Done (Bsp.vertCoords d)) by lia.
  cbn [mbind mret outcome_bind outcome_ret].
  rewrite (cells_Done (Bsp.texCoords d)) by lia.
  cbn [mbind mret outcome_bind outcome_ret].
  rewrite Hw. cbn [mbind mret outcome_bind outcome_ret].
  rewrite (firstn_all2 (Bsp.mapNames d)) by lia.
  rewrite (firstn_all2 (Bsp.mapTriNums d)) by lia.
  rewrite (firstn_all2 (Bsp.vertCoords d)) by lia.
  rewrite (firstn_all2 (Bsp.texCoords d)) by lia.
  eexists. split; [reflexivity|]. intros fuel rest j k Hfuel.
  change (cstring_bytes Bsp.BSP_FILE_MAGIC ++ Uint8_bytes Bsp.BSP_DATA_VER ++ ?x)
    with (BSP_header ++ x).
  match goal with
  | |- Bsp.LoadBSPTreeData _ (mkFILE ((?h ++ ?body) ++ rest) _ _) = _ =>
      replace ((h ++ body) ++ rest)
        with (BSP_header ++ fields_bytes d ++ tb ++ rest)
  end.
  2:{ unfold BSP_header, fields_bytes. rewrite <- !app_assoc. reflexivity. }
  rewrite LoadBSPTreeData_good_header.
  destruct (read_fields_app d (tb ++ rest) j (k + 4) Hwf) as [k1 E1].
  rewrite E1.
  destruct (Hr Hne fuel rest j k1 Hfuel) as [k2 E2].
  replace (Bsp.vertCoords (Bsp.set_bspTree d Bsp.NULL_tree))
    with (Bsp.vertCoords d) by reflexivity.
  rewrite E2. reflexivity.
Qed.

Lemma reloaded_consistent (vc : list GLfloat) :
  forall t : Bsp.BSPTree, planes_consistent vc t -> reloaded vc t = t.
Proof.
  induction t as [|numTri triDefs partPlane back IHb front IHf];
    intros H; [reflexivity|].
  destruct H as (Hp & Hb & Hf). cbn [reloaded].
  rewrite (IHb Hb), (IHf Hf).
  destruct (Z.eqb_spec numTri 0) as [_|Hne]; [reflexivity|].
  rewrite (Hp Hne). reflexivity.
Qed.

(** X9.  Tree data whose fields fit their types, whose arrays are as large
    as its counters announce, whose texture names have at most 255
    characters and whose nodes with triangles have a first triangle that is
    not degenerate is written by [SaveBSPTreeData], and [LoadBSPTreeData]
    reads the bytes written back as the same data with the same tree,
    except that every node with triangles gets the plane of its first
    triangle; when the nodes carry these planes already, what is read is
    the data that was written. *)
Theorem BSPTreeData_save_load (d : Bsp.BSPTreeData) :
  wf_bsp d ->
  exists bytes : list byte,
    Bsp.SaveBSPTreeData (Some d) = Done bytes /\
    forall (fuel : nat) (rest : list byte) (j : nat -> byte) (k : nat),
      (depth (Bsp.bspTree d) <= fuel)%nat ->
      Bsp.LoadBSPTreeData fuel (mkFILE (bytes ++ rest) j k)
      = Done (Some (Bsp.set_bspTree d
                      (reloaded (Bsp.vertCoords d) (Bsp.bspTree d)))) /\
      (planes_consistent (Bsp.vertCoords d) (Bsp.bspTree d) ->
       Bsp.LoadBSPTreeData fuel (mkFILE (bytes ++ rest) j k) = Done (Some d)).
Proof.
  intros Hwf. destruct (BSP_roundtrip_wf d Hwf) as (bytes & Hs & Hl).
  exists bytes. split; [exact Hs|]. intros fuel rest j k Hfuel.
  split; [exact (Hl fuel rest j k Hfuel)|].
  intros Hc. rewrite (Hl fuel rest j k Hfuel).
  rewrite (reloaded_consistent _ _ Hc). destruct d. reflexivity.
Qed.

Lemma wf_bsp_sample_bsp : wf_bsp sample_bsp.
Proof.
  unfold wf_bsp, sample_bsp, is_u16, is_u32, is_float.
  cbn [Bsp.nMaps Bsp.mapNames Bsp.mapTriNums Bsp.nVertices Bsp.vertCoords
       Bsp.texCoords Bsp.minX Bsp.maxX Bsp.minY Bsp.maxY Bsp.minZ Bsp.maxZ
       Bsp.maxDepth Bsp.numNodes Bsp.numTri Bsp.bspTree].
  split; [lia|]. split; [reflexivity|].
  split; [constructor; [exact name_ok_ab|constructor]|].
  split; [reflexivity|].
  split; [repeat constructor; lia|].
  split; [lia|]. split; [reflexivity|]. split; [reflexivity|].
  split; [exact Forall_is_float_unit_triVerts|].
  split; [exact Forall_is_float_unit_triTexCoords|].
  split; [unfold FLT_MIN; lia|].
  split; [lia|]. split; [lia|]. split; [lia|].
  split; [discriminate|exact tree_ok_sample_tree].
Defined.

Lemma BSPTreeData_save_load_witness :
  exists bytes : list byte,
    Bsp.SaveBSPTreeData (Some sample_bsp) = Done bytes /\
    forall (fuel : nat) (rest : list byte) (j : nat -> byte) (k : nat),
      (depth (Bsp.bspTree sample_bsp) <= fuel)%nat ->
      Bsp.LoadBSPTreeData fuel (mkFILE (bytes ++ rest) j k)
      = Done (Some (Bsp.set_bspTree sample_bsp
                      (reloaded (Bsp.vertCoords sample_bsp)
                                (Bsp.bspTree sample_bsp)))) /\
      (planes_consistent (Bsp.vertCoords sample_bsp) (Bsp.bspTree sample_bsp) ->
       Bsp.LoadBSPTreeData fuel (mkFILE (bytes ++ rest) j k)
       = Done (Some sample_bsp)).
Proof.
  apply (BSPTreeData_save_load sample_bsp). exact wf_bsp_sample_bsp.
Defined.

(** ** GenBSPTreeData and BuildBSPTree *)

(** The loop over the input leaves out every triangle without a plane. *)
Lemma input_tris_degenerate (tv : list GLfloat) (ti : list Z) (tc : list GLfloat)
  (acc : list Bsp.BSPTriNode) :
  forall (todo : nat) (i : Z),
    0 <= i ->
    (forall k : Z, i <= k < i + Z.of_nat todo ->
       exists (tIndex : Z) (Vs : Bsp.Verts) (Ts : Bsp.TexCoords),
         Bsp.input_tri tv ti tc k = Done (tIndex, Vs, Ts) /\
         Bsp.GetPlaneForTri Vs = None) ->
    Bsp.input_tris todo i tv ti tc acc = Done acc.
Proof.
  induction todo as [|todo IH]; intros i Hi H; [reflexivity|].
  cbn [Bsp.input_tris].
  destruct (H i ltac:(lia)) as (tIndex & Vs & Ts & Hrun & Hp).
  rewrite Hrun. cbn [mbind outcome_bind]. rewrite Hp.
  apply IH; [lia|]. intros k Hk. apply H. lia.
Qed.

(** X10.  [GenBSPTreeData] does not test its input: when [GetPlaneForTri]
    gives no plane for any triangle of the input (in particular when
    there is no triangle at all), no triangle enters the working list,
    [SelectNextRoot] leaves the root null and [BuildBSPTree] reads the
    plane of that null root, outside any allocation. *)
Theorem GenBSPTreeData_without_triangles
  (heap : nat -> nat -> Z) (uninit : nat -> nat -> Bsp.Vec3) (fuel : nat)
  (nTri : Z) (tv : list GLfloat) (ti : list Z) (tc : list GLfloat)
  (nMaps : Z) (names : list (list byte)) :
  all_degenerate nTri tv ti tc ->
  Bsp.input_tris (Z.to_nat nTri) 0 tv ti tc [] = Done [] /\
  Bsp.GenBSPTreeData heap uninit (S fuel) nTri tv ti tc nMaps names = Undefined.
Proof.
  intros H.
  assert (Hl : Bsp.input_tris (Z.to_nat nTri) 0 tv ti tc [] = Done []).
  { apply input_tris_degenerate; [lia|]. intros k Hk. apply H. lia. }
  split; [exact Hl|].
  unfold Bsp.GenBSPTreeData.
  unfold cells. destruct (Z.of_nat (length names) <? nMaps); [reflexivity|].
  cbn [mbind outcome_bind]. rewrite Hl. reflexivity.
Qed.

Lemma GenBSPTreeData_without_triangles_witness :
  Bsp.input_tris (Z.to_nat 1) 0 flat_triVerts [0] flat_triTexCoords [] = Done [] /\
  Bsp.GenBSPTreeData sample_heap sample_uninit 8 1 flat_triVerts [0]
                     flat_triTexCoords 1 [name_ab] = Undefined.
Proof.
  apply (GenBSPTreeData_without_triangles sample_heap sample_uninit 7 1
           flat_triVerts [0] flat_triTexCoords 1 [name_ab]).
  intros i Hi. assert (Ei : i = 0) by lia. subst i.
  exists 0, ((0, 0, 0), (0, 0, 0), (0, 0, 0)), ((0, 0), (0, 0), (0, 0)).
  split; vm_compute; reflexivity.
Defined.

Lemma SplitTri_Done_pieces (u : nat -> Bsp.Vec3) (aTri : Bsp.BSPTriNode)
  (p : Bsp.BSPPlane) (fList bList : list Bsp.BSPTriNode) :
  Bsp.SplitTri u aTri p = Done (fList, bList) ->
  Forall (piece_of aTri) fList /\ Forall (piece_of aTri) bList.
Proof.
  unfold Bsp.SplitTri. intros H. step H r Hw.
  destruct ((Bsp.numBackVerts r <? 3) || (Bsp.numFrontVerts r <? 3));
    [discriminate H|].
  destruct ((4 <? Bsp.numBackVerts r) || (4 <? Bsp.numFrontVerts r));
    [discriminate H|].
  step H f Hf. step H b Hb. inv_outcome H.
  split; [exact (proj2 (ring_list_spec _ _ _ Hf))
         |exact (proj2 (ring_list_spec _ _ _ Hb))].
Qed.

Lemma add_split_Forall (Q : Bsp.BSPTriNode -> Prop)
  (lst split : list Bsp.BSPTriNode) :
  Forall Q lst -> Forall Q split -> Forall Q (Bsp.add_split lst split).
Proof.
  intros Hl Hs. unfold Bsp.add_split, Bsp.AddTriToList.
  destruct split as [|first [|second rest]]; [exact Hl| |].
  - inversion Hs; subst. constructor; assumption.
  - inversion Hs as [|? ? H1 H2]; subst. inversion H2; subst.
    constructor; [assumption|]. constructor; assumption.
Qed.

Lemma SelectNextRoot_Some (triList rest : list Bsp.BSPTriNode)
  (root : Bsp.BSPTriNode) :
  Bsp.SelectNextRoot triList = (Some root, rest) ->
  exists k : nat, triList !! k = Some root /\ rest = delete k triList.
Proof.
  unfold Bsp.SelectNextRoot, Bsp.RemoveTriFromList.
  destruct (Bsp.scan triList triList 0 UINT_MAX None) as [k|];
    [|discriminate].
  intros H. injection H as H1 H2. exists k. auto.
Qed.

Lemma piece_tri_ok (P : Z -> Prop) (aTri piece : Bsp.BSPTriNode) :
  tri_ok P aTri -> piece_of aTri piece -> tri_ok P piece.
Proof.
  intros [HP _] [Ht Hp]. split; [rewrite Ht; exact HP|exact Hp].
Qed.

(** The loop of [BuildBSPTree] over the remaining triangles. *)
Lemma distribute_spec (P : Z -> Prop) (uninit : nat -> nat -> Bsp.Vec3)
  (pl : Bsp.BSPPlane) :
  forall (rest : list Bsp.BSPTriNode) (acc acc' : Bsp.Parts) (calls calls' : nat),
    Bsp.distribute uninit pl rest acc calls = Done (acc', calls') ->
    Forall (tri_ok P) rest ->
    Forall (tri_ok P) (Bsp.p_triHead acc) ->
    Forall (tri_ok P) (Bsp.p_frontList acc) ->
    Forall (tri_ok P) (Bsp.p_backList acc) ->
    Forall (tri_ok P) (Bsp.p_triHead acc') /\
    Forall (tri_ok P) (Bsp.p_frontList acc') /\
    Forall (tri_ok P) (Bsp.p_backList acc') /\
    exists coplanar : list Bsp.BSPTriNode,
      Bsp.p_triHead acc' = coplanar ++ Bsp.p_triHead acc /\
      Forall (fun t => Bsp.ClassifyTri t pl = Bsp.COINCIDENT) coplanar /\
      to_Uint16 (Bsp.p_numTri acc')
      = to_Uint16 (Bsp.p_numTri acc + Z.of_nat (length coplanar)) /\
      (is_u16 (Bsp.p_numTri acc) -> is_u16 (Bsp.p_numTri acc')).
Proof.
  induction rest as [|aTri rest IH]; intros acc acc' calls calls' H Hr Hh Hf Hb.
  - cbn [Bsp.distribute] in H. inv_outcome H.
    split; [exact Hh|]. split; [exact Hf|]. split; [exact Hb|].
    exists []. split; [reflexivity|]. split; [constructor|].
    split; [f_equal; simpl; lia|auto].
  - inversion Hr as [|? ? Ha Hrest]; subst.
    cbn [Bsp.distribute] in H.
    destruct (Bsp.ClassifyTri aTri pl) eqn:Ec.
    + (* IN_BACK *)
      apply IH in H; cbn [Bsp.p_triHead Bsp.p_frontList Bsp.p_backList
                          Bsp.p_numTri] in *; auto.
      unfold Bsp.AddTriToList. constructor; assumption.
    + (* SPANNING *)
      step H fb Hs. destruct fb as [fS bS].
      destruct (SplitTri_Done_pieces _ _ _ _ _ Hs) as [Pf Pb].
      apply IH in H; cbn [Bsp.p_triHead Bsp.p_frontList Bsp.p_backList
                          Bsp.p_numTri] in *; auto.
      * apply add_split_Forall; [exact Hf|].
        eapply Forall_impl; [exact Pf|]. intros x. apply piece_tri_ok. exact Ha.
      * apply add_split_Forall; [exact Hb|].
        eapply Forall_impl; [exact Pb|]. intros x. apply piece_tri_ok. exact Ha.
    + (* COINCIDENT *)
      apply IH in H; cbn [Bsp.p_triHead Bsp.p_frontList Bsp.p_backList
                          Bsp.p_numTri] in *; auto.
      2:{ unfold Bsp.AddTriToList. constructor; assumption. }
      destruct H as (H1 & H2 & H3 & cop & E & Hc & Hn & Hu).
      split; [exact H1|]. split; [exact H2|]. split; [exact H3|].
      exists (cop ++ [aTri]). unfold Bsp.AddTriToList in E.
      split; [rewrite <- app_assoc; exact E|].
      split; [apply Forall_app; split; [exact Hc|constructor; [exact Ec|constructor]]|].
      split.
      * rewrite Hn, length_app. cbn [length].
        unfold to_Uint16. rewrite Nat2Z.inj_add.
        rewrite Zplus_mod_idemp_l. f_equal. lia.
      * intros _. apply Hu. apply to_Uint16_range.
    + (* IN_FRONT *)
      apply IH in H; cbn [Bsp.p_triHead Bsp.p_frontList Bsp.p_backList
                          Bsp.p_numTri] in *; auto.
      unfold Bsp.AddTriToList. constructor; assumption.
Qed.

Lemma BuildBSPTree_inv (P : Z -> Prop) (uninit : nat -> nat -> Bsp.Vec3) :
  forall (fuel : nat) (triList : list Bsp.BSPTriNode) (st st' : Bsp.BuildState)
         (node : Bsp.IntBSPTreeNode),
    Bsp.BuildBSPTree uninit fuel triList st = Done (node, st') ->
    Forall (tri_ok P) triList ->
    node <> Bsp.NULL_node /\ node_ok node /\ Forall (tri_ok P) (tree_tris node).
Proof.
  induction fuel as [|fuel IH]; intros triList st st' node H Hall;
    [discriminate H|].
  cbn [Bsp.BuildBSPTree] in H. cbv zeta in H.
  destruct (Bsp.SelectNextRoot triList) as [[rootTri|] restOfList] eqn:Es;
    [|discriminate H].
  destruct (SelectNextRoot_Some _ _ _ Es) as (k & Hk & ->).
  assert (Hroot : tri_ok P rootTri) by exact (Forall_lookup_1 _ _ _ _ Hall Hk).
  assert (Hrest : Forall (tri_ok P) (delete k triList))
    by (apply Forall_delete; exact Hall).
  step H pc Hd. destruct pc as [parts calls].
  apply (distribute_spec P) in Hd;
    cbn [Bsp.p_triHead Bsp.p_frontList Bsp.p_backList Bsp.p_numTri];
    [|exact Hrest|constructor; [exact Hroot|constructor]|constructor|constructor].
  cbn [Bsp.p_triHead Bsp.p_frontList Bsp.p_backList Bsp.p_numTri] in Hd.
  destruct Hd as (Hh & Hf & Hb & cop & Eh & Hcop & Hn & Hu).
  step H fs Hfront. destruct fs as [front st1].
  step H bs Hback. destruct bs as [back st2].
  inv_outcome H.
  assert (Front : node_ok front /\ Forall (tri_ok P) (tree_tris front)).
  { destruct (Bsp.p_frontList parts) eqn:El.
    - inv_outcome Hfront. split; [exact I|constructor].
    - rewrite <- El in Hfront, Hf. apply IH in Hfront; [tauto|exact Hf]. }
  assert (Back : node_ok back /\ Forall (tri_ok P) (tree_tris back)).
  { destruct (Bsp.p_backList parts) eqn:El.
    - inv_outcome Hback. split; [exact I|constructor].
    - rewrite <- El in Hback, Hb. apply IH in Hback; [tauto|exact Hb]. }
  split; [discriminate|]. split.
  - cbn [node_ok]. split.
    + exists cop, rootTri. split; [exact Eh|]. split; [reflexivity|exact Hcop].
    + split; [|tauto].
      specialize (Hu ltac:(unfold is_u16; lia)).
      rewrite <- (to_Uint16_small (Bsp.p_numTri parts))
        by (unfold is_u16 in Hu; lia).
      rewrite Hn, Eh, length_app. cbn [length]. f_equal. lia.
  - cbn [tree_tris]. rewrite !Forall_app. tauto.
Qed.

(** X11.  Every tree [BuildBSPTree] returns is made as follows.  It is not
    empty.  In every node the coplanar list ends with the root triangle
    picked by [SelectNextRoot]; the partition of the node is the plane of
    that triangle; the triangles before it were found [COINCIDENT] with
    the partition; [numTri] is the length of the list in 16 bits.  Every
    triangle of the tree has a texture index of the input list (whatever
    property [P] the texture indices of the input have) and carries the
    plane [GetPlaneForTri] gives for its corners, when the triangles of
    the input do. *)
Theorem BuildBSPTree_builds
  (P : Z -> Prop) (uninit : nat -> nat -> Bsp.Vec3) (fuel : nat)
  (triList : list Bsp.BSPTriNode) (st st' : Bsp.BuildState)
  (node : Bsp.IntBSPTreeNode) :
  Bsp.BuildBSPTree uninit fuel triList st = Done (node, st') ->
  Forall (tri_ok P) triList ->
  node <> Bsp.NULL_node /\ node_ok node /\ Forall (tri_ok P) (tree_tris node).
Proof. apply BuildBSPTree_inv. Qed.

Lemma BuildBSPTree_builds_witness :
  exists (node : Bsp.IntBSPTreeNode) (st' : Bsp.BuildState),
    Bsp.BuildBSPTree sample_uninit 4 [unit_tri; crossing_tri] no_nodes
      = Done (node, st') /\
    node <> Bsp.NULL_node /\ node_ok node /\
    Forall (tri_ok (fun i => i = 0)) (tree_tris node).
Proof.
  eexists. eexists. split; [vm_compute; reflexivity|].
  eapply (BuildBSPTree_builds (fun i => i = 0) sample_uninit 4%nat
            [unit_tri; crossing_tri] no_nodes).
  - vm_compute. reflexivity.
  - repeat constructor; vm_compute; reflexivity.
Defined.

(** ** The counters of BuildBSPTree and the header of the generated data *)

Lemma int_nodes_nonneg (n : Bsp.IntBSPTreeNode) : 0 <= int_nodes n.
Proof. induction n; cbn [int_nodes]; lia. Qed.

Lemma int_depth_nonneg (n : Bsp.IntBSPTreeNode) : 0 <= int_depth n.
Proof. induction n; cbn [int_depth]; lia. Qed.

Lemma BuildBSPTree_counters (uninit : nat -> nat -> Bsp.Vec3) :
  forall (fuel : nat) (triList : list Bsp.BSPTriNode) (st st' : Bsp.BuildState)
         (node : Bsp.IntBSPTreeNode),
    Bsp.BuildBSPTree uninit fuel triList st = Done (node, st') ->
    Bsp.nodesCreated st' = to_Uint16 (Bsp.nodesCreated st + int_nodes node) /\
    (is_u16 (Bsp.currDepth st) -> is_u16 (Bsp.maxDepthSoFar st) ->
     Bsp.currDepth st + int_depth node < 2 ^ 16 ->
     Bsp.currDepth st' = Bsp.currDepth st /\
     Bsp.maxDepthSoFar st' =
       Z.max (Bsp.maxDepthSoFar st) (Bsp.currDepth st + int_depth node)).
Proof.
  induction fuel as [|fuel IH]; intros triList st st' node H;
    [discriminate H|].
  cbn [Bsp.BuildBSPTree] in H. cbv zeta in H.
  destruct (Bsp.SelectNextRoot triList) as [[rootTri|] restOfList] eqn:Es;
    [|discriminate H].
  step H pc Hd. destruct pc as [parts calls]. clear Hd.
  cbn [Bsp.nodesCreated Bsp.currDepth Bsp.maxDepthSoFar Bsp.splitCalls] in H.
  step H fs Hfront. destruct fs as [front st1].
  step H bs Hback. destruct bs as [back st2].
  inv_outcome H.
  cbn [Bsp.nodesCreated Bsp.currDepth Bsp.maxDepthSoFar Bsp.splitCalls
       int_nodes int_depth].
  pose proof (int_depth_nonneg front) as Hdf.
  pose proof (int_depth_nonneg back) as Hdb.
  set (st0 := {| Bsp.nodesCreated := to_Uint16 (Bsp.nodesCreated st + 1);
                 Bsp.currDepth := to_Uint16 (Bsp.currDepth st + 1);
                 Bsp.maxDepthSoFar :=
                   if Bsp.maxDepthSoFar st <? to_Uint16 (Bsp.currDepth st + 1)
                   then to_Uint16 (Bsp.currDepth st + 1)
                   else Bsp.maxDepthSoFar st;
                 Bsp.splitCalls := calls |}) in *.
  assert (Front :
    Bsp.nodesCreated st1 = to_Uint16 (Bsp.nodesCreated st0 + int_nodes front) /\
    (is_u16 (Bsp.currDepth st0) -> is_u16 (Bsp.maxDepthSoFar st0) ->
     Bsp.currDepth st0 + int_depth front < 2 ^ 16 ->
     Bsp.currDepth st1 = Bsp.currDepth st0 /\
     Bsp.maxDepthSoFar st1 =
       Z.max (Bsp.maxDepthSoFar st0) (Bsp.currDepth st0 + int_depth front) \/
     front = Bsp.NULL_node /\ st1 = st0)).
  { destruct (Bsp.p_frontList parts).
    - inv_outcome Hfront. cbn [int_nodes]. split.
      + rewrite Z.add_0_r. symmetry. apply to_Uint16_small.
        apply to_Uint16_range.
      + intros _ _ _. right. split; reflexivity.
    - apply IH in Hfront. destruct Hfront as [Hn Hd]. split; [exact Hn|].
      intros H1 H2 H3. left. apply Hd; assumption. }
  assert (Back :
    Bsp.nodesCreated st2 = to_Uint16 (Bsp.nodesCreated st1 + int_nodes back) /\
    (is_u16 (Bsp.currDepth st1) -> is_u16 (Bsp.maxDepthSoFar st1) ->
     Bsp.currDepth st1 + int_depth back < 2 ^ 16 ->
     Bsp.currDepth st2 = Bsp.currDepth st1 /\
     Bsp.maxDepthSoFar st2 =
       Z.max (Bsp.maxDepthSoFar st1) (Bsp.currDepth st1 + int_depth back) \/
     back = Bsp.NULL_node /\ st2 = st1)).
  { destruct (Bsp.p_backList parts).
    - inv_outcome Hback. cbn [int_nodes]. split.
      + rewrite Z.add_0_r. symmetry. apply to_Uint16_small.
        destruct Front as [-> _]. apply to_Uint16_range.
      + intros _ _ _. right. split; reflexivity.
    - apply IH in Hback. destruct Hback as [Hn Hd]. split; [exact Hn|].
      intros H1 H2 H3. left. apply Hd; assumption. }
  destruct Front as [Fn Fd], Back as [Bn Bd]. split.
  - rewrite Bn, Fn. subst st0. cbn [Bsp.nodesCreated]. unfold to_Uint16.
    rewrite Zplus_mod_idemp_l, <- Z.add_assoc, Zplus_mod_idemp_l.
    f_equal. lia.
  - intros Hc Hm Hlt. unfold is_u16 in *.
    assert (E1 : to_Uint16 (Bsp.currDepth st + 1) = Bsp.currDepth st + 1)
      by (apply to_Uint16_small; lia).
    subst st0. cbn [Bsp.currDepth Bsp.maxDepthSoFar] in Fd, Bd.
    rewrite E1 in Fd.
    assert (Hm0 : 0 <= (if Bsp.maxDepthSoFar st <? Bsp.currDepth st + 1
                        then Bsp.currDepth st + 1 else Bsp.maxDepthSoFar st)
                  < 2 ^ 16)
      by (destruct (Z.ltb_spec (Bsp.maxDepthSoFar st) (Bsp.currDepth st + 1)); lia).
    specialize (Fd ltac:(lia) Hm0 ltac:(lia)).
    assert (F : Bsp.currDepth st1 = Bsp.currDepth st + 1 /\
                Bsp.maxDepthSoFar st1 =
                  Z.max (Bsp.maxDepthSoFar st)
                        (Bsp.currDepth st + 1 + int_depth front)).
    { destruct Fd as [[-> ->]|[-> ->]]; cbn [Bsp.currDepth Bsp.maxDepthSoFar int_depth];
        (split; [try rewrite E1; reflexivity|]);
        try rewrite E1;
        destruct (Z.ltb_spec (Bsp.maxDepthSoFar st) (Bsp.currDepth st + 1)); lia. }
    destruct F as [Fc Fm].
    specialize (Bd ltac:(lia) ltac:(lia) ltac:(lia)).
    assert (B : Bsp.currDepth st2 = Bsp.currDepth st + 1 /\
                Bsp.maxDepthSoFar st2 =
                  Z.max (Bsp.maxDepthSoFar st1)
                        (Bsp.currDepth st + 1 + int_depth back)).
    { destruct Bd as [[-> ->]|[-> ->]]; cbn [int_depth];
        (split; [lia|]); lia. }
    destruct B as [Bc Bm]. rewrite Bc, Bm, Fm. split.
    + rewrite Z.add_simpl_r. apply to_Uint16_small. lia.
    + lia.
Qed.

Lemma ConvIntBSPTree_shape :
  forall (intTree : Bsp.IntBSPTreeNode) (g g' : Bsp.Globals) (tree : Bsp.BSPTree),
    Bsp.ConvIntBSPTree intTree g = Done (tree, g') ->
    nodes tree = int_nodes intTree /\ Z.of_nat (depth tree) = int_depth intTree.
Proof.
  induction intTree as [|partition numTri triHead back IHb front IHf];
    intros g g' tree H; [discriminate H|].
  cbn [Bsp.ConvIntBSPTree] in H.
  step H ng Hn. destruct ng as [n g1].
  step H bg Hb. destruct bg as [b g2].
  step H fg Hf. destruct fg as [f g3].
  inv_outcome H. cbn [nodes int_nodes depth int_depth].
  assert (B : nodes b = int_nodes back /\ Z.of_nat (depth b) = int_depth back).
  { destruct back; [inv_outcome Hb; split; reflexivity|].
    eapply IHb. exact Hb. }
  assert (F : nodes f = int_nodes front /\ Z.of_nat (depth f) = int_depth front).
  { destruct front; [inv_outcome Hf; split; reflexivity|].
    eapply IHf. exact Hf. }
  destruct B as [-> <-], F as [-> <-]. split; [reflexivity|]. lia.
Qed.

(** X12.  In the data [GenBSPTreeData] returns, [numNodes] is the number
    of nodes of the tree in 16 bits, [maxDepth] is the depth of the tree
    when that is below 65536, and the tree is not empty. *)
Theorem GenBSPTreeData_header
  (heap : nat -> nat -> Z) (uninit : nat -> nat -> Bsp.Vec3) (fuel : nat)
  (nTri : Z) (triVerts : list GLfloat) (texIndices : list Z)
  (triTexCoords : list GLfloat) (nMaps : Z) (texMapNames : list (list byte))
  (d : Bsp.BSPTreeData) :
  Bsp.GenBSPTreeData heap uninit fuel nTri triVerts texIndices triTexCoords
                     nMaps texMapNames = Done d ->
  Bsp.numNodes d = to_Uint16 (nodes (Bsp.bspTree d)) /\
  (Z.of_nat (depth (Bsp.bspTree d)) < 2 ^ 16 ->
   Bsp.maxDepth d = Z.of_nat (depth (Bsp.bspTree d))) /\
  Bsp.bspTree d <> Bsp.NULL_tree.
Proof.
  intros H. unfold Bsp.GenBSPTreeData in H.
  step H names Hnames. step H triList Hlist.
  step H ts Hbuild. destruct ts as [genBSPTree st].
  step H tg Hconv. destruct tg as [tree g].
  step H vt Hcopy. destruct vt as [vc tc].
  inv_outcome H. cbn [Bsp.numNodes Bsp.maxDepth Bsp.bspTree].
  destruct (ConvIntBSPTree_shape _ _ _ _ Hconv) as [Hn Hd].
  destruct (BuildBSPTree_counters _ _ _ _ _ _ Hbuild) as [Hc Hm].
  cbn [Bsp.nodesCreated Bsp.currDepth Bsp.maxDepthSoFar] in Hc, Hm.
  split; [rewrite Hc, Hn; reflexivity|]. split.
  - intros Hlt. rewrite Hd in *.
    pose proof (int_depth_nonneg genBSPTree).
    destruct Hm as [_ ->]; unfold is_u16; lia.
  - destruct genBSPTree; [discriminate Hconv|].
    cbn [Bsp.ConvIntBSPTree] in Hconv.
    step Hconv ng Hn'. destruct ng as [n g1].
    step Hconv bg Hb. destruct bg as [b g2].
    step Hconv fg Hf. destruct fg as [f g3].
    inv_outcome Hconv. discriminate.
Qed.

Lemma GenBSPTreeData_header_witness :
  exists d : Bsp.BSPTreeData,
    Bsp.GenBSPTreeData sample_heap sample_uninit 4 2 crossing_triVerts [0; 0]
                       crossing_triTexCoords 1 [name_ab] = Done d /\
    Bsp.numNodes d = to_Uint16 (nodes (Bsp.bspTree d)) /\
    (Z.of_nat (depth (Bsp.bspTree d)) < 2 ^ 16 ->
     Bsp.maxDepth d = Z.of_nat (depth (Bsp.bspTree d))) /\
    Bsp.bspTree d <> Bsp.NULL_tree.
Proof.
  eexists. split; [vm_compute; reflexivity|].
  eapply (GenBSPTreeData_header sample_heap sample_uninit 4%nat 2
            crossing_triVerts [0; 0] crossing_triTexCoords 1 [name_ab]).
  vm_compute. reflexivity.
Defined.

(** ** The results of the floating-point operations have encodings *)

Transparent IEEE.decode IEEE.encode IEEE.round.


Lemma digits2_pos_bounds (m : positive) :
  2 ^ (Zpos (digits2_pos m) - 1) <= Zpos m < 2 ^ Zpos (digits2_pos m).
Proof.
  induction m as [m IH|m IH|]; cbn [digits2_pos].
  - rewrite Pos2Z.inj_succ. replace (Z.succ (Z.pos (digits2_pos m)) - 1)
      with (Z.succ (Z.pos (digits2_pos m) - 1)) by lia.
    rewrite !Z.pow_succ_r by lia. lia.
  - rewrite Pos2Z.inj_succ. replace (Z.succ (Z.pos (digits2_pos m)) - 1)
      with (Z.succ (Z.pos (digits2_pos m) - 1)) by lia.
    rewrite !Z.pow_succ_r by lia. lia.
  - simpl. lia.
Qed.

Lemma digits2_pos_le (m : positive) (k : Z) :
  Zpos m < 2 ^ k -> Zpos (digits2_pos m) <= k.
Proof.
  intros H. destruct (digits2_pos_bounds m) as [Hl _].
  destruct (Z.le_gt_cases (Zpos (digits2_pos m)) k) as [|Hgt]; [assumption|].
  exfalso. assert (2 ^ k <= 2 ^ (Zpos (digits2_pos m) - 1)).
  { destruct (Z.le_gt_cases 0 k).
    - apply Z.pow_le_mono_r; lia.
    - rewrite (Z.pow_neg_r 2 k) by lia. apply Z.pow_nonneg. lia. }
  lia.
Qed.

Lemma Zdigits2_shr_1 (r : shr_record) :
  Zdigits2 (shr_m (shr_1 r)) = Z.max 0 (Zdigits2 (shr_m r) - 1).
Proof.
  destruct r as [m r s]. destruct m as [|p|p]; [reflexivity| |];
    destruct p; cbn [shr_1 shr_m Zdigits2 digits2_pos];
    try rewrite Pos2Z.inj_succ; lia.
Qed.

Lemma Zdigits2_nonneg (z : Z) : 0 <= Zdigits2 z.
Proof. destruct z; cbn; lia. Qed.

Lemma Zdigits2_iter_shr (p : positive) :
  forall r : shr_record,
    Zdigits2 (shr_m (SpecFloat.iter_pos shr_1 p r))
    = Z.max 0 (Zdigits2 (shr_m r) - Zpos p).
Proof.
  induction p as [p IH|p IH|]; intros r; cbn [SpecFloat.iter_pos].
  - rewrite !IH, Zdigits2_shr_1. pose proof (Zdigits2_nonneg (shr_m r)). lia.
  - rewrite !IH. pose proof (Zdigits2_nonneg (shr_m r)). lia.
  - apply Zdigits2_shr_1.
Qed.

Section EncodingRange.
Variables prec emax : Z.
Hypothesis Hprec : 1 < prec.
Hypothesis Hemax : 2 <= emax.

Lemma shr_fexp_exact_bounds (m e : Z) (mrs : shr_record) (e' : Z) :
  shr_fexp prec emax m e loc_Exact = (mrs, e') ->
  Zdigits2 (shr_m mrs) <= prec /\ emin prec emax <= e'.
Proof.
  unfold shr_fexp, shr, fexp. cbn [shr_record_of_loc].
  destruct (Z.max (Zdigits2 m + e - prec) (emin prec emax) - e) as [|p|p] eqn:E;
    intros H; inversion H; subst; clear H; cbn [shr_m].
  - lia.
  - rewrite Zdigits2_iter_shr. cbn [shr_m]. lia.
  - lia.
Qed.

Lemma binary_round_aux_encodable (s : bool) (m e : Z) (l : location) :
  encodable prec emax (binary_round_aux prec emax s m e l).
Proof.
  unfold binary_round_aux.
  destruct (shr_fexp prec emax m e l) as [mrs' e'].
  destruct (shr_fexp prec emax
              (round_nearest_even (shr_m mrs') (loc_of_shr_record mrs')) e'
              loc_Exact) as [mrs'' e''] eqn:E.
  apply shr_fexp_exact_bounds in E. destruct E as [Hd He].
  destruct (shr_m mrs'') as [|q|q]; cbn [encodable]; try exact I.
  destruct (Z.leb_spec e'' (emax - prec)); cbn [encodable]; [|exact I].
  cbn [Zdigits2] in Hd. lia.
Qed.

Lemma binary_round_encodable (s : bool) (m : positive) (e : Z) :
  encodable prec emax (binary_round prec emax s m e).
Proof.
  unfold binary_round. destruct (shl_align m e _) as [mz ez].
  apply binary_round_aux_encodable.
Qed.

Lemma binary_normalize_encodable (m e : Z) (sz : bool) :
  encodable prec emax (binary_normalize prec emax m e sz).
Proof.
  destruct m; cbn [binary_normalize encodable]; [exact I| |];
    apply binary_round_encodable.
Qed.

Lemma SFadd_encodable (x y : spec_float) :
  encodable prec emax x -> encodable prec emax y ->
  encodable prec emax (SFadd prec emax x y).
Proof.
  intros Hx Hy.
  destruct x as [sx|sx| |sx mx ex], y as [sy|sy| |sy my ey];
    cbn [SFadd]; try exact I; try assumption;
    try (destruct sx, sy; exact I).
  apply binary_normalize_encodable.
Qed.

Lemma SFsub_encodable (x y : spec_float) :
  encodable prec emax x -> encodable prec emax y ->
  encodable prec emax (SFsub prec emax x y).
Proof.
  intros Hx Hy.
  destruct x as [sx|sx| |sx mx ex], y as [sy|sy| |sy my ey];
    cbn [SFsub]; try exact I; try assumption;
    try (destruct sx, sy; exact I).
  apply binary_normalize_encodable.
Qed.

Lemma SFmul_encodable (x y : spec_float) :
  encodable prec emax (SFmul prec emax x y).
Proof.
  destruct x as [sx|sx| |sx mx ex], y as [sy|sy| |sy my ey];
    cbn [SFmul]; try exact I.
  apply binary_round_aux_encodable.
Qed.

Lemma SFdiv_encodable (x y : spec_float) :
  encodable prec emax (SFdiv prec emax x y).
Proof.
  destruct x as [sx|sx| |sx mx ex], y as [sy|sy| |sy my ey];
    cbn [SFdiv]; try exact I.
  destruct (SFdiv_core_binary prec emax (Z.pos mx) ex (Z.pos my) ey)
    as [[mz ez] lz].
  apply binary_round_aux_encodable.
Qed.

Lemma SFsqrt_encodable (x : spec_float) :
  encodable prec emax (SFsqrt prec emax x).
Proof.
  destruct x as [sx|sx| |sx mx ex]; cbn [SFsqrt]; try exact I.
  - destruct sx; exact I.
  - destruct sx; [exact I|].
    destruct (SFsqrt_core_binary prec emax (Z.pos mx) ex) as [[mz ez] lz].
    apply binary_round_aux_encodable.
Qed.

Lemma SFabs_encodable (x : spec_float) :
  encodable prec emax x -> encodable prec emax (SFabs x).
Proof. destruct x; cbn [SFabs encodable]; tauto. Qed.

Lemma round_encodable (x : spec_float) :
  encodable prec emax (IEEE.round prec emax x).
Proof.
  destruct x; cbn [IEEE.round encodable]; try exact I.
  apply binary_round_encodable.
Qed.

Lemma decode_encodable (w : Z) : encodable prec emax (IEEE.decode prec emax w).
Proof.
  unfold IEEE.decode, IEEE.mant_bits, IEEE.exp_ones, IEEE.bias.
  assert (Hpow : 0 < 2 ^ (prec - 1)) by (apply Z.pow_pos_nonneg; lia).
  pose proof (Z.mod_pos_bound w (2 ^ (prec - 1)) Hpow) as Hf.
  pose proof (Z.mod_pos_bound (w / 2 ^ (prec - 1)) (2 * emax) ltac:(lia)) as Hx.
  set (frac := w mod 2 ^ (prec - 1)) in *.
  set (ex := (w / 2 ^ (prec - 1)) mod (2 * emax)) in *.
  assert (Hp2 : 2 ^ prec = 2 * 2 ^ (prec - 1)).
  { replace prec with (Z.succ (prec - 1)) at 1 by lia.
    rewrite Z.pow_succ_r by lia. reflexivity. }
  destruct (Z.eqb_spec ex 0) as [E0|N0].
  - destruct frac as [|m|m] eqn:Ef; cbn [encodable]; try exact I.
    split.
    + pose proof (digits2_pos_le m (prec - 1) ltac:(lia)). lia.
    + unfold emin. lia.
  - destruct (Z.eqb_spec ex (2 * emax - 1)) as [E1|N1].
    + destruct (frac =? 0); exact I.
    + destruct (frac + 2 ^ (prec - 1)) as [|m|m] eqn:Em; cbn [encodable];
        try exact I.
      split.
      * apply digits2_pos_le. lia.
      * unfold emin. lia.
Qed.

Lemma encode_range (x : spec_float) :
  encodable prec emax x ->
  0 <= IEEE.encode prec emax x < 2 * IEEE.sign_weight prec emax.
Proof.
  unfold IEEE.encode, IEEE.sign_bit, IEEE.sign_weight, IEEE.mant_bits,
    IEEE.exp_ones, IEEE.bias.
  assert (Hpow : 0 < 2 ^ (prec - 1)) by (apply Z.pow_pos_nonneg; lia).
  assert (Hpow' : 0 < 2 ^ (prec - 1 - 1)) by (apply Z.pow_pos_nonneg; lia).
  assert (Hp1 : 2 ^ (prec - 1) = 2 * 2 ^ (prec - 1 - 1)).
  { replace (prec - 1) with (Z.succ (prec - 1 - 1)) at 1 by lia.
    rewrite Z.pow_succ_r by lia. reflexivity. }
  assert (Hp2 : 2 ^ prec = 2 * 2 ^ (prec - 1)).
  { replace prec with (Z.succ (prec - 1)) at 1 by lia.
    rewrite Z.pow_succ_r by lia. reflexivity. }
  set (W := 2 ^ (prec - 1)) in *.
  destruct x as [s|s| |s m e]; cbn [encodable]; intros H.
  - destruct s; nia.
  - destruct s; nia.
  - nia.
  - destruct H as [Hd He]. unfold emin in He.
    pose proof (digits2_pos_bounds m) as Hb.
    destruct (Z.eqb_spec (Z.pos (digits2_pos m)) prec) as [E|N].
    + rewrite E in Hb. fold W in Hb. destruct s; nia.
    + assert (Z.pos m < W).
      { unfold W. eapply Z.lt_le_trans; [apply Hb|].
        apply Z.pow_le_mono_r; lia. }
      destruct s; nia.
Qed.

End EncodingRange.

Lemma F32_range (x : spec_float) : encodable 24 128 x -> is_float (F32.encode x).
Proof.
  intros H. apply (encode_range 24 128) in H; [|lia|lia].
  exact H.
Qed.

Lemma F64_range (x : spec_float) : encodable 53 1024 x -> is_u64 (F64.encode x).
Proof.
  intros H. apply (encode_range 53 1024) in H; [|lia|lia].
  exact H.
Qed.

Lemma to_float_range (d : GLdouble) : is_float (to_float d).
Proof. apply F32_range, round_encodable; lia. Qed.

Lemma to_double_range (x : GLfloat) : is_u64 (to_double x).
Proof. apply F64_range, round_encodable; lia. Qed.

Lemma F64_sub_range (a b : GLdouble) : is_u64 (F64.sub a b).
Proof.
  apply F64_range, SFsub_encodable; try lia; apply decode_encodable; lia.
Qed.

Lemma F64_div_range (a b : GLdouble) : is_u64 (F64.div a b).
Proof. apply F64_range, SFdiv_encodable; lia. Qed.

Opaque IEEE.decode IEEE.encode IEEE.round.

(** ** The coordinates BuildBSPTree works with are GLfloats *)

Lemma IntersectPlaneLineSeg_floats (p : Bsp.BSPPlane) (v0 v1 res0 : Bsp.Vec3) :
  vec3_floats res0 ->
  vec3_floats (snd (Bsp.IntersectPlaneLineSeg p v0 v1 res0)).
Proof.
  intros H. unfold Bsp.IntersectPlaneLineSeg.
  destruct v0 as [[v00 v01] v02], v1 as [[v10 v11] v12].
  match goal with |- context [if ?c then _ else _] => destruct c end;
    cbn [snd]; [|exact H].
  repeat split; apply to_float_range.
Qed.

Lemma edge_point_floats (u : nat -> Bsp.Vec3) (aTri : Bsp.BSPTriNode)
  (pl : Bsp.BSPPlane) (i next1 : nat) (r : Bsp.Rings) :
  (forall k, vec3_floats (u k)) ->
  def_floats (Bsp.edge_point u aTri pl i next1 r).
Proof.
  intros Hu. unfold Bsp.edge_point.
  pose proof (IntersectPlaneLineSeg_floats pl (Bsp.row (Bsp.V aTri) i)
                (Bsp.row (Bsp.V aTri) next1) (u (length (Bsp.backRing r)))
                (Hu _)) as HP.
  destruct (Bsp.IntersectPlaneLineSeg pl (Bsp.row (Bsp.V aTri) i)
              (Bsp.row (Bsp.V aTri) next1) (u (length (Bsp.backRing r))))
    as [t P].
  destruct (Bsp.row (Bsp.T aTri) i) as [Ti0 Ti1].
  destruct (Bsp.row (Bsp.T aTri) next1) as [Tn0 Tn1].
  split; [exact HP|]. split; apply to_float_range.
Qed.

Lemma push_Forall (Q : Bsp.Vec3 * Bsp.Vec2 -> Prop)
  (ring ring' : list (Bsp.Vec3 * Bsp.Vec2)) (x : Bsp.Vec3 * Bsp.Vec2) :
  Bsp.push ring x = Done ring' -> Forall Q ring -> Q x -> Forall Q ring'.
Proof.
  unfold Bsp.push. destruct (Z.of_nat (length ring) <? 4); [|discriminate].
  intros H Hr Hx. inv_outcome H. apply Forall_app. split; [exact Hr|].
  constructor; [exact Hx|constructor].
Qed.

Lemma put_vertex_Forall (Q : Bsp.Vec3 * Bsp.Vec2 -> Prop) (ty : Bsp.PointType)
  (x : Bsp.Vec3 * Bsp.Vec2) (r r' : Bsp.Rings) :
  Bsp.put_vertex ty x r = Done r' ->
  Forall Q (Bsp.frontRing r) -> Forall Q (Bsp.backRing r) -> Q x ->
  Forall Q (Bsp.frontRing r') /\ Forall Q (Bsp.backRing r').
Proof.
  intros H Hf Hb Hx. destruct ty; cbn [Bsp.put_vertex] in H.
  - step H bk Hbk. inv_outcome H. cbn [Bsp.frontRing Bsp.backRing].
    split; [exact Hf|]. eapply push_Forall; eassumption.
  - step H fr Hfr. step H bk Hbk. inv_outcome H.
    cbn [Bsp.frontRing Bsp.backRing].
    split; eapply push_Forall; eassumption.
  - step H fr Hfr. inv_outcome H. cbn [Bsp.frontRing Bsp.backRing].
    split; [|exact Hb]. eapply push_Forall; eassumption.
Qed.

Lemma walk_vertex_floats (u : nat -> Bsp.Vec3) (aTri : Bsp.BSPTriNode)
  (pl : Bsp.BSPPlane) (vt : Bsp.PointType * Bsp.PointType * Bsp.PointType)
  (i : nat) (r r' : Bsp.Rings) :
  (forall k, vec3_floats (u k)) -> tri_floats aTri ->
  Bsp.walk_vertex u aTri pl vt i r = Done r' ->
  Forall def_floats (Bsp.frontRing r) -> Forall def_floats (Bsp.backRing r) ->
  Forall def_floats (Bsp.frontRing r') /\ Forall def_floats (Bsp.backRing r').
Proof.
  intros Hu Ht H Hf Hb. unfold Bsp.walk_vertex in H.
  step H r1 H1.
  apply (put_vertex_Forall def_floats) in H1; [|exact Hf|exact Hb|exact (Ht i)].
  destruct H1 as [Hf1 Hb1].
  destruct (Bsp.crosses _ _); [|inv_outcome H; split; assumption].
  step H bk Hbk. step H fr Hfr. inv_outcome H.
  cbn [Bsp.frontRing Bsp.backRing].
  split; (eapply push_Forall; [eassumption|assumption|]);
    apply edge_point_floats; exact Hu.
Qed.

Lemma walk_floats (u : nat -> Bsp.Vec3) (aTri : Bsp.BSPTriNode)
  (pl : Bsp.BSPPlane) (r : Bsp.Rings) :
  (forall k, vec3_floats (u k)) -> tri_floats aTri ->
  Bsp.walk u aTri pl = Done r ->
  Forall def_floats (Bsp.frontRing r) /\ Forall def_floats (Bsp.backRing r).
Proof.
  intros Hu Ht H. unfold Bsp.walk in H. cbv zeta in H.
  step H r0 H0. step H r1 H1.
  apply (walk_vertex_floats u aTri pl _ _ _ _ Hu Ht) in H0;
    cbn [Bsp.frontRing Bsp.backRing]; [|constructor|constructor].
  destruct H0 as [Hf0 Hb0].
  apply (walk_vertex_floats u aTri pl _ _ _ _ Hu Ht) in H1;
    [|exact Hf0|exact Hb0].
  destruct H1 as [Hf1 Hb1].
  exact (walk_vertex_floats u aTri pl _ _ _ _ Hu Ht H Hf1 Hb1).
Qed.

Lemma ring_tri_floats (ring : list (Bsp.Vec3 * Bsp.Vec2)) (t : Z) (a b c : nat)
  (n : Bsp.BSPTriNode) :
  Bsp.ring_tri ring t a b c = Done (Some n) ->
  Forall def_floats ring -> tri_floats n.
Proof.
  unfold Bsp.ring_tri. intros H Hr.
  step H xa Ha. step H xb Hb. step H xc Hc.
  apply load_Done in Ha, Hb, Hc.
  destruct Ha as [_ Ha], Hb as [_ Hb], Hc as [_ Hc].
  pose proof (Forall_lookup_1 _ _ _ _ Hr Ha) as [Fa Ta].
  pose proof (Forall_lookup_1 _ _ _ _ Hr Hb) as [Fb Tb].
  pose proof (Forall_lookup_1 _ _ _ _ Hr Hc) as [Fc Tc].
  destruct (Bsp.GetPlaneForTri (xa.1, xb.1, xc.1)) as [q|]; inv_outcome H.
  intros [|[|i]]; cbn [Bsp.V Bsp.T Bsp.row]; split; assumption.
Qed.

Lemma ring_list_floats (ring : list (Bsp.Vec3 * Bsp.Vec2)) (t : Z)
  (l : list Bsp.BSPTriNode) :
  Bsp.ring_list ring t = Done l -> Forall def_floats ring ->
  Forall tri_floats l.
Proof.
  unfold Bsp.ring_list. intros H Hr. step H one H1.
  assert (F1 : Forall tri_floats
                 match one with Some n => [n] | None => [] end).
  { destruct one as [n|]; [|constructor].
    constructor; [|constructor]. eapply ring_tri_floats; eassumption. }
  destruct (Z.of_nat (length ring) =? 4); [|inv_outcome H; exact F1].
  step H second H2. inv_outcome H. destruct second as [n|]; [|exact F1].
  unfold Bsp.AddTriToList. constructor; [|exact F1].
  eapply ring_tri_floats; eassumption.
Qed.

Lemma SplitTri_floats (u : nat -> Bsp.Vec3) (aTri : Bsp.BSPTriNode)
  (p : Bsp.BSPPlane) (fList bList : list Bsp.BSPTriNode) :
  (forall k, vec3_floats (u k)) -> tri_floats aTri ->
  Bsp.SplitTri u aTri p = Done (fList, bList) ->
  Forall tri_floats fList /\ Forall tri_floats bList.
Proof.
  intros Hu Ht H. unfold Bsp.SplitTri in H. step H r Hw.
  destruct (walk_floats _ _ _ _ Hu Ht Hw) as [Hf Hb].
  destruct ((Bsp.numBackVerts r <? 3) || (Bsp.numFrontVerts r <? 3));
    [discriminate H|].
  destruct ((4 <? Bsp.numBackVerts r) || (4 <? Bsp.numFrontVerts r));
    [discriminate H|].
  step H f Ef. step H b Eb. inv_outcome H.
  split; eapply ring_list_floats; eassumption.
Qed.

Lemma distribute_floats (uninit : nat -> nat -> Bsp.Vec3) (pl : Bsp.BSPPlane) :
  (forall c k, vec3_floats (uninit c k)) ->
  forall (rest : list Bsp.BSPTriNode) (acc acc' : Bsp.Parts) (calls calls' : nat),
    Bsp.distribute uninit pl rest acc calls = Done (acc', calls') ->
    Forall tri_floats rest ->
    Forall tri_floats (Bsp.p_triHead acc) ->
    Forall tri_floats (Bsp.p_frontList acc) ->
    Forall tri_floats (Bsp.p_backList acc) ->
    Forall tri_floats (Bsp.p_triHead acc') /\
    Forall tri_floats (Bsp.p_frontList acc') /\
    Forall tri_floats (Bsp.p_backList acc').
Proof.
  intros Hu.
  induction rest as [|aTri rest IH]; intros acc acc' calls calls' H Hr Hh Hf Hb.
  - cbn [Bsp.distribute] in H. inv_outcome H. auto.
  - inversion Hr as [|? ? Ha Hrest]; subst.
    cbn [Bsp.distribute] in H.
    destruct (Bsp.ClassifyTri aTri pl).
    + apply IH in H; cbn [Bsp.p_triHead Bsp.p_frontList Bsp.p_backList] in *;
        auto.
      unfold Bsp.AddTriToList. constructor; assumption.
    + step H fb Hs. destruct fb as [fS bS].
      destruct (SplitTri_floats _ _ _ _ _ (Hu calls) Ha Hs) as [Pf Pb].
      apply IH in H; cbn [Bsp.p_triHead Bsp.p_frontList Bsp.p_backList] in *;
        auto; apply add_split_Forall; assumption.
    + apply IH in H; cbn [Bsp.p_triHead Bsp.p_frontList Bsp.p_backList] in *;
        auto.
      unfold Bsp.AddTriToList. constructor; assumption.
    + apply IH in H; cbn [Bsp.p_triHead Bsp.p_frontList Bsp.p_backList] in *;
        auto.
      unfold Bsp.AddTriToList. constructor; assumption.
Qed.

Lemma BuildBSPTree_floats (uninit : nat -> nat -> Bsp.Vec3) :
  (forall c k, vec3_floats (uninit c k)) ->
  forall (fuel : nat) (triList : list Bsp.BSPTriNode) (st st' : Bsp.BuildState)
         (node : Bsp.IntBSPTreeNode),
    Bsp.BuildBSPTree uninit fuel triList st = Done (node, st') ->
    Forall tri_floats triList ->
    Forall tri_floats (tree_tris node).
Proof.
  intros Hu.
  induction fuel as [|fuel IH]; intros triList st st' node H Hall;
    [discriminate H|].
  cbn [Bsp.BuildBSPTree] in H. cbv zeta in H.
  destruct (Bsp.SelectNextRoot triList) as [[rootTri|] restOfList] eqn:Es;
    [|discriminate H].
  destruct (SelectNextRoot_Some _ _ _ Es) as (k & Hk & ->).
  assert (Hroot : tri_floats rootTri) by exact (Forall_lookup_1 _ _ _ _ Hall Hk).
  assert (Hrest : Forall tri_floats (delete k triList))
    by (apply Forall_delete; exact Hall).
  step H pc Hd. destruct pc as [parts calls].
  apply (distribute_floats uninit _ Hu) in Hd;
    cbn [Bsp.p_triHead Bsp.p_frontList Bsp.p_backList];
    [|exact Hrest|constructor; [exact Hroot|constructor]|constructor|constructor].
  destruct Hd as (Hh & Hf & Hb).
  step H fs Hfront. destruct fs as [front st1].
  step H bs Hback. destruct bs as [back st2].
  inv_outcome H. cbn [tree_tris]. rewrite !Forall_app.
  split; [exact Hh|]. split.
  - destruct (Bsp.p_backList parts) eqn:El.
    + inv_outcome Hback. constructor.
    + rewrite <- El in Hback, Hb. eapply IH; eassumption.
  - destruct (Bsp.p_frontList parts) eqn:El.
    + inv_outcome Hfront. constructor.
    + rewrite <- El in Hfront, Hf. eapply IH; eassumption.
Qed.

(** ** The index GetVertDefIndex returns *)

Lemma search_block_index (v : Bsp.Vec3) (t : Bsp.Vec2) :
  forall (blk : Bsp.VertDefs) (r0 : Z) (res : option Bsp.Vec3) (r : Z),
    is_u16 r0 ->
    Bsp.search_block blk r0 v t = (res, r) ->
    match res with
    | Some resV =>
        exists (k : nat) (d : VertDef),
          blk !! k = Some d /\ fst d = resV /\ Bsp.matches d v t = true /\
          r = to_Uint16 (r0 + Z.of_nat k)
    | None => r = to_Uint16 (r0 + Z.of_nat (length blk))
    end.
Proof.
  induction blk as [|d rest IH]; intros r0 res r Hr H.
  - cbn [Bsp.search_block] in H. injection H as <- <-. cbn [length].
    rewrite Z.add_0_r. symmetry. apply to_Uint16_small. exact Hr.
  - cbn [Bsp.search_block] in H. destruct (Bsp.matches d v t) eqn:Em.
    + injection H as <- <-. exists 0%nat, d.
      split; [reflexivity|]. split; [reflexivity|]. split; [exact Em|].
      rewrite Z.add_0_r. symmetry. apply to_Uint16_small. exact Hr.
    + apply IH in H; [|apply to_Uint16_range].
      destruct res as [resV|].
      * destruct H as (k & d' & Hk & Hd & Hm & ->).
        exists (S k), d'. split; [exact Hk|]. split; [exact Hd|].
        split; [exact Hm|]. unfold to_Uint16.
        rewrite Zplus_mod_idemp_l. f_equal. lia.
      * rewrite H. cbn [length]. unfold to_Uint16.
        rewrite Zplus_mod_idemp_l. f_equal. lia.
Qed.

Lemma search_chain_index (v : Bsp.Vec3) (t : Bsp.Vec2) :
  forall (chain : list Bsp.VertDefs) (r0 r : Z) (resV : Bsp.Vec3)
         (chain' : list Bsp.VertDefs) (added : bool),
    chain_wf chain -> is_u16 r0 ->
    Bsp.search_chain chain r0 v t = (r, resV, chain', added) ->
    exists (k : nat) (d : VertDef),
      chain_table chain' !! k = Some d /\ fst d = resV /\
      r = to_Uint16 (r0 + Z.of_nat k) /\
      if added then d = (v, t) /\ k = length (chain_table chain)
      else Bsp.matches d v t = true.
Proof.
  unfold chain_table.
  induction chain as [|blk next IH]; intros r0 r resV chain' added Hwf Hr H.
  - cbn [Bsp.search_chain] in H. injection H as <- <- <- <-.
    exists 0%nat, (v, t). split; [reflexivity|]. split; [reflexivity|].
    split; [|split; reflexivity].
    rewrite Z.add_0_r. symmetry. apply to_Uint16_small. exact Hr.
  - cbn [Bsp.search_chain] in H. destruct Hwf as (Hle & Hfull & Hwf').
    destruct (Bsp.search_block blk r0 v t) as [res r1] eqn:Eb.
    apply (search_block_index v t blk r0 res r1 Hr) in Eb.
    destruct res as [found|].
    + injection H as <- <- <- <-.
      destruct Eb as (k & d & Hk & Hd & Hm & ->).
      exists k, d. split; [|auto]. cbn [concat].
      apply lookup_app_l_Some. exact Hk.
    + destruct (Z.ltb_spec (Z.of_nat (length blk)) Bsp.DEFS_BLK_SIZE)
        as [Hroom|Hno].
      * injection H as <- <- <- <-.
        assert (next = []) as ->.
        { destruct next; [reflexivity|].
          specialize (Hfull ltac:(discriminate)). lia. }
        exists (length blk), (v, t). cbn [concat]. rewrite !app_nil_r.
        split; [apply list_lookup_middle; reflexivity|].
        split; [reflexivity|]. split; [exact Eb|]. split; reflexivity.
      * destruct (Bsp.search_chain next r1 v t)
          as [[[r2 resV2] next'] added2] eqn:En.
        injection H as <- <- <- <-.
        apply IH in En; [|exact Hwf'|rewrite Eb; apply to_Uint16_range].
        destruct En as (k & d & Hk & Hd & Hr2 & Ha).
        exists (length blk + k)%nat, d. cbn [concat].
        split; [unfold VertDef in *; rewrite lookup_app_r by lia;
                rewrite <- Hk; f_equal; lia|].
        split; [exact Hd|]. split.
        -- rewrite Hr2, Eb. unfold to_Uint16.
           rewrite Zplus_mod_idemp_l. f_equal. lia.
        -- destruct added2; [|exact Ha]. destruct Ha as [-> ->].
           split; [reflexivity|]. rewrite length_app. reflexivity.
Qed.

Lemma GetVertDefIndex_spec (v : Bsp.Vec3) (t : Bsp.Vec2) (g g' : Bsp.Globals)
  (vInd : Z) (resV : Bsp.Vec3) :
  chain_wf (Bsp.vertDefsPtr g) ->
  Bsp.GetVertDefIndex v t g = (vInd, resV, g') ->
  exists (k : nat) (d : VertDef),
    chain_table (Bsp.vertDefsPtr g') !! k = Some d /\ fst d = resV /\
    vInd = to_Uint16 (Z.of_nat k) /\
    chain_wf (Bsp.vertDefsPtr g') /\
    Bsp.texCtrs g' = Bsp.texCtrs g /\
    Bsp.trianglesCreated g' = Bsp.trianglesCreated g /\
    (Bsp.matches d v t = true /\ g' = g \/
     d = (v, t) /\ k = length (chain_table (Bsp.vertDefsPtr g)) /\
     chain_table (Bsp.vertDefsPtr g')
     = chain_table (Bsp.vertDefsPtr g) ++ [(v, t)] /\
     Forall (fun d' => Bsp.matches d' v t = false)
            (chain_table (Bsp.vertDefsPtr g)) /\
     Bsp.numVertDefs g' = to_Uint16 (Bsp.numVertDefs g + 1)).
Proof.
  intros Hwf H. unfold Bsp.GetVertDefIndex in H.
  destruct (Bsp.search_chain (Bsp.vertDefsPtr g) 0 v t)
    as [[[r rV] chain] added] eqn:Es.
  assert (H0 : is_u16 0) by (unfold is_u16; lia).
  pose proof (search_chain_index v t _ _ _ _ _ _ Hwf H0 Es)
    as (k & d & Hk & Hd & Hr & Ha).
  rewrite Z.add_0_l in Hr.
  destruct added.
  - destruct v as [[v0 v1] v2]. injection H as <- <- <-.
    cbn [Bsp.vertDefsPtr Bsp.texCtrs Bsp.trianglesCreated Bsp.numVertDefs].
    destruct (search_chain_added _ _ _ _ _ _ _ Hwf Es) as (Hw' & Ht & Hall).
    destruct Ha as [-> ->].
    exists (length (chain_table (Bsp.vertDefsPtr g))), (v0, v1, v2, t).
    split; [exact Hk|]. split; [exact Hd|]. split; [exact Hr|].
    split; [exact Hw'|]. split; [reflexivity|]. split; [reflexivity|].
    right. auto.
  - injection H as <- <- <-.
    pose proof (search_chain_found _ _ _ _ _ _ _ Es) as ->.
    exists k, d. split; [exact Hk|]. split; [exact Hd|]. split; [exact Hr|].
    split; [exact Hwf|]. split; [reflexivity|]. split; [reflexivity|].
    left. auto.
Qed.

(** X13.  [GetVertDefIndex] on a table of fewer than 65536 definitions
    whose blocks are filled in order.  Either the index it returns is that
    of a definition of the table that the given position and texture
    coordinates match within the two tolerances, [resV] is the position of
    that definition and the variables are unchanged; or no definition of
    the table matches, the given vertex becomes the last definition, the
    index is the number of definitions there were, [resV] is the given
    position and [numVertDefs] is one more in 16 bits.  The definitions
    there were keep their places. *)
Theorem GetVertDefIndex_index
  (v : Bsp.Vec3) (t : Bsp.Vec2) (g g' : Bsp.Globals) (vInd : Z)
  (resV : Bsp.Vec3) :
  chain_wf (Bsp.vertDefsPtr g) ->
  Z.of_nat (length (chain_table (Bsp.vertDefsPtr g))) < 2 ^ 16 ->
  Bsp.GetVertDefIndex v t g = (vInd, resV, g') ->
  0 <= vInd /\
  chain_wf (Bsp.vertDefsPtr g') /\
  ((exists d : VertDef,
       chain_table (Bsp.vertDefsPtr g) !! Z.to_nat vInd = Some d /\
       Bsp.matches d v t = true /\ resV = fst d /\ g' = g) \/
   (Forall (fun d => Bsp.matches d v t = false)
           (chain_table (Bsp.vertDefsPtr g)) /\
    chain_table (Bsp.vertDefsPtr g')
    = chain_table (Bsp.vertDefsPtr g) ++ [(v, t)] /\
    vInd = Z.of_nat (length (chain_table (Bsp.vertDefsPtr g))) /\
    resV = v /\
    Bsp.numVertDefs g' = to_Uint16 (Bsp.numVertDefs g + 1))).
Proof.
  intros Hwf Hlen H.
  destruct (GetVertDefIndex_spec v t g g' vInd resV Hwf H)
    as (k & d & Hk & Hd & Hv & Hw' & _ & _ & Hcase).
  pose proof (to_Uint16_range (Z.of_nat k)) as Hrange. rewrite <- Hv in Hrange.
  split; [exact (proj1 Hrange)|]. split; [exact Hw'|].
  destruct Hcase as [[Hm ->]|(-> & -> & Ht & Hall & Hn)].
  - left. exists d.
    assert (Hlt : (k < length (chain_table (Bsp.vertDefsPtr g)))%nat)
      by (eapply lookup_lt_Some; exact Hk).
    rewrite Hv, to_Uint16_small, Nat2Z.id by lia. auto.
  - right. rewrite Hv, to_Uint16_small by lia. cbn [fst] in Hd. auto.
Qed.

Lemma GetVertDefIndex_index_witness :
  0 <= 1 /\
  chain_wf (Bsp.vertDefsPtr unit_globals) /\
  ((exists d : VertDef,
       chain_table (Bsp.vertDefsPtr unit_globals) !! Z.to_nat 1 = Some d /\
       Bsp.matches d (0x3F800000, 0, 0) (0x3F800000, 0) = true /\
       (0x3F800000, 0, 0) = fst d /\ unit_globals = unit_globals) \/
   (Forall (fun d => Bsp.matches d (0x3F800000, 0, 0) (0x3F800000, 0) = false)
           (chain_table (Bsp.vertDefsPtr unit_globals)) /\
    chain_table (Bsp.vertDefsPtr unit_globals)
    = chain_table (Bsp.vertDefsPtr unit_globals)
      ++ [((0x3F800000, 0, 0), (0x3F800000, 0))] /\
    1 = Z.of_nat (length (chain_table (Bsp.vertDefsPtr unit_globals))) /\
    (0x3F800000, 0, 0) = (0x3F800000, 0, 0) /\
    Bsp.numVertDefs unit_globals
    = to_Uint16 (Bsp.numVertDefs unit_globals + 1))).
Proof.
  apply (GetVertDefIndex_index (0x3F800000, 0, 0) (0x3F800000, 0)
           unit_globals unit_globals 1 (0x3F800000, 0, 0)).
  - split; [vm_compute; discriminate|].
    split; [intros H; exfalso; apply H; reflexivity|exact I].
  - vm_compute. reflexivity.
  - vm_compute. reflexivity.
Defined.


(** ** The conversion of a built tree *)

Lemma GetPlaneForTri_plane_ok (V : Bsp.Verts) (p : Bsp.BSPPlane) :
  Bsp.GetPlaneForTri V = Some p -> plane_ok p.
Proof.
  unfold Bsp.GetPlaneForTri.
  destruct V as [[[[V00 V01] V02] [[V10 V11] V12]] [[V20 V21] V22]].
  cbv zeta.
  match goal with |- context [if ?c then _ else _] => destruct c end;
    [|discriminate].
  intros H. injection H as <-. unfold plane_ok. cbn [Bsp.A Bsp.B Bsp.C Bsp.D].
  repeat split; first [apply F64_div_range | apply F64_sub_range].
Qed.

Lemma face_verts_prefix (tab tab' : list VertDef) (x : Bsp.BSPTriFace)
  (vs : Bsp.Verts) :
  tab `prefix_of` tab' -> face_verts tab x = Some vs ->
  face_verts tab' x = Some vs.
Proof.
  intros Hp. unfold face_verts, VertDef in *.
  destruct (Bsp.vIndices x) as [[i0 i1] i2].
  destruct (tab !! Z.to_nat i0) as [d0|] eqn:E0; [|discriminate].
  destruct (tab !! Z.to_nat i1) as [d1|] eqn:E1; [|discriminate].
  destruct (tab !! Z.to_nat i2) as [d2|] eqn:E2; [|discriminate].
  rewrite (prefix_lookup_Some _ _ _ _ E0 Hp), (prefix_lookup_Some _ _ _ _ E1 Hp),
    (prefix_lookup_Some _ _ _ _ E2 Hp).
  auto.
Qed.

Lemma face_in_prefix (nMaps : Z) (tab tab' : list VertDef)
  (x : Bsp.BSPTriFace) :
  tab `prefix_of` tab' -> face_in nMaps tab x -> face_in nMaps tab' x.
Proof.
  intros Hp (Hok & Ht & vs & Hv). split; [exact Hok|]. split; [exact Ht|].
  exists vs. eapply face_verts_prefix; eassumption.
Qed.

Lemma first_plane_prefix (tab tab' : list VertDef)
  (triDefs : list Bsp.BSPTriFace) (p : Bsp.BSPPlane) :
  tab `prefix_of` tab' ->
  match triDefs with
  | [] => plane_ok p
  | x :: _ =>
      exists vs : Bsp.Verts,
        face_verts tab x = Some vs /\ Bsp.GetPlaneForTri vs = Some p
  end ->
  match triDefs with
  | [] => plane_ok p
  | x :: _ =>
      exists vs : Bsp.Verts,
        face_verts tab' x = Some vs /\ Bsp.GetPlaneForTri vs = Some p
  end.
Proof.
  intros Hp. destruct triDefs as [|x rest]; [auto|].
  intros (vs & Hv & Hpl). exists vs.
  split; [eapply face_verts_prefix; eassumption|exact Hpl].
Qed.

Lemma tree_in_prefix (nMaps : Z) (tab tab' : list VertDef) :
  tab `prefix_of` tab' ->
  forall t : Bsp.BSPTree, tree_in nMaps tab t -> tree_in nMaps tab' t.
Proof.
  intros Hp.
  induction t as [|numTri triDefs partPlane back IHb front IHf];
    [auto|].
  cbn [tree_in]. intros (H1 & H2 & H3 & H4 & H5 & H6).
  split; [exact H1|]. split; [exact H2|].
  split; [eapply Forall_impl; [exact H3|]; intros x; apply face_in_prefix;
          exact Hp|].
  split; [eapply first_plane_prefix; eassumption|]. auto.
Qed.

Lemma cn_inv_prefix (nMaps capacity : Z) (tab tab' : list VertDef)
  (remaining : nat) (n : Bsp.ConvNode) :
  tab `prefix_of` tab' -> cn_inv nMaps capacity tab remaining n ->
  cn_inv nMaps capacity tab' remaining n.
Proof.
  intros Hp (H1 & H2 & H3 & H4 & H5).
  split; [exact H1|]. split; [exact H2|]. split; [exact H3|].
  split; [eapply Forall_impl; [exact H4|]; intros x; apply face_in_prefix;
          exact Hp|].
  eapply first_plane_prefix; eassumption.
Qed.

Lemma Bsp_fmin_float (v cur : GLfloat) :
  is_float v -> is_float cur -> is_float (Bsp.fmin v cur).
Proof. intros Hv Hc. unfold Bsp.fmin. destruct (F32.ltb v cur); assumption. Qed.

Lemma Bsp_fmax_float (v cur : GLfloat) :
  is_float v -> is_float cur -> is_float (Bsp.fmax v cur).
Proof. intros Hv Hc. unfold Bsp.fmax. destruct (F32.gtb v cur); assumption. Qed.

(** ** The order of the floating-point comparisons *)

Lemma SFltb_irrefl (x : spec_float) : SFltb x x = false.
Proof.
  unfold SFltb.
  destruct x as [s|s| |s m e]; cbn [SFcompare]; try reflexivity;
    try (destruct s; reflexivity).
  destruct s; rewrite Z.compare_refl, Pos.compare_cont_refl; reflexivity.
Qed.

Lemma SFltb_trans (x y z : spec_float) :
  SFltb x y = true -> SFltb y z = true -> SFltb x z = true.
Proof.
  unfold SFltb.
  destruct x as [s1|s1| |s1 m1 e1], y as [s2|s2| |s2 m2 e2],
    z as [s3|s3| |s3 m3 e3]; cbn [SFcompare];
    try discriminate; try (intros; reflexivity);
    try (destruct s1; discriminate);
    try (destruct s2; discriminate);
    try (destruct s3; discriminate);
    try (destruct s1, s2; discriminate);
    try (destruct s2, s3; discriminate);
    try (destruct s1, s3; discriminate || (intros; reflexivity));
    try (destruct s1, s2, s3; discriminate || (intros; reflexivity)).
  destruct s1, s2, s3; try discriminate; try (intros; reflexivity).
  - destruct (Z.compare_spec e1 e2) as [E12|L12|G12]; try discriminate;
      destruct (Z.compare_spec e2 e3) as [E23|L23|G23]; try discriminate;
      destruct (Z.compare_spec e1 e3) as [E13|L13|G13]; try lia;
      try (intros; reflexivity).
    rewrite !Pos.compare_cont_spec. cbn [Pos.switch_Eq].
    destruct (Pos.compare_spec m1 m2); try discriminate.
    destruct (Pos.compare_spec m2 m3); try discriminate.
    destruct (Pos.compare_spec m1 m3); try lia. reflexivity.
  - destruct (Z.compare_spec e1 e2) as [E12|L12|G12]; try discriminate;
      destruct (Z.compare_spec e2 e3) as [E23|L23|G23]; try discriminate;
      destruct (Z.compare_spec e1 e3) as [E13|L13|G13]; try lia;
      try (intros; reflexivity).
    rewrite !Pos.compare_cont_spec. cbn [Pos.switch_Eq].
    destruct (Pos.compare_spec m1 m2); try discriminate.
    destruct (Pos.compare_spec m2 m3); try discriminate.
    destruct (Pos.compare_spec m1 m3); try lia. reflexivity.
Qed.

Lemma F32_ltb_trans (a b c : GLfloat) :
  F32.ltb a b = true -> F32.ltb b c = true -> F32.ltb a c = true.
Proof. unfold F32.ltb, IEEE.ltb. apply SFltb_trans. Qed.

Lemma F32_ltb_irrefl (a : GLfloat) : F32.ltb a a = false.
Proof. unfold F32.ltb, IEEE.ltb. apply SFltb_irrefl. Qed.

Lemma fmin_keeps (v cur x : GLfloat) :
  F32.ltb x cur = false -> F32.ltb x (Bsp.fmin v cur) = false.
Proof.
  intros H. unfold Bsp.fmin. destruct (F32.ltb v cur) eqn:E; [|exact H].
  destruct (F32.ltb x v) eqn:E2; [|reflexivity].
  rewrite (F32_ltb_trans _ _ _ E2 E) in H. discriminate H.
Qed.

Lemma fmin_self (v cur : GLfloat) : F32.ltb v (Bsp.fmin v cur) = false.
Proof.
  unfold Bsp.fmin. destruct (F32.ltb v cur) eqn:E; [|exact E].
  apply F32_ltb_irrefl.
Qed.

Lemma fmax_keeps (v cur x : GLfloat) :
  F32.gtb x cur = false -> F32.gtb x (Bsp.fmax v cur) = false.
Proof.
  unfold Bsp.fmax, F32.gtb, IEEE.gtb.
  change (IEEE.ltb 24 128) with F32.ltb. intros H.
  destruct (F32.ltb cur v) eqn:E; [|exact H].
  destruct (F32.ltb v x) eqn:E2; [|reflexivity].
  rewrite (F32_ltb_trans _ _ _ E E2) in H. discriminate H.
Qed.

Lemma fmax_self (v cur : GLfloat) : F32.gtb v (Bsp.fmax v cur) = false.
Proof.
  unfold Bsp.fmax, F32.gtb, IEEE.gtb.
  change (IEEE.ltb 24 128) with F32.ltb.
  destruct (F32.ltb cur v) eqn:E; [|exact E].
  apply F32_ltb_irrefl.
Qed.

Lemma GetVertDefIndex_inside (v : Bsp.Vec3) (t : Bsp.Vec2)
  (g g' : Bsp.Globals) (vInd : Z) (resV : Bsp.Vec3) :
  chain_wf (Bsp.vertDefsPtr g) ->
  Forall (fun d : VertDef =>
            inside (Bsp.g_minX g) (Bsp.g_maxX g) (Bsp.g_minY g) (Bsp.g_maxY g)
                   (Bsp.g_minZ g) (Bsp.g_maxZ g) (fst d))
         (chain_table (Bsp.vertDefsPtr g)) ->
  Bsp.GetVertDefIndex v t g = (vInd, resV, g') ->
  Forall (fun d : VertDef =>
            inside (Bsp.g_minX g') (Bsp.g_maxX g') (Bsp.g_minY g')
                   (Bsp.g_maxY g') (Bsp.g_minZ g') (Bsp.g_maxZ g') (fst d))
         (chain_table (Bsp.vertDefsPtr g')).
Proof.
  intros Hwf Hin H. unfold Bsp.GetVertDefIndex in H.
  destruct (Bsp.search_chain (Bsp.vertDefsPtr g) 0 v t)
    as [[[r rV] chain] added] eqn:Es.
  destruct added; [|injection H as <- <- <-; exact Hin].
  destruct (search_chain_added _ _ _ _ _ _ _ Hwf Es) as (_ & Ht & _).
  destruct v as [[v0 v1] v2]. injection H as <- <- <-.
  cbn [Bsp.g_minX Bsp.g_maxX Bsp.g_minY Bsp.g_maxY Bsp.g_minZ Bsp.g_maxZ
       Bsp.vertDefsPtr].
  rewrite Ht. apply Forall_app. split.
  - eapply Forall_impl; [exact Hin|]. intros d (I1 & I2 & I3 & I4 & I5 & I6).
    unfold inside.
    split; [apply fmin_keeps; exact I1|]. split; [apply fmax_keeps; exact I2|].
    split; [apply fmin_keeps; exact I3|]. split; [apply fmax_keeps; exact I4|].
    split; [apply fmin_keeps; exact I5|apply fmax_keeps; exact I6].
  - constructor; [|constructor]. unfold inside. cbn [fst snd].
    split; [apply fmin_self|]. split; [apply fmax_self|].
    split; [apply fmin_self|]. split; [apply fmax_self|].
    split; [apply fmin_self|apply fmax_self].
Qed.

Lemma GetVertDefIndex_conv (nMaps : Z) (v : Bsp.Vec3) (t : Bsp.Vec2)
  (g g' : Bsp.Globals) (vInd : Z) (resV : Bsp.Vec3) :
  conv_inv nMaps g -> vec3_floats v -> vec2_floats t ->
  Bsp.GetVertDefIndex v t g = (vInd, resV, g') ->
  conv_inv nMaps g' /\
  chain_table (Bsp.vertDefsPtr g) `prefix_of` chain_table (Bsp.vertDefsPtr g') /\
  exists (k : nat) (d : VertDef),
    chain_table (Bsp.vertDefsPtr g') !! k = Some d /\ fst d = resV /\
    vInd = to_Uint16 (Z.of_nat k).
Proof.
  intros (Hwf & Hfl & Hn & Hlen & Hctr & Hbox & Htc & Hin) Hv Ht H.
  pose proof (GetVertDefIndex_inside v t g g' vInd resV Hwf Hin H) as Hin'.
  destruct (GetVertDefIndex_spec v t g g' vInd resV Hwf H)
    as (k & d & Hk & Hd & Hi & Hw' & Hc' & Ht' & Hcase).
  assert (Hbox' : is_float (Bsp.g_minX g') /\ is_float (Bsp.g_maxX g') /\
                  is_float (Bsp.g_minY g') /\ is_float (Bsp.g_maxY g') /\
                  is_float (Bsp.g_minZ g') /\ is_float (Bsp.g_maxZ g')).
  { unfold Bsp.GetVertDefIndex in H.
    destruct (Bsp.search_chain (Bsp.vertDefsPtr g) 0 v t)
      as [[[r rV] chain] added].
    destruct added; [|injection H as <- <- <-; exact Hbox].
    destruct v as [[v0 v1] v2]. injection H as <- <- <-.
    destruct Hv as (H0 & H1 & H2). cbn [fst snd] in H0, H1, H2.
    destruct Hbox as (B1 & B2 & B3 & B4 & B5 & B6).
    cbn [Bsp.g_minX Bsp.g_maxX Bsp.g_minY Bsp.g_maxY Bsp.g_minZ Bsp.g_maxZ].
    repeat split; first [apply Bsp_fmin_float | apply Bsp_fmax_float];
      assumption. }
  split.
  - split; [exact Hw'|].
    destruct Hcase as [[_ ->]|(-> & -> & Htab & _ & Hnum)].
    + exact (conj Hfl (conj Hn (conj Hlen (conj Hctr
               (conj Hbox (conj Htc Hin)))))).
    + split; [rewrite Htab; apply Forall_app; split;
              [exact Hfl|constructor; [split; assumption|constructor]]|].
      split; [rewrite Hnum, Hn, Htab, length_app; cbn [length];
              unfold to_Uint16; rewrite Zplus_mod_idemp_l; f_equal; lia|].
      split; [rewrite Hc'; exact Hlen|].
      split; [rewrite Hc'; exact Hctr|].
      split; [exact Hbox'|]. split; [rewrite Ht'; exact Htc|exact Hin'].
  - split.
    + destruct Hcase as [[_ ->]|(_ & _ & Htab & _)]; [reflexivity|].
      rewrite Htab. apply prefix_app_r. reflexivity.
    + exists k, d. auto.
Qed.

Lemma table_set_texCtrs (g : Bsp.Globals) (c : list Z) :
  Bsp.vertDefsPtr (Bsp.set_texCtrs g c) = Bsp.vertDefsPtr g.
Proof. reflexivity. Qed.

Lemma conv_tri_step (nMaps capacity : Z) (tri : Bsp.BSPTriNode)
  (n n' : Bsp.ConvNode) (g g' : Bsp.Globals) (remaining : nat) :
  Bsp.conv_tri capacity tri (n, g) = Done (n', g') ->
  is_u16 nMaps -> conv_inv nMaps g -> tri_floats tri ->
  Z.of_nat (length (chain_table (Bsp.vertDefsPtr g'))) < 2 ^ 16 ->
  cn_inv nMaps capacity (chain_table (Bsp.vertDefsPtr g)) (S remaining) n ->
  conv_inv nMaps g' /\
  chain_table (Bsp.vertDefsPtr g) `prefix_of` chain_table (Bsp.vertDefsPtr g') /\
  cn_inv nMaps capacity (chain_table (Bsp.vertDefsPtr g')) remaining n'.
Proof.
  intros H HnM Hg Htri Hlen Hn. unfold Bsp.conv_tri in H.
  destruct (Bsp.GetVertDefIndex (Bsp.row (Bsp.V tri) 0) (Bsp.row (Bsp.T tri) 0) g)
    as [[vInd0 resV0] g0] eqn:E0.
  destruct (Bsp.GetVertDefIndex (Bsp.row (Bsp.V tri) 1) (Bsp.row (Bsp.T tri) 1) g0)
    as [[vInd1 resV1] g1] eqn:E1.
  destruct (Bsp.GetVertDefIndex (Bsp.row (Bsp.V tri) 2) (Bsp.row (Bsp.T tri) 2) g1)
    as [[vInd2 resV2] g2] eqn:E2.
  destruct (GetVertDefIndex_conv nMaps _ _ _ _ _ _ Hg
              (proj1 (Htri 0%nat)) (proj2 (Htri 0%nat)) E0)
    as (Hg0 & P0 & k0 & d0 & K0 & D0 & I0).
  destruct (GetVertDefIndex_conv nMaps _ _ _ _ _ _ Hg0
              (proj1 (Htri 1%nat)) (proj2 (Htri 1%nat)) E1)
    as (Hg1 & P1 & k1 & d1 & K1 & D1 & I1).
  destruct (GetVertDefIndex_conv nMaps _ _ _ _ _ _ Hg1
              (proj1 (Htri 2%nat)) (proj2 (Htri 2%nat)) E2)
    as (Hg2 & P2 & k2 & d2 & K2 & D2 & I2).
  assert (P : chain_table (Bsp.vertDefsPtr g)
              `prefix_of` chain_table (Bsp.vertDefsPtr g2))
    by (etrans; [exact P0|]; etrans; [exact P1|exact P2]).
  destruct Hn as (N1 & N2 & N3 & N4 & N5).
  assert (Skip :
    cn_inv nMaps capacity (chain_table (Bsp.vertDefsPtr g2)) remaining
      {| Bsp.cn_numTri := to_Uint16 (Bsp.cn_numTri n - 1);
         Bsp.cn_triDefs := Bsp.cn_triDefs n;
         Bsp.cn_partPlane := Bsp.cn_partPlane n |}).
  { apply (cn_inv_prefix _ _ _ _ _ _ P).
    split; [apply to_Uint16_range|]. cbn [Bsp.cn_numTri Bsp.cn_triDefs
                                          Bsp.cn_partPlane].
    split; [|auto]. rewrite N2. unfold to_Uint16.
    rewrite Zminus_mod_idemp_l. f_equal. lia. }
  destruct ((vInd0 =? vInd1) || (vInd1 =? vInd2) || (vInd2 =? vInd0)).
  { inv_outcome H. auto. }
  destruct (Bsp.GetPlaneForTri (resV0, resV1, resV2)) as [tmpPlane|] eqn:Epl.
  2:{ inv_outcome H. auto. }
  destruct (Z.leb_spec capacity (Z.of_nat (length (Bsp.cn_triDefs n))))
    as [|Hcap]; [discriminate H|].
  step H ctr Hload. step H ctrs Hstore.
  inversion H as [[En Eg]]; clear H; subst n' g'.
  rewrite table_set_texCtrs in *.
  apply load_Done in Hload. destruct Hload as [Ht0 Htl].
  apply store_Done in Hstore. destruct Hstore as [Hrange ->].
  destruct Hg2 as (G1 & G2 & G3 & G4 & G5 & G6 & G7).
  split.
  { split; [exact G1|]. split; [exact G2|]. split; [exact G3|].
    cbn [Bsp.texCtrs Bsp.set_texCtrs Bsp.trianglesCreated Bsp.g_minX
         Bsp.g_maxX Bsp.g_minY Bsp.g_maxY Bsp.g_minZ Bsp.g_maxZ].
    split; [rewrite length_insert; exact G4|].
    split; [apply Forall_insert; [exact G5|apply to_Uint32_range]|].
    split; [exact G6|exact G7]. }
  split; [exact P|].
  set (tab := chain_table (Bsp.vertDefsPtr g2)) in *.
  assert (L0 : tab !! k0 = Some d0)
    by (eapply prefix_lookup_Some; [exact K0|]; etrans; [exact P1|exact P2]).
  assert (L1 : tab !! k1 = Some d1)
    by (eapply prefix_lookup_Some; [exact K1|exact P2]).
  pose proof (lookup_lt_Some _ _ _ L0) as B0.
  pose proof (lookup_lt_Some _ _ _ L1) as B1.
  pose proof (lookup_lt_Some _ _ _ K2) as B2.
  assert (V0 : vInd0 = Z.of_nat k0) by (rewrite I0; apply to_Uint16_small; lia).
  assert (V1 : vInd1 = Z.of_nat k1) by (rewrite I1; apply to_Uint16_small; lia).
  assert (V2 : vInd2 = Z.of_nat k2) by (rewrite I2; apply to_Uint16_small; lia).
  assert (Hface :
    face_verts tab {| Bsp.texIndex := Bsp.tIndex tri;
                      Bsp.vIndices := (vInd0, vInd1, vInd2) |}
    = Some (resV0, resV1, resV2)).
  { unfold face_verts. cbn [Bsp.vIndices]. rewrite V0, V1, V2, !Nat2Z.id.
    unfold VertDef in *. rewrite L0, L1, K2, D0, D1, D2. reflexivity. }
  split; [exact N1|].
  cbn [Bsp.cn_numTri Bsp.cn_triDefs Bsp.cn_partPlane].
  split; [rewrite N2, length_app; cbn [length]; f_equal; lia|].
  split; [rewrite length_app; cbn [length]; lia|].
  split.
  - apply Forall_app. split.
    + eapply Forall_impl; [exact N4|]. intros x. apply face_in_prefix. exact P.
    + constructor; [|constructor].
      pose proof (lookup_lt_Some _ _ _ Htl) as Hti.
      split; [|split; [cbn [Bsp.texIndex]; lia
                      |rewrite Hface; eexists; reflexivity]].
      unfold face_ok, is_u16 in *. cbn [Bsp.texIndex Bsp.vIndices fst snd].
      rewrite V0, V1, V2. lia.
  - destruct (Bsp.cn_triDefs n) as [|x rest] eqn:Ed.
    + cbn [length app]. change (Z.of_nat 0 =? 0) with true. cbv iota.
      exists (resV0, resV1, resV2). split; [exact Hface|exact Epl].
    + cbn [app length]. rewrite Nat2Z.inj_succ.
      destruct (Z.eqb_spec (Z.succ (Z.of_nat (length rest))) 0) as [|_]; [lia|].
      destruct N5 as (vs & Hv & Hp). exists vs.
      split; [eapply face_verts_prefix; eassumption|exact Hp].
Qed.

Lemma conv_tri_prefix (nMaps capacity : Z) (tri : Bsp.BSPTriNode)
  (n n' : Bsp.ConvNode) (g g' : Bsp.Globals) :
  Bsp.conv_tri capacity tri (n, g) = Done (n', g') ->
  conv_inv nMaps g -> tri_floats tri ->
  conv_inv nMaps g' /\
  chain_table (Bsp.vertDefsPtr g) `prefix_of` chain_table (Bsp.vertDefsPtr g').
Proof.
  intros H1 Hg Htri. unfold Bsp.conv_tri in H1.
  destruct (Bsp.GetVertDefIndex (Bsp.row (Bsp.V tri) 0)
              (Bsp.row (Bsp.T tri) 0) g) as [[vInd0 resV0] g0] eqn:E0.
  destruct (Bsp.GetVertDefIndex (Bsp.row (Bsp.V tri) 1)
              (Bsp.row (Bsp.T tri) 1) g0) as [[vInd1 resV1] g1] eqn:E1.
  destruct (Bsp.GetVertDefIndex (Bsp.row (Bsp.V tri) 2)
              (Bsp.row (Bsp.T tri) 2) g1) as [[vInd2 resV2] g2] eqn:E2.
  destruct (GetVertDefIndex_conv nMaps _ _ _ _ _ _ Hg
              (proj1 (Htri 0%nat)) (proj2 (Htri 0%nat)) E0)
    as (Hg0 & P0 & _).
  destruct (GetVertDefIndex_conv nMaps _ _ _ _ _ _ Hg0
              (proj1 (Htri 1%nat)) (proj2 (Htri 1%nat)) E1)
    as (Hg1 & P1 & _).
  destruct (GetVertDefIndex_conv nMaps _ _ _ _ _ _ Hg1
              (proj1 (Htri 2%nat)) (proj2 (Htri 2%nat)) E2)
    as (Hg2 & P2 & _).
  assert (P : chain_table (Bsp.vertDefsPtr g)
              `prefix_of` chain_table (Bsp.vertDefsPtr g2))
    by (etrans; [exact P0|]; etrans; [exact P1|exact P2]).
  destruct ((vInd0 =? vInd1) || (vInd1 =? vInd2) || (vInd2 =? vInd0)).
  { inv_outcome H1. auto. }
  destruct (Bsp.GetPlaneForTri (resV0, resV1, resV2)) as [tmpPlane|].
  2:{ inv_outcome H1. auto. }
  destruct (capacity <=? Z.of_nat (length (Bsp.cn_triDefs n)));
    [discriminate H1|].
  step H1 ctr Hload. step H1 ctrs Hstore. inv_outcome H1.
  apply store_Done in Hstore. destruct Hstore as [_ ->].
  split; [|exact P].
  destruct Hg2 as (G1 & G2 & G3 & G4 & G5 & G6 & G7).
  split; [exact G1|]. split; [exact G2|]. split; [exact G3|].
  cbn [Bsp.texCtrs Bsp.set_texCtrs Bsp.trianglesCreated Bsp.g_minX
       Bsp.g_maxX Bsp.g_minY Bsp.g_maxY Bsp.g_minZ Bsp.g_maxZ].
  split; [rewrite length_insert; exact G4|].
  split; [apply Forall_insert; [exact G5|apply to_Uint32_range]|].
  split; [exact G6|exact G7].
Qed.

Lemma conv_tris_prefix (nMaps capacity : Z) :
  forall (tris : list Bsp.BSPTriNode) (n n' : Bsp.ConvNode)
         (g g' : Bsp.Globals),
    Bsp.conv_tris capacity tris (n, g) = Done (n', g') ->
    conv_inv nMaps g -> Forall tri_floats tris ->
    conv_inv nMaps g' /\
    chain_table (Bsp.vertDefsPtr g) `prefix_of` chain_table (Bsp.vertDefsPtr g').
Proof.
  induction tris as [|tri rest IH]; intros n n' g g' H Hg Hall.
  - cbn [Bsp.conv_tris] in H. inv_outcome H. split; [exact Hg|reflexivity].
  - cbn [Bsp.conv_tris] in H. step H s1 H1. destruct s1 as [n1 g1].
    inversion Hall as [|? ? Htri Hrest]; subst.
    destruct (conv_tri_prefix nMaps _ _ _ _ _ _ H1 Hg Htri) as [Hg1 P1].
    destruct (IH _ _ _ _ H Hg1 Hrest) as [Hg' P'].
    split; [exact Hg'|]. etrans; eassumption.
Qed.

Lemma conv_tris_steps (nMaps capacity : Z) :
  is_u16 nMaps ->
  forall (tris : list Bsp.BSPTriNode) (n n' : Bsp.ConvNode)
         (g g' : Bsp.Globals),
    Bsp.conv_tris capacity tris (n, g) = Done (n', g') ->
    conv_inv nMaps g -> Forall tri_floats tris ->
    Z.of_nat (length (chain_table (Bsp.vertDefsPtr g'))) < 2 ^ 16 ->
    cn_inv nMaps capacity (chain_table (Bsp.vertDefsPtr g)) (length tris) n ->
    cn_inv nMaps capacity (chain_table (Bsp.vertDefsPtr g')) 0 n'.
Proof.
  intros HnM.
  induction tris as [|tri rest IH]; intros n n' g g' H Hg Hall Hlen Hn.
  - cbn [Bsp.conv_tris] in H. inv_outcome H. exact Hn.
  - cbn [Bsp.conv_tris] in H. step H s1 H1. destruct s1 as [n1 g1].
    inversion Hall as [|? ? Htri Hrest]; subst.
    destruct (conv_tri_prefix nMaps _ _ _ _ _ _ H1 Hg Htri) as [Hg1 P1].
    destruct (conv_tris_prefix nMaps _ _ _ _ _ _ H Hg1 Hrest) as [_ P'].
    apply prefix_length in P'.
    apply (conv_tri_step nMaps capacity tri n n1 g g1 (length rest)) in H1;
      [|exact HnM|exact Hg|exact Htri|lia|exact Hn].
    destruct H1 as (_ & _ & Hn1).
    eapply IH; eassumption.
Qed.

(** ** The counters of the conversion *)

Lemma occ_app (t : Z) (a b : list Z) : occ t (a ++ b) = occ t a + occ t b.
Proof. unfold occ. rewrite filter_app, length_app. lia. Qed.

Lemma tallied_refl (ctrs : list Z) : tallied ctrs ctrs [].
Proof.
  split; [reflexivity|]. intros i c H. exists c. split; [exact H|].
  cbn [map]. unfold occ. cbn. rewrite Z.add_0_r. reflexivity.
Qed.

Lemma tallied_trans (a b c : list Z) (f1 f2 : list Bsp.BSPTriFace) :
  tallied a b f1 -> tallied b c f2 -> tallied a c (f1 ++ f2).
Proof.
  intros [L1 H1] [L2 H2]. split; [congruence|].
  intros i x Hx. destruct (H1 i x Hx) as (y & Hy & Ey).
  destruct (H2 i y Hy) as (z & Hz & Ez). exists z. split; [exact Hz|].
  rewrite Ez, map_app, occ_app. unfold to_Uint32 in *.
  rewrite <- Zplus_mod_idemp_l, Ey, Zplus_mod_idemp_l. f_equal. lia.
Qed.

Lemma GetVertDefIndex_counters (v : Bsp.Vec3) (t : Bsp.Vec2) (g : Bsp.Globals) :
  Bsp.texCtrs (snd (Bsp.GetVertDefIndex v t g)) = Bsp.texCtrs g /\
  Bsp.trianglesCreated (snd (Bsp.GetVertDefIndex v t g))
  = Bsp.trianglesCreated g.
Proof.
  unfold Bsp.GetVertDefIndex.
  destruct (Bsp.search_chain (Bsp.vertDefsPtr g) 0 v t)
    as [[[r rV] chain] added].
  destruct added; [|split; reflexivity].
  destruct v as [[v0 v1] v2]. split; reflexivity.
Qed.

Lemma conv_tri_counts (capacity : Z) (tri : Bsp.BSPTriNode)
  (n n' : Bsp.ConvNode) (g g' : Bsp.Globals) :
  Bsp.conv_tri capacity tri (n, g) = Done (n', g') ->
  Bsp.trianglesCreated g' = Bsp.trianglesCreated g /\
  exists kept : list Bsp.BSPTriFace,
    Bsp.cn_triDefs n' = Bsp.cn_triDefs n ++ kept /\
    tallied (Bsp.texCtrs g) (Bsp.texCtrs g') kept.
Proof.
  intros H. unfold Bsp.conv_tri in H.
  pose proof (GetVertDefIndex_counters (Bsp.row (Bsp.V tri) 0)
                (Bsp.row (Bsp.T tri) 0) g) as [C0 T0].
  destruct (Bsp.GetVertDefIndex (Bsp.row (Bsp.V tri) 0) (Bsp.row (Bsp.T tri) 0) g)
    as [[vInd0 resV0] g0].
  pose proof (GetVertDefIndex_counters (Bsp.row (Bsp.V tri) 1)
                (Bsp.row (Bsp.T tri) 1) g0) as [C1 T1].
  destruct (Bsp.GetVertDefIndex (Bsp.row (Bsp.V tri) 1) (Bsp.row (Bsp.T tri) 1) g0)
    as [[vInd1 resV1] g1].
  pose proof (GetVertDefIndex_counters (Bsp.row (Bsp.V tri) 2)
                (Bsp.row (Bsp.T tri) 2) g1) as [C2 T2].
  destruct (Bsp.GetVertDefIndex (Bsp.row (Bsp.V tri) 2) (Bsp.row (Bsp.T tri) 2) g1)
    as [[vInd2 resV2] g2].
  cbn [snd] in *.
  assert (C : Bsp.texCtrs g2 = Bsp.texCtrs g) by congruence.
  assert (T : Bsp.trianglesCreated g2 = Bsp.trianglesCreated g) by congruence.
  assert (Skip :
    Bsp.trianglesCreated g2 = Bsp.trianglesCreated g /\
    exists kept : list Bsp.BSPTriFace,
      Bsp.cn_triDefs n = Bsp.cn_triDefs n ++ kept /\
      tallied (Bsp.texCtrs g) (Bsp.texCtrs g2) kept).
  { split; [exact T|]. exists []. rewrite app_nil_r, C.
    split; [reflexivity|apply tallied_refl]. }
  destruct ((vInd0 =? vInd1) || (vInd1 =? vInd2) || (vInd2 =? vInd0)).
  { inversion H; subst. exact Skip. }
  destruct (Bsp.GetPlaneForTri (resV0, resV1, resV2)) as [tmpPlane|].
  2:{ inversion H; subst. exact Skip. }
  destruct (capacity <=? Z.of_nat (length (Bsp.cn_triDefs n)));
    [discriminate H|].
  step H ctr Hload. step H ctrs Hstore.
  inversion H as [[En Eg]]; clear H.
  apply load_Done in Hload. destruct Hload as [Ht0 Htl].
  apply store_Done in Hstore. destruct Hstore as [Hrange ->].
  cbn [Bsp.cn_triDefs Bsp.texCtrs Bsp.set_texCtrs Bsp.trianglesCreated].
  split; [exact T|].
  eexists. split; [reflexivity|]. rewrite C in *.
  split; [apply length_insert|].
  intros i c Hi. cbn [map Bsp.texIndex].
  destruct (decide (i = Z.to_nat (Bsp.tIndex tri))) as [->|Hne].
  - exists (to_Uint32 (ctr + 1)).
    split; [apply list_lookup_insert_eq; lia|].
    rewrite Htl in Hi. injection Hi as <-.
    unfold occ. rewrite filter_cons, filter_nil.
    rewrite Z2Nat.id by lia.
    destruct (decide (Bsp.tIndex tri = Bsp.tIndex tri)); [|contradiction].
    cbn [length]. unfold to_Uint32. rewrite Zmod_mod. reflexivity.
  - exists c. split; [rewrite list_lookup_insert_ne by congruence; exact Hi|].
    unfold occ. rewrite filter_cons, filter_nil.
    destruct (decide (Bsp.tIndex tri = Z.of_nat i)) as [E|_]; [lia|].
    cbn [length]. rewrite Z.add_0_r. reflexivity.
Qed.

Lemma conv_tris_counts (capacity : Z) :
  forall (tris : list Bsp.BSPTriNode) (n n' : Bsp.ConvNode)
         (g g' : Bsp.Globals),
    Bsp.conv_tris capacity tris (n, g) = Done (n', g') ->
    Bsp.trianglesCreated g' = Bsp.trianglesCreated g /\
    exists kept : list Bsp.BSPTriFace,
      Bsp.cn_triDefs n' = Bsp.cn_triDefs n ++ kept /\
      tallied (Bsp.texCtrs g) (Bsp.texCtrs g') kept.
Proof.
  induction tris as [|tri rest IH]; intros n n' g g' H.
  - cbn [Bsp.conv_tris] in H. inversion H; subst.
    split; [reflexivity|]. exists []. rewrite app_nil_r.
    split; [reflexivity|apply tallied_refl].
  - cbn [Bsp.conv_tris] in H. step H s1 H1. destruct s1 as [n1 g1].
    apply conv_tri_counts in H1. destruct H1 as (T1 & k1 & E1 & C1).
    apply IH in H. destruct H as (T2 & k2 & E2 & C2).
    split; [congruence|]. exists (k1 ++ k2).
    split; [rewrite E2, E1, app_assoc; reflexivity|].
    eapply tallied_trans; eassumption.
Qed.

Lemma conv_node_inv (nMaps : Z) (partition : Bsp.BSPPlane) (numTri : Z)
  (triHead : list Bsp.BSPTriNode) (g g' : Bsp.Globals) (n : Bsp.ConvNode) :
  is_u16 nMaps ->
  Bsp.conv_node partition numTri triHead g = Done (n, g') ->
  conv_inv nMaps g -> Forall tri_floats triHead ->
  numTri = to_Uint16 (Z.of_nat (length triHead)) -> plane_ok partition ->
  Z.of_nat (length (chain_table (Bsp.vertDefsPtr g'))) < 2 ^ 16 ->
  conv_inv nMaps g' /\
  chain_table (Bsp.vertDefsPtr g) `prefix_of` chain_table (Bsp.vertDefsPtr g') /\
  is_u16 (Bsp.cn_numTri n) /\
  Bsp.cn_numTri n = Z.of_nat (length (Bsp.cn_triDefs n)) /\
  Forall (face_in nMaps (chain_table (Bsp.vertDefsPtr g'))) (Bsp.cn_triDefs n) /\
  match Bsp.cn_triDefs n with
  | [] => plane_ok (Bsp.cn_partPlane n)
  | x :: _ =>
      exists vs : Bsp.Verts,
        face_verts (chain_table (Bsp.vertDefsPtr g')) x = Some vs /\
        Bsp.GetPlaneForTri vs = Some (Bsp.cn_partPlane n)
  end /\
  tallied (Bsp.texCtrs g) (Bsp.texCtrs g') (Bsp.cn_triDefs n) /\
  Bsp.trianglesCreated g'
  = to_Uint32 (Bsp.trianglesCreated g
               + Z.of_nat (length (Bsp.cn_triDefs n))).
Proof.
  intros HnM H Hg Hall HnumTri Hplane Hlen. unfold Bsp.conv_node in H.
  step H s1 H1. destruct s1 as [n1 g1].
  pose proof (conv_tris_counts _ _ _ _ _ _ H1) as (Tc & kept & Ek & Ck).
  cbn [Bsp.cn_triDefs app] in Ek.
  inversion H as [[En Eg]]; clear H; try subst g'; try subst n.
  change (Bsp.vertDefsPtr (Bsp.set_trianglesCreated g1 _))
    with (Bsp.vertDefsPtr g1) in *.
  destruct (conv_tris_prefix nMaps _ _ _ _ _ _ H1 Hg Hall) as [Hg1 P1].
  apply (conv_tris_steps nMaps numTri HnM) in H1;
    [|exact Hg|exact Hall|exact Hlen|].
  2:{ split; [rewrite HnumTri; apply to_Uint16_range|].
      cbn [Bsp.cn_numTri Bsp.cn_triDefs Bsp.cn_partPlane length].
      split; [rewrite HnumTri; f_equal; lia|].
      split; [pose proof (to_Uint16_range (Z.of_nat (length triHead)));
              unfold is_u16 in *; lia|].
      split; [constructor|exact Hplane]. }
  destruct H1 as (C1 & C2 & C3 & C4 & C5).
  rewrite Z.add_0_r in C2.
  assert (Hcount : Bsp.cn_numTri n1 = Z.of_nat (length (Bsp.cn_triDefs n1))).
  { rewrite C2. apply to_Uint16_small.
    pose proof (to_Uint16_range (Z.of_nat (length triHead))).
    unfold is_u16 in *. lia. }
  assert (Hdefs :
    (if Bsp.cn_numTri n1 =? 0 then []
     else if Bsp.cn_numTri n1 <? numTri
          then take (Z.to_nat (Bsp.cn_numTri n1)) (Bsp.cn_triDefs n1)
          else Bsp.cn_triDefs n1) = Bsp.cn_triDefs n1).
  { destruct (Z.eqb_spec (Bsp.cn_numTri n1) 0) as [E|_].
    - destruct (Bsp.cn_triDefs n1); [reflexivity|].
      cbn [length] in Hcount. lia.
    - destruct (Bsp.cn_numTri n1 <? numTri); [|reflexivity].
      apply take_ge. lia. }
  cbn [Bsp.cn_numTri Bsp.cn_triDefs Bsp.cn_partPlane]. rewrite !Hdefs.
  split.
  { destruct Hg1 as (G1 & G2 & G3 & G4 & G5 & G6 & G7).
    split; [exact G1|]. split; [exact G2|]. split; [exact G3|].
    split; [exact G4|]. split; [exact G5|]. split; [exact G6|].
    split; [apply to_Uint32_range|exact (proj2 G7)]. }
  split; [exact P1|]. split; [exact C1|]. split; [exact Hcount|].
  split; [exact C4|]. split; [exact C5|].
  split; [rewrite Ek; exact Ck|].
  cbn [Bsp.set_trianglesCreated Bsp.trianglesCreated].
  rewrite Tc, Hcount. reflexivity.
Qed.

Lemma conv_node_prefix (nMaps : Z) (partition : Bsp.BSPPlane) (numTri : Z)
  (triHead : list Bsp.BSPTriNode) (g g' : Bsp.Globals) (n : Bsp.ConvNode) :
  Bsp.conv_node partition numTri triHead g = Done (n, g') ->
  conv_inv nMaps g -> Forall tri_floats triHead ->
  conv_inv nMaps g' /\
  chain_table (Bsp.vertDefsPtr g) `prefix_of` chain_table (Bsp.vertDefsPtr g').
Proof.
  intros H Hg Hall. unfold Bsp.conv_node in H.
  step H s1 H1. destruct s1 as [n1 g1].
  inversion H as [[En Eg]]; clear H; try subst g'; try subst n.
  change (Bsp.vertDefsPtr (Bsp.set_trianglesCreated g1 _))
    with (Bsp.vertDefsPtr g1) in *.
  destruct (conv_tris_prefix nMaps _ _ _ _ _ _ H1 Hg Hall) as [Hg1 P1].
  split; [|exact P1].
  destruct Hg1 as (G1 & G2 & G3 & G4 & G5 & G6 & G7).
  split; [exact G1|]. split; [exact G2|]. split; [exact G3|].
  split; [exact G4|]. split; [exact G5|]. split; [exact G6|].
  split; [apply to_Uint32_range|exact (proj2 G7)].
Qed.

Lemma ConvIntBSPTree_prefix (nMaps : Z) :
  forall (intTree : Bsp.IntBSPTreeNode) (g g' : Bsp.Globals)
         (tree : Bsp.BSPTree),
    Bsp.ConvIntBSPTree intTree g = Done (tree, g') ->
    conv_inv nMaps g -> Forall tri_floats (tree_tris intTree) ->
    conv_inv nMaps g' /\
    chain_table (Bsp.vertDefsPtr g) `prefix_of` chain_table (Bsp.vertDefsPtr g').
Proof.
  induction intTree as [|partition numTri triHead back IHb front IHf];
    intros g g' tree H Hg Hall; [discriminate H|].
  cbn [Bsp.ConvIntBSPTree] in H. cbn [tree_tris] in Hall.
  apply Forall_app in Hall. destruct Hall as [Hhead Hall].
  apply Forall_app in Hall. destruct Hall as [Hback Hfront].
  step H ng Hn. destruct ng as [n g1].
  step H bg Hb. destruct bg as [b g2].
  step H fg Hf. destruct fg as [f g3].
  inv_outcome H.
  destruct (conv_node_prefix nMaps _ _ _ _ _ _ Hn Hg Hhead) as [Hg1 P1].
  assert (B : conv_inv nMaps g2 /\
              chain_table (Bsp.vertDefsPtr g1)
              `prefix_of` chain_table (Bsp.vertDefsPtr g2)).
  { destruct back; [inv_outcome Hb; split; [exact Hg1|reflexivity]|].
    eapply IHb; eassumption. }
  destruct B as [Hg2 P2].
  assert (F : conv_inv nMaps g' /\
              chain_table (Bsp.vertDefsPtr g2)
              `prefix_of` chain_table (Bsp.vertDefsPtr g')).
  { destruct front; [inv_outcome Hf; split; [exact Hg2|reflexivity]|].
    eapply IHf; eassumption. }
  destruct F as [Hg3 P3].
  split; [exact Hg3|]. etrans; [exact P1|]. etrans; [exact P2|exact P3].
Qed.

Lemma ConvIntBSPTree_tree_in (nMaps : Z) :
  is_u16 nMaps ->
  forall (intTree : Bsp.IntBSPTreeNode) (g g' : Bsp.Globals)
         (tree : Bsp.BSPTree),
    Bsp.ConvIntBSPTree intTree g = Done (tree, g') ->
    conv_inv nMaps g -> node_ok intTree ->
    Forall (tri_ok (fun _ => True)) (tree_tris intTree) ->
    Forall tri_floats (tree_tris intTree) ->
    Z.of_nat (length (chain_table (Bsp.vertDefsPtr g'))) < 2 ^ 16 ->
    tree_in nMaps (chain_table (Bsp.vertDefsPtr g')) tree /\
    tallied (Bsp.texCtrs g) (Bsp.texCtrs g') (tree_faces tree) /\
    Bsp.trianglesCreated g'
    = to_Uint32 (Bsp.trianglesCreated g
                 + Z.of_nat (length (tree_faces tree))).
Proof.
  intros HnM.
  induction intTree as [|partition numTri triHead back IHb front IHf];
    intros g g' tree H Hg Hok Htris Hall Hlen; [discriminate H|].
  cbn [Bsp.ConvIntBSPTree] in H. cbn [tree_tris] in Hall, Htris.
  apply Forall_app in Hall. destruct Hall as [Hhead Hall].
  apply Forall_app in Hall. destruct Hall as [Hback Hfront].
  apply Forall_app in Htris. destruct Htris as [Thead Htris].
  apply Forall_app in Htris. destruct Htris as [Tback Tfront].
  cbn [node_ok] in Hok.
  destruct Hok as ((cop & rootTri & Eh & Ep & _) & HnumTri & Okb & Okf).
  step H ng Hn. destruct ng as [n g1].
  step H bg Hb. destruct bg as [b g2].
  step H fg Hf. destruct fg as [f g3].
  inversion H as [[Et Eg]]; clear H; try subst tree; try subst g3.
  destruct (conv_node_prefix nMaps _ _ _ _ _ _ Hn Hg Hhead) as [Hg1 P1].
  assert (B : conv_inv nMaps g2 /\
              chain_table (Bsp.vertDefsPtr g1)
              `prefix_of` chain_table (Bsp.vertDefsPtr g2)).
  { destruct back; [inv_outcome Hb; split; [exact Hg1|reflexivity]|].
    eapply (ConvIntBSPTree_prefix nMaps); eassumption. }
  destruct B as [Hg2 P2].
  assert (F : conv_inv nMaps g' /\
              chain_table (Bsp.vertDefsPtr g2)
              `prefix_of` chain_table (Bsp.vertDefsPtr g')).
  { destruct front; [inv_outcome Hf; split; [exact Hg2|reflexivity]|].
    eapply (ConvIntBSPTree_prefix nMaps); eassumption. }
  destruct F as [Hg3 P3].
  pose proof (prefix_length _ _ P3) as L3.
  pose proof (prefix_length _ _ P2) as L2.
  assert (Hplane : plane_ok (Bsp.plane rootTri)).
  { rewrite Eh in Thead. apply Forall_app in Thead. destruct Thead as [_ Tr].
    inversion Tr as [|? ? [_ Hp] _]; subst.
    eapply GetPlaneForTri_plane_ok. exact Hp. }
  apply (conv_node_inv nMaps) in Hn;
    [|exact HnM|exact Hg|exact Hhead|exact HnumTri
     |rewrite Ep; exact Hplane|lia].
  destruct Hn as (_ & _ & N1 & N2 & N3 & N4 & N5 & N6).
  assert (P13 : chain_table (Bsp.vertDefsPtr g1)
                `prefix_of` chain_table (Bsp.vertDefsPtr g'))
    by (etrans; [exact P2|exact P3]).
  assert (B : tree_in nMaps (chain_table (Bsp.vertDefsPtr g2)) b /\
              tallied (Bsp.texCtrs g1) (Bsp.texCtrs g2) (tree_faces b) /\
              Bsp.trianglesCreated g2
              = to_Uint32 (Bsp.trianglesCreated g1
                           + Z.of_nat (length (tree_faces b)))).
  { destruct back.
    - inv_outcome Hb. split; [exact I|]. split; [apply tallied_refl|].
      cbn [tree_faces length]. rewrite Z.add_0_r. symmetry.
      apply to_Uint32_small. apply Hg1.
    - eapply IHb; try eassumption. lia. }
  assert (F : tree_in nMaps (chain_table (Bsp.vertDefsPtr g')) f /\
              tallied (Bsp.texCtrs g2) (Bsp.texCtrs g') (tree_faces f) /\
              Bsp.trianglesCreated g'
              = to_Uint32 (Bsp.trianglesCreated g2
                           + Z.of_nat (length (tree_faces f)))).
  { destruct front.
    - inv_outcome Hf. split; [exact I|]. split; [apply tallied_refl|].
      cbn [tree_faces length]. rewrite Z.add_0_r. symmetry.
      apply to_Uint32_small. apply Hg2.
    - eapply IHf; eassumption. }
  destruct B as (B1 & B2 & B3), F as (F1 & F2 & F3).
  split; [|split].
  - cbn [tree_in].
    split; [exact N1|]. split; [exact N2|].
    split; [eapply Forall_impl; [exact N3|]; intros x; apply face_in_prefix;
            exact P13|].
    split; [eapply first_plane_prefix; eassumption|].
    split; [apply (tree_in_prefix _ _ _ P3); exact B1|exact F1].
  - cbn [tree_faces].
    eapply tallied_trans; [exact N5|]. eapply tallied_trans; eassumption.
  - cbn [tree_faces]. rewrite F3, B3, N6, !length_app, !Nat2Z.inj_add.
    unfold to_Uint32.
    rewrite Zplus_mod_idemp_l, <- Z.add_assoc, Zplus_mod_idemp_l.
    f_equal. lia.
Qed.

(** ** The two packed tables GenBSPTreeData copies the chain into *)

Lemma take_S_insert {X} (l : list X) (k : nat) (x : X) :
  (k < length l)%nat -> take (S k) (<[k:=x]> l) = take k l ++ [x].
Proof.
  intros H. rewrite (take_S_r _ _ x) by (apply list_lookup_insert_eq; exact H).
  rewrite take_insert_ge by lia. reflexivity.
Qed.

Lemma table_vertCoords_app (a b : list VertDef) :
  table_vertCoords (a ++ b) = table_vertCoords a ++ table_vertCoords b.
Proof. unfold table_vertCoords. rewrite map_app, concat_app. reflexivity. Qed.

Lemma table_texCoords_app (a b : list VertDef) :
  table_texCoords (a ++ b) = table_texCoords a ++ table_texCoords b.
Proof. unfold table_texCoords. rewrite map_app, concat_app. reflexivity. Qed.

Lemma copy_block_spec (N : nat) :
  (Z.of_nat N < 2 ^ 16) ->
  forall (blk : Bsp.VertDefs) (c : nat) (vc tc vc' tc' : list GLfloat) (i' : Z),
    Bsp.copy_block blk (Z.of_nat c) (vc, tc) = Done (i', (vc', tc')) ->
    length vc = (3 * N)%nat -> length tc = (2 * N)%nat -> (c <= N)%nat ->
    i' = Z.of_nat (c + length blk) /\ (c + length blk <= N)%nat /\
    length vc' = (3 * N)%nat /\ length tc' = (2 * N)%nat /\
    take (3 * (c + length blk)) vc' = take (3 * c) vc ++ table_vertCoords blk /\
    take (2 * (c + length blk)) tc' = take (2 * c) tc ++ table_texCoords blk.
Proof.
  intros HN.
  induction blk as [|d rest IH]; intros c vc tc vc' tc' i' H Lv Lt Hc.
  - cbn [Bsp.copy_block] in H. inv_outcome H.
    unfold table_vertCoords, table_texCoords. cbn [length map concat].
    rewrite !Nat.add_0_r, !app_nil_r. repeat split; auto.
  - destruct d as [[[x y] z] [u v]]. cbn [Bsp.copy_block] in H.
    cbn [fst snd] in H.
    assert (U : forall k : Z, 0 <= k <= 3 ->
                to_Uint32 (Z.of_nat c + k) = Z.of_nat c + k)
      by (intros k Hk; apply to_Uint32_small; lia).
    assert (U3 : forall k : Z, 0 <= k <= 2 ->
                to_Uint32 (3 * Z.of_nat c + k) = 3 * Z.of_nat c + k)
      by (intros k Hk; apply to_Uint32_small; lia).
    assert (U2 : forall k : Z, 0 <= k <= 1 ->
                to_Uint32 (2 * Z.of_nat c + k) = 2 * Z.of_nat c + k)
      by (intros k Hk; apply to_Uint32_small; lia).
    rewrite !U3, !U2, U in H by lia.
    step H v1 S1. step H v2 S2. step H v3 S3. step H t1 S4. step H t2 S5.
    apply store_Done in S1, S2, S3, S4, S5.
    destruct S1 as [R1 ->], S2 as [R2 ->], S3 as [R3 ->], S4 as [R4 ->],
      S5 as [R5 ->].
    rewrite !length_insert in *.
    replace (Z.of_nat c + 1) with (Z.of_nat (S c)) in H by lia.
    apply IH in H; [|rewrite !length_insert; exact Lv
                    |rewrite !length_insert; exact Lt|lia].
    destruct H as (-> & Hle & Lv' & Lt' & Tv & Tt).
    cbn [length]. replace (c + S (length rest))%nat
      with (S c + length rest)%nat by lia.
    split; [reflexivity|]. split; [exact Hle|].
    split; [exact Lv'|]. split; [exact Lt'|].
    split.
    + rewrite Tv.
      replace (Z.to_nat (3 * Z.of_nat c + 0)) with (3 * c)%nat by lia.
      replace (Z.to_nat (3 * Z.of_nat c + 1)) with (S (3 * c))%nat by lia.
      replace (Z.to_nat (3 * Z.of_nat c + 2)) with (S (S (3 * c)))%nat by lia.
      replace (3 * S c)%nat with (S (S (S (3 * c))))%nat by lia.
      rewrite take_S_insert by (rewrite !length_insert; lia).
      rewrite take_S_insert by (rewrite !length_insert; lia).
      rewrite take_S_insert by lia.
      change (table_vertCoords ((x, y, z, (u, v)) :: rest))
        with ([x; y; z] ++ table_vertCoords rest).
      rewrite <- !app_assoc. reflexivity.
    + rewrite Tt.
      replace (Z.to_nat (2 * Z.of_nat c + 0)) with (2 * c)%nat by lia.
      replace (Z.to_nat (2 * Z.of_nat c + 1)) with (S (2 * c))%nat by lia.
      replace (2 * S c)%nat with (S (S (2 * c)))%nat by lia.
      rewrite take_S_insert by (rewrite !length_insert; lia).
      rewrite take_S_insert by lia.
      change (table_texCoords ((x, y, z, (u, v)) :: rest))
        with ([u; v] ++ table_texCoords rest).
      rewrite <- !app_assoc. reflexivity.
Qed.

Lemma copy_chain_spec (N : nat) :
  (Z.of_nat N < 2 ^ 16) ->
  forall (chain : list Bsp.VertDefs) (c : nat) (vc tc vc' tc' : list GLfloat),
    Bsp.copy_chain chain (Z.of_nat c) (vc, tc) = Done (vc', tc') ->
    length vc = (3 * N)%nat -> length tc = (2 * N)%nat -> (c <= N)%nat ->
    (c + length (chain_table chain) <= N)%nat /\
    length vc' = (3 * N)%nat /\ length tc' = (2 * N)%nat /\
    take (3 * (c + length (chain_table chain))) vc'
    = take (3 * c) vc ++ table_vertCoords (chain_table chain) /\
    take (2 * (c + length (chain_table chain))) tc'
    = take (2 * c) tc ++ table_texCoords (chain_table chain).
Proof.
  intros HN. unfold chain_table.
  induction chain as [|blk next IH]; intros c vc tc vc' tc' H Lv Lt Hc.
  - cbn [Bsp.copy_chain] in H. inv_outcome H.
    unfold table_vertCoords, table_texCoords. cbn [length map concat].
    rewrite !Nat.add_0_r, !app_nil_r. repeat split; auto.
  - cbn [Bsp.copy_chain] in H. step H s1 H1. destruct s1 as [i1 [vc1 tc1]].
    apply (copy_block_spec N HN) in H1; [|exact Lv|exact Lt|exact Hc].
    destruct H1 as (-> & Hle & Lv1 & Lt1 & Tv1 & Tt1).
    apply IH in H; [|exact Lv1|exact Lt1|exact Hle].
    destruct H as (Hle' & Lv' & Lt' & Tv & Tt).
    cbn [concat]. rewrite length_app, table_vertCoords_app,
      table_texCoords_app.
    unfold VertDef in *. rewrite !Nat.add_assoc.
    split; [exact Hle'|]. split; [exact Lv'|]. split; [exact Lt'|].
    rewrite Tv, Tt, Tv1, Tt1, <- !app_assoc. auto.
Qed.

Lemma copy_chain_tables (j1 j2 : nat -> GLfloat) (chain : list Bsp.VertDefs)
  (n : Z) (vc tc : list GLfloat) :
  Bsp.copy_chain chain 0 (malloc j1 (n * 3), malloc j2 (n * 2))
    = Done (vc, tc) ->
  n = to_Uint16 (Z.of_nat (length (chain_table chain))) ->
  n = Z.of_nat (length (chain_table chain)) /\
  vc = table_vertCoords (chain_table chain) /\
  tc = table_texCoords (chain_table chain).
Proof.
  intros H Hn.
  pose proof (to_Uint16_range (Z.of_nat (length (chain_table chain)))) as Hr.
  rewrite <- Hn in Hr. unfold is_u16 in Hr.
  change 0 with (Z.of_nat 0) in H.
  apply (copy_chain_spec (Z.to_nat n)) in H;
    [|lia|rewrite length_malloc; lia|rewrite length_malloc; lia|lia].
  destruct H as (Hle & Lv & Lt & Tv & Tt).
  cbn [Nat.add Nat.mul take app] in Tv, Tt, Hle.
  assert (E : n = Z.of_nat (length (chain_table chain))).
  { rewrite Hn. apply to_Uint16_small. lia. }
  split; [exact E|].
  rewrite take_ge in Tv by lia. rewrite take_ge in Tt by lia. auto.
Qed.

(** ** The data GenBSPTreeData returns *)

Lemma loads_floats (tv tc : list GLfloat) (i0 i1 i2 j0 j1 : Z)
  (r : Bsp.Vec3 * Bsp.Vec2) :
  (x ← load tv i0; y ← load tv i1; z ← load tv i2;
   u ← load tc j0; v ← load tc j1;
   mret ((x, y, z), (u, v))) = Done r ->
  Forall is_float tv -> Forall is_float tc ->
  vec3_floats (fst r) /\ vec2_floats (snd r).
Proof.
  intros H Hv Ht.
  step H x Hx. step H y Hy. step H z Hz. step H u Hu. step H v Hw.
  inv_outcome H.
  apply load_Done in Hx, Hy, Hz, Hu, Hw.
  destruct Hx as [_ Hx], Hy as [_ Hy], Hz as [_ Hz], Hu as [_ Hu],
    Hw as [_ Hw].
  pose proof (Forall_lookup_1 _ _ _ _ Hv Hx).
  pose proof (Forall_lookup_1 _ _ _ _ Hv Hy).
  pose proof (Forall_lookup_1 _ _ _ _ Hv Hz).
  pose proof (Forall_lookup_1 _ _ _ _ Ht Hu).
  pose proof (Forall_lookup_1 _ _ _ _ Ht Hw).
  split; [split; [|split]|split]; assumption.
Qed.

Lemma input_tri_floats (tv : list GLfloat) (ti : list Z) (tc : list GLfloat)
  (i tIndex : Z) (Vs : Bsp.Verts) (Ts : Bsp.TexCoords) :
  Bsp.input_tri tv ti tc i = Done (tIndex, Vs, Ts) ->
  Forall is_float tv -> Forall is_float tc ->
  forall k : nat, vec3_floats (Bsp.row Vs k) /\ vec2_floats (Bsp.row Ts k).
Proof.
  intros H Hv Ht. unfold Bsp.input_tri in H. cbv zeta in H.
  step H t0 H0. step H a Ha. step H b Hb. step H c Hc.
  inversion H as [[E1 E2 E3]]; clear H.
  apply loads_floats in Ha, Hb, Hc; try assumption.
  intros [|[|k]]; cbn [Bsp.row]; assumption.
Qed.

Lemma input_tris_inv :
  forall (todo : nat) (i : Z) (tv : list GLfloat) (ti : list Z)
         (tc : list GLfloat) (acc l : list Bsp.BSPTriNode),
    Bsp.input_tris todo i tv ti tc acc = Done l ->
    Forall is_float tv -> Forall is_float tc ->
    Forall tri_floats acc -> Forall (tri_ok (fun _ => True)) acc ->
    Forall tri_floats l /\ Forall (tri_ok (fun _ => True)) l.
Proof.
  induction todo as [|todo IH]; intros i tv ti tc acc l H Hv Ht Hf Hok.
  - cbn [Bsp.input_tris] in H. inv_outcome H. auto.
  - cbn [Bsp.input_tris] in H. step H r Hr. destruct r as [[tIndex Vs] Ts].
    pose proof (input_tri_floats _ _ _ _ _ _ _ Hr Hv Ht) as Hfl.
    apply IH in H; try assumption.
    + destruct (Bsp.GetPlaneForTri Vs); [|exact Hf].
      unfold Bsp.AddTriToList. constructor; [|exact Hf].
      intros k. cbn [Bsp.V Bsp.T]. apply Hfl.
    + destruct (Bsp.GetPlaneForTri Vs) eqn:Ep; [|exact Hok].
      unfold Bsp.AddTriToList. constructor; [|exact Hok].
      split; [exact I|]. cbn [Bsp.V Bsp.plane]. exact Ep.
Qed.

Lemma conv_inv_initial (nMaps : Z) : conv_inv nMaps (Bsp.initial_globals nMaps).
Proof.
  unfold conv_inv, Bsp.initial_globals.
  cbn [Bsp.vertDefsPtr Bsp.numVertDefs Bsp.texCtrs Bsp.g_minX Bsp.g_maxX
       Bsp.g_minY Bsp.g_maxY Bsp.g_minZ Bsp.g_maxZ Bsp.trianglesCreated
       chain_wf].
  split; [exact I|]. split; [constructor|]. split; [reflexivity|].
  split; [apply length_replicate|].
  split; [apply Forall_replicate; unfold is_u32; lia|].
  split; [unfold is_float, FLT_MAX, FLT_MIN; lia|].
  split; [unfold is_u32; lia|constructor].
Qed.

Lemma table_vertCoords_lookup :
  forall (tab : list VertDef) (k : nat) (x y z : GLfloat) (t : Bsp.Vec2),
    tab !! k = Some ((x, y, z), t) ->
    table_vertCoords tab !! (3 * k)%nat = Some x /\
    table_vertCoords tab !! (3 * k + 1)%nat = Some y /\
    table_vertCoords tab !! (3 * k + 2)%nat = Some z.
Proof.
  induction tab as [|d rest IH]; intros k x y z t H; [discriminate H|].
  destruct k as [|k].
  - cbn in H. injection H as ->. cbn. auto.
  - cbn [lookup list_lookup] in H. apply IH in H.
    destruct d as [[[a b] c] t'].
    change (table_vertCoords ((a, b, c, t') :: rest))
      with (a :: b :: c :: table_vertCoords rest).
    replace (3 * S k)%nat with (S (S (S (3 * k)))) by lia.
    exact H.
Qed.

Lemma length_table_vertCoords (tab : list VertDef) :
  length (table_vertCoords tab) = (3 * length tab)%nat.
Proof.
  induction tab as [|[[[a b] c] t] rest IH]; [reflexivity|].
  change (table_vertCoords ((a, b, c, t) :: rest))
    with (a :: b :: c :: table_vertCoords rest).
  cbn [length]. rewrite IH. lia.
Qed.

Lemma length_table_texCoords (tab : list VertDef) :
  length (table_texCoords tab) = (2 * length tab)%nat.
Proof.
  induction tab as [|[v [a b]] rest IH]; [reflexivity|].
  change (table_texCoords ((v, (a, b)) :: rest))
    with (a :: b :: table_texCoords rest).
  cbn [length]. rewrite IH. lia.
Qed.

Lemma table_floats (tab : list VertDef) :
  Forall def_floats tab ->
  Forall is_float (table_vertCoords tab) /\
  Forall is_float (table_texCoords tab).
Proof.
  induction 1 as [|[[[a b] c] [u v]] rest Hd _ IH]; [split; constructor|].
  destruct Hd as [(Ha & Hb & Hc) (Hu & Hv)]. cbn [fst snd] in *.
  destruct IH as [IH1 IH2].
  change (table_vertCoords ((a, b, c, (u, v)) :: rest))
    with (a :: b :: c :: table_vertCoords rest).
  change (table_texCoords ((a, b, c, (u, v)) :: rest))
    with (u :: v :: table_texCoords rest).
  split; repeat (constructor; [assumption|]); assumption.
Qed.

Lemma vertex_def_table (tab : list VertDef) (ix : Z) (d : VertDef) :
  is_u16 ix -> tab !! Z.to_nat ix = Some d ->
  Bsp.vertex_def (table_vertCoords tab) ix = Done (fst d).
Proof.
  intros Hu Hl. destruct d as [[[x y] z] t].
  destruct (table_vertCoords_lookup _ _ _ _ _ _ Hl) as (Lx & Ly & Lz).
  unfold Bsp.vertex_def, is_u16 in *. cbv zeta.
  rewrite to_Uint32_small by lia.
  assert (Ex : load (table_vertCoords tab) (3 * ix + 0) = Done x).
  { apply load_Done. split; [lia|].
    replace (Z.to_nat (3 * ix + 0)) with (3 * Z.to_nat ix)%nat by lia.
    exact Lx. }
  assert (Ey : load (table_vertCoords tab) (3 * ix + 1) = Done y).
  { apply load_Done. split; [lia|].
    replace (Z.to_nat (3 * ix + 1)) with (3 * Z.to_nat ix + 1)%nat by lia.
    exact Ly. }
  assert (Ez : load (table_vertCoords tab) (3 * ix + 2) = Done z).
  { apply load_Done. split; [lia|].
    replace (Z.to_nat (3 * ix + 2)) with (3 * Z.to_nat ix + 2)%nat by lia.
    exact Lz. }
  rewrite Ex. cbn [mbind outcome_bind]. rewrite Ey. cbn [mbind outcome_bind].
  rewrite Ez. reflexivity.
Qed.

Lemma first_plane_table (tab : list VertDef) (x : Bsp.BSPTriFace)
  (rest : list Bsp.BSPTriFace) (vs : Bsp.Verts) (p : Bsp.BSPPlane) :
  face_ok x -> face_verts tab x = Some vs ->
  Bsp.GetPlaneForTri vs = Some p ->
  first_plane (table_vertCoords tab) (x :: rest) = Some p.
Proof.
  intros (_ & U0 & U1 & U2) Hv Hp.
  unfold first_plane, Bsp.recompute_plane.
  change (load (x :: rest) 0) with (Done x). cbn [mbind outcome_bind].
  unfold face_verts in Hv.
  destruct (Bsp.vIndices x) as [[i0 i1] i2]. cbn [fst snd] in U0, U1, U2.
  destruct (tab !! Z.to_nat i0) as [d0|] eqn:E0; [|discriminate].
  destruct (tab !! Z.to_nat i1) as [d1|] eqn:E1; [|discriminate].
  destruct (tab !! Z.to_nat i2) as [d2|] eqn:E2; [|discriminate].
  injection Hv as <-.
  rewrite (vertex_def_table _ _ _ U0 E0). cbn [mbind outcome_bind].
  rewrite (vertex_def_table _ _ _ U1 E1). cbn [mbind outcome_bind].
  rewrite (vertex_def_table _ _ _ U2 E2). cbn [mbind outcome_bind].
  rewrite Hp. reflexivity.
Qed.

Lemma tree_in_tree_ok (nMaps : Z) (tab : list VertDef) :
  forall t : Bsp.BSPTree,
    tree_in nMaps tab t ->
    tree_ok (table_vertCoords tab) t /\
    planes_consistent (table_vertCoords tab) t.
Proof.
  induction t as [|numTri triDefs partPlane back IHb front IHf];
    [split; exact I|].
  cbn [tree_in tree_ok planes_consistent].
  intros (H1 & H2 & H3 & H4 & H5 & H6).
  destruct (IHb H5) as [Ob Cb]. destruct (IHf H6) as [Of Cf].
  assert (Hfirst :
    match triDefs with
    | [] => numTri = 0 /\ plane_ok partPlane
    | _ :: _ => numTri <> 0 /\
                first_plane (table_vertCoords tab) triDefs = Some partPlane
    end).
  { destruct triDefs as [|x rest]; [split; [exact H2|exact H4]|].
    split; [rewrite H2; cbn [length]; lia|].
    destruct H4 as (vs & Hv & Hp).
    inversion H3 as [|? ? [Hok _] _]; subst.
    eapply first_plane_table; eassumption. }
  split.
  - split; [exact H1|]. split; [exact H2|].
    split; [eapply Forall_impl; [exact H3|]; intros x [Hok _]; exact Hok|].
    split; [|auto].
    destruct triDefs as [|x rest].
    + destruct Hfirst as [-> Hp]. exact Hp.
    + destruct Hfirst as [Hne Hp].
      destruct (Z.eqb_spec numTri 0) as [|_]; [contradiction|].
      rewrite Hp. eexists; reflexivity.
  - split; [|auto]. intros Hne.
    destruct triDefs as [|x rest]; [destruct Hfirst; contradiction|].
    exact (proj2 Hfirst).
Qed.

Lemma BuildBSPTree_maxDepth (uninit : nat -> nat -> Bsp.Vec3) :
  forall (fuel : nat) (triList : list Bsp.BSPTriNode) (st st' : Bsp.BuildState)
         (node : Bsp.IntBSPTreeNode),
    Bsp.BuildBSPTree uninit fuel triList st = Done (node, st') ->
    is_u16 (Bsp.maxDepthSoFar st) -> is_u16 (Bsp.maxDepthSoFar st').
Proof.
  induction fuel as [|fuel IH]; intros triList st st' node H Hm;
    [discriminate H|].
  cbn [Bsp.BuildBSPTree] in H. cbv zeta in H.
  destruct (Bsp.SelectNextRoot triList) as [[rootTri|] restOfList];
    [|discriminate H].
  step H pc Hd. destruct pc as [parts calls]. clear Hd.
  cbn [Bsp.nodesCreated Bsp.currDepth Bsp.maxDepthSoFar Bsp.splitCalls] in H.
  step H fs Hfront. destruct fs as [front st1].
  step H bs Hback. destruct bs as [back st2].
  inv_outcome H. cbn [Bsp.maxDepthSoFar].
  assert (H1 : is_u16 (Bsp.maxDepthSoFar st1)).
  { destruct (Bsp.p_frontList parts).
    - inv_outcome Hfront. cbn [Bsp.maxDepthSoFar].
      destruct (_ <? _); [apply to_Uint16_range|exact Hm].
    - apply IH in Hfront; [exact Hfront|]. cbn [Bsp.maxDepthSoFar].
      destruct (_ <? _); [apply to_Uint16_range|exact Hm]. }
  destruct (Bsp.p_backList parts).
  - inv_outcome Hback. exact H1.
  - apply IH in Hback; [exact Hback|exact H1].
Qed.

Lemma GenBSPTreeData_built
  (heap : nat -> nat -> Z) (uninit : nat -> nat -> Bsp.Vec3) (fuel : nat)
  (nTri : Z) (triVerts : list GLfloat) (texIndices : list Z)
  (triTexCoords : list GLfloat) (nMaps : Z) (texMapNames : list (list byte))
  (d : Bsp.BSPTreeData) :
  is_u16 nMaps ->
  Forall is_float triVerts -> Forall is_float triTexCoords ->
  (forall c k, vec3_floats (uninit c k)) ->
  Bsp.GenBSPTreeData heap uninit fuel nTri triVerts texIndices triTexCoords
                     nMaps texMapNames = Done d ->
  exists tab : list VertDef,
    Z.of_nat (length tab) < 2 ^ 16 /\ Forall def_floats tab /\
    Bsp.nVertices d = Z.of_nat (length tab) /\
    Bsp.vertCoords d = table_vertCoords tab /\
    Bsp.texCoords d = table_texCoords tab /\
    tree_in nMaps tab (Bsp.bspTree d) /\
    Bsp.bspTree d <> Bsp.NULL_tree /\
    Bsp.nMaps d = nMaps /\
    Bsp.mapNames d = take (Z.to_nat nMaps) texMapNames /\
    nMaps <= Z.of_nat (length texMapNames) /\
    length (Bsp.mapTriNums d) = Z.to_nat nMaps /\
    Forall is_u32 (Bsp.mapTriNums d) /\
    (is_float (Bsp.minX d) /\ is_float (Bsp.maxX d) /\
     is_float (Bsp.minY d) /\ is_float (Bsp.maxY d) /\
     is_float (Bsp.minZ d) /\ is_float (Bsp.maxZ d)) /\
    is_u16 (Bsp.maxDepth d) /\ is_u16 (Bsp.numNodes d) /\
    is_u32 (Bsp.numTri d) /\
    Bsp.numTri d = to_Uint32 (Z.of_nat (length (tree_faces (Bsp.bspTree d)))) /\
    tallied (replicate (Z.to_nat nMaps) 0) (Bsp.mapTriNums d)
            (tree_faces (Bsp.bspTree d)) /\
    Forall (fun x : VertDef =>
              inside (Bsp.minX d) (Bsp.maxX d) (Bsp.minY d) (Bsp.maxY d)
                     (Bsp.minZ d) (Bsp.maxZ d) (fst x)) tab.
Proof.
  intros HnM Hv Ht Hu H. unfold Bsp.GenBSPTreeData in H.
  step H names Hcells. step H triList Hlist.
  step H ts Hbuild. destruct ts as [genBSPTree st].
  step H tg Hconv. destruct tg as [tree g].
  step H vt Hcopy. destruct vt as [vc tc].
  inv_outcome H.
  unfold cells in Hcells.
  destruct (Z.ltb_spec (Z.of_nat (length texMapNames)) nMaps) as [|Hlen];
    [discriminate Hcells|].
  inv_outcome Hcells.
  destruct (input_tris_inv _ _ _ _ _ _ _ Hlist Hv Ht
              ltac:(constructor) ltac:(constructor)) as [Lf Lok].
  pose proof (BuildBSPTree_floats uninit Hu _ _ _ _ _ Hbuild Lf) as Tf.
  destruct (BuildBSPTree_inv (fun _ => True) uninit _ _ _ _ _ Hbuild Lok)
    as (Hne & Hnode & Tok).
  destruct (BuildBSPTree_counters _ _ _ _ _ _ Hbuild) as [Hc _].
  pose proof (BuildBSPTree_maxDepth _ _ _ _ _ _ Hbuild) as Hmax.
  cbn [Bsp.maxDepthSoFar] in Hmax.
  specialize (Hmax ltac:(unfold is_u16; lia)).
  destruct (ConvIntBSPTree_prefix nMaps _ _ _ _ Hconv
              (conv_inv_initial nMaps) Tf) as [Hg _].
  pose proof Hg as (G1 & G2 & G3 & G4 & G5 & G6 & G7 & G8).
  destruct (copy_chain_tables _ _ _ _ _ _ Hcopy G3) as (En & -> & ->).
  assert (Hlt : Z.of_nat (length (chain_table (Bsp.vertDefsPtr g))) < 2 ^ 16).
  { rewrite <- En, G3. apply to_Uint16_range. }
  pose proof (ConvIntBSPTree_tree_in nMaps HnM _ _ _ _ Hconv
                (conv_inv_initial nMaps) Hnode Tok Tf Hlt)
    as (Hin & Hcnt & Htc).
  cbn [Bsp.initial_globals Bsp.texCtrs Bsp.trianglesCreated] in Hcnt, Htc.
  exists (chain_table (Bsp.vertDefsPtr g)).
  cbn [Bsp.nMaps Bsp.mapNames Bsp.mapTriNums Bsp.nVertices Bsp.vertCoords
       Bsp.texCoords Bsp.minX Bsp.maxX Bsp.minY Bsp.maxY Bsp.minZ Bsp.maxZ
       Bsp.maxDepth Bsp.numNodes Bsp.numTri Bsp.bspTree].
  split; [exact Hlt|]. split; [exact G2|]. split; [exact En|].
  split; [reflexivity|]. split; [reflexivity|]. split; [exact Hin|].
  split.
  { destruct genBSPTree; [discriminate Hconv|].
    cbn [Bsp.ConvIntBSPTree] in Hconv.
    step Hconv ng Hn'. destruct ng as [n g1].
    step Hconv bg Hb. destruct bg as [b g2].
    step Hconv fg Hf. destruct fg as [f g3].
    inv_outcome Hconv. discriminate. }
  split; [reflexivity|]. split; [reflexivity|]. split; [exact Hlen|].
  split; [exact G4|]. split; [exact G5|]. split; [exact G6|].
  split; [exact Hmax|].
  split; [rewrite Hc; apply to_Uint16_range|].
  split; [exact G7|]. split; [exact Htc|]. split; [exact Hcnt|exact G8].
Qed.

Lemma GenBSPTreeData_wf_bsp
  (heap : nat -> nat -> Z) (uninit : nat -> nat -> Bsp.Vec3) (fuel : nat)
  (nTri : Z) (triVerts : list GLfloat) (texIndices : list Z)
  (triTexCoords : list GLfloat) (nMaps : Z) (texMapNames : list (list byte))
  (d : Bsp.BSPTreeData) :
  is_u16 nMaps -> Forall name_ok texMapNames ->
  Forall is_float triVerts -> Forall is_float triTexCoords ->
  (forall c k, vec3_floats (uninit c k)) ->
  Bsp.GenBSPTreeData heap uninit fuel nTri triVerts texIndices triTexCoords
                     nMaps texMapNames = Done d ->
  wf_bsp d /\ planes_consistent (Bsp.vertCoords d) (Bsp.bspTree d).
Proof.
  intros HnM Hnames Hv Ht Hu H.
  destruct (GenBSPTreeData_built _ _ _ _ _ _ _ _ _ _ HnM Hv Ht Hu H)
    as (tab & Hlt & Hfl & EnV & Evc & Etc & Hin & Hne & EnM & Enames & Hlen
        & Hml & Hm32 & Hbox & Hmax & Hnodes & HnumTri & Htotal & Hcounted & Hinside).
  destruct (tree_in_tree_ok _ _ _ Hin) as [Hok Hcons].
  destruct (table_floats _ Hfl) as [Fv Ft].
  rewrite Evc. split; [|exact Hcons].
  unfold wf_bsp. rewrite EnM, Enames, EnV, Evc, Etc.
  split; [exact HnM|].
  split; [rewrite length_take; unfold is_u16 in HnM; lia|].
  split; [apply Forall_take; exact Hnames|].
  split; [exact Hml|]. split; [exact Hm32|].
  split; [unfold is_u16; lia|].
  split; [rewrite length_table_vertCoords; lia|].
  split; [rewrite length_table_texCoords; lia|].
  split; [exact Fv|]. split; [exact Ft|]. split; [exact Hbox|].
  split; [exact Hmax|]. split; [exact Hnodes|]. split; [exact HnumTri|].
  split; [exact Hne|exact Hok].
Qed.

Lemma face_in_valid (nMaps : Z) (tab : list VertDef) (x : Bsp.BSPTriFace) :
  face_in nMaps tab x -> face_valid nMaps (Z.of_nat (length tab)) x.
Proof.
  intros ((Ht & U0 & U1 & U2) & Hlt & vs & Hv).
  unfold face_verts in Hv. unfold face_valid, is_u16 in *.
  destruct (Bsp.vIndices x) as [[i0 i1] i2]. cbn [fst snd] in *.
  destruct (tab !! Z.to_nat i0) as [d0|] eqn:E0; [|discriminate].
  destruct (tab !! Z.to_nat i1) as [d1|] eqn:E1; [|discriminate].
  destruct (tab !! Z.to_nat i2) as [d2|] eqn:E2; [|discriminate].
  apply lookup_lt_Some in E0, E1, E2. unfold VertDef in *. lia.
Qed.

Lemma tree_in_faces (nMaps : Z) (tab : list VertDef) :
  forall t : Bsp.BSPTree,
    tree_in nMaps tab t ->
    Forall (face_valid nMaps (Z.of_nat (length tab))) (tree_faces t) /\
    counts_ok t.
Proof.
  induction t as [|numTri triDefs partPlane back IHb front IHf];
    [split; [constructor|exact I]|].
  cbn [tree_in tree_faces counts_ok].
  intros (H1 & H2 & H3 & H4 & H5 & H6).
  destruct (IHb H5) as [Fb Cb]. destruct (IHf H6) as [Ff Cf].
  split; [|auto]. rewrite !Forall_app.
  split; [|auto].
  eapply Forall_impl; [exact H3|]. intros x. apply face_in_valid.
Qed.

(** X14.  The data [GenBSPTreeData] returns, for [nMaps] textures and
    arrays of [GLfloat]s.  Every triangle of the tree names one of the
    [nMaps] textures and three of the [nVertices] vertex definitions; in
    every node [numTri] is the number of triangles of the node, and a node
    with triangles has the plane of its first triangle, computed from the
    positions in [vertCoords]; [vertCoords] holds three numbers and
    [texCoords] two for each of the [nVertices] definitions; there is a
    counter for every texture, and the names are the first [nMaps] names
    passed. *)
Theorem GenBSPTreeData_indices
  (heap : nat -> nat -> Z) (uninit : nat -> nat -> Bsp.Vec3) (fuel : nat)
  (nTri : Z) (triVerts : list GLfloat) (texIndices : list Z)
  (triTexCoords : list GLfloat) (nMaps : Z) (texMapNames : list (list byte))
  (d : Bsp.BSPTreeData) :
  is_u16 nMaps ->
  Forall is_float triVerts -> Forall is_float triTexCoords ->
  (forall c k, vec3_floats (uninit c k)) ->
  Bsp.GenBSPTreeData heap uninit fuel nTri triVerts texIndices triTexCoords
                     nMaps texMapNames = Done d ->
  Forall (face_valid (Bsp.nMaps d) (Bsp.nVertices d))
         (tree_faces (Bsp.bspTree d)) /\
  counts_ok (Bsp.bspTree d) /\
  planes_consistent (Bsp.vertCoords d) (Bsp.bspTree d) /\
  length (Bsp.vertCoords d) = Z.to_nat (3 * Bsp.nVertices d) /\
  length (Bsp.texCoords d) = Z.to_nat (2 * Bsp.nVertices d) /\
  Bsp.nMaps d = nMaps /\
  length (Bsp.mapTriNums d) = Z.to_nat nMaps /\
  Bsp.mapNames d = take (Z.to_nat nMaps) texMapNames.
Proof.
  intros HnM Hv Ht Hu H.
  destruct (GenBSPTreeData_built _ _ _ _ _ _ _ _ _ _ HnM Hv Ht Hu H)
    as (tab & Hlt & Hfl & EnV & Evc & Etc & Hin & Hne & EnM & Enames & Hlen
        & Hml & Hm32 & Hbox & Hmax & Hnodes & HnumTri & Htotal & Hcounted & Hinside).
  destruct (tree_in_tree_ok _ _ _ Hin) as [Hok Hcons].
  destruct (tree_in_faces _ _ _ Hin) as [Hfaces Hcounts].
  rewrite EnM, EnV, Evc, Etc.
  split; [exact Hfaces|]. split; [exact Hcounts|]. split; [exact Hcons|].
  split; [rewrite length_table_vertCoords; lia|].
  split; [rewrite length_table_texCoords; lia|].
  split; [reflexivity|]. split; [exact Hml|exact Enames].
Qed.

(** X15.  What [GenBSPTreeData] returns for [nMaps] textures whose names
    have at most 255 characters is written by [SaveBSPTreeData], and
    [LoadBSPTreeData] reads the bytes written back as the same data. *)
Theorem GenBSPTreeData_save_load
  (heap : nat -> nat -> Z) (uninit : nat -> nat -> Bsp.Vec3) (fuel : nat)
  (nTri : Z) (triVerts : list GLfloat) (texIndices : list Z)
  (triTexCoords : list GLfloat) (nMaps : Z) (texMapNames : list (list byte))
  (d : Bsp.BSPTreeData) :
  is_u16 nMaps -> Forall name_ok texMapNames ->
  Forall is_float triVerts -> Forall is_float triTexCoords ->
  (forall c k, vec3_floats (uninit c k)) ->
  Bsp.GenBSPTreeData heap uninit fuel nTri triVerts texIndices triTexCoords
                     nMaps texMapNames = Done d ->
  exists bytes : list byte,
    Bsp.SaveBSPTreeData (Some d) = Done bytes /\
    forall (fuel' : nat) (rest : list byte) (j : nat -> byte) (k : nat),
      (depth (Bsp.bspTree d) <= fuel')%nat ->
      Bsp.LoadBSPTreeData fuel' (mkFILE (bytes ++ rest) j k) = Done (Some d).
Proof.
  intros HnM Hnames Hv Ht Hu H.
  destruct (GenBSPTreeData_wf_bsp _ _ _ _ _ _ _ _ _ _ HnM Hnames Hv Ht Hu H)
    as [Hwf Hcons].
  destruct (BSP_roundtrip_wf d Hwf) as (bytes & Hs & Hl).
  exists bytes. split; [exact Hs|]. intros fuel' rest j k Hfuel.
  rewrite (Hl fuel' rest j k Hfuel), (reloaded_consistent _ _ Hcons).
  destruct d. reflexivity.
Qed.

Lemma crossing_input_floats :
  Forall is_float crossing_triVerts /\ Forall is_float crossing_triTexCoords /\
  (forall c k, vec3_floats (sample_uninit c k)) /\ is_u16 1.
Proof.
  split; [repeat constructor; unfold is_float; lia|].
  split; [repeat constructor; unfold is_float; lia|].
  split; [|unfold is_u16; lia].
  intros c k. unfold vec3_floats, sample_uninit, is_float. cbn [fst snd]. lia.
Qed.

Lemma GenBSPTreeData_indices_witness :
  exists d : Bsp.BSPTreeData,
    Bsp.GenBSPTreeData sample_heap sample_uninit 4 2 crossing_triVerts [0; 0]
                       crossing_triTexCoords 1 [name_ab] = Done d /\
    Forall (face_valid (Bsp.nMaps d) (Bsp.nVertices d))
           (tree_faces (Bsp.bspTree d)) /\
    counts_ok (Bsp.bspTree d) /\
    planes_consistent (Bsp.vertCoords d) (Bsp.bspTree d) /\
    length (Bsp.vertCoords d) = Z.to_nat (3 * Bsp.nVertices d) /\
    length (Bsp.texCoords d) = Z.to_nat (2 * Bsp.nVertices d) /\
    Bsp.nMaps d = 1 /\
    length (Bsp.mapTriNums d) = Z.to_nat 1 /\
    Bsp.mapNames d = take (Z.to_nat 1) [name_ab].
Proof.
  destruct crossing_input_floats as (Hv & Ht & Hu & Hn).
  eexists. split; [vm_compute; reflexivity|].
  eapply (GenBSPTreeData_indices sample_heap sample_uninit 4%nat 2
            crossing_triVerts [0; 0] crossing_triTexCoords 1 [name_ab]
            _ Hn Hv Ht Hu).
  vm_compute. reflexivity.
Defined.

Lemma GenBSPTreeData_save_load_witness :
  exists (d : Bsp.BSPTreeData) (bytes : list byte),
    Bsp.GenBSPTreeData sample_heap sample_uninit 4 2 crossing_triVerts [0; 0]
                       crossing_triTexCoords 1 [name_ab] = Done d /\
    Bsp.SaveBSPTreeData (Some d) = Done bytes /\
    forall (fuel' : nat) (rest : list byte) (j : nat -> byte) (k : nat),
      (depth (Bsp.bspTree d) <= fuel')%nat ->
      Bsp.LoadBSPTreeData fuel' (mkFILE (bytes ++ rest) j k) = Done (Some d).
Proof.
  destruct crossing_input_floats as (Hv & Ht & Hu & Hn).
  assert (Hnames : Forall name_ok [name_ab])
    by (constructor; [exact name_ok_ab|constructor]).
  eexists.
  assert (Hrun :
    Bsp.GenBSPTreeData sample_heap sample_uninit 4 2 crossing_triVerts [0; 0]
                       crossing_triTexCoords 1 [name_ab] = Done _)
    by (vm_compute; reflexivity).
  destruct (GenBSPTreeData_save_load sample_heap sample_uninit 4%nat 2
              crossing_triVerts [0; 0] crossing_triTexCoords 1 [name_ab]
              _ Hn Hnames Hv Ht Hu Hrun) as (bytes & Hs & Hl).
  exists bytes. split; [exact Hrun|]. split; [exact Hs|exact Hl].
Defined.

(** X16.  In the data [GenBSPTreeData] returns, [numTri] is the number of
    triangles of the tree in 32 bits, and the counter of every texture in
    [mapTriNums] is the number of triangles of the tree with that texture,
    in 32 bits. *)
Theorem GenBSPTreeData_counts
  (heap : nat -> nat -> Z) (uninit : nat -> nat -> Bsp.Vec3) (fuel : nat)
  (nTri : Z) (triVerts : list GLfloat) (texIndices : list Z)
  (triTexCoords : list GLfloat) (nMaps : Z) (texMapNames : list (list byte))
  (d : Bsp.BSPTreeData) :
  is_u16 nMaps ->
  Forall is_float triVerts -> Forall is_float triTexCoords ->
  (forall c k, vec3_floats (uninit c k)) ->
  Bsp.GenBSPTreeData heap uninit fuel nTri triVerts texIndices triTexCoords
                     nMaps texMapNames = Done d ->
  Bsp.numTri d = to_Uint32 (Z.of_nat (length (tree_faces (Bsp.bspTree d)))) /\
  forall i : Z,
    0 <= i < nMaps ->
    Bsp.mapTriNums d !! Z.to_nat i
    = Some (to_Uint32 (occ i (map Bsp.texIndex (tree_faces (Bsp.bspTree d))))).
Proof.
  intros HnM Hv Ht Hu H.
  destruct (GenBSPTreeData_built _ _ _ _ _ _ _ _ _ _ HnM Hv Ht Hu H)
    as (tab & Hlt & Hfl & EnV & Evc & Etc & Hin & Hne & EnM & Enames & Hlen
        & Hml & Hm32 & Hbox & Hmax & Hnodes & HnumTri & Htotal & Hcounted & Hinside).
  split; [exact Htotal|]. intros i Hi.
  destruct Hcounted as [_ Hc].
  destruct (Hc (Z.to_nat i) 0) as (c' & Hl & Ec).
  { apply lookup_replicate_2. lia. }
  rewrite Hl. f_equal.
  pose proof (Forall_lookup_1 _ _ _ _ Hm32 Hl) as Hr.
  rewrite <- (to_Uint32_small c') by exact Hr.
  rewrite Ec, Z2Nat.id by lia. reflexivity.
Qed.

Lemma GenBSPTreeData_counts_witness :
  exists d : Bsp.BSPTreeData,
    Bsp.GenBSPTreeData sample_heap sample_uninit 4 2 crossing_triVerts [0; 0]
                       crossing_triTexCoords 1 [name_ab] = Done d /\
    Bsp.numTri d
    = to_Uint32 (Z.of_nat (length (tree_faces (Bsp.bspTree d)))) /\
    forall i : Z,
      0 <= i < 1 ->
      Bsp.mapTriNums d !! Z.to_nat i
      = Some (to_Uint32
                (occ i (map Bsp.texIndex (tree_faces (Bsp.bspTree d))))).
Proof.
  destruct crossing_input_floats as (Hv & Ht & Hu & Hn).
  eexists. split; [vm_compute; reflexivity|].
  eapply (GenBSPTreeData_counts sample_heap sample_uninit 4%nat 2
            crossing_triVerts [0; 0] crossing_triTexCoords 1 [name_ab]
            _ Hn Hv Ht Hu).
  vm_compute. reflexivity.
Defined.

(** X17.  In the data [GenBSPTreeData] returns, no coordinate of a vertex
    definition compares below the minimum or above the maximum the data
    gives for that coordinate. *)
Theorem GenBSPTreeData_bounding_box
  (heap : nat -> nat -> Z) (uninit : nat -> nat -> Bsp.Vec3) (fuel : nat)
  (nTri : Z) (triVerts : list GLfloat) (texIndices : list Z)
  (triTexCoords : list GLfloat) (nMaps : Z) (texMapNames : list (list byte))
  (d : Bsp.BSPTreeData) :
  is_u16 nMaps ->
  Forall is_float triVerts -> Forall is_float triTexCoords ->
  (forall c k, vec3_floats (uninit c k)) ->
  Bsp.GenBSPTreeData heap uninit fuel nTri triVerts texIndices triTexCoords
                     nMaps texMapNames = Done d ->
  forall i : Z,
    0 <= i < Bsp.nVertices d ->
    exists p : Bsp.Vec3,
      Bsp.vertex_def (Bsp.vertCoords d) i = Done p /\
      inside (Bsp.minX d) (Bsp.maxX d) (Bsp.minY d) (Bsp.maxY d)
             (Bsp.minZ d) (Bsp.maxZ d) p.
Proof.
  intros HnM Hv Ht Hu H i Hi.
  destruct (GenBSPTreeData_built _ _ _ _ _ _ _ _ _ _ HnM Hv Ht Hu H)
    as (tab & Hlt & Hfl & EnV & Evc & Etc & Hin & Hne & EnM & Enames & Hlen
        & Hml & Hm32 & Hbox & Hmax & Hnodes & HnumTri & Htotal & Hcounted
        & Hinside).
  rewrite EnV in Hi.
  destruct (lookup_lt_is_Some_2 tab (Z.to_nat i) ltac:(lia)) as [x Hx].
  exists (fst x). split.
  - rewrite Evc. apply vertex_def_table; [unfold is_u16; lia|exact Hx].
  - exact (Forall_lookup_1 _ _ _ _ Hinside Hx).
Qed.

Lemma GenBSPTreeData_bounding_box_witness :
  exists d : Bsp.BSPTreeData,
    Bsp.GenBSPTreeData sample_heap sample_uninit 4 2 crossing_triVerts [0; 0]
                       crossing_triTexCoords 1 [name_ab] = Done d /\
    forall i : Z,
      0 <= i < Bsp.nVertices d ->
      exists p : Bsp.Vec3,
        Bsp.vertex_def (Bsp.vertCoords d) i = Done p /\
        inside (Bsp.minX d) (Bsp.maxX d) (Bsp.minY d) (Bsp.maxY d)
               (Bsp.minZ d) (Bsp.maxZ d) p.
Proof.
  destruct crossing_input_floats as (Hv & Ht & Hu & Hn).
  eexists. split; [vm_compute; reflexivity|].
  eapply (GenBSPTreeData_bounding_box sample_heap sample_uninit 4%nat 2
            crossing_triVerts [0; 0] crossing_triTexCoords 1 [name_ab]
            _ Hn Hv Ht Hu).
  vm_compute. reflexivity.
Defined.


(** ** Triangles with two equal corners *)

Section ZeroOrNaN.
Variables prec emax : Z.

Lemma SFsub_self (x : spec_float) : zero_or_nan (SFsub prec emax x x).
Proof.
  destruct x as [s|s| |s m e]; cbn [SFsub zero_or_nan]; try exact I.
  - destruct s; exact I.
  - destruct s; exact I.
  - rewrite Z.sub_diag. exact I.
Qed.

Lemma SFsub_zero_or_nan (x y : spec_float) :
  zero_or_nan x -> zero_or_nan y -> zero_or_nan (SFsub prec emax x y).
Proof.
  destruct x as [s|s| |s m e], y as [s'|s'| |s' m' e']; cbn [zero_or_nan];
    try contradiction; intros _ _; cbn [SFsub zero_or_nan]; try exact I.
  destruct s, s'; exact I.
Qed.

Lemma SFadd_zero_or_nan (x y : spec_float) :
  zero_or_nan x -> zero_or_nan y -> zero_or_nan (SFadd prec emax x y).
Proof.
  destruct x as [s|s| |s m e], y as [s'|s'| |s' m' e']; cbn [zero_or_nan];
    try contradiction; intros _ _; cbn [SFadd zero_or_nan]; try exact I.
  destruct s, s'; exact I.
Qed.

Lemma SFmul_zero_or_nan_l (x y : spec_float) :
  zero_or_nan x -> zero_or_nan (SFmul prec emax x y).
Proof.
  destruct x as [s|s| |s m e], y as [s'|s'| |s' m' e']; cbn [zero_or_nan];
    try contradiction; intros _; exact I.
Qed.

Lemma SFmul_zero_or_nan_r (x y : spec_float) :
  zero_or_nan y -> zero_or_nan (SFmul prec emax x y).
Proof.
  destruct x as [s|s| |s m e], y as [s'|s'| |s' m' e']; cbn [zero_or_nan];
    try contradiction; intros _; exact I.
Qed.

Lemma SFsqrt_zero_or_nan (x : spec_float) :
  zero_or_nan x -> zero_or_nan (SFsqrt prec emax x).
Proof.
  destruct x as [s|s| |s m e]; cbn [zero_or_nan]; try contradiction;
    intros _; exact I.
Qed.

Lemma SFmul_comm (x y : spec_float) : SFmul prec emax x y = SFmul prec emax y x.
Proof.
  destruct x as [s|s| |s m e], y as [s'|s'| |s' m' e']; cbn [SFmul];
    try reflexivity; try (rewrite xorb_comm; reflexivity).
  rewrite xorb_comm, Pos.mul_comm, Z.add_comm. reflexivity.
Qed.

End ZeroOrNaN.

Lemma F64_decode_encode (x : spec_float) :
  zero_or_nan x -> F64.decode (F64.encode x) = x.
Proof.
  destruct x as [s|s| |s m e]; cbn [zero_or_nan]; try contradiction; intros _.
  - destruct s; vm_compute; reflexivity.
  - vm_compute. reflexivity.
Qed.

Lemma no_length_sub_self (a : GLdouble) : no_length (F64.sub a a).
Proof.
  unfold no_length, F64.sub, IEEE.sub. fold F64.encode.
  rewrite F64_decode_encode; apply SFsub_self.
Qed.

Lemma no_length_sub (a b : GLdouble) :
  no_length a -> no_length b -> no_length (F64.sub a b).
Proof.
  unfold no_length, F64.sub, IEEE.sub. fold F64.encode F64.decode.
  intros Ha Hb. rewrite F64_decode_encode; apply SFsub_zero_or_nan; assumption.
Qed.

Lemma no_length_add (a b : GLdouble) :
  no_length a -> no_length b -> no_length (F64.add a b).
Proof.
  unfold no_length, F64.add, IEEE.add. fold F64.encode F64.decode.
  intros Ha Hb. rewrite F64_decode_encode; apply SFadd_zero_or_nan; assumption.
Qed.

Lemma no_length_mul_l (a b : GLdouble) : no_length a -> no_length (F64.mul a b).
Proof.
  unfold no_length, F64.mul, IEEE.mul. fold F64.encode F64.decode.
  intros Ha. rewrite F64_decode_encode; apply SFmul_zero_or_nan_l; assumption.
Qed.

Lemma no_length_mul_r (a b : GLdouble) : no_length b -> no_length (F64.mul a b).
Proof.
  unfold no_length, F64.mul, IEEE.mul. fold F64.encode F64.decode.
  intros Hb. rewrite F64_decode_encode; apply SFmul_zero_or_nan_r; assumption.
Qed.

Lemma no_length_sqrt (a : GLdouble) : no_length a -> no_length (F64.sqrt a).
Proof.
  unfold no_length, F64.sqrt, IEEE.sqrt. fold F64.encode F64.decode.
  intros Ha. rewrite F64_decode_encode; apply SFsqrt_zero_or_nan; assumption.
Qed.

Lemma no_length_d_zero : no_length d_zero.
Proof. vm_compute. exact I. Qed.

Lemma F64_mul_comm (a b : GLdouble) : F64.mul a b = F64.mul b a.
Proof. unfold F64.mul, IEEE.mul. rewrite SFmul_comm. reflexivity. Qed.

Lemma no_length_cross_self (a b : GLdouble) :
  no_length (F64.sub (F64.mul a b) (F64.mul b a)).
Proof. rewrite (F64_mul_comm b a). apply no_length_sub_self. Qed.

Lemma no_length_not_gt (w : GLdouble) :
  no_length w -> F64.gtb w DBL_EPSILON = false.
Proof.
  unfold no_length, F64.gtb, IEEE.gtb, IEEE.ltb. fold F64.decode.
  destruct (F64.decode w) as [s|s| |s m e]; cbn [zero_or_nan];
    try contradiction; intros _.
  - vm_compute. reflexivity.
  - replace (F64.decode DBL_EPSILON)
      with (S754_finite false 4503599627370496 (-104))
      by (vm_compute; reflexivity).
    reflexivity.
Qed.

Lemma normal_no_length (N0 N1 N2 : GLdouble) :
  no_length N0 -> no_length N1 -> no_length N2 ->
  F64.gtb (F64.sqrt (F64.add (F64.add (F64.add d_zero (F64.mul N0 N0))
                                      (F64.mul N1 N1))
                             (F64.mul N2 N2)))
          DBL_EPSILON = false.
Proof.
  intros H0 H1 H2. apply no_length_not_gt, no_length_sqrt.
  apply no_length_add; [|apply no_length_mul_l; exact H2].
  apply no_length_add; [|apply no_length_mul_l; exact H1].
  apply no_length_add; [|apply no_length_mul_l; exact H0].
  apply no_length_d_zero.
Qed.

(** X18.  [GetPlaneForTri] finds no plane, and leaves the plane it is given
    untouched, for every triangle two of whose corners are the same point,
    whatever the coordinates are (infinities and NaNs included). *)
Theorem GetPlaneForTri_degenerate (a b : Bsp.Vec3) :
  Bsp.GetPlaneForTri (a, a, b) = None /\
  Bsp.GetPlaneForTri (a, b, a) = None /\
  Bsp.GetPlaneForTri (b, a, a) = None.
Proof.
  destruct a as [[a0 a1] a2], b as [[b0 b1] b2].
  unfold Bsp.GetPlaneForTri. cbv zeta.
  generalize (to_double a0) (to_double a1) (to_double a2)
             (to_double b0) (to_double b1) (to_double b2).
  intros x0 x1 x2 y0 y1 y2.
  split; [|split]; rewrite normal_no_length; try reflexivity.
  1-3: apply no_length_sub; apply no_length_mul_l; apply no_length_sub_self.
  1-3: apply no_length_sub; apply no_length_mul_r; apply no_length_sub_self.
  1-3: apply no_length_cross_self.
Qed.


(** ** GLD2BSP: what main writes *)

Lemma convert_corner_floats (g : Gld.GLData) (row : list Z) (j k n : Z)
  (s s' : list GLfloat * list GLfloat) :
  Forall is_float (Gld.vertCoords g) -> Forall is_float (Gld.texCoords g) ->
  Gld2bsp.convert_corner g row j k n s = Done s' ->
  Forall is_float (fst s) /\ Forall is_float (snd s) ->
  Forall is_float (fst s') /\ Forall is_float (snd s').
Proof.
  intros Hv Ht H [Fv Ft]. destruct s as [tv tc]. cbn [fst snd] in Fv, Ft.
  unfold Gld2bsp.convert_corner in H.
  step H vIndex Hi.
  step H x Hx. step H tv1 S1. step H y Hy. step H tv2 S2.
  step H z Hz. step H tv3 S3. step H u Hu. step H tc1 S4.
  step H v Hw. step H tc2 S5. inv_outcome H.
  apply load_Done in Hx, Hy, Hz, Hu, Hw.
  destruct Hx as [_ Hx], Hy as [_ Hy], Hz as [_ Hz], Hu as [_ Hu],
    Hw as [_ Hw].
  apply store_Done in S1, S2, S3, S4, S5.
  destruct S1 as [_ ->], S2 as [_ ->], S3 as [_ ->], S4 as [_ ->],
    S5 as [_ ->].
  pose proof (Forall_lookup_1 _ _ _ _ Hv Hx) as Fx.
  pose proof (Forall_lookup_1 _ _ _ _ Hv Hy) as Fy.
  pose proof (Forall_lookup_1 _ _ _ _ Hv Hz) as Fz.
  pose proof (Forall_lookup_1 _ _ _ _ Ht Hu) as Fu.
  pose proof (Forall_lookup_1 _ _ _ _ Ht Hw) as Fw.
  cbn [fst snd]. split; repeat apply Forall_insert; assumption.
Qed.

Lemma convert_tri_floats (g : Gld.GLData) (i : Z) (row : list Z) (j : Z)
  (a a' : Gld2bsp.Arrays) :
  Forall is_float (Gld.vertCoords g) -> Forall is_float (Gld.texCoords g) ->
  Gld2bsp.convert_tri g i row j a = Done a' ->
  Forall is_float (Gld2bsp.triVerts a) /\
  Forall is_float (Gld2bsp.triTexCoords a) ->
  Forall is_float (Gld2bsp.triVerts a') /\
  Forall is_float (Gld2bsp.triTexCoords a').
Proof.
  intros Hv Ht H F. unfold Gld2bsp.convert_tri in H.
  step H ti Hs. step H s0 H0. step H s1 H1. step H s2 H2. inv_outcome H.
  cbn [Gld2bsp.triVerts Gld2bsp.triTexCoords].
  apply (convert_corner_floats g _ _ _ _ _ _ Hv Ht) in H0; [|exact F].
  apply (convert_corner_floats g _ _ _ _ _ _ Hv Ht) in H1; [|exact H0].
  exact (convert_corner_floats g _ _ _ _ _ _ Hv Ht H2 H1).
Qed.

Lemma convert_tris_floats (g : Gld.GLData) (i : Z) (row : list Z) :
  Forall is_float (Gld.vertCoords g) -> Forall is_float (Gld.texCoords g) ->
  forall (todo : nat) (j : Z) (a a' : Gld2bsp.Arrays),
    Gld2bsp.convert_tris g i row todo j a = Done a' ->
    Forall is_float (Gld2bsp.triVerts a) /\
    Forall is_float (Gld2bsp.triTexCoords a) ->
    Forall is_float (Gld2bsp.triVerts a') /\
    Forall is_float (Gld2bsp.triTexCoords a').
Proof.
  intros Hv Ht. induction todo as [|todo IH]; intros j a a' H F.
  - cbn [Gld2bsp.convert_tris] in H. inv_outcome H. exact F.
  - cbn [Gld2bsp.convert_tris] in H. step H a1 H1.
    apply (convert_tri_floats g _ _ _ _ _ Hv Ht) in H1; [|exact F].
    eapply IH; eassumption.
Qed.

Lemma convert_maps_floats (g : Gld.GLData) :
  Forall is_float (Gld.vertCoords g) -> Forall is_float (Gld.texCoords g) ->
  forall (todo : nat) (i : Z) (a a' : Gld2bsp.Arrays),
    Gld2bsp.convert_maps g todo i a = Done a' ->
    Forall is_float (Gld2bsp.triVerts a) /\
    Forall is_float (Gld2bsp.triTexCoords a) ->
    Forall is_float (Gld2bsp.triVerts a') /\
    Forall is_float (Gld2bsp.triTexCoords a').
Proof.
  intros Hv Ht. induction todo as [|todo IH]; intros i a a' H F.
  - cbn [Gld2bsp.convert_maps] in H. inv_outcome H. exact F.
  - cbn [Gld2bsp.convert_maps] in H.
    step H row Hr. step H n Hn. step H a1 H1.
    apply (convert_tris_floats g _ _ Hv Ht) in H1; [|exact F].
    eapply IH; eassumption.
Qed.

Lemma BuildBSPTree_depth (uninit : nat -> nat -> Bsp.Vec3) :
  forall (fuel : nat) (triList : list Bsp.BSPTriNode) (st st' : Bsp.BuildState)
         (node : Bsp.IntBSPTreeNode),
    Bsp.BuildBSPTree uninit fuel triList st = Done (node, st') ->
    int_depth node <= Z.of_nat fuel.
Proof.
  induction fuel as [|fuel IH]; intros triList st st' node H;
    [discriminate H|].
  cbn [Bsp.BuildBSPTree] in H. cbv zeta in H.
  destruct (Bsp.SelectNextRoot triList) as [[rootTri|] restOfList];
    [|discriminate H].
  step H pc Hd. destruct pc as [parts calls]. clear Hd.
  step H fs Hfront. destruct fs as [front st1].
  step H bs Hback. destruct bs as [back st2].
  inv_outcome H. cbn [int_depth].
  assert (F : int_depth front <= Z.of_nat fuel).
  { destruct (Bsp.p_frontList parts).
    - inv_outcome Hfront. cbn [int_depth]. lia.
    - eapply IH. exact Hfront. }
  assert (B : int_depth back <= Z.of_nat fuel).
  { destruct (Bsp.p_backList parts).
    - inv_outcome Hback. cbn [int_depth]. lia.
    - eapply IH. exact Hback. }
  lia.
Qed.

Lemma GenBSPTreeData_depth
  (heap : nat -> nat -> Z) (uninit : nat -> nat -> Bsp.Vec3) (fuel : nat)
  (nTri : Z) (triVerts : list GLfloat) (texIndices : list Z)
  (triTexCoords : list GLfloat) (nMaps : Z) (texMapNames : list (list byte))
  (d : Bsp.BSPTreeData) :
  Bsp.GenBSPTreeData heap uninit fuel nTri triVerts texIndices triTexCoords
                     nMaps texMapNames = Done d ->
  (depth (Bsp.bspTree d) <= fuel)%nat.
Proof.
  intros H. unfold Bsp.GenBSPTreeData in H.
  step H names Hnames. step H triList Hlist.
  step H ts Hbuild. destruct ts as [genBSPTree st].
  step H tg Hconv. destruct tg as [tree g].
  step H vt Hcopy. destruct vt as [vc tc].
  inv_outcome H. cbn [Bsp.bspTree].
  destruct (ConvIntBSPTree_shape _ _ _ _ Hconv) as [_ Hd].
  pose proof (BuildBSPTree_depth _ _ _ _ _ _ Hbuild). lia.
Qed.

(** X19.  [main] of GLD2BSP on a stream [LoadGLData] reads a mesh from:
    when the loop that fills the three arrays returns and
    [GenBSPTreeData] returns tree data for them, [main] writes the bytes
    [SaveBSPTreeData] gives for these data, its check that the file can be
    read back succeeds, it returns [EXIT_SUCCESS], and [LoadBSPTreeData]
    reads the file as the tree data that were generated. *)
Theorem gld2bsp_main
  (fresh heap : nat -> nat -> Z) (uninit : nat -> nat -> Bsp.Vec3)
  (junk : nat -> byte) (fuel : nat) (inFile : FILE)
  (inModel : Gld.GLData) (a : Gld2bsp.Arrays) (d : Bsp.BSPTreeData) :
  (forall c k, vec3_floats (uninit c k)) ->
  Gld.LoadGLData inFile = Done (Some inModel) ->
  Gld2bsp.convert_maps inModel (Z.to_nat (Gld.nMaps inModel)) 0
    (Gld2bsp.allocate fresh (Gld.numTri inModel)) = Done a ->
  Bsp.GenBSPTreeData heap uninit fuel (Gld.numTri inModel)
    (Gld2bsp.triVerts a) (Gld2bsp.texIndices a) (Gld2bsp.triTexCoords a)
    (Gld.nMaps inModel) (Gld.mapNames inModel) = Done d ->
  exists bytes : list byte,
    Bsp.SaveBSPTreeData (Some d) = Done bytes /\
    Gld2bsp.main fresh heap uninit junk fuel inFile = Done bytes /\
    forall (fuel' : nat) (rest : list byte) (j : nat -> byte) (k : nat),
      (depth (Bsp.bspTree d) <= fuel')%nat ->
      Bsp.LoadBSPTreeData fuel' (mkFILE (bytes ++ rest) j k) = Done (Some d).
Proof.
  intros Hu Hload Hconv Hgen.
  destruct (LoadGLData_loaded _ _ Hload)
    as ((HnM & _ & _ & _ & _ & _ & _ & Hfv & Hft & _) & _ & Hnames).
  assert (Hfl : Forall is_float (Gld2bsp.triVerts a) /\
                Forall is_float (Gld2bsp.triTexCoords a)).
  { apply (convert_maps_floats inModel Hfv Hft _ _ _ _ Hconv).
    unfold Gld2bsp.allocate. cbn [Gld2bsp.triVerts Gld2bsp.triTexCoords].
    split; apply Forall_malloc; intros c; apply to_Uint32_range. }
  destruct Hfl as [Fv Ft].
  destruct (GenBSPTreeData_wf_bsp _ _ _ _ _ _ _ _ _ _ HnM Hnames Fv Ft Hu Hgen)
    as [Hwf Hcons].
  destruct (BSP_roundtrip_wf d Hwf) as (bytes & Hs & Hl).
  assert (Hback : forall (fuel' : nat) (rest : list byte) (j : nat -> byte)
                         (k : nat),
             (depth (Bsp.bspTree d) <= fuel')%nat ->
             Bsp.LoadBSPTreeData fuel' (mkFILE (bytes ++ rest) j k)
             = Done (Some d)).
  { intros fuel' rest j k Hfuel.
    rewrite (Hl fuel' rest j k Hfuel), (reloaded_consistent _ _ Hcons).
    destruct d. reflexivity. }
  exists bytes. split; [exact Hs|]. split; [|exact Hback].
  unfold Gld2bsp.main. rewrite Hload. cbn [mbind outcome_bind].
  rewrite Hconv. cbn [mbind outcome_bind].
  rewrite Hgen. cbn [mbind outcome_bind].
  rewrite Hs. cbn [mbind outcome_bind].
  rewrite <- (app_nil_r bytes) at 1.
  rewrite (Hback fuel [] junk 0%nat (GenBSPTreeData_depth _ _ _ _ _ _ _ _ _ _ Hgen)).
  reflexivity.
Qed.

Lemma gld2bsp_main_witness :
  exists (d : Bsp.BSPTreeData) (bytes : list byte),
    Bsp.SaveBSPTreeData (Some d) = Done bytes /\
    Gld2bsp.main sample_heap sample_heap sample_uninit no_bytes 4
                 (mkFILE unit_mesh_stream no_bytes 0) = Done bytes /\
    forall (fuel' : nat) (rest : list byte) (j : nat -> byte) (k : nat),
      (depth (Bsp.bspTree d) <= fuel')%nat ->
      Bsp.LoadBSPTreeData fuel' (mkFILE (bytes ++ rest) j k) = Done (Some d).
Proof.
  assert (Hu : forall c k, vec3_floats (sample_uninit c k)).
  { intros c k. unfold vec3_floats, sample_uninit, is_float. cbn [fst snd].
    lia. }
  assert (Hl : Gld.LoadGLData (mkFILE unit_mesh_stream no_bytes 0)
               = Done (Some unit_mesh)) by (vm_compute; reflexivity).
  assert (Hc : Gld2bsp.convert_maps unit_mesh
                 (Z.to_nat (Gld.nMaps unit_mesh)) 0
                 (Gld2bsp.allocate sample_heap (Gld.numTri unit_mesh))
               = Done (Gld2bsp.mkArrays unit_triVerts [0] unit_triTexCoords 1))
    by (vm_compute; reflexivity).
  eassert (Hg : Bsp.GenBSPTreeData sample_heap sample_uninit 4
                  (Gld.numTri unit_mesh) unit_triVerts [0] unit_triTexCoords
                  (Gld.nMaps unit_mesh) (Gld.mapNames unit_mesh)
                = Done _) by (vm_compute; reflexivity).
  destruct (gld2bsp_main sample_heap sample_heap sample_uninit no_bytes 4%nat
              (mkFILE unit_mesh_stream no_bytes 0) unit_mesh
              (Gld2bsp.mkArrays unit_triVerts [0] unit_triTexCoords 1)
              _ Hu Hl Hc Hg) as (bytes & Hs & Hm & Hb).
  eexists. exists bytes. split; [exact Hs|]. split; [exact Hm|exact Hb].
Defined.

(** ** GLD2BSP: the loop that fills the arrays *)

Lemma load_cell (l : list Z) (n : Z) :
  0 <= n < Z.of_nat (length l) -> load l n = Done (cell l n).
Proof.
  intros H. apply load_Done. split; [lia|]. unfold cell.
  destruct (lookup_lt_is_Some_2 l (Z.to_nat n) ltac:(lia)) as [x Hx].
  rewrite Hx. reflexivity.
Qed.

Lemma store_ok {X} (l : list X) (n : Z) (v : X) :
  0 <= n < Z.of_nat (length l) -> store l n v = Done (<[Z.to_nat n := v]> l).
Proof. intros H. apply store_Done. split; [exact H|reflexivity]. Qed.

Lemma convert_corner_spec (g : Gld.GLData) (row : list Z) (j : Z)
  (kn c N : nat) (tv tc : list GLfloat) :
  (kn <= 2)%nat -> 9 * Z.of_nat N < 2 ^ 32 -> (c < N)%nat ->
  length tv = (9 * N)%nat -> length tc = (6 * N)%nat ->
  0 <= j -> 3 * j + 2 < 2 ^ 32 ->
  3 * j + Z.of_nat kn < Z.of_nat (length row) ->
  0 <= cell row (3 * j + Z.of_nat kn) < Gld.nVertices g ->
  3 * Gld.nVertices g <= Z.of_nat (length (Gld.vertCoords g)) ->
  2 * Gld.nVertices g <= Z.of_nat (length (Gld.texCoords g)) ->
  exists tv' tc' : list GLfloat,
    Gld2bsp.convert_corner g row j (Z.of_nat kn) (Z.of_nat c) (tv, tc)
    = Done (tv', tc') /\
    length tv' = (9 * N)%nat /\ length tc' = (6 * N)%nat /\
    take (9 * c + 3 * kn + 3) tv'
    = take (9 * c + 3 * kn) tv ++ corner_verts g row j (Z.of_nat kn) /\
    take (6 * c + 2 * kn + 2) tc'
    = take (6 * c + 2 * kn) tc ++ corner_tex g row j (Z.of_nat kn).
Proof.
  intros Hk HN Hc Lv Lt Hj Hj3 Hrow Hv Hvc Htc.
  unfold Gld2bsp.convert_corner, corner_verts, corner_tex. cbv zeta.
  set (v := cell row (3 * j + Z.of_nat kn)) in *.
  rewrite (to_Uint32_small (3 * j + Z.of_nat kn)) by lia.
  rewrite (load_cell row) by lia. cbn [mbind outcome_bind]. fold v.
  rewrite !to_Uint32_small by lia.
  rewrite (load_cell (Gld.vertCoords g) (3 * v + 0)) by lia.
  cbn [mbind outcome_bind].
  rewrite store_ok by lia. cbn [mbind outcome_bind].
  rewrite (load_cell (Gld.vertCoords g) (3 * v + 1)) by lia.
  cbn [mbind outcome_bind].
  rewrite store_ok by (rewrite !length_insert; lia). cbn [mbind outcome_bind].
  rewrite (load_cell (Gld.vertCoords g) (3 * v + 2)) by lia.
  cbn [mbind outcome_bind].
  rewrite store_ok by (rewrite !length_insert; lia). cbn [mbind outcome_bind].
  rewrite (load_cell (Gld.texCoords g) (2 * v + 0)) by lia.
  cbn [mbind outcome_bind].
  rewrite store_ok by lia. cbn [mbind outcome_bind].
  rewrite (load_cell (Gld.texCoords g) (2 * v + 1)) by lia.
  cbn [mbind outcome_bind].
  rewrite store_ok by (rewrite !length_insert; lia). cbn [mbind outcome_bind].
  eexists. eexists. split; [reflexivity|].
  rewrite !length_insert. split; [exact Lv|]. split; [exact Lt|].
  replace (Z.to_nat (9 * Z.of_nat c + 3 * Z.of_nat kn + 0))
    with (9 * c + 3 * kn)%nat by lia.
  replace (Z.to_nat (9 * Z.of_nat c + 3 * Z.of_nat kn + 1))
    with (S (9 * c + 3 * kn))%nat by lia.
  replace (Z.to_nat (9 * Z.of_nat c + 3 * Z.of_nat kn + 2))
    with (S (S (9 * c + 3 * kn)))%nat by lia.
  replace (Z.to_nat (6 * Z.of_nat c + 2 * Z.of_nat kn + 0))
    with (6 * c + 2 * kn)%nat by lia.
  replace (Z.to_nat (6 * Z.of_nat c + 2 * Z.of_nat kn + 1))
    with (S (6 * c + 2 * kn))%nat by lia.
  replace (9 * c + 3 * kn + 3)%nat with (S (S (S (9 * c + 3 * kn))))%nat by lia.
  replace (6 * c + 2 * kn + 2)%nat with (S (S (6 * c + 2 * kn)))%nat by lia.
  split.
  - rewrite take_S_insert by (rewrite !length_insert; lia).
    rewrite take_S_insert by (rewrite !length_insert; lia).
    rewrite take_S_insert by lia.
    rewrite <- !app_assoc. reflexivity.
  - rewrite take_S_insert by (rewrite !length_insert; lia).
    rewrite take_S_insert by lia.
    rewrite <- !app_assoc. reflexivity.
Qed.

Lemma cell_Forall (P : Z -> Prop) (row : list Z) (m : nat) (n : Z) :
  Forall P (take m row) -> 0 <= n < Z.of_nat m ->
  n < Z.of_nat (length row) -> P (cell row n).
Proof.
  intros H Hn Hl. unfold cell.
  destruct (lookup_lt_is_Some_2 row (Z.to_nat n) ltac:(lia)) as [x Hx].
  rewrite Hx. cbn [default]. apply (Forall_lookup_1 _ _ (Z.to_nat n) _ H).
  rewrite lookup_take_lt by lia. exact Hx.
Qed.

Lemma convert_tri_spec (g : Gld.GLData) (i : Z) (row : list Z) (j : Z)
  (c N : nat) (a : Gld2bsp.Arrays) :
  is_u16 i -> 9 * Z.of_nat N < 2 ^ 32 -> (c < N)%nat ->
  Gld2bsp.triConverted a = Z.of_nat c ->
  length (Gld2bsp.triVerts a) = (9 * N)%nat ->
  length (Gld2bsp.texIndices a) = N ->
  length (Gld2bsp.triTexCoords a) = (6 * N)%nat ->
  0 <= j -> 3 * j + 2 < 2 ^ 32 -> 3 * j + 2 < Z.of_nat (length row) ->
  (forall kn : nat, (kn <= 2)%nat ->
     0 <= cell row (3 * j + Z.of_nat kn) < Gld.nVertices g) ->
  3 * Gld.nVertices g <= Z.of_nat (length (Gld.vertCoords g)) ->
  2 * Gld.nVertices g <= Z.of_nat (length (Gld.texCoords g)) ->
  exists a' : Gld2bsp.Arrays,
    Gld2bsp.convert_tri g i row j a = Done a' /\
    Gld2bsp.triConverted a' = Z.of_nat (S c) /\
    length (Gld2bsp.triVerts a') = (9 * N)%nat /\
    length (Gld2bsp.texIndices a') = N /\
    length (Gld2bsp.triTexCoords a') = (6 * N)%nat /\
    take (9 * S c) (Gld2bsp.triVerts a')
    = take (9 * c) (Gld2bsp.triVerts a)
      ++ corner_verts g row j 0 ++ corner_verts g row j 1
      ++ corner_verts g row j 2 /\
    take (S c) (Gld2bsp.texIndices a')
    = take c (Gld2bsp.texIndices a) ++ [i] /\
    take (6 * S c) (Gld2bsp.triTexCoords a')
    = take (6 * c) (Gld2bsp.triTexCoords a)
      ++ corner_tex g row j 0 ++ corner_tex g row j 1
      ++ corner_tex g row j 2.
Proof.
  intros Hi HN Hc Ec Lv Li Lt Hj Hj3 Hrow Hvalid Hvc Htc.
  unfold Gld2bsp.convert_tri. rewrite Ec.
  rewrite store_ok by lia. cbn [mbind outcome_bind].
  destruct (convert_corner_spec g row j 0 c N _ _ ltac:(lia) HN Hc Lv Lt Hj Hj3
              ltac:(cbn [Z.of_nat]; lia) (Hvalid 0%nat ltac:(lia)) Hvc Htc)
    as (tv1 & tc1 & E1 & Lv1 & Lt1 & Tv1 & Tt1).
  change (Z.of_nat 0) with 0 in E1, Tv1, Tt1.
  rewrite E1. cbn [mbind outcome_bind].
  destruct (convert_corner_spec g row j 1 c N _ _ ltac:(lia) HN Hc Lv1 Lt1 Hj Hj3
              ltac:(cbn [Z.of_nat Pos.of_succ_nat]; lia)
              (Hvalid 1%nat ltac:(lia)) Hvc Htc)
    as (tv2 & tc2 & E2 & Lv2 & Lt2 & Tv2 & Tt2).
  change (Z.of_nat 1) with 1 in E2, Tv2, Tt2.
  rewrite E2. cbn [mbind outcome_bind].
  destruct (convert_corner_spec g row j 2 c N _ _ ltac:(lia) HN Hc Lv2 Lt2 Hj Hj3
              ltac:(cbn [Z.of_nat Pos.of_succ_nat Pos.succ]; lia)
              (Hvalid 2%nat ltac:(lia)) Hvc Htc)
    as (tv3 & tc3 & E3 & Lv3 & Lt3 & Tv3 & Tt3).
  change (Z.of_nat 2) with 2 in E3, Tv3, Tt3.
  rewrite E3. cbn [mbind outcome_bind].
  eexists. split; [reflexivity|].
  cbn [Gld2bsp.triConverted Gld2bsp.triVerts Gld2bsp.texIndices
       Gld2bsp.triTexCoords fst snd].
  split; [rewrite to_Uint32_small by lia; lia|].
  split; [exact Lv3|]. split; [rewrite length_insert; exact Li|].
  split; [exact Lt3|].
  split; [|split].
  - replace (9 * S c)%nat with (9 * c + 3 * 2 + 3)%nat by lia.
    rewrite Tv3.
    replace (9 * c + 3 * 2)%nat with (9 * c + 3 * 1 + 3)%nat by lia.
    rewrite Tv2.
    replace (9 * c + 3 * 1)%nat with (9 * c + 3 * 0 + 3)%nat by lia.
    rewrite Tv1.
    replace (9 * c + 3 * 0)%nat with (9 * c)%nat by lia.
    rewrite <- !app_assoc. reflexivity.
  - rewrite Nat2Z.id, to_Uint16_small by (unfold is_u16 in Hi; lia).
    apply take_S_insert. lia.
  - replace (6 * S c)%nat with (6 * c + 2 * 2 + 2)%nat by lia.
    rewrite Tt3.
    replace (6 * c + 2 * 2)%nat with (6 * c + 2 * 1 + 2)%nat by lia.
    rewrite Tt2.
    replace (6 * c + 2 * 1)%nat with (6 * c + 2 * 0 + 2)%nat by lia.
    rewrite Tt1.
    replace (6 * c + 2 * 0)%nat with (6 * c)%nat by lia.
    rewrite <- !app_assoc. reflexivity.
Qed.

Lemma convert_tris_spec (g : Gld.GLData) (i : Z) (row : list Z) (N : nat) :
  is_u16 i -> 9 * Z.of_nat N < 2 ^ 32 ->
  3 * Gld.nVertices g <= Z.of_nat (length (Gld.vertCoords g)) ->
  2 * Gld.nVertices g <= Z.of_nat (length (Gld.texCoords g)) ->
  forall (todo jn c : nat) (a : Gld2bsp.Arrays),
    (c + todo <= N)%nat ->
    (3 * (jn + todo) <= length row)%nat ->
    3 * Z.of_nat (jn + todo) < 2 ^ 32 ->
    Forall (fun v => 0 <= v < Gld.nVertices g) (take (3 * (jn + todo)) row) ->
    Gld2bsp.triConverted a = Z.of_nat c ->
    length (Gld2bsp.triVerts a) = (9 * N)%nat ->
    length (Gld2bsp.texIndices a) = N ->
    length (Gld2bsp.triTexCoords a) = (6 * N)%nat ->
    exists a' : Gld2bsp.Arrays,
      Gld2bsp.convert_tris g i row todo (Z.of_nat jn) a = Done a' /\
      Gld2bsp.triConverted a' = Z.of_nat (c + todo) /\
      length (Gld2bsp.triVerts a') = (9 * N)%nat /\
      length (Gld2bsp.texIndices a') = N /\
      length (Gld2bsp.triTexCoords a') = (6 * N)%nat /\
      take (9 * (c + todo)) (Gld2bsp.triVerts a')
      = take (9 * c) (Gld2bsp.triVerts a)
        ++ row_verts g row todo (Z.of_nat jn) /\
      take (c + todo) (Gld2bsp.texIndices a')
      = take c (Gld2bsp.texIndices a) ++ replicate todo i /\
      take (6 * (c + todo)) (Gld2bsp.triTexCoords a')
      = take (6 * c) (Gld2bsp.triTexCoords a)
        ++ row_tex g row todo (Z.of_nat jn).
Proof.
  intros Hi HN Hvc Htc.
  induction todo as [|todo IH]; intros jn c a Hc Hrow H32 Hall Ec Lv Li Lt.
  - cbn [Gld2bsp.convert_tris row_verts row_tex replicate].
    exists a. rewrite !Nat.add_0_r, !app_nil_r. repeat split; auto.
  - cbn [Gld2bsp.convert_tris].
    destruct (convert_tri_spec g i row (Z.of_nat jn) c N a Hi HN ltac:(lia)
                Ec Lv Li Lt ltac:(lia) ltac:(lia) ltac:(lia))
      as (a1 & E1 & Ec1 & Lv1 & Li1 & Lt1 & Tv1 & Ti1 & Tt1);
      [|exact Hvc|exact Htc|].
    { intros kn Hk.
      apply (cell_Forall (fun v => 0 <= v < Gld.nVertices g) row
               (3 * (jn + S todo)) _ Hall); lia. }
    rewrite E1. cbn [mbind outcome_bind].
    replace (Z.of_nat jn + 1) with (Z.of_nat (S jn)) by lia.
    destruct (IH (S jn) (S c) a1) as
      (a2 & E2 & Ec2 & Lv2 & Li2 & Lt2 & Tv2 & Ti2 & Tt2);
      try assumption; try lia.
    { replace (S jn + todo)%nat with (jn + S todo)%nat by lia. exact Hall. }
    exists a2. split; [exact E2|].
    replace (c + S todo)%nat with (S c + todo)%nat by lia.
    split; [exact Ec2|]. split; [exact Lv2|]. split; [exact Li2|].
    split; [exact Lt2|].
    cbn [row_verts row_tex replicate].
    replace (Z.of_nat jn + 1) with (Z.of_nat (S jn)) by lia.
    rewrite Tv2, Ti2, Tt2, Tv1, Ti1, Tt1, <- !app_assoc.
    split; [reflexivity|]. split; reflexivity.
Qed.

Lemma total_nonneg (nums : list Z) : Forall is_u32 nums -> 0 <= total nums.
Proof.
  induction 1 as [|n nums Hn _ IH]; cbn [total foldr]; [lia|].
  unfold is_u32 in Hn. unfold total in IH. lia.
Qed.

Lemma convert_maps_spec (g : Gld.GLData) (N : nat) :
  wf_mesh g -> indices_valid g -> 9 * Z.of_nat N < 2 ^ 32 ->
  forall (todo ii c : nat) (a : Gld2bsp.Arrays),
    (ii + todo)%nat = Z.to_nat (Gld.nMaps g) ->
    Z.of_nat c + total (drop ii (Gld.mapTriNums g)) = Z.of_nat N ->
    Gld2bsp.triConverted a = Z.of_nat c ->
    length (Gld2bsp.triVerts a) = (9 * N)%nat ->
    length (Gld2bsp.texIndices a) = N ->
    length (Gld2bsp.triTexCoords a) = (6 * N)%nat ->
    exists a' : Gld2bsp.Arrays,
      Gld2bsp.convert_maps g todo (Z.of_nat ii) a = Done a' /\
      Gld2bsp.triConverted a' = Z.of_nat N /\
      length (Gld2bsp.triVerts a') = (9 * N)%nat /\
      length (Gld2bsp.texIndices a') = N /\
      length (Gld2bsp.triTexCoords a') = (6 * N)%nat /\
      take (9 * N) (Gld2bsp.triVerts a')
      = take (9 * c) (Gld2bsp.triVerts a)
        ++ mesh_triVerts g (drop ii (Gld.mapTriNums g))
             (drop ii (Gld.triFaces g)) /\
      take N (Gld2bsp.texIndices a')
      = take c (Gld2bsp.texIndices a)
        ++ mesh_texIndices (Z.of_nat ii) (drop ii (Gld.mapTriNums g)) /\
      take (6 * N) (Gld2bsp.triTexCoords a')
      = take (6 * c) (Gld2bsp.triTexCoords a)
        ++ mesh_triTexCoords g (drop ii (Gld.mapTriNums g))
             (drop ii (Gld.triFaces g)).
Proof.
  intros Hwf Hiv HN.
  destruct Hwf as (HnM & _ & Lnums & Hu32 & _ & Hvc & Htc & _ & _ & _ & _
                   & Lfaces & _).
  induction todo as [|todo IH]; intros ii c a Hii Htot Ec Lv Li Lt.
  - cbn [Gld2bsp.convert_maps].
    rewrite drop_ge in Htot by lia. cbn [total foldr] in Htot.
    assert (c = N) by lia. subst c.
    rewrite !drop_ge by lia.
    cbn [mesh_triVerts mesh_texIndices mesh_triTexCoords].
    exists a. rewrite !app_nil_r. repeat split; auto.
  - cbn [Gld2bsp.convert_maps].
    destruct (lookup_lt_is_Some_2 (Gld.mapTriNums g) ii ltac:(lia)) as [n Hn].
    destruct (lookup_lt_is_Some_2 (Gld.triFaces g) ii ltac:(lia))
      as [row Hrow].
    destruct (Hiv ii n row Hn Hrow) as (Hn0 & Hlen & Hall).
    rewrite (load_lookup _ _ _ Hrow). cbn [mbind outcome_bind].
    rewrite (load_lookup _ _ _ Hn). cbn [mbind outcome_bind].
    rewrite (drop_S _ _ _ Hn) in Htot |- *.
    rewrite (drop_S _ _ _ Hrow).
    cbn [total foldr] in Htot.
    assert (Hrest : 0 <= total (drop (S ii) (Gld.mapTriNums g))).
    { apply total_nonneg. apply Forall_drop. exact Hu32. }
    unfold total in Hrest.
    unfold is_u16 in HnM.
    destruct (convert_tris_spec g (Z.of_nat ii) row N ltac:(unfold is_u16; lia)
                HN Hvc Htc (Z.to_nat n) 0%nat c a)
      as (a1 & E1 & Ec1 & Lv1 & Li1 & Lt1 & Tv1 & Ti1 & Tt1);
      try assumption; try lia.
    { replace (3 * (0 + Z.to_nat n))%nat with (Z.to_nat (3 * n)) by lia.
      exact Hall. }
    change (Z.of_nat 0) with 0 in E1, Tv1, Tt1.
    rewrite E1. cbn [mbind outcome_bind].
    replace (Z.of_nat ii + 1) with (Z.of_nat (S ii)) by lia.
    destruct (IH (S ii) (c + Z.to_nat n)%nat a1)
      as (a2 & E2 & Ec2 & Lv2 & Li2 & Lt2 & Tv2 & Ti2 & Tt2);
      try assumption; try lia.
    { unfold total. lia. }
    exists a2. split; [exact E2|]. split; [exact Ec2|].
    split; [exact Lv2|]. split; [exact Li2|]. split; [exact Lt2|].
    cbn [mesh_triVerts mesh_texIndices mesh_triTexCoords].
    replace (Z.of_nat ii + 1) with (Z.of_nat (S ii)) by lia.
    rewrite Tv2, Ti2, Tt2, Tv1, Ti1, Tt1, <- !app_assoc.
    split; [reflexivity|]. split; reflexivity.
Qed.

(** What the loop leaves in the arrays of a mesh it can convert. *)
Lemma convert_maps_fills (fresh : nat -> nat -> Z) (g : Gld.GLData) :
  wf_mesh g -> indices_valid g ->
  total (Gld.mapTriNums g) = Gld.numTri g ->
  9 * Gld.numTri g < 2 ^ 32 ->
  Gld2bsp.convert_maps g (Z.to_nat (Gld.nMaps g)) 0
    (Gld2bsp.allocate fresh (Gld.numTri g))
  = Done {| Gld2bsp.triVerts :=
              mesh_triVerts g (Gld.mapTriNums g) (Gld.triFaces g);
            Gld2bsp.texIndices := mesh_texIndices 0 (Gld.mapTriNums g);
            Gld2bsp.triTexCoords :=
              mesh_triTexCoords g (Gld.mapTriNums g) (Gld.triFaces g);
            Gld2bsp.triConverted := Gld.numTri g |}.
Proof.
  intros Hwf Hiv Htot H32.
  assert (H0 : 0 <= Gld.numTri g).
  { rewrite <- Htot. apply total_nonneg.
    destruct Hwf as (_ & _ & _ & Hu32 & _). exact Hu32. }
  destruct (convert_maps_spec g (Z.to_nat (Gld.numTri g)) Hwf Hiv
              ltac:(lia) (Z.to_nat (Gld.nMaps g)) 0%nat 0%nat
              (Gld2bsp.allocate fresh (Gld.numTri g)))
    as (a' & E & Ec & Lv & Li & Lt & Tv & Ti & Tt).
  - lia.
  - rewrite drop_0. lia.
  - reflexivity.
  - unfold Gld2bsp.allocate; cbn [Gld2bsp.triVerts].
    rewrite length_malloc, !to_Uint32_small; rewrite ?to_Uint32_small; lia.
  - unfold Gld2bsp.allocate; cbn [Gld2bsp.texIndices].
    rewrite length_malloc. reflexivity.
  - unfold Gld2bsp.allocate; cbn [Gld2bsp.triTexCoords].
    rewrite length_malloc, !to_Uint32_small; rewrite ?to_Uint32_small; lia.
  - change (Z.of_nat 0) with 0 in E. rewrite E. f_equal.
    rewrite !drop_0 in *. cbn [take Nat.mul app] in Tv, Ti, Tt.
    rewrite take_ge in Tv by lia. rewrite take_ge in Ti by lia.
    rewrite take_ge in Tt by lia.
    destruct a' as [tv ti tc n].
    cbn [Gld2bsp.triVerts Gld2bsp.texIndices Gld2bsp.triTexCoords
         Gld2bsp.triConverted] in *.
    subst tv ti tc. f_equal. lia.
Qed.

(** X20. For a well-formed mesh whose rows index its vertices, whose
    counters add up to [numTri] and with [9 * numTri] below [2 ^ 32], the
    loop of GLD2BSP's [main] that fills [triVerts], [texIndices] and
    [triTexCoords] ends, reads and writes no cell outside an array, and
    leaves every cell of the three arrays written: triangle after
    triangle in the order of the textures, the three corners of each with
    the coordinates of the vertices its row names, and the number of its
    texture; [triConverted] ends as [numTri]. *)
Theorem gld2bsp_conversion (fresh : nat -> nat -> Z) (g : Gld.GLData) :
  wf_mesh g -> indices_valid g ->
  total (Gld.mapTriNums g) = Gld.numTri g ->
  9 * Gld.numTri g < 2 ^ 32 ->
  Gld2bsp.convert_maps g (Z.to_nat (Gld.nMaps g)) 0
    (Gld2bsp.allocate fresh (Gld.numTri g))
  = Done {| Gld2bsp.triVerts :=
              mesh_triVerts g (Gld.mapTriNums g) (Gld.triFaces g);
            Gld2bsp.texIndices := mesh_texIndices 0 (Gld.mapTriNums g);
            Gld2bsp.triTexCoords :=
              mesh_triTexCoords g (Gld.mapTriNums g) (Gld.triFaces g);
            Gld2bsp.triConverted := Gld.numTri g |}.
Proof. apply convert_maps_fills. Qed.

Lemma gld2bsp_conversion_witness :
  Gld2bsp.convert_maps unit_mesh (Z.to_nat (Gld.nMaps unit_mesh)) 0
    (Gld2bsp.allocate sample_heap (Gld.numTri unit_mesh))
  = Done {| Gld2bsp.triVerts :=
              mesh_triVerts unit_mesh (Gld.mapTriNums unit_mesh)
                (Gld.triFaces unit_mesh);
            Gld2bsp.texIndices :=
              mesh_texIndices 0 (Gld.mapTriNums unit_mesh);
            Gld2bsp.triTexCoords :=
              mesh_triTexCoords unit_mesh (Gld.mapTriNums unit_mesh)
                (Gld.triFaces unit_mesh);
            Gld2bsp.triConverted := Gld.numTri unit_mesh |}.
Proof.
  apply (gld2bsp_conversion sample_heap unit_mesh).
  - apply (LoadGLData_loaded (mkFILE unit_mesh_stream no_bytes 0)).
    vm_compute. reflexivity.
  - apply (built_mesh_indices sample_heap 1 unit_triVerts [0]
             unit_triTexCoords 1 [name_ab] unit_mesh).
    + lia.
    + lia.
    + exact Forall_is_float_unit_triVerts.
    + exact Forall_is_float_unit_triTexCoords.
    + vm_compute. reflexivity.
  - reflexivity.
  - vm_compute. reflexivity.
Defined.

(** ** From GenGLData to GLD2BSP *)

Lemma total_insert (nums : list Z) (k : nat) (n m : Z) :
  nums !! k = Some n -> total (<[k := m]> nums) = total nums - n + m.
Proof.
  revert k. induction nums as [|x nums IH]; intros k H; [discriminate H|].
  destruct k as [|k].
  - injection H as ->. cbn [total foldr insert list_insert]. lia.
  - cbn [lookup list_lookup] in H. specialize (IH k H).
    unfold total in *.
    change (<[S k := m]> (x :: nums)) with (x :: <[k := m]> nums).
    cbn [foldr]. lia.
Qed.

Lemma total_lookup_le (nums : list Z) (k : nat) (n : Z) :
  Forall (fun x => 0 <= x) nums -> nums !! k = Some n -> n <= total nums.
Proof.
  intros H. revert k. induction H as [|x nums Hx H IH]; intros k Hk;
    [discriminate Hk|].
  assert (H0 : 0 <= total nums).
  { clear -H. induction H as [|y l Hy _ IHl]; cbn [total foldr]; [lia|].
    unfold total in IHl. lia. }
  destruct k as [|k].
  - injection Hk as ->. cbn [total foldr]. unfold total in H0. lia.
  - cbn [lookup list_lookup] in Hk. specialize (IH k Hk).
    unfold total in *. cbn [foldr]. lia.
Qed.

Lemma total_replicate_0 (n : nat) : total (replicate n 0) = 0.
Proof.
  induction n as [|n IH]; [reflexivity|].
  unfold total in *. cbn [replicate foldr]. lia.
Qed.

(** One pass of the third loop of [GenGLData] keeps [numTri] the sum of
    the counters. *)
Lemma add_triangle_total (ti : list Z) (tv tc : list GLfloat) (i : Z)
  (t t' : Gld.VertTab) (ft ft' : Gld.FaceTab) :
  Forall (fun x => 0 <= x) (Gld.ft_nums ft) ->
  total (Gld.ft_nums ft) = Gld.ft_numTri ft ->
  Gld.ft_numTri ft + 1 < 2 ^ 32 ->
  Gld.add_triangle ti tv tc i (t, ft) = Done (t', ft') ->
  Forall (fun x => 0 <= x) (Gld.ft_nums ft') /\
  total (Gld.ft_nums ft') = Gld.ft_numTri ft' /\
  Gld.ft_numTri ft <= Gld.ft_numTri ft' <= Gld.ft_numTri ft + 1.
Proof.
  intros Hpos Htot Hlt H. unfold Gld.add_triangle in H.
  step H tIndex Hti.
  step H VT0 HVT0. destruct VT0 as [V0 T0].
  step H vt1 Hf0. destruct vt1 as [v0 t1].
  step H VT1 HVT1. destruct VT1 as [V1 T1].
  step H vt2 Hf1. destruct vt2 as [v1 t2].
  step H VT2 HVT2. destruct VT2 as [V2 T2].
  step H vt3 Hf2. destruct vt3 as [v2 t3].
  destruct ((v0 =? v1) || (v1 =? v2) || (v2 =? v0)).
  - inversion H; subst. cbn [Gld.ft_nums Gld.ft_numTri].
    split; [exact Hpos|]. split; [exact Htot|lia].
  - step H n Hld. apply load_Done in Hld. destruct Hld as [HtI Hnt].
    step H f1 Hs0. step H f2 Hs1. step H f3 Hs2. step H nums' Hsn.
    apply store_Done in Hsn. destruct Hsn as [HtIl ->].
    inversion H; subst. cbn [Gld.ft_nums Gld.ft_numTri].
    pose proof (total_lookup_le _ _ _ Hpos Hnt) as Hle.
    pose proof (Forall_lookup_1 _ _ _ _ Hpos Hnt) as Hn0. cbv beta in Hn0.
    assert (H0 : 0 <= Gld.ft_numTri ft) by lia.
    rewrite !to_Uint32_small by lia.
    split; [|split; [|lia]].
    + apply Forall_insert; [exact Hpos|lia].
    + rewrite (total_insert _ _ _ _ Hnt). lia.
Qed.

Lemma add_triangles_total (ti : list Z) (tv tc : list GLfloat) :
  forall (todo : nat) (i : Z) (t t' : Gld.VertTab) (ft ft' : Gld.FaceTab),
    0 <= i -> i + Z.of_nat todo < 2 ^ 32 ->
    Forall (fun x => 0 <= x) (Gld.ft_nums ft) ->
    total (Gld.ft_nums ft) = Gld.ft_numTri ft ->
    Gld.ft_numTri ft <= i ->
    Gld.add_triangles todo i ti tv tc (t, ft) = Done (t', ft') ->
    total (Gld.ft_nums ft') = Gld.ft_numTri ft' /\
    Gld.ft_numTri ft' <= i + Z.of_nat todo.
Proof.
  induction todo as [|todo IH]; intros i t t' ft ft' Hi Hw Hpos Htot Hle H.
  - cbn [Gld.add_triangles] in H. inversion H; subst.
    split; [exact Htot|lia].
  - cbn [Gld.add_triangles] in H. step H s1 H1. destruct s1 as [t1 ft1].
    apply add_triangle_total in H1; [|exact Hpos|exact Htot|lia].
    destruct H1 as (Hpos1 & Htot1 & Hle1).
    destruct (IH (i + 1) t1 t' ft1 ft' ltac:(lia) ltac:(lia) Hpos1 Htot1
                ltac:(lia) H) as [Ht Hl].
    split; [exact Ht|lia].
Qed.

(** In a mesh that [GenGLData] has built, [numTri] is the sum of the
    counters of the textures. *)
Lemma built_mesh_total
  (heap : nat -> nat -> Z) (nTri : Z) (tv : list GLfloat) (ti : list Z)
  (tc : list GLfloat) (nMaps : Z) (names : list (list byte)) (g : Gld.GLData) :
  is_u32 nTri ->
  Gld.GenGLData heap nTri (Some tv) (Some ti) (Some tc) nMaps (Some names)
  = Done (Some g) ->
  total (Gld.mapTriNums g) = Gld.numTri g /\ Gld.numTri g <= nTri.
Proof.
  intros HnTri H. unfold is_u32 in HnTri.
  destruct (GenGLData_trace heap nTri tv ti tc nMaps names g H)
    as (cnt & names' & rows & t & ft & _ & _ & Ha & ->).
  cbn [built_mesh Gld.mapTriNums Gld.numTri].
  apply add_triangles_total in Ha.
  - rewrite Z2Nat.id in Ha by lia. exact Ha.
  - lia.
  - lia.
  - cbn [initial_FaceTab Gld.ft_nums].
    apply Forall_forall. intros x Hx. apply elem_of_replicate in Hx. lia.
  - cbn [initial_FaceTab Gld.ft_nums Gld.ft_numTri]. apply total_replicate_0.
  - cbn [initial_FaceTab Gld.ft_numTri]. lia.
Qed.

(** X21. In every mesh that [GenGLData] builds, [numTri] is the sum of the
    counters [mapTriNums] of the textures, and it does not exceed the
    number of triangles given: the triangles skipped for having two
    corners with the same vertex are counted in neither. *)
Theorem GenGLData_numTri
  (heap : nat -> nat -> Z) (nTri : Z) (tv : list GLfloat) (ti : list Z)
  (tc : list GLfloat) (nMaps : Z) (names : list (list byte)) (g : Gld.GLData) :
  is_u32 nTri ->
  Gld.GenGLData heap nTri (Some tv) (Some ti) (Some tc) nMaps (Some names)
  = Done (Some g) ->
  total (Gld.mapTriNums g) = Gld.numTri g /\ Gld.numTri g <= nTri.
Proof. apply built_mesh_total. Qed.

Lemma GenGLData_numTri_witness :
  total (Gld.mapTriNums unit_mesh) = Gld.numTri unit_mesh /\
  Gld.numTri unit_mesh <= 1.
Proof.
  apply (GenGLData_numTri sample_heap 1 unit_triVerts [0]
           unit_triTexCoords 1 [name_ab] unit_mesh).
  - unfold is_u32. lia.
  - vm_compute. reflexivity.
Defined.

(** X22. The two tools fit: on every mesh that [GenGLData] builds from
    fewer than 21846 triangles, the loop of GLD2BSP's [main] ends without
    reading or writing outside an array, and fills the three arrays it
    hands to [GenBSPTreeData] with the triangles of the mesh. *)
Theorem GenGLData_then_conversion
  (heap fresh : nat -> nat -> Z) (nTri : Z) (tv : list GLfloat) (ti : list Z)
  (tc : list GLfloat) (nMaps : Z) (names : list (list byte)) (g : Gld.GLData) :
  0 <= nTri -> 3 * nTri < 2 ^ 16 -> is_u16 nMaps ->
  Forall is_float tv -> Forall is_float tc ->
  Gld.GenGLData heap nTri (Some tv) (Some ti) (Some tc) nMaps (Some names)
  = Done (Some g) ->
  Gld2bsp.convert_maps g (Z.to_nat (Gld.nMaps g)) 0
    (Gld2bsp.allocate fresh (Gld.numTri g))
  = Done {| Gld2bsp.triVerts :=
              mesh_triVerts g (Gld.mapTriNums g) (Gld.triFaces g);
            Gld2bsp.texIndices := mesh_texIndices 0 (Gld.mapTriNums g);
            Gld2bsp.triTexCoords :=
              mesh_triTexCoords g (Gld.mapTriNums g) (Gld.triFaces g);
            Gld2bsp.triConverted := Gld.numTri g |}.
Proof.
  intros HnTri Hw HnMaps Htv Htc H.
  destruct (GenGLData_wf heap nTri tv ti tc nMaps names g HnTri ltac:(lia)
              HnMaps Htv Htc H) as (Hwf & _).
  destruct (built_mesh_indices heap nTri tv ti tc nMaps names g HnTri Hw
              Htv Htc H) as (Hiv & _).
  destruct (built_mesh_total heap nTri tv ti tc nMaps names g
              ltac:(unfold is_u32; lia) H) as (Htot & Hle).
  apply convert_maps_fills; [exact Hwf|exact Hiv|exact Htot|lia].
Qed.

Lemma GenGLData_then_conversion_witness :
  Gld2bsp.convert_maps unit_mesh (Z.to_nat (Gld.nMaps unit_mesh)) 0
    (Gld2bsp.allocate sample_heap (Gld.numTri unit_mesh))
  = Done {| Gld2bsp.triVerts :=
              mesh_triVerts unit_mesh (Gld.mapTriNums unit_mesh)
                (Gld.triFaces unit_mesh);
            Gld2bsp.texIndices :=
              mesh_texIndices 0 (Gld.mapTriNums unit_mesh);
            Gld2bsp.triTexCoords :=
              mesh_triTexCoords unit_mesh (Gld.mapTriNums unit_mesh)
                (Gld.triFaces unit_mesh);
            Gld2bsp.triConverted := Gld.numTri unit_mesh |}.
Proof.
  apply (GenGLData_then_conversion sample_heap sample_heap 1 unit_triVerts
           [0] unit_triTexCoords 1 [name_ab] unit_mesh).
  - lia.
  - lia.
  - unfold is_u16. lia.
  - exact Forall_is_float_unit_triVerts.
  - exact Forall_is_float_unit_triTexCoords.
  - vm_compute. reflexivity.
Defined.

(** ** IntersectPlaneLineSeg on a segment without length *)

Transparent IEEE.decode IEEE.encode.

Lemma decode_not_negative (w : Z) :
  0 <= w < IEEE.sign_weight 53 1024 -> not_negative (F64.decode w).
Proof.
  intros H. unfold F64.decode, IEEE.decode.
  rewrite (Z.div_small w (IEEE.sign_weight 53 1024)) by exact H.
  change (Z.odd 0) with false.
  repeat match goal with
         | |- context [if ?c then _ else _] => destruct c
         | |- context [match ?z with Z0 => _ | Zpos _ => _ | Zneg _ => _ end] =>
             destruct z
         end; cbn [not_negative]; auto.
Qed.

Lemma encode_abs_range (x : spec_float) :
  encodable 53 1024 x ->
  0 <= F64.encode (SFabs x) < IEEE.sign_weight 53 1024.
Proof.
  intros H.
  destruct x as [s|s| |s m e].
  - vm_compute. split; [discriminate|reflexivity].
  - vm_compute. split; [discriminate|reflexivity].
  - vm_compute. split; [discriminate|reflexivity].
  - pose proof (F64_range (S754_finite false m e) H) as Hf.
    pose proof (F64_range (S754_finite true m e) H) as Ht.
    unfold is_u64 in Hf, Ht. cbn [SFabs].
    unfold F64.encode, IEEE.encode, IEEE.sign_bit in Hf, Ht |- *.
    change (2 ^ 64) with (2 * IEEE.sign_weight 53 1024) in Ht.
    destruct (Z.pos (digits2_pos m) =? 53); lia.
Qed.

Opaque IEEE.decode IEEE.encode.

Lemma fabs_not_negative (w : GLdouble) : not_negative (F64.decode (F64.fabs w)).
Proof.
  apply decode_not_negative. unfold F64.fabs, IEEE.abs.
  apply encode_abs_range. apply decode_encodable; lia.
Qed.

Lemma no_length_fabs (w : GLdouble) : no_length w -> no_length (F64.fabs w).
Proof.
  unfold no_length, F64.fabs, IEEE.abs. fold F64.encode F64.decode.
  intros H. destruct (F64.decode w) as [s|s| |s m e]; cbn [zero_or_nan] in H;
    try contradiction; cbn [SFabs]; rewrite F64_decode_encode; exact I.
Qed.

Lemma no_length_not_above (w e : GLdouble) :
  no_length w -> not_negative (F64.decode e) -> F64.gtb w e = false.
Proof.
  unfold no_length, F64.gtb, IEEE.gtb, IEEE.ltb. fold F64.decode.
  destruct (F64.decode w) as [s|s| |s m x]; cbn [zero_or_nan];
    try contradiction; intros _;
    destruct (F64.decode e) as [s'|s'| |s' m' x']; cbn [not_negative];
    intros Hs; try subst s'; reflexivity.
Qed.

(** X23. [IntersectPlaneLineSeg] on a segment whose two ends are the same
    point finds no intersection, whatever the plane and the point are:
    it returns [DBL_MAX] and leaves [res] as it was. *)
Theorem IntersectPlaneLineSeg_no_length (p : Bsp.BSPPlane) (v res0 : Bsp.Vec3) :
  Bsp.IntersectPlaneLineSeg p v v res0 = (DBL_MAX, res0).
Proof.
  destruct v as [[v0 v1] v2]. unfold Bsp.IntersectPlaneLineSeg.
  rewrite no_length_not_above; [reflexivity| |apply fabs_not_negative].
  apply no_length_fabs.
  repeat apply no_length_add; apply no_length_mul_r, no_length_sub_self.
Qed.

(** ** A mesh built within the limit of the format has a vertex *)

Lemma add_triangle_vertices (ti : list Z) (tv tc : list GLfloat) (i : nat)
  (t t' : Gld.VertTab) (ft ft' : Gld.FaceTab) :
  3 * (Z.of_nat i + 1) < 2 ^ 16 ->
  idx_inv (Z.of_nat i) t ft ->
  Gld.add_triangle ti tv tc (Z.of_nat i) (t, ft) = Done (t', ft') ->
  0 < Gld.vt_n t'.
Proof.
  intros Hw (Hn & _ & _) H. unfold Gld.add_triangle in H.
  step H tIndex Hti.
  step H VT0 HVT0. destruct VT0 as [V0 T0].
  step H vt1 Hf0. destruct vt1 as [v0 t1].
  apply fold_vertex_index in Hf0; [|lia|lia]. destruct Hf0 as [Hv0 Ht1].
  step H VT1 HVT1. destruct VT1 as [V1 T1].
  step H vt2 Hf1. destruct vt2 as [v1 t2].
  apply fold_vertex_index in Hf1; [|lia|lia]. destruct Hf1 as [Hv1 Ht2].
  step H VT2 HVT2. destruct VT2 as [V2 T2].
  step H vt3 Hf2. destruct vt3 as [v2 t3].
  apply fold_vertex_index in Hf2; [|lia|lia]. destruct Hf2 as [Hv2 Ht3].
  destruct ((v0 =? v1) || (v1 =? v2) || (v2 =? v0)).
  - inversion H; subst. lia.
  - step H n Hld. step H f1 Hs0. step H f2 Hs1. step H f3 Hs2.
    step H nums' Hsn. inversion H; subst. lia.
Qed.

Lemma add_triangles_vertices (ti : list Z) (tv tc : list GLfloat) :
  forall (todo i : nat) (t t' : Gld.VertTab) (ft ft' : Gld.FaceTab),
    3 * Z.of_nat (i + S todo) < 2 ^ 16 ->
    idx_inv (Z.of_nat i) t ft ->
    Gld.add_triangles (S todo) (Z.of_nat i) ti tv tc (t, ft) = Done (t', ft') ->
    0 < Gld.vt_n t'.
Proof.
  induction todo as [|todo IH]; intros i t t' ft ft' Hw Hinv H;
    cbn [Gld.add_triangles] in H; step H s1 H1; destruct s1 as [t1 ft1].
  - inversion H; subst. eapply add_triangle_vertices; [|exact Hinv|exact H1].
    lia.
  - pose proof H1 as Hidx.
    apply add_triangle_idx in Hidx; [|lia|exact Hinv].
    replace (Z.of_nat i + 1) with (Z.of_nat (S i)) in H, Hidx by lia.
    eapply (IH (S i)); [|exact Hidx|exact H]. lia.
Qed.

Lemma built_mesh_has_vertex
  (heap : nat -> nat -> Z) (nTri : Z) (tv : list GLfloat) (ti : list Z)
  (tc : list GLfloat) (nMaps : Z) (names : list (list byte)) (g : Gld.GLData) :
  0 <= nTri -> 3 * nTri < 2 ^ 16 ->
  Gld.GenGLData heap nTri (Some tv) (Some ti) (Some tc) nMaps (Some names)
  = Done (Some g) ->
  0 < Gld.nVertices g.
Proof.
  intros HnTri Hw H.
  assert (Hpos : nTri <> 0).
  { intros ->. cbn in H. discriminate H. }
  destruct (GenGLData_trace heap nTri tv ti tc nMaps names g H)
    as (cnt & names' & rows & t & ft & _ & _ & Ha & ->).
  cbn [built_mesh Gld.nVertices].
  destruct (Z.to_nat nTri) as [|todo] eqn:E; [lia|].
  apply (add_triangles_vertices ti tv tc todo 0) in Ha; [exact Ha|lia|].
  unfold idx_inv, initial_VertTab, initial_FaceTab.
  cbn [Gld.vt_n Gld.ft_nums Gld.ft_faces].
  split; [simpl; lia|]. split.
  - intros x n Hn. apply lookup_replicate in Hn. destruct Hn as [-> _].
    simpl. lia.
  - intros x n row Hn _. apply lookup_replicate in Hn. destruct Hn as [-> _].
    constructor.
Qed.

(** C7.  For every mesh [g] that [GenGLData] produces, its texture names
    being as the core expects them from its callers (at most 255
    characters, none of them NUL) and the number of triangles one for
    which the 32-bit products [3 * mapTriNums[i]] of the source do not
    wrap: [SaveGLData] writes [g], and [LoadGLData] reads the bytes
    written (whatever follows them in the stream) back as [logical g],
    the mesh with the same [nMaps], names, [mapTriNums], [nVertices],
    bounding box and [numTri], the [3 * nVertices] and [2 * nVertices]
    coordinates of the two tables and the [3 * mapTriNums[i]] indices of
    every texture.  The mesh read is [g] itself when [g] has a vertex,
    and it has one whenever the 16-bit counter of the vertex definitions
    cannot have wrapped (fewer than 21846 triangles). *)
Theorem GLD_save_load_roundtrip
  (heap : nat -> nat -> Z) (nTri : Z) (tv : list GLfloat) (ti : list Z)
  (tc : list GLfloat) (nMaps : Z) (names : list (list byte)) (g : Gld.GLData) :
  0 <= nTri -> 3 * nTri < 2 ^ 32 -> is_u16 nMaps ->
  Forall is_float tv -> Forall is_float tc ->
  Gld.GenGLData heap nTri (Some tv) (Some ti) (Some tc) nMaps (Some names)
  = Done (Some g) ->
  Forall name_ok (Gld.mapNames g) ->
  exists bytes : list byte,
    Gld.SaveGLData (Some g) = Done bytes /\
    (forall (rest : list byte) (j : nat -> byte) (k : nat),
        Gld.LoadGLData (mkFILE (bytes ++ rest) j k) = Done (Some (logical g))) /\
    (0 < Gld.nVertices g -> logical g = g) /\
    (3 * nTri < 2 ^ 16 ->
     forall (rest : list byte) (j : nat -> byte) (k : nat),
       Gld.LoadGLData (mkFILE (bytes ++ rest) j k) = Done (Some g)).
Proof.
  intros HnTri Hmach HnMaps Htv Htc Hrun Hnames.
  destruct (GenGLData_wf heap nTri tv ti tc nMaps names g
              HnTri Hmach HnMaps Htv Htc Hrun) as (Hwf & _ & _ & Hexact).
  destruct (GLD_roundtrip_wf g Hwf Hnames) as (bytes & Hsave & Hload).
  assert (Hsame : 0 < Gld.nVertices g -> logical g = g).
  { intros Hpos. apply logical_exact; [exact Hwf|exact (Hexact Hpos)]. }
  exists bytes. split; [exact Hsave|]. split; [exact Hload|].
  split; [exact Hsame|].
  intros Hw rest j k. rewrite Hload. rewrite Hsame; [reflexivity|].
  exact (built_mesh_has_vertex heap nTri tv ti tc nMaps names g HnTri Hw Hrun).
Qed.

Lemma GLD_save_load_roundtrip_witness :
  exists bytes : list byte,
    Gld.SaveGLData (Some unit_mesh) = Done bytes /\
    (forall (rest : list byte) (j : nat -> byte) (k : nat),
        Gld.LoadGLData (mkFILE (bytes ++ rest) j k)
        = Done (Some (logical unit_mesh))) /\
    (0 < Gld.nVertices unit_mesh -> logical unit_mesh = unit_mesh) /\
    (3 * 1 < 2 ^ 16 ->
     forall (rest : list byte) (j : nat -> byte) (k : nat),
       Gld.LoadGLData (mkFILE (bytes ++ rest) j k) = Done (Some unit_mesh)).
Proof.
  apply (GLD_save_load_roundtrip sample_heap 1 unit_triVerts [0]
           unit_triTexCoords 1 [name_ab] unit_mesh).
  - lia.
  - lia.
  - unfold is_u16. lia.
  - exact Forall_is_float_unit_triVerts.
  - exact Forall_is_float_unit_triTexCoords.
  - vm_compute. reflexivity.
  - constructor; [exact name_ok_ab|constructor].
Defined.

(** ** A node with more triangles than its counter can hold *)

Lemma count_kind_replicate (kind : Bsp.TriType) (pl : Bsp.BSPPlane)
  (t : Bsp.BSPTriNode) (n : nat) :
  Bsp.ClassifyTri t pl <> kind -> count_kind kind pl (replicate n t) = 0.
Proof.
  intros H. unfold count_kind.
  induction n as [|n IH]; [reflexivity|].
  cbn [replicate]. rewrite filter_cons_False by exact H. exact IH.
Qed.

Lemma SelectNextRoot_replicate (t : Bsp.BSPTriNode) (n : nat) :
  Bsp.ClassifyTri t (Bsp.plane t) = Bsp.COINCIDENT ->
  Z.of_nat (S n) < 2 ^ 31 ->
  Bsp.SelectNextRoot (replicate (S n) t) = (Some t, replicate n t).
Proof.
  intros Hc Hlen. unfold Bsp.SelectNextRoot.
  assert (Hs : Bsp.score (replicate (S n) t) 0 t = 0).
  { destruct (score_spec (replicate (S n) t) 0 t) as [-> _].
    - rewrite length_replicate. exact Hlen.
    - reflexivity.
    - unfold root_score. cbn [replicate lookup list_lookup delete list_delete].
      rewrite !count_kind_replicate by (rewrite Hc; discriminate).
      reflexivity. }
  cbn [replicate Bsp.scan]. cbn [replicate] in Hs. rewrite Hs.
  reflexivity.
Qed.

Lemma distribute_replicate (uninit : nat -> nat -> Bsp.Vec3)
  (pl : Bsp.BSPPlane) (t : Bsp.BSPTriNode) (calls : nat) :
  Bsp.ClassifyTri t pl = Bsp.COINCIDENT ->
  forall (n : nat) (acc : Bsp.Parts),
    is_u16 (Bsp.p_numTri acc) ->
    Bsp.distribute uninit pl (replicate n t) acc calls
    = Done ({| Bsp.p_triHead := replicate n t ++ Bsp.p_triHead acc;
               Bsp.p_numTri := to_Uint16 (Bsp.p_numTri acc + Z.of_nat n);
               Bsp.p_frontList := Bsp.p_frontList acc;
               Bsp.p_backList := Bsp.p_backList acc |}, calls).
Proof.
  intros Hc. induction n as [|n IH]; intros acc Hacc.
  - cbn [replicate Bsp.distribute app Z.of_nat].
    rewrite Z.add_0_r, to_Uint16_small by exact Hacc.
    destruct acc. reflexivity.
  - cbn [replicate Bsp.distribute]. rewrite Hc, IH
      by (cbn [Bsp.p_numTri]; apply to_Uint16_range).
    cbn [Bsp.p_triHead Bsp.p_numTri Bsp.p_frontList Bsp.p_backList].
    unfold Bsp.AddTriToList.
    assert (E1 : replicate n t ++ t :: Bsp.p_triHead acc
                 = (t :: replicate n t) ++ Bsp.p_triHead acc).
    { change (t :: replicate n t) with (replicate (S n) t).
      rewrite replicate_S_end, <- app_assoc. reflexivity. }
    assert (E2 : to_Uint16 (to_Uint16 (Bsp.p_numTri acc + 1) + Z.of_nat n)
                 = to_Uint16 (Bsp.p_numTri acc + Z.of_nat (S n))).
    { unfold to_Uint16. rewrite Zplus_mod_idemp_l. f_equal. lia. }
    rewrite E1, E2. reflexivity.
Qed.

(** [BuildBSPTree] makes one node of the floor, and its [numTri] is 0. *)
Lemma BuildBSPTree_flat_floor :
  exists st : Bsp.BuildState,
    Bsp.BuildBSPTree sample_uninit 1 flat_floor no_nodes
    = Done (wrapped_node, st).
Proof.
  assert (Hc : Bsp.ClassifyTri unit_tri plane_z0 = Bsp.COINCIDENT)
    by (vm_compute; reflexivity).
  unfold wrapped_node, flat_floor.
  replace (Z.to_nat 65536) with (S (Z.to_nat 65535)) by lia.
  cbn [Bsp.BuildBSPTree].
  rewrite SelectNextRoot_replicate; [|exact Hc|lia].
  change (Bsp.plane unit_tri) with plane_z0.
  rewrite (distribute_replicate sample_uninit plane_z0 unit_tri _ Hc)
    by (cbn [Bsp.p_numTri]; unfold is_u16; lia).
  cbn [mbind outcome_bind Bsp.p_triHead Bsp.p_numTri Bsp.p_frontList
       Bsp.p_backList mret outcome_ret].
  replace (to_Uint16 (1 + Z.of_nat (Z.to_nat 65535))) with 0
    by (unfold to_Uint16; replace (1 + Z.of_nat (Z.to_nat 65535)) with 65536 by lia;
        reflexivity).
  replace (replicate (Z.to_nat 65535) unit_tri ++ [unit_tri])
    with (replicate (S (Z.to_nat 65535)) unit_tri)
    by (apply replicate_S_end).
  eexists. reflexivity.
Qed.

(** No triangle of the floor is one the conversion drops. *)
Lemma canon_tris_replicate (chain : list Bsp.VertDefs) (t : Bsp.BSPTriNode)
  (idx : Z * Z * Z) (resV : Bsp.Verts) (n : nat) :
  canon_tri chain t = (idx, resV, chain) ->
  canon_tris chain (replicate n t) = replicate n (t, idx, resV).
Proof.
  intros H. induction n as [|n IH]; [reflexivity|].
  cbn [replicate canon_tris]. rewrite H, IH. reflexivity.
Qed.

Lemma survivors_flat_floor :
  Z.of_nat (length (survivors (Bsp.vertDefsPtr (Bsp.initial_globals 1))
                              flat_floor)) = 65536.
Proof.
  unfold survivors, flat_floor.
  replace (Z.to_nat 65536) with (S (Z.to_nat 65535)) by lia.
  cbn [replicate canon_tris].
  replace (canon_tri (Bsp.vertDefsPtr (Bsp.initial_globals 1)) unit_tri)
    with ((0, 1, 2), unit_Verts, [unit_VertDefs])
    by (vm_compute; reflexivity).
  rewrite (canon_tris_replicate [unit_VertDefs] unit_tri (0, 1, 2) unit_Verts)
    by (vm_compute; reflexivity).
  change ((unit_tri, (0, 1, 2), unit_Verts)
          :: replicate (Z.to_nat 65535) (unit_tri, (0, 1, 2), unit_Verts))
    with (replicate (S (Z.to_nat 65535)) (unit_tri, (0, 1, 2), unit_Verts)).
  assert (Hd : dropped (unit_tri, (0, 1, 2), unit_Verts) = false)
    by (vm_compute; reflexivity).
  assert (Hall : forall n : nat,
             filter (fun x => dropped x = false)
                    (replicate n (unit_tri, (0, 1, 2), unit_Verts))
             = replicate n (unit_tri, (0, 1, 2), unit_Verts)).
  { induction n as [|n IH]; [reflexivity|].
    cbn [replicate]. rewrite filter_cons_True by exact Hd.
    rewrite IH. reflexivity. }
  rewrite Hall, length_replicate. lia.
Qed.

(** C5 as stated fails on a node of 65536 coplanar triangles, such as
    [BuildBSPTree] makes of a flat floor: [numTri], a [Uint16], has
    wrapped to 0, [ConvIntBSPTree] allocates no cell for [triDefs], and
    although no triangle of the node is one to drop, the first of them is
    written outside the allocation: no converted node results. *)
Lemma ConvIntBSPTree_counter_wrapped :
  (exists st : Bsp.BuildState,
      Bsp.BuildBSPTree sample_uninit 1 flat_floor no_nodes
      = Done (wrapped_node, st)) /\
  Z.of_nat (length (survivors (Bsp.vertDefsPtr (Bsp.initial_globals 1))
                              flat_floor)) = 65536 /\
  Bsp.conv_node plane_z0 0 flat_floor (Bsp.initial_globals 1) = Undefined /\
  Bsp.ConvIntBSPTree wrapped_node (Bsp.initial_globals 1) = Undefined.
Proof.
  split; [exact BuildBSPTree_flat_floor|].
  split; [exact survivors_flat_floor|].
  assert (Hn : Bsp.conv_node plane_z0 0 flat_floor (Bsp.initial_globals 1)
               = Undefined).
  { unfold Bsp.conv_node, flat_floor.
    replace (Z.to_nat 65536) with (S (Z.to_nat 65535)) by lia.
    cbn [replicate Bsp.conv_tris].
    replace (Bsp.conv_tri 0 unit_tri
               ({| Bsp.cn_numTri := 0; Bsp.cn_triDefs := [];
                   Bsp.cn_partPlane := plane_z0 |}, Bsp.initial_globals 1))
      with (@Undefined (Bsp.ConvNode * Bsp.Globals))
      by (vm_compute; reflexivity).
    reflexivity. }
  split; [exact Hn|].
  unfold wrapped_node. cbn [Bsp.ConvIntBSPTree]. rewrite Hn. reflexivity.
Qed.

(** ** Differences that are not numbers *)

Transparent IEEE.decode IEEE.encode IEEE.round.

Lemma shr_1_nonneg (r : shr_record) : 0 <= shr_m r -> 0 <= shr_m (shr_1 r).
Proof.
  destruct r as [m r s]. cbn [shr_m].
  destruct m as [|p|p]; [reflexivity| |lia]; intros _;
    destruct p; cbn [shr_1 shr_m]; lia.
Qed.

Lemma iter_shr_nonneg (p : positive) :
  forall r : shr_record,
    0 <= shr_m r -> 0 <= shr_m (SpecFloat.iter_pos shr_1 p r).
Proof.
  induction p as [p IH|p IH|]; intros r H; cbn [SpecFloat.iter_pos].
  - apply IH, IH, shr_1_nonneg, H.
  - apply IH, IH, H.
  - apply shr_1_nonneg, H.
Qed.

Section NotANumber.
Variables prec emax : Z.

Lemma shr_fexp_nonneg (m e : Z) (l : location) :
  0 <= m -> 0 <= shr_m (fst (shr_fexp prec emax m e l)).
Proof.
  intros H. unfold shr_fexp, shr.
  assert (H0 : 0 <= shr_m (shr_record_of_loc m l))
    by (destruct l as [|[| |]]; exact H).
  destruct (fexp prec emax (Zdigits2 m + e) - e) as [|p|p]; cbn [fst];
    [exact H0| |exact H0].
  apply iter_shr_nonneg, H0.
Qed.

Lemma round_nearest_even_nonneg (m : Z) (l : location) :
  0 <= m -> 0 <= round_nearest_even m l.
Proof.
  intros H. destruct l as [|[| |]]; cbn [round_nearest_even]; try lia.
  destruct (Z.even m); lia.
Qed.

Lemma binary_round_aux_not_nan (s : bool) (m e : Z) (l : location) :
  0 <= m -> binary_round_aux prec emax s m e l <> S754_nan.
Proof.
  intros H. unfold binary_round_aux.
  pose proof (shr_fexp_nonneg m e l H) as H1.
  destruct (shr_fexp prec emax m e l) as [mrs' e']. cbn [fst] in H1.
  pose proof (shr_fexp_nonneg _ e' loc_Exact
                (round_nearest_even_nonneg _ (loc_of_shr_record mrs') H1)) as H2.
  destruct (shr_fexp prec emax _ e' loc_Exact) as [mrs'' e''].
  cbn [fst] in H2.
  destruct (shr_m mrs'') as [|q|q]; [discriminate| |lia].
  destruct (e'' <=? emax - prec); discriminate.
Qed.

Lemma binary_round_not_nan (s : bool) (m : positive) (e : Z) :
  binary_round prec emax s m e <> S754_nan.
Proof.
  unfold binary_round. destruct (shl_align m e _) as [mz ez].
  apply binary_round_aux_not_nan. lia.
Qed.

Lemma binary_normalize_not_nan (m e : Z) (sz : bool) :
  binary_normalize prec emax m e sz <> S754_nan.
Proof.
  destruct m; cbn [binary_normalize]; [discriminate| |];
    apply binary_round_not_nan.
Qed.

Lemma SFsub_nan (x y : spec_float) :
  SFsub prec emax x y = S754_nan <->
  match x, y with
  | S754_nan, _ | _, S754_nan => True
  | S754_infinity s, S754_infinity s' => s = s'
  | _, _ => False
  end.
Proof.
  destruct x as [sx|sx| |sx mx ex], y as [sy|sy| |sy my ey]; cbn [SFsub];
    try (split; [intros _; exact I|intros _; reflexivity]);
    try (split; [discriminate|intros []]);
    try (destruct sx, sy; split; intros H;
         solve [discriminate H|reflexivity|destruct H]).
  split; [|intros []]. intros H. exact (binary_normalize_not_nan _ _ _ H).
Qed.

Lemma round_nan (x : spec_float) :
  IEEE.round prec emax x = S754_nan <-> x = S754_nan.
Proof.
  destruct x as [s|s| |s m e]; cbn [IEEE.round]; try tauto.
  split; [|discriminate]. intros H. destruct (binary_round_not_nan _ _ _ H).
Qed.

End NotANumber.

(** Encoding keeps a value that is a number one, in both formats. *)
Lemma F32_decode_encode_nan (x : spec_float) :
  encodable 24 128 x ->
  (F32.decode (F32.encode x) = S754_nan <-> x = S754_nan).
Proof.
  intros Hx. destruct x as [s|s| |s m e].
  - destruct s; vm_compute; split; discriminate.
  - destruct s; vm_compute; split; discriminate.
  - vm_compute. tauto.
  - split; [|discriminate]. intros H. exfalso. revert H.
    destruct Hx as [Hd He]. unfold emin in He.
    pose proof (digits2_pos_bounds m) as Hb.
    unfold F32.decode, F32.encode, IEEE.decode, IEEE.encode, IEEE.sign_bit,
      IEEE.sign_weight, IEEE.mant_bits, IEEE.exp_ones, IEEE.bias.
    change (2 ^ (24 - 1)) with 8388608.
    destruct (Z.eqb_spec (Z.pos (digits2_pos m)) 24) as [E|N].
    + rewrite E in Hb. change (2 ^ (24 - 1)) with 8388608 in Hb.
      change (2 ^ 24) with 16777216 in Hb.
      set (w := (if s then 8388608 * (2 * 128) else 0)
                + (e + (128 - 1) + (24 - 1)) * 8388608
                + (Z.pos m - 8388608)).
      assert (Hf : w mod 8388608 = Z.pos m - 8388608)
        by (subst w; destruct s; Z.div_mod_to_equations; lia).
      assert (Hx : (w / 8388608) mod (2 * 128) = e + (128 - 1) + (24 - 1))
        by (subst w; destruct s; Z.div_mod_to_equations; lia).
      rewrite Hf, Hx.
      destruct (Z.eqb_spec (e + (128 - 1) + (24 - 1)) 0); [lia|].
      destruct (Z.eqb_spec (e + (128 - 1) + (24 - 1)) (2 * 128 - 1)); [lia|].
      replace (Z.pos m - 8388608 + 8388608) with (Z.pos m) by lia.
      discriminate.
    + assert (Hm : Z.pos m < 8388608).
      { assert (Z.pos (digits2_pos m) <= 23) by lia.
        eapply Z.lt_le_trans; [apply Hb|].
        change 8388608 with (2 ^ 23). apply Z.pow_le_mono_r; lia. }
      set (w := (if s then 8388608 * (2 * 128) else 0) + Z.pos m).
      assert (Hf : w mod 8388608 = Z.pos m)
        by (subst w; destruct s; Z.div_mod_to_equations; lia).
      assert (Hx : (w / 8388608) mod (2 * 128) = 0)
        by (subst w; destruct s; Z.div_mod_to_equations; lia).
      rewrite Hf, Hx. cbn [Z.eqb]. discriminate.
Qed.

Lemma F64_decode_encode_nan (x : spec_float) :
  encodable 53 1024 x ->
  (F64.decode (F64.encode x) = S754_nan <-> x = S754_nan).
Proof.
  intros Hx. destruct x as [s|s| |s m e].
  - destruct s; vm_compute; split; discriminate.
  - destruct s; vm_compute; split; discriminate.
  - vm_compute. tauto.
  - split; [|discriminate]. intros H. exfalso. revert H.
    destruct Hx as [Hd He]. unfold emin in He.
    pose proof (digits2_pos_bounds m) as Hb.
    unfold F64.decode, F64.encode, IEEE.decode, IEEE.encode, IEEE.sign_bit,
      IEEE.sign_weight, IEEE.mant_bits, IEEE.exp_ones, IEEE.bias.
    change (2 ^ (53 - 1)) with 4503599627370496.
    destruct (Z.eqb_spec (Z.pos (digits2_pos m)) 53) as [E|N].
    + rewrite E in Hb. change (2 ^ (53 - 1)) with 4503599627370496 in Hb.
      change (2 ^ 53) with 9007199254740992 in Hb.
      set (w := (if s then 4503599627370496 * (2 * 1024) else 0)
                + (e + (1024 - 1) + (53 - 1)) * 4503599627370496
                + (Z.pos m - 4503599627370496)).
      assert (Hf : w mod 4503599627370496 = Z.pos m - 4503599627370496)
        by (subst w; destruct s; Z.div_mod_to_equations; lia).
      assert (Hx : (w / 4503599627370496) mod (2 * 1024)
                   = e + (1024 - 1) + (53 - 1))
        by (subst w; destruct s; Z.div_mod_to_equations; lia).
      rewrite Hf, Hx.
      destruct (Z.eqb_spec (e + (1024 - 1) + (53 - 1)) 0); [lia|].
      destruct (Z.eqb_spec (e + (1024 - 1) + (53 - 1)) (2 * 1024 - 1)); [lia|].
      replace (Z.pos m - 4503599627370496 + 4503599627370496)
        with (Z.pos m) by lia.
      discriminate.
    + assert (Hm : Z.pos m < 4503599627370496).
      { assert (Z.pos (digits2_pos m) <= 52) by lia.
        eapply Z.lt_le_trans; [apply Hb|].
        change 4503599627370496 with (2 ^ 52). apply Z.pow_le_mono_r; lia. }
      set (w := (if s then 4503599627370496 * (2 * 1024) else 0) + Z.pos m).
      assert (Hf : w mod 4503599627370496 = Z.pos m)
        by (subst w; destruct s; Z.div_mod_to_equations; lia).
      assert (Hx : (w / 4503599627370496) mod (2 * 1024) = 0)
        by (subst w; destruct s; Z.div_mod_to_equations; lia).
      rewrite Hf, Hx. cbn [Z.eqb]. discriminate.
Qed.

Opaque IEEE.decode IEEE.encode IEEE.round.

(** The difference [a - b], taken as the folding test takes it, is not a
    number exactly for a NaN operand and for two equal infinities. *)
Lemma nan_difference_iff (a b : GLfloat) :
  F64.is_nan (F64.fabs (to_double (F32.sub a b))) = true <-> nan_difference a b.
Proof.
  unfold nan_difference. rewrite <- (SFsub_nan 24 128).
  fold F32.decode.
  set (x := SFsub 24 128 (F32.decode a) (F32.decode b)).
  assert (Hx : encodable 24 128 x).
  { apply SFsub_encodable; try lia; apply decode_encodable; lia. }
  unfold F32.sub, IEEE.sub. fold F32.decode F32.encode. fold x.
  pose proof (F32_decode_encode_nan x Hx) as H1.
  set (x1 := F32.decode (F32.encode x)) in *.
  unfold to_double.
  pose proof (round_nan 53 1024 x1) as H2.
  set (y := IEEE.round 53 1024 x1) in *.
  assert (Hy : encodable 53 1024 y) by (apply round_encodable; lia).
  pose proof (F64_decode_encode_nan y Hy) as H3.
  unfold F64.fabs, IEEE.abs. fold F64.decode F64.encode.
  set (y1 := F64.decode (F64.encode y)) in *.
  assert (Hz : encodable 53 1024 (SFabs y1)).
  { apply SFabs_encodable. apply decode_encodable; lia. }
  pose proof (F64_decode_encode_nan (SFabs y1) Hz) as H4.
  unfold F64.is_nan, IEEE.is_nan. fold F64.decode.
  assert (H5 : SFabs y1 = S754_nan <-> y1 = S754_nan).
  { destruct y1; cbn [SFabs]; split; intros H; try discriminate H; reflexivity. }
  assert (Hall : F64.decode (F64.encode (SFabs y1)) = S754_nan
                 <-> x = S754_nan) by tauto.
  change (match F64.decode (F64.encode (SFabs y1)) with
          | S754_nan => true
          | _ => false
          end = true <-> x = S754_nan).
  destruct (F64.decode (F64.encode (SFabs y1))) eqn:E; split; intros H;
    try discriminate H; try reflexivity;
    try (apply Hall in H; discriminate H).
  apply Hall. reflexivity.
Qed.

Lemma finite_difference (a b : GLfloat) :
  finite a -> finite b -> ~ nan_difference a b.
Proof.
  unfold finite, nan_difference.
  destruct (F32.decode a), (F32.decode b); tauto.
Qed.

Lemma finite_coordinate_apart (eps a b : GLfloat) :
  eps = Bsp.BSP_VERT_ORD_EPSILON \/ eps = Bsp.BSP_TEX_ORD_EPSILON ->
  finite a -> finite b ->
  coordinate_apart eps a b -> exceeds eps a b = true.
Proof.
  intros He Ha Hb H.
  assert (Hn : F64.is_nan (to_double eps) = false)
    by (destruct He as [-> | ->]; vm_compute; reflexivity).
  apply (coordinate_apart_iff eps a b Hn) in H.
  destruct H as [H|H]; [exact H|].
  apply nan_difference_iff in H.
  destruct (finite_difference a b Ha Hb H).
Qed.

Lemma finite_apart (d1 d2 : VertDef) :
  finite_def d1 -> finite_def d2 -> apart d1 d2 -> strictly_apart d1 d2.
Proof.
  destruct d1 as [[[x1 y1] z1] [u1 v1]], d2 as [[[x2 y2] z2] [u2 v2]].
  unfold finite_def, apart, strictly_apart.
  intros (Fx1 & Fy1 & Fz1 & Fu1 & Fv1) (Fx2 & Fy2 & Fz2 & Fu2 & Fv2)
         [H|[H|[H|[H|H]]]].
  - left. apply finite_coordinate_apart; auto.
  - right; left. apply finite_coordinate_apart; auto.
  - right; right; left. apply finite_coordinate_apart; auto.
  - right; right; right; left. apply finite_coordinate_apart; auto.
  - right; right; right; right. apply finite_coordinate_apart; auto.
Qed.

(** C6 (as amended).  In the table that any sequence of calls of
    [GetVertDefIndex] builds from the empty one, in the table the
    canonicaliser has built when [ConvIntBSPTree] returns, and in the table
    of every mesh [GenGLData] returns, every earlier entry and every later
    one have a coordinate, among x, y, z, u and v, for which the folding
    test [fabs (a - b) <= tolerance] fails.  The test fails exactly when
    the difference exceeds the tolerance or is not a number; the
    difference is not a number exactly when one of the two coordinates is
    a NaN or both are the same infinity.  So two entries whose coordinates
    are all finite have a coordinate that differs by strictly more than
    its tolerance. *)
Theorem shared_vertex_tables_apart :
  (forall (calls : list (Bsp.Vec3 * Bsp.Vec2)) (nMaps : Z),
      table_apart
        (chain_table
           (Bsp.vertDefsPtr
              (fold_left
                 (fun g c => snd (Bsp.GetVertDefIndex (fst c) (snd c) g))
                 calls (Bsp.initial_globals nMaps))))) /\
  (forall (intTree : Bsp.IntBSPTreeNode) (nMaps : Z)
          (tree : Bsp.BSPTree) (g' : Bsp.Globals),
      Bsp.ConvIntBSPTree intTree (Bsp.initial_globals nMaps) = Done (tree, g') ->
      table_apart (chain_table (Bsp.vertDefsPtr g'))) /\
  (forall (heap : nat -> nat -> Z) (nTri : Z) (tv : list GLfloat)
          (ti : list Z) (tc : list GLfloat) (nMaps : Z)
          (names : list (list byte)) (g : Gld.GLData),
      0 <= nTri < 2 ^ 32 ->
      Forall is_float tv -> Forall is_float tc ->
      Gld.GenGLData heap nTri (Some tv) (Some ti) (Some tc) nMaps (Some names)
      = Done (Some g) ->
      forall i j : nat,
        (i < j)%nat -> Z.of_nat j < Gld.nVertices g ->
        exists d1 d2 : VertDef,
          gld_def (Gld.vertCoords g) (Gld.texCoords g) i = Some d1 /\
          gld_def (Gld.vertCoords g) (Gld.texCoords g) j = Some d2 /\
          apart d1 d2) /\
  (forall eps a b : GLfloat,
      eps = Bsp.BSP_VERT_ORD_EPSILON \/ eps = Bsp.BSP_TEX_ORD_EPSILON ->
      coordinate_apart eps a b <->
      exceeds eps a b = true \/
      F64.is_nan (F64.fabs (to_double (F32.sub a b))) = true) /\
  (forall a b : GLfloat,
      F64.is_nan (F64.fabs (to_double (F32.sub a b))) = true <->
      nan_difference a b) /\
  (forall d1 d2 : VertDef,
      finite_def d1 -> finite_def d2 -> apart d1 d2 -> strictly_apart d1 d2).
Proof.
  split; [|split; [|split; [|split; [|split]]]].
  - intros calls nMaps.
    exact (proj2 (GetVertDefIndex_calls_inv calls _ (table_inv_initial nMaps))).
  - intros intTree nMaps tree g' H.
    exact (proj2 (ConvIntBSPTree_inv intTree _ tree g' H (table_inv_initial nMaps))).
  - intros heap nTri tv ti tc nMaps names g HnTri Htv Htc H i j Hij Hj.
    destruct (GenGLData_apart heap nTri tv ti tc nMaps names g HnTri Htv Htc H)
      as (Hlv & Hlt & Hap).
    destruct (gld_def_defined (Gld.vertCoords g) (Gld.texCoords g) i
                ltac:(lia) ltac:(lia)) as [d1 H1].
    destruct (gld_def_defined (Gld.vertCoords g) (Gld.texCoords g) j
                ltac:(lia) ltac:(lia)) as [d2 H2].
    exists d1, d2. split; [exact H1|]. split; [exact H2|].
    exact (Hap i j d1 d2 Hij Hj H1 H2).
  - intros eps a b [-> | ->]; apply coordinate_apart_iff; vm_compute; reflexivity.
  - exact nan_difference_iff.
  - exact finite_apart.
Qed.

Lemma shared_vertex_tables_apart_witness :
  table_apart (chain_table (Bsp.vertDefsPtr unit_globals)) /\
  (exists d1 d2 : VertDef,
      gld_def (Gld.vertCoords unit_mesh) (Gld.texCoords unit_mesh) 0 = Some d1 /\
      gld_def (Gld.vertCoords unit_mesh) (Gld.texCoords unit_mesh) 1 = Some d2 /\
      apart d1 d2) /\
  (coordinate_apart Bsp.BSP_VERT_ORD_EPSILON 0 0x3F800000 <->
   exceeds Bsp.BSP_VERT_ORD_EPSILON 0 0x3F800000 = true \/
   F64.is_nan (F64.fabs (to_double (F32.sub 0 0x3F800000))) = true) /\
  strictly_apart ((0, 0, 0), (0, 0)) ((0x3F800000, 0, 0), (0x3F800000, 0)).
Proof.
  split; [|split; [|split]].
  - apply (proj1 (proj2 shared_vertex_tables_apart)
             unit_node 1 unit_tree unit_globals).
    vm_compute. reflexivity.
  - apply (proj1 (proj2 (proj2 shared_vertex_tables_apart)) sample_heap 1
             unit_triVerts [0] unit_triTexCoords 1 [name_ab] unit_mesh).
    + lia.
    + exact Forall_is_float_unit_triVerts.
    + exact Forall_is_float_unit_triTexCoords.
    + vm_compute. reflexivity.
    + lia.
    + simpl. lia.
  - apply (proj1 (proj2 (proj2 (proj2 shared_vertex_tables_apart)))).
    left. reflexivity.
  - apply (proj2 (proj2 (proj2 (proj2 (proj2 shared_vertex_tables_apart))))).
    + vm_compute. tauto.
    + vm_compute. tauto.
    + left. vm_compute. reflexivity.
Defined.
